(* ===== verification/_CoqProject ===== *)
-Q . S2P
Prelude.v
GoRuntime.v
Utf8.v
GoStrings.v
GoFlag.v
GoTime.v
Sha256.v
Graph.v
Store.v
StoreConc.v
Diff.v
Redact.v
Pieces.v
Auth.v
AuditTrail.v
Signal.v
SignalConc.v
Poller.v
Pg.v
Metrics.v
RedactSource.v
Persist.v
SqlDB.v
Setup.v
Config.v
Main.v
Preflight.v
Stream.v
Api.v
Flow.v
System.v
CommandLine.v
SystemProofs.v
Process.v
ProcessProofs.v
Overlap.v
OverlapProofs.v
Lifecycle.v
LifecycleProofs.v
Naps.v
Demo.v
Accountability.v
EndToEnd.v
Shutdown.v
