(* ===== verification/Prelude.v ===== *)
(** * pglockr: a verification library for the PostgreSQL lock visualizer

    pglockr polls one PostgreSQL cluster, builds a forest of who waits for whom,
    keeps the last snapshots in memory, streams them to a web UI, and lets
    operators cancel or terminate blocking backends, with an audit trail.
    This library models its Go code (under src/) and proves what makes it
    correct.  This file is the prelude: panics and errors as values, notation,
    automation, and the list lemmas that several components share.

    ** Parts of the program and how they interact

    The poller goroutine asks a source (the PostgreSQL client, possibly wrapped
    by the redacting source) for sessions and lock labels, turns them into a
    [Snapshot] with [Build], and puts it into the store.  The store keeps a ring
    of snapshots, saves each to an optional durable backend, and offers it to
    the channels of live subscribers.  HTTP handlers read the store and the
    poller's status, stream snapshots over WebSockets, and send cancel or
    terminate through the signal service, which writes the audit trail.
    Requests are authenticated and authorised by the auth middleware.  At
    startup the configuration is loaded and validated and selects the identity
    source.  On SIGINT or SIGTERM the poll loop stops, a goroutine shuts the HTTP
    server down, and [run] closes the history file and the client on its way out.

    ** Files, and the code they model

    - [Prelude.v]: [Outcome] (a value or a panic), [Result] (a value or an error
      message), the notation [let*], the hint database [pgl], [lastn].
    - [GoRuntime.v]: Go's int64, durations and times (nanoseconds since 1970, the
      zero time, saturating [Sub], wrapping [UnixNano]), slice indexing that
      panics, and the class [GoRuntime]: what Go leaves open, the iteration order
      of maps, the outcome of an unstable sort and the longest slice [make] can
      allocate ([make_limit]; beyond it [make_slice] panics), with its laws and
      two instances.
    - [Utf8.v], [GoStrings.v], [Sha256.v]: the string functions the code uses:
      runes, UTF-8, [Index], [Split], [TrimSpace], [CutPrefix], canonical header
      names, [%q], [Atoi], [Itoa], the text of an IP address; SHA-256 and hexadecimal, executable, with the
      published test vectors.  [GoTime.v]: [time.Parse] and the JSON text of a
      time for RFC 3339, over the calendar, with their round trip.
    - [Graph.v]: internal/graph (types.go, builder.go).  [Build] is composed of
      the loop bodies of the source.
    - [Store.v]: internal/store/store.go.  The state is the struct plus the heap
      of channels; [New] panics on a capacity no slice can have and is otherwise
      the empty store [fresh]; [Put] is made of its three phases (critical section, save,
      sends).  [StoreConc.v] interleaves these phases with subscribers as a step
      relation, with a measure of what is left of a put.  [Diff.v]:
      internal/store/diff.go.
    - [Redact.v]: internal/redact/redact.go, index by index over runes.
      [Pieces.v]: a query as a sequence of pieces, the reference for the masker
      on whole queries.
      [RedactSource.v]: source.go, composed with the poll loop.
    - [Poller.v]: internal/poller.  [Run] on a list of environments, one per
      iteration, each holding what the iteration reads from outside (clock,
      context, sleep); source, store and observer are type classes, the store's
      laws ([SnapshotStoreLaws]) are discharged for [Store.v].  The observer may
      panic ([PollObserverLaws] says when it does not), and [run_loop] returns the
      sleeps it has made.
    - [Auth.v]: internal/auth (auth.go, proxy.go): roles, token and proxy
      identities, middleware, the origin check.  Handlers are functions from a
      request and a state to an outcome.
    - [AuditTrail.v], [Signal.v]: internal/audit and internal/signal; the sink is
      a class with laws, discharged for the in-memory sink.  [SignalConc.v]: any
      number of calls of [Do] in flight, interleaved between the signal, the
      entry, the count and the log line.
    - [Persist.v]: internal/persist.  [Open] with its schema statements; the other SQL statements are classes with laws,
      discharged for lists; [holds] says which snapshots a table stands for.
      [SqlDB.v]: the handle of database/sql in front of the tables, which
      [SQLite.Close] closes, and what the file still does then.
    - [Pg.v]: internal/pg.  The SQL texts, and all that is done with their rows,
      against the connection pool as a class; the client is a [Source], a
      [Signaler] and (in [Api.v]) an [Inspector].
    - [Metrics.v]: internal/metrics, as the observer of poller and signal
      service.  Label values the client library refuses, such as texts that are not
      UTF-8, make [ObservePoll] and [Collect] panic.
    - [Setup.v]: internal/setup.  [Config.v]: internal/config.  [Main.v]: the
      identity source built by cmd/pglockr/main.go.  [Preflight.v]: its privilege
      check.  [GoFlag.v]: package flag, with what it reads of flags written in
      any style.  [CommandLine.v]: [main], [runGrants] and their flags.
    - [Stream.v]: internal/api/stream.go over events, with interference from
      other goroutines as an event.  [Api.v]: handlers.go and server.go, the
      route table with its middleware on a [World] of store, status and signal
      service.
    - [Flow.v]: for any property of query texts, each component from the store to
      the route table holds and passes on only texts with it, if it is given
      such; what a backend and a sink promise for that are classes.
    - [System.v]: [run] of cmd/pglockr/main.go.  [run_start] makes the
      choices of [run] (redaction, persistence, identity) and yields [App], the
      state of the process with each shared component once; [step] is one poll,
      one request or one WebSocket event on it, [run_events] any sequence of
      them.  [SystemProofs.v]: the invariant of [App] and that startup
      establishes it and every step keeps it.
    - [Process.v]: the same process with its goroutines interleaved: the poll
      goroutine stops after its source has answered, after the critical section
      of [Put], after the save, after each send and before the status is set,
      and requests and WebSocket events come at any of these points.
      [ProcessProofs.v]: its invariant, with the one of [StoreConc.v] for the
      store, and that every run of [System.v] is such an interleaving.
    - [Overlap.v]: in addition the requests that come to [Do] are in flight, any
      number at a time: [asked] is what a request asks for behind the routes and
      their middleware, [start_call] starts its goroutine, and [call_advance] takes
      the steps of [SignalConc.v] on the shared state.  A request for a stream
      ([opens]) subscribes in one step ([start_stream]) and reads and writes its
      first snapshot in another ([stream_advance]).  [run_busy] runs any
      interleaving.  [OverlapProofs.v]: [asked] and [opens] are what [ServeHTTP]
      does, the invariant by rule induction, and that the runs of [Process.v] are
      among these.
    - [Lifecycle.v]: the same from the first poll to the exit.  [Life] adds the
      sleep of the poll goroutine, the context, the shutdown goroutine and the
      main goroutine with what it has deferred; [life_step] is a step of any of
      them, [run_life] any interleaving.  The context is no longer read from
      outside: it is done after a signal or after the deferred [stop].
      [LifecycleProofs.v]: the invariant through shutdown and the deferred calls,
      the measure that leads to the exit, and the relation to [Overlap.v].
      [Naps.v]: how long the poll goroutine sleeps.
    - [Accountability.v]: who signalled what.  [EndToEnd.v]: the properties of
      whole runs.  [Shutdown.v]: those of its end.  [Demo.v]: a concrete process
      on which they are evaluated.

    ** What the theorems show

    - The running process, in every interleaving and to its exit: it starts
      exactly when what it needs is available and the ring is not too long for a
      slice; the only panics are the send to a subscriber that left during a put
      and, if the cluster's name cannot be a label, the metrics of a poll; with
      redaction every text sent or kept
      is a masked one; every signal PostgreSQL receives is that of one operator's
      request that passed the origin check, and has its entry in the trail, or its
      call has not come to recording it, or the sink refused the entry, which the
      log then says; ring, channels, in-memory trail and the sleeps of the poll
      goroutine stay within their bounds.  While it runs, a poll
      finishes on its own, and one that succeeds restores health, serves the
      forest just built and shows its sizes to a scrape.  Told to stop, it exits
      whatever else happens, and abandons what is under way.  Until then its runs
      are those of [Overlap.v], among which are those whose polls and requests
      are single steps.
    - The forest: edges are exactly the confirmed pairs with their labels,
      roots exactly the head blockers, every waiter is explained by a root, an
      unknown blocker or a cycle, and the result does not depend on map order.
    - The client: a poll takes over exactly the rows PostgreSQL answered or fails,
      and the forest built from it is the reported wait-for relation.
    - The store: it refines the list of the newest snapshots (reads and
      metadata included), [At] finds a nearest one, delivery reaches drained
      subscribers; in every interleaving these invariants hold, a put is never
      held up by its subscribers, and the only possible panic is a send to a
      subscriber that has just left, which is reachable.
    - The durable history: [At] decodes a nearest row, a saved snapshot can be
      read back, [History] is the timeline of the saved snapshots, and only
      expired rows are pruned; the durable audit trail returns what was recorded.
    - The masker terminates; it replaces the literals and comments of a query made
      of [Pieces.v] and keeps the rest; the body of a span it recognises has no
      influence on what it writes; and it leaks in the cases [Mask_leaks] lists:
      dollar quotes with characters outside ASCII, E-strings with escaped quotes,
      hexadecimal and digit-separated numbers, nested comments.
    - The poll loop publishes every success, keeps a truthful status and sleeps
      what is left of the interval or backs off, doubling, to thirty seconds; the counters count its polls and failures, and the
      actions by outcome.
    - The scrubber: a snapshot or timeline request with times as the server
      prints them, in any zone, gets exactly what is retained for them.
    - Access: token and proxy authentication do exactly what is configured,
      signals are sent for operators whose requests pass the origin check (a test
      of the Origin's suffix: [CheckOrigin_suffix_only]) and a call that ends has
      recorded its entry or logged that the sink refused it; data needs authentication and the trail an admin; a loaded
      configuration always yields an identity source with valid roles.
    - Overlapping actions: every signal sent has one truthful entry or belongs to a
      call that has not come to recording it; calls that do not overlap are [Do].
    - The grants command does what its flags say, in any style, and the generated
      SQL has the intended tokens whatever texts are pasted in.  (The error of
      crypto/rand is a case of the source; since Go 1.24 it ends the program instead.)

    ** Bounds and fuel

    Loops over slices are structural.  The masker's loops take the number of
    runes left as fuel, and [Mask_terminates] shows that more changes nothing;
    splitting takes one unit per byte, and [split_bytes_fields] shows no
    separator is left; events of a run are a list of any length.  Six turns of
    its own goroutines are enough for the exit ([shutdown_exits]): at most three
    calls are deferred.  Times are unbounded integers; conversions to int64 wrap
    and durations saturate as in Go.

    ** Not modelled, and why

    The web UI, deployment files and SQL texts (no Go logic; the SQL runs in
    PostgreSQL); chi's routing, the websocket library, the YAML decoder
    and the file server (parameters of the definitions that use them); SQLite, gzip and encoding/json (classes with laws in [Persist.v]); the
    PostgreSQL driver ([Pg.v]) and the Prometheus client ([Metrics.v]); the usage
    text of package flag, the listener and the bookkeeping of connections in
    net/http (I/O): [Shutdown] is its call and its return.  In [Overlap.v] a request that comes
    neither to [Do] nor to a stream is one step, as it meets the shared state
    once; the first snapshot of a stream is read and written in one step, since
    nothing of the write is shared. *)
From stdpp Require Export base tactics numbers list gmap strings sorting relations.
From Stdlib Require Export ZArith Lia.

(** ** Outcomes of Go code that may panic

    A Go function that indexes a slice, sends on a channel or closes one can
    panic.  [Outcome] keeps that case as a value. *)
Inductive Outcome (A : Type) : Type :=
| Ok (a : A)
| Panic (why : string).
Arguments Ok {A} a.
Arguments Panic {A} why.

Definition outcome_bind {A B} (m : Outcome A) (k : A -> Outcome B) : Outcome B :=
  match m with
  | Ok a => k a
  | Panic why => Panic why
  end.

Definition outcome_map {A B} (f : A -> B) (m : Outcome A) : Outcome B :=
  outcome_bind m (fun a => Ok (f a)).

Definition is_ok {A} (m : Outcome A) : bool :=
  match m with Ok _ => true | Panic _ => false end.

(** The result of a Go call returning [(A, error)]: a nil error is [Val]. *)
Inductive Result (A : Type) : Type :=
| Val (a : A)
| Err (msg : string).
Arguments Val {A} a.
Arguments Err {A} msg.

Definition is_err {A} (r : Result A) : bool :=
  match r with Val _ => false | Err _ => true end.

Declare Scope pglockr_scope.
Delimit Scope pglockr_scope with pgl.
Notation "'let*' x ':=' m 'in' k" := (outcome_bind m (fun x => k))
  (at level 10, x name, m at level 100, k at level 200) : pglockr_scope.

(** ** Automation *)

(** Facts about the components' data are collected in one database. *)
Create HintDb pgl discriminated.

(** Case analysis on the conditions of the modelled code, then arithmetic. *)
Ltac cases :=
  repeat (case_match || case_decide || case_bool_decide); simplify_eq/=.
Ltac solve_pgl := eauto with pgl lia.

(** ** Lists: keeping the newest elements

    Both bounded histories of the program (the snapshot ring and the audit
    memory) keep the last [n] elements appended. *)
Section lastn.
Context {A : Type}.
Implicit Types l : list A.

Definition lastn (n : nat) (l : list A) : list A := drop (length l - n) l.

Lemma lastn_all n l : length l <= n -> lastn n l = l.
Proof. intros. unfold lastn. by replace (length l - n) with 0 by lia. Qed.

Lemma length_lastn n l : length (lastn n l) = min n (length l).
Proof. unfold lastn. rewrite length_drop. lia. Qed.

Lemma lastn_snoc n l x : 1 <= n ->
  lastn n (l ++ [x]) = lastn (n - 1) l ++ [x].
Proof.
  intros Hn. unfold lastn. rewrite length_app; simpl.
  rewrite drop_app_le by lia. do 2 f_equal; lia.
Qed.

(** Appending after truncation is the same as truncating at the end only. *)
Lemma lastn_app_lastn n l l' : lastn n (lastn n l ++ l') = lastn n (l ++ l').
Proof.
  destruct (decide (length l <= n)) as [Hl|Hl]; [by rewrite (lastn_all n l)|].
  unfold lastn. rewrite !length_app, length_drop, !drop_app, drop_drop, length_drop.
  f_equal; f_equal; lia.
Qed.

Lemma last_lastn_snoc n l x : 1 <= n -> last (lastn n (l ++ [x])) = Some x.
Proof. intros. by rewrite lastn_snoc, last_snoc by done. Qed.

Lemma elem_of_lastn n l x : x ∈ lastn n l -> x ∈ l.
Proof.
  unfold lastn. intros [k Hk]%list_elem_of_lookup. rewrite lookup_drop in Hk.
  by eapply list_elem_of_lookup_2.
Qed.

Lemma take_reverse n l : take n (reverse l) = reverse (lastn n l).
Proof. unfold lastn. by rewrite take_reverse. Qed.
End lastn.

Create Rewrite HintDb pgl.
#[export] Hint Rewrite @length_lastn @lastn_snoc using lia : pgl.
