(* ===== verification/GoRuntime.v ===== *)
(** * The parts of Go the program relies on: integers, time, maps, sorting

    - [int64]: two's-complement wrap-around of [int] and [time.Duration];
    - [Time]: an instant of [time.Time] in nanoseconds since the Unix epoch,
      with [Sub] (saturating), [UnixNano] (wrapping), [IsZero], [Before],
      [After] and [Add] as the package computes them;
    - [GoRuntime]: the choices Go leaves open, namely the order in which
      [for k, v := range m] visits a map, the result of the unstable
      [sort.Slice], and the lengths [make] can allocate.  Every component is proved for any runtime. *)
From S2P Require Import Prelude.
Local Open Scope Z_scope.

(** ** 64-bit integers *)
Definition MaxInt64 : Z := 2 ^ 63 - 1.
Definition MinInt64 : Z := - 2 ^ 63.
Definition in_int64 (x : Z) : Prop := MinInt64 <= x <= MaxInt64.
Definition int64 (x : Z) : Z := (x + 2 ^ 63) mod 2 ^ 64 - 2 ^ 63.

Lemma int64_range x : in_int64 (int64 x).
Proof.
  unfold in_int64, int64, MinInt64, MaxInt64.
  pose proof (Z.mod_pos_bound (x + 2 ^ 63) (2 ^ 64) ltac:(lia)). lia.
Qed.

Lemma int64_id x : in_int64 x -> int64 x = x.
Proof.
  unfold in_int64, int64, MinInt64, MaxInt64. intros.
  rewrite Z.mod_small by lia. lia.
Qed.

#[export] Hint Resolve int64_range : pgl.

(** ** Instants and durations *)
Definition Time := Z.
Definition Duration := Z.

Definition Nanosecond : Duration := 1.
Definition Second : Duration := 1000000000.
Definition Minute : Duration := 60 * Second.
Definition Hour : Duration := 60 * Minute.

(** [time.Time{}] is 1 January of year 1, UTC. *)
Definition zeroTime : Time := - 62135596800 * Second.
Definition IsZero (t : Time) : bool := t =? zeroTime.
Definition Before (t u : Time) : bool := t <? u.
Definition After (t u : Time) : bool := u <? t.
Definition Add (t : Time) (d : Duration) : Time := t + d.

(** [t.Sub(u)] saturates at the ends of [time.Duration]. *)
Definition Sub (t u : Time) : Duration :=
  if t - u <? MinInt64 then MinInt64
  else if MaxInt64 <? t - u then MaxInt64
  else t - u.

(** [t.UnixNano()] wraps, [time.Unix(0, ns)] is its inverse in range. *)
Definition UnixNano (t : Time) : Z := int64 t.
Definition Unix0 (ns : Z) : Time := ns.

Lemma Sub_exact t u : in_int64 (t - u) -> Sub t u = t - u.
Proof.
  unfold in_int64, Sub. intros.
  destruct (Z.ltb_spec (t - u) MinInt64); [lia|].
  destruct (Z.ltb_spec MaxInt64 (t - u)); lia.
Qed.

Lemma Sub_range t u : in_int64 (Sub t u).
Proof.
  unfold in_int64, Sub, MinInt64, MaxInt64 in *.
  destruct (Z.ltb_spec (t - u) (-2 ^ 63)); [lia|].
  destruct (Z.ltb_spec (2 ^ 63 - 1) (t - u)); lia.
Qed.

Lemma UnixNano_id t : in_int64 t -> UnixNano t = t.
Proof. apply int64_id. Qed.

Lemma Unix0_UnixNano t : in_int64 t -> Unix0 (UnixNano t) = t.
Proof. apply int64_id. Qed.

#[export] Hint Resolve Sub_range : pgl.

(** ** Slices

    Indexing outside [0, len) panics. *)
Definition slice_get {A} (l : list A) (i : Z) : Outcome A :=
  if i <? 0 then Panic "index out of range"
  else match l !! Z.to_nat i with
       | Some x => Ok x
       | None => Panic "index out of range"
       end.

Definition slice_set {A} (l : list A) (i : Z) (x : A) : Outcome (list A) :=
  if (i <? 0) || (Z.of_nat (length l) <=? i) then Panic "index out of range"
  else Ok (<[Z.to_nat i := x]> l).

Lemma slice_get_lookup {A} (l : list A) i x :
  0 <= i -> l !! Z.to_nat i = Some x -> slice_get l i = Ok x.
Proof.
  intros Hi Hl. unfold slice_get. destruct (Z.ltb_spec i 0); [lia|]. by rewrite Hl.
Qed.

Lemma slice_set_in_range {A} (l : list A) i x :
  0 <= i < Z.of_nat (length l) -> slice_set l i x = Ok (<[Z.to_nat i := x]> l).
Proof.
  intros Hi. unfold slice_set.
  destruct (Z.ltb_spec i 0), (Z.leb_spec (Z.of_nat (length l)) i); done || lia.
Qed.

(** Go's [%] truncates towards zero; on the non-negative numerators the
    program builds it is [mod]. *)
Lemma rem_shift_mod x k c : 0 < c -> 0 <= x + c * k -> Z.rem (x + c * k) c = x mod c.
Proof.
  intros Hc Hx. rewrite Z.rem_mod_nonneg by lia.
  rewrite (Z.mul_comm c k). apply Z.mod_add. lia.
Qed.

Lemma mod_sub_add h c l k : (h mod c - l + k) mod c = (h - l + k) mod c.
Proof.
  replace (h mod c - l + k) with (h mod c + (k - l)) by lia.
  rewrite Zplus_mod_idemp_l. f_equal. lia.
Qed.

Lemma mod_shift_inj x y c : 0 < c -> x mod c = y mod c -> - c < x - y < c -> x = y.
Proof.
  intros Hc Hm Hd. pose proof (Z.div_mod x c ltac:(lia)). pose proof (Z.div_mod y c ltac:(lia)).
  rewrite Hm in *. assert (x - y = c * (x / c - y / c)) by lia.
  assert (x / c - y / c = 0) by nia. lia.
Qed.

(** ** Unspecified choices of the runtime *)

(** The contract [sort.Slice] asks of its [less] argument. *)
Record StrictWeak {A} (less : A -> A -> bool) : Prop := {
  sw_asym : forall a b, less a b = true -> less b a = false;
  sw_trans : forall a b c, less a b = false -> less b c = false -> less a c = false
}.

Definition not_after {A} (less : A -> A -> bool) (a b : A) : Prop := less b a = false.

#[export] Instance not_after_dec {A} (less : A -> A -> bool) (a b : A) :
  Decision (not_after less a b).
Proof. unfold not_after. apply _. Defined.

Class GoRuntime := {
  (** [for k, v := range m] *)
  range_map : forall {V : Type}, gmap Z V -> list (Z * V);
  range_map_perm : forall {V : Type} (m : gmap Z V), range_map m ≡ₚ map_to_list m;
  (** [sort.Slice] (and [sort.Ints]) *)
  sort_slice : forall {A : Type}, (A -> A -> bool) -> list A -> list A;
  sort_slice_perm : forall {A : Type} (less : A -> A -> bool) l, sort_slice less l ≡ₚ l;
  sort_slice_sorted : forall {A : Type} (less : A -> A -> bool) l,
    StrictWeak less -> Sorted (not_after less) (sort_slice less l);
  (** the longest slice [make] can allocate, which the size of an element and
      the memory there is decide *)
  make_limit : Z
}.

(** An executable runtime: maps in [map_to_list] order, merge sort. *)
Definition merge_slice {A} (less : A -> A -> bool) (l : list A) : list A :=
  merge_sort (not_after less) l.

Lemma merge_slice_sorted {A} (less : A -> A -> bool) l :
  StrictWeak less -> Sorted (not_after less) (merge_slice less l).
Proof.
  intros Hsw. apply Sorted_merge_sort. intros a b. unfold not_after.
  destruct (less b a) eqn:E; [right|left]; auto using sw_asym.
Qed.

Definition canonical : GoRuntime := {|
  range_map V m := map_to_list m;
  range_map_perm V m := reflexivity _;
  sort_slice A less l := merge_slice less l;
  sort_slice_perm A less l := merge_sort_Permutation _ l;
  sort_slice_sorted A less l := merge_slice_sorted less l;
  make_limit := 2 ^ 40
|}.

(** A second runtime that visits maps backwards, to show that nothing
    depends on the order. *)
Definition reversing : GoRuntime := {|
  range_map V m := reverse (map_to_list m);
  range_map_perm V m := reverse_Permutation _;
  sort_slice A less l := merge_slice less (reverse l);
  sort_slice_perm A less l :=
    transitivity (merge_sort_Permutation _ _) (reverse_Permutation l);
  sort_slice_sorted A less l := merge_slice_sorted less (reverse l);
  make_limit := 2 ^ 40
|}.

(** [make([]A, n)] panics for a length it cannot allocate. *)
Definition make_slice `{GoRuntime} {A} (n : Z) (zero : A) : Outcome (list A) :=
  if (n <? 0) || (make_limit <? n) then Panic "makeslice: len out of range"
  else Ok (replicate (Z.to_nat n) zero).

Section runtime.
Context `{Go : GoRuntime}.

Lemma elem_of_range_map {V} (m : gmap Z V) k v :
  (k, v) ∈ range_map m <-> m !! k = Some v.
Proof. by rewrite range_map_perm, elem_of_map_to_list. Qed.

Lemma NoDup_range_map {V} (m : gmap Z V) : NoDup (range_map m).*1.
Proof. rewrite range_map_perm. apply NoDup_fst_map_to_list. Qed.

(** Sorting by a key that determines the element has one result, whatever
    algorithm and whatever order the elements arrived in. *)
Lemma sort_slice_unique {A} (less : A -> A -> bool) l l' :
  StrictWeak less ->
  (forall a b, a ∈ l -> b ∈ l -> less a b = false -> less b a = false -> a = b) ->
  Sorted (not_after less) l' -> l' ≡ₚ l -> sort_slice less l = l'.
Proof.
  intros Hsw Hkey Hl' Hp.
  assert (Htr : Transitive (not_after less)).
  { intros a b c Hab Hbc. unfold not_after in *. eauto using sw_trans. }
  eapply Sorted_unique_strong; [exact Htr| | |exact Hl'|].
  - intros a b Ha Hb Hab Hba. rewrite sort_slice_perm in Ha.
    rewrite Hp in Hb. by apply Hkey.
  - by apply sort_slice_sorted.
  - by rewrite sort_slice_perm, Hp.
Qed.
End runtime.

(** Integer order for [sort.Ints]. *)
Definition int_less (a b : Z) : bool := a <? b.

Lemma int_less_strict_weak : StrictWeak int_less.
Proof. unfold int_less. split; intros *; rewrite ?Z.ltb_lt, ?Z.ltb_ge; lia. Qed.

Lemma int_less_total_key a b :
  int_less a b = false -> int_less b a = false -> a = b.
Proof. unfold int_less. rewrite !Z.ltb_ge. lia. Qed.

#[export] Hint Resolve int_less_strict_weak : pgl.

(** A duplicate-free list in [sort.Ints] order is strictly increasing. *)
Lemma sorted_NoDup_lt (l : list Z) :
  Sorted (not_after int_less) l -> NoDup l -> StronglySorted Z.lt l.
Proof.
  intros Hs%Sorted_StronglySorted.
  2:{ intros a b c. unfold not_after, int_less. rewrite !Z.ltb_ge. lia. }
  induction Hs as [|x l Hs IH Hx]; intros Hnd; [constructor|].
  apply NoDup_cons in Hnd as [Hxl Hnd]. constructor; [auto|].
  apply Forall_forall. intros y Hy. rewrite Forall_forall in Hx.
  specialize (Hx y Hy). unfold not_after, int_less in Hx. apply Z.ltb_ge in Hx.
  destruct (decide (x = y)); [by subst|lia].
Qed.
