(* ===== verification/Utf8.v ===== *)
(** * Go strings: bytes, runes and UTF-8

    A Go string is a byte string ([string], one [ascii] per byte).  Converting
    it to [[]rune] decodes UTF-8 with one U+FFFD per invalid byte, converting
    back encodes; [Index] searches bytes, so its result is a byte offset. *)
From S2P Require Import Prelude.
From Stdlib Require Import Ascii String.
Local Open Scope Z_scope.

Definition bytes_of_string (s : string) : list Z :=
  (fun a => Z.of_N (N_of_ascii a)) <$> list_ascii_of_string s.
Definition string_of_bytes (bs : list Z) : string :=
  string_of_list_ascii ((fun b => ascii_of_N (Z.to_N b)) <$> bs).

Definition RuneError : Z := 65533.
Definition MaxRune : Z := 1114111.

Definition valid_rune (r : Z) : bool :=
  ((0 <=? r) && (r <? 55296)) || ((57344 <=? r) && (r <=? MaxRune)).

(** [utf8.AppendRune] *)
Definition encode_rune (r : Z) : list Z :=
  if (0 <=? r) && (r <=? 127) then [r]
  else if negb (valid_rune r) then [239; 191; 189]
  else if r <=? 2047 then [192 + r / 64; 128 + r mod 64]
  else if r <=? 65535 then [224 + r / 4096; 128 + (r / 64) mod 64; 128 + r mod 64]
  else [240 + r / 262144; 128 + (r / 4096) mod 64; 128 + (r / 64) mod 64; 128 + r mod 64].

Definition in_range (lo hi b : Z) : bool := (lo <=? b) && (b <=? hi).
Definition is_cont (b : Z) : bool := in_range 128 191 b.

Definition ok2 (b0 b1 : Z) : bool := in_range 194 223 b0 && is_cont b1.
Definition ok3 (b0 b1 b2 : Z) : bool :=
  in_range 224 239 b0 &&
  in_range (if b0 =? 224 then 160 else 128) (if b0 =? 237 then 159 else 191) b1 &&
  is_cont b2.
Definition ok4 (b0 b1 b2 b3 : Z) : bool :=
  in_range 240 244 b0 &&
  in_range (if b0 =? 240 then 144 else 128) (if b0 =? 244 then 143 else 191) b1 &&
  is_cont b2 && is_cont b3.

(** Each rune of a byte string with the bytes it was decoded from. *)
Fixpoint segments (bs : list Z) : list (Z * list Z) :=
  match bs with
  | [] => []
  | b0 :: t0 =>
      if b0 <? 128 then (b0, [b0]) :: segments t0 else
      match t0 with
      | [] => (RuneError, [b0]) :: segments t0
      | b1 :: t1 =>
          if ok2 b0 b1 then ((b0 - 192) * 64 + (b1 - 128), [b0; b1]) :: segments t1 else
          match t1 with
          | [] => (RuneError, [b0]) :: segments t0
          | b2 :: t2 =>
              if ok3 b0 b1 b2
              then ((b0 - 224) * 4096 + (b1 - 128) * 64 + (b2 - 128), [b0; b1; b2]) :: segments t2
              else
              match t2 with
              | [] => (RuneError, [b0]) :: segments t0
              | b3 :: t3 =>
                  if ok4 b0 b1 b2 b3
                  then ((b0 - 240) * 262144 + (b1 - 128) * 4096 + (b2 - 128) * 64 + (b3 - 128),
                        [b0; b1; b2; b3]) :: segments t3
                  else (RuneError, [b0]) :: segments t0
              end
          end
      end
  end.

(** [[]rune(s)] and [string(runes)], on bytes. *)
Definition runes (bs : list Z) : list Z := (segments bs).*1.

(** [utf8.ValidString]: no byte was decoded as an error. *)
Definition ValidString (s : string) : bool :=
  forallb (fun x => negb ((x.1 =? RuneError) && (List.length x.2 =? 1)%nat)) (segments (bytes_of_string s)).

Definition utf8 (rs : list Z) : list Z := rs ≫= encode_rune.

(** The Go string of a list of runes. *)
Definition text (rs : list Z) : string := string_of_bytes (utf8 rs).

(** [strings.Index] on bytes. *)
Fixpoint is_prefix (p s : list Z) : bool :=
  match p, s with
  | [], _ => true
  | _ :: _, [] => false
  | a :: p, b :: s => (a =? b) && is_prefix p s
  end.

Fixpoint Index (s sub : list Z) : option nat :=
  if is_prefix sub s then Some O
  else match s with
       | [] => None
       | _ :: s => S <$> Index s sub
       end.

(** ** Round trips *)
Ltac zify_div := Z.to_euclidean_division_equations.

Lemma string_of_bytes_of_string s : string_of_bytes (bytes_of_string s) = s.
Proof.
  unfold string_of_bytes, bytes_of_string. rewrite <-list_fmap_compose.
  rewrite <-(string_of_list_ascii_of_string s) at 2. f_equal.
  rewrite <-(list_fmap_id (list_ascii_of_string s)) at 2.
  apply list_fmap_ext. intros _ a _. unfold compose, id.
  by rewrite N2Z.id, ascii_N_embedding.
Qed.

Lemma bytes_of_string_of_bytes bs :
  Forall (fun b => 0 <= b < 256) bs -> bytes_of_string (string_of_bytes bs) = bs.
Proof.
  intros Hb. unfold string_of_bytes, bytes_of_string.
  rewrite list_ascii_of_string_of_list_ascii, <-list_fmap_compose.
  induction Hb as [|b bs Hb _ IH]; [done|]. rewrite fmap_cons, IH. f_equal. unfold compose.
  rewrite N_ascii_embedding, Z2N.id; lia.
Qed.

Lemma encode_rune_bytes r : Forall (fun b => 0 <= b < 256) (encode_rune r).
Proof.
  unfold encode_rune. unfold valid_rune, MaxRune.
  repeat case_match; repeat constructor; zify_div; lia.
Qed.

Lemma utf8_bytes rs : Forall (fun b => 0 <= b < 256) (utf8 rs).
Proof. induction rs; [constructor|]. apply Forall_app_2; [apply encode_rune_bytes|done]. Qed.

Lemma encode_rune_nonempty r : (1 <= List.length (encode_rune r))%nat.
Proof. unfold encode_rune. repeat case_match; simpl; lia. Qed.

(** Decoding an encoded rune gives it back and leaves what follows. *)
Lemma segments_encode_rune r bs :
  valid_rune r = true -> segments (encode_rune r ++ bs) = (r, encode_rune r) :: segments bs.
Proof.
  intros Hv. unfold encode_rune. rewrite Hv.
  unfold valid_rune, MaxRune in Hv.
  destruct ((0 <=? r) && (r <=? 127)) eqn:E1; [|simpl; destruct (r <=? 2047) eqn:E2;
    [|destruct (r <=? 65535) eqn:E3]]; cbn [app segments].
  - by replace (r <? 128) with true by lia.
  - replace (192 + r / 64 <? 128) with false by (zify_div; lia).
    replace (ok2 (192 + r / 64) (128 + r mod 64)) with true
      by (unfold ok2, is_cont, in_range; zify_div; lia).
    do 2 f_equal. zify_div. lia.
  - replace (224 + r / 4096 <? 128) with false by (zify_div; lia).
    replace (ok2 (224 + r / 4096) (128 + (r / 64) mod 64)) with false
      by (unfold ok2, is_cont, in_range; zify_div; lia).
    replace (ok3 (224 + r / 4096) (128 + (r / 64) mod 64) (128 + r mod 64)) with true.
    2:{ unfold ok3, is_cont, in_range.
        destruct (224 + r / 4096 =? 224) eqn:?, (224 + r / 4096 =? 237) eqn:?; zify_div; lia. }
    do 2 f_equal. zify_div. lia.
  - replace (240 + r / 262144 <? 128) with false by (zify_div; lia).
    replace (ok2 (240 + r / 262144) (128 + (r / 4096) mod 64)) with false
      by (unfold ok2, is_cont, in_range; zify_div; lia).
    replace (ok3 (240 + r / 262144) (128 + (r / 4096) mod 64) (128 + (r / 64) mod 64)) with false
      by (unfold ok3, is_cont, in_range; zify_div; lia).
    replace (ok4 (240 + r / 262144) (128 + (r / 4096) mod 64) (128 + (r / 64) mod 64) (128 + r mod 64))
      with true.
    2:{ unfold ok4, is_cont, in_range.
        destruct (240 + r / 262144 =? 240) eqn:?, (240 + r / 262144 =? 244) eqn:?; zify_div; lia. }
    do 2 f_equal. zify_div. lia.
Qed.

Lemma runes_utf8 rs :
  Forall (fun r => valid_rune r = true) rs -> runes (utf8 rs) = rs.
Proof.
  unfold runes, utf8. induction 1 as [|r rs Hr Hrs IH]; [done|].
  cbn [mbind list_bind]. rewrite segments_encode_rune by done. simpl. f_equal. exact IH.
Qed.

Lemma utf8_app rs1 rs2 : utf8 (rs1 ++ rs2) = utf8 rs1 ++ utf8 rs2.
Proof. apply bind_app. Qed.

Lemma length_utf8 rs : (List.length rs <= List.length (utf8 rs))%nat.
Proof.
  induction rs as [|r rs IH]; [done|]. change (utf8 (r :: rs)) with (encode_rune r ++ utf8 rs).
  rewrite length_app. pose proof (encode_rune_nonempty r). simpl. lia.
Qed.

(** ** Searching *)
Lemma is_prefix_spec p s : is_prefix p s = true <-> exists t, s = p ++ t.
Proof.
  revert s. induction p as [|a p IH]; intros s; simpl; [naive_solver|].
  destruct s as [|b s]; simpl; [naive_solver|].
  rewrite andb_true_iff, Z.eqb_eq, IH. naive_solver.
Qed.

(** The first occurrence is settled by the bytes up to its end. *)
Lemma is_prefix_app p x y y' :
  (List.length p <= List.length x)%nat -> is_prefix p (x ++ y) = is_prefix p (x ++ y').
Proof.
  revert x. induction p as [|a p IH]; intros [|b x] Hl; simpl in *; try done; [lia|].
  f_equal. apply IH. lia.
Qed.

Lemma Index_app s sub x y e :
  Index (x ++ y) sub = Some e -> (e + List.length sub <= List.length x)%nat ->
  Index (x ++ s) sub = Some e.
Proof.
  revert e. induction x as [|b x IH]; intros e; simpl.
  - intros HI Hl. assert (e = O /\ sub = []) as [-> ->] by (destruct sub; simpl in *; [split; lia || done|lia]).
    by destruct s.
  - intros HI Hl. destruct (is_prefix sub (b :: x ++ y)) eqn:E.
    + injection HI as <-. change (b :: x ++ y) with ((b :: x) ++ y) in E.
      rewrite (is_prefix_app sub (b :: x) y s) in E by (simpl; lia). simpl in E. by rewrite E.
    + apply fmap_Some in HI as (e' & HI & ->). simpl in Hl.
      assert (is_prefix sub (b :: x ++ s) = false) as ->.
      { rewrite <-E. symmetry. apply (is_prefix_app sub (b :: x)). simpl. lia. }
      by rewrite (IH e') by (done || lia).
Qed.

Lemma Index_found s sub e :
  Index s sub = Some e -> exists a b, s = a ++ sub ++ b /\ List.length a = e.
Proof.
  revert e. induction s as [|c s IH]; intros e; cbn [Index].
  - destruct (is_prefix sub []) eqn:E; [|done]. intros [= <-].
    apply is_prefix_spec in E as [t Ht]. by exists [], t.
  - destruct (is_prefix sub (c :: s)) eqn:E.
    + intros [= <-]. apply is_prefix_spec in E as [t Ht]. by exists [], t.
    + intros (e' & HI & ->)%fmap_Some. destruct (IH e' HI) as (a & b & -> & <-).
      by exists (c :: a), b.
Qed.
