(* ===== verification/GoStrings.v ===== *)
(** * Functions of strings and strconv

    Go's string functions on byte strings, as far as the program uses them,
    with the specifications its theorems need.  Header names are compared in
    the canonical form of net/textproto. *)
From S2P Require Import Prelude GoRuntime Utf8.
From Stdlib Require Import Ascii String.
Local Open Scope Z_scope.

(** ** Bytes *)
Definition on_bytes (f : list Z -> list Z) (s : string) : string :=
  string_of_bytes (f (bytes_of_string s)).

Lemma bytes_of_string_inj s t : bytes_of_string s = bytes_of_string t -> s = t.
Proof.
  intros H. by rewrite <-(string_of_bytes_of_string s), <-(string_of_bytes_of_string t), H.
Qed.

Lemma bytes_of_string_app s t :
  bytes_of_string (s +:+ t) = bytes_of_string s ++ bytes_of_string t.
Proof.
  unfold bytes_of_string. rewrite <-fmap_app. f_equal.
  induction s as [|c s IH]; [done|]. simpl. by rewrite IH.
Qed.

Lemma string_app_assoc s t u : s +:+ (t +:+ u) = (s +:+ t) +:+ u.
Proof. apply bytes_of_string_inj. by rewrite !bytes_of_string_app, app_assoc. Qed.

Lemma bytes_of_string_bytes s : Forall (fun b => 0 <= b < 256) (bytes_of_string s).
Proof.
  unfold bytes_of_string. apply Forall_fmap, Forall_true. intros a. simpl.
  pose proof (N_ascii_bounded a). lia.
Qed.

(** ** Prefixes and suffixes *)
Definition HasSuffix (s suffix : string) : bool :=
  let b := bytes_of_string s in
  let e := bytes_of_string suffix in
  (List.length e <=? List.length b)%nat &&
  bool_decide (drop (List.length b - List.length e) b = e).

Definition CutPrefix (s prefix : string) : string * bool :=
  let b := bytes_of_string s in
  let p := bytes_of_string prefix in
  if is_prefix p b then (string_of_bytes (drop (List.length p) b), true) else (s, false).

Lemma HasSuffix_spec s suffix : HasSuffix s suffix = true <-> exists p, s = p +:+ suffix.
Proof.
  unfold HasSuffix. rewrite andb_true_iff, bool_decide_eq_true, Nat.leb_le. split.
  - intros [Hl Hd]. set (n := (_ - _)%nat) in Hd.
    exists (string_of_bytes (take n (bytes_of_string s))). apply bytes_of_string_inj.
    rewrite bytes_of_string_app, bytes_of_string_of_bytes.
    + rewrite <-Hd. by rewrite take_drop.
    + apply Forall_take, bytes_of_string_bytes.
  - intros [p ->]. rewrite bytes_of_string_app, length_app. split; [lia|].
    by rewrite Nat.add_sub, drop_app_length.
Qed.

Lemma CutPrefix_app p s : CutPrefix (p +:+ s) p = (s, true).
Proof.
  unfold CutPrefix. rewrite bytes_of_string_app, (proj2 (is_prefix_spec _ _)) by eauto.
  by rewrite drop_app_length, string_of_bytes_of_string.
Qed.

Lemma CutPrefix_found s p t : CutPrefix s p = (t, true) -> s = p +:+ t.
Proof.
  unfold CutPrefix. destruct (is_prefix _ _) eqn:E; [|by intros [=]].
  apply is_prefix_spec in E as [u Hu]. intros [= <-]. apply bytes_of_string_inj.
  rewrite bytes_of_string_app, Hu, drop_app_length, bytes_of_string_of_bytes; [done|].
  pose proof (bytes_of_string_bytes s) as Hb. rewrite Hu in Hb. by apply Forall_app in Hb as [_ ?].
Qed.

(** ** TrimSpace

    The white space of package unicode.  Trimming runs over the runes with
    their bytes: [DecodeLastRune] at the end of a string and decoding from the
    left agree on white space, whose lead bytes are no continuation bytes. *)
Definition IsSpace (r : Z) : bool :=
  in_range 9 13 r || (r =? 32) || (r =? 133) || (r =? 160) || (r =? 5760) ||
  in_range 8192 8202 r || in_range 8232 8233 r || (r =? 8239) || (r =? 8287) || (r =? 12288).

Fixpoint drop_spaces (segs : list (Z * list Z)) : list (Z * list Z) :=
  match segs with
  | [] => []
  | (r, bs) :: rest => if IsSpace r then drop_spaces rest else segs
  end.

Definition TrimSpace (s : string) : string :=
  let segs := drop_spaces (segments (bytes_of_string s)) in
  let segs := reverse (drop_spaces (reverse segs)) in
  string_of_bytes (segs ≫= snd).

(** ** Split *)

(** Fields between the occurrences of [sep]; with an empty separator Go splits
    into UTF-8 sequences. *)
Fixpoint split_bytes (fuel : nat) (s sep : list Z) : list (list Z) :=
  match fuel with
  | O => [s]
  | S fuel =>
      match Index s sep with
      | None => [s]
      | Some i => take i s :: split_bytes fuel (drop (i + List.length sep) s) sep
      end
  end.

Definition Split (s sep : string) : list string :=
  let b := bytes_of_string s in
  let e := bytes_of_string sep in
  string_of_bytes <$>
    (match e with
     | [] => (segments b).*2
     | _ => split_bytes (List.length b) b e
     end).

(** [strings.Join] *)
Fixpoint join_bytes (l : list (list Z)) (sep : list Z) : list Z :=
  match l with
  | [] => []
  | [x] => x
  | x :: l => x ++ sep ++ join_bytes l sep
  end.

Definition Join (l : list string) (sep : string) : string :=
  string_of_bytes (join_bytes (bytes_of_string <$> l) (bytes_of_string sep)).

Lemma split_bytes_nonempty fuel s sep : split_bytes fuel s sep <> [].
Proof. destruct fuel; simpl; [done|]. by case_match. Qed.

Lemma join_split_bytes fuel s sep :
  join_bytes (split_bytes fuel s sep) sep = s.
Proof.
  revert s. induction fuel as [|fuel IH]; intros s; [done|]. cbn [split_bytes].
  destruct (Index s sep) as [i|] eqn:E; [|done].
  destruct (Index_found _ _ _ E) as (a & b & -> & <-).
  assert (drop (List.length a + List.length sep) (a ++ sep ++ b) = b) as ->.
  { rewrite <-drop_drop, !drop_app_length. done. }
  rewrite take_app_length. specialize (IH b).
  destruct (split_bytes fuel b sep) eqn:Es; [by apply split_bytes_nonempty in Es|].
  cbn [join_bytes]. by rewrite <-IH.
Qed.

(** No field contains the separator: fuel for every byte is enough. *)
Lemma Index_take_None s sep i : sep <> [] -> Index s sep = Some i -> Index (take i s) sep = None.
Proof.
  intros Hne. revert i. induction s as [|c s IH]; intros i; cbn [Index].
  - destruct (is_prefix sep []) eqn:E; [|done].
    apply is_prefix_spec in E as [t Ht]. by destruct sep.
  - destruct (is_prefix sep (c :: s)) eqn:E.
    + intros [= <-]. simpl. by destruct sep.
    + intros (j & Hj & ->)%fmap_Some. cbn [take Index]. rewrite (IH j Hj).
      destruct (is_prefix sep (c :: take j s)) eqn:E'; [|done].
      apply is_prefix_spec in E' as [t Ht].
      rewrite (proj2 (is_prefix_spec sep (c :: s))) in E; [done|].
      exists (t ++ drop j s). rewrite app_assoc, <-Ht. simpl. by rewrite take_drop.
Qed.

Lemma split_bytes_fields fuel s sep :
  sep <> [] -> (List.length s <= fuel)%nat ->
  Forall (fun f => Index f sep = None) (split_bytes fuel s sep).
Proof.
  intros Hne. revert s. induction fuel as [|fuel IH]; intros s Hf; cbn [split_bytes].
  - destruct s; [|simpl in Hf; lia]. repeat constructor. by destruct sep.
  - destruct (Index s sep) as [i|] eqn:E; [|by repeat constructor].
    constructor; [by apply Index_take_None|]. apply IH. rewrite length_drop.
    destruct sep; [done|]. simpl. lia.
Qed.

(** ** Canonical header names (net/textproto) *)
Definition is_token_byte (c : Z) : bool :=
  in_range 48 57 c || in_range 65 90 c || in_range 97 122 c ||
  bool_decide (c ∈ [33; 35; 36; 37; 38; 39; 42; 43; 45; 46; 94; 95; 96; 124; 126]).

Definition upper_byte (c : Z) : Z := if in_range 97 122 c then c - 32 else c.
Definition lower_byte (c : Z) : Z := if in_range 65 90 c then c + 32 else c.

Fixpoint canonical_bytes (upper : bool) (s : list Z) : list Z :=
  match s with
  | [] => []
  | c :: s => (if upper then upper_byte c else lower_byte c) :: canonical_bytes (c =? 45) s
  end.

Definition CanonicalMIMEHeaderKey (s : string) : string :=
  on_bytes (fun b => if forallb is_token_byte b then canonical_bytes true b else b) s.

(** ** The verb %q (strconv.Quote)

    Exact for ASCII and for invalid bytes; a rune beyond ASCII is taken to be
    printable. *)
Definition hex_byte (d : Z) : Z := if d <? 10 then 48 + d else 87 + d.

Definition quote_rune (seg : Z * list Z) : list Z :=
  let '(r, bs) := seg in
  let escape c := [92; c] in
  let hex b := [92; 120; hex_byte (b / 16); hex_byte (b mod 16)] in
  if (r =? 34) || (r =? 92) then escape r
  else if in_range 32 126 r then [r]
  else if r =? 7 then escape 97
  else if r =? 8 then escape 98
  else if r =? 9 then escape 116
  else if r =? 10 then escape 110
  else if r =? 11 then escape 118
  else if r =? 12 then escape 102
  else if r =? 13 then escape 114
  else if (r <? 32) || (r =? 127) then hex r
  else if (r =? RuneError) && (List.length bs =? 1)%nat then bs ≫= hex
  else bs.

Definition Quote (s : string) : string :=
  on_bytes (fun b => 34 :: (segments b ≫= quote_rune) ++ [34]) s.

Example Quote_values :
  bytes_of_string (Quote "a\b") = [34; 97; 92; 92; 98; 34] /\
  bytes_of_string (Quote (string_of_bytes [10; 255; 1])) =
    [34; 92; 110; 92; 120; 102; 102; 92; 120; 48; 49; 34].
Proof. vm_compute. split; reflexivity. Qed.

(** ** strconv.Atoi *)
Fixpoint digits_value (s : list Z) (acc : Z) : option Z :=
  match s with
  | [] => Some acc
  | c :: s => if in_range 48 57 c then digits_value s (acc * 10 + (c - 48)) else None
  end.

(** A syntax or range error is [None]. *)
Definition Atoi (s : string) : option Z :=
  let '(neg, ds) :=
    match bytes_of_string s with
    | 45 :: ds => (true, ds)
    | 43 :: ds => (false, ds)
    | ds => (false, ds)
    end in
  match ds with
  | [] => None
  | _ =>
      match digits_value ds 0 with
      | None => None
      | Some v =>
          let n := if neg then - v else v in
          if (MinInt64 <=? n) && (n <=? MaxInt64) then Some n else None
      end
  end.

(** The text of the error of [Atoi]. *)
Definition Atoi_error (s : string) : string :=
  let ds := match bytes_of_string s with 45 :: ds => ds | 43 :: ds => ds | ds => ds end in
  ("strconv.Atoi: parsing " +:+ Quote s +:+
   (if bool_decide (ds = []) || bool_decide (digits_value ds 0 = None)
    then ": invalid syntax" else ": value out of range"))%string.

(** Decimal digits of [n], as [%d] prints them. *)
Fixpoint decimal (fuel : nat) (n : Z) : string :=
  match fuel with
  | O => ""
  | S fuel => (if n <? 10 then "" else decimal fuel (n / 10)) +:+ string_of_bytes [48 + n mod 10]
  end.
Definition Itoa (n : Z) : string :=
  if n <? 0 then "-" +:+ decimal (S (Z.to_nat (Z.log2 (- n)))) (- n)
  else decimal (S (Z.to_nat (Z.log2 n))) n.

Example Itoa_values :
  Itoa 0 = "0"%string /\ Itoa 9 = "9"%string /\ Itoa 10 = "10"%string /\ Itoa (-120) = "-120"%string /\
  Itoa MaxInt64 = "9223372036854775807"%string /\ Itoa MinInt64 = "-9223372036854775808"%string /\
  Atoi_error "1x" = string_of_bytes (bytes_of_string "strconv.Atoi: parsing " ++
    [34; 49; 120; 34] ++ bytes_of_string ": invalid syntax").
Proof. vm_compute. repeat split. Qed.

Lemma Atoi_range s n : Atoi s = Some n -> in_int64 n.
Proof. unfold Atoi, in_int64. repeat case_match; intros; simplify_eq; lia. Qed.

Example Atoi_values :
  Atoi "42" = Some 42 /\ Atoi "-7" = Some (-7) /\ Atoi "+5" = Some 5 /\ Atoi "" = None /\
  Atoi "-" = None /\ Atoi "4a" = None /\ Atoi " 4" = None /\
  Atoi "9223372036854775807" = Some MaxInt64 /\ Atoi "9223372036854775808" = None /\
  Atoi "-9223372036854775808" = Some MinInt64.
Proof. vm_compute. repeat split. Qed.

(** ** net.IP.String

    An address is the list of its bytes. *)
Definition lower_hex (d : Z) : Z := if d <? 10 then 48 + d else 87 + d.

(** A 16-bit group without leading zeros. *)
Definition group_hex (g : Z) : list Z :=
  (if g <? 4096 then [] else [lower_hex (g / 4096)]) ++
  (if g <? 256 then [] else [lower_hex (g / 256 mod 16)]) ++
  (if g <? 16 then [] else [lower_hex (g / 16 mod 16)]) ++ [lower_hex (g mod 16)].

Fixpoint groups (ip : list Z) : list Z :=
  match ip with hi :: lo :: ip => hi * 256 + lo :: groups ip | _ => [] end.

Fixpoint zero_run (gs : list Z) : nat :=
  match gs with g :: gs => if g =? 0 then S (zero_run gs) else O | [] => O end.

(** The first longest run of at least two zero groups, as start and length. *)
Fixpoint longest_run (gs : list Z) (i : nat) (best : nat * nat) : nat * nat :=
  match gs with
  | [] => best
  | _ :: gs' =>
      let l := zero_run gs in
      longest_run gs' (S i) (if (2 <=? l)%nat && (best.2 <? l)%nat then (i, l) else best)
  end.

Definition ip6_bytes (ip : list Z) : list Z :=
  let gs := groups ip in
  let colons l := join_bytes (group_hex <$> l) [58] in
  match longest_run gs 0 (0%nat, 0%nat) with
  | (_, O) => colons gs
  | (start, len) => colons (take start gs) ++ [58; 58] ++ colons (drop (start + len) gs)
  end.

Definition ip4_string (ip : list Z) : string := Join (Itoa <$> ip) ".".

Definition IP_String (ip : list Z) : string :=
  if bool_decide (ip = []) then "<nil>"%string
  else if (List.length ip =? 4)%nat then ip4_string ip
  else if (List.length ip =? 16)%nat then
    if bool_decide (take 12 ip = replicate 10 0 ++ [255; 255]) then ip4_string (drop 12 ip)
    else string_of_bytes (ip6_bytes ip)
  else string_of_bytes (63 :: (ip ≫= fun b => [lower_hex (b / 16); lower_hex (b mod 16)])).

Example IP_String_values :
  IP_String [10; 0; 31; 255] = "10.0.31.255"%string /\
  IP_String (replicate 15 0 ++ [1]) = "::1"%string /\ IP_String (replicate 16 0) = "::"%string /\
  IP_String [32; 1; 13; 184; 0; 0; 0; 0; 0; 1; 0; 0; 0; 0; 0; 10] = "2001:db8::1:0:0:a"%string /\
  IP_String [254; 128; 0; 0; 0; 1; 0; 0; 0; 2; 0; 3; 0; 4; 171; 205] = "fe80:0:1:0:2:3:4:abcd"%string /\
  IP_String (replicate 10 0 ++ [255; 255; 192; 168; 1; 2]) = "192.168.1.2"%string /\
  IP_String [1; 171] = "?01ab"%string.
Proof. vm_compute. repeat split. Qed.

Example string_functions :
  TrimSpace "  a b  " = "a b"%string /\ Split "a,b,,c" "," = ["a"; "b"; ""; "c"]%string /\
  Split "" "," = [""%string] /\
  CanonicalMIMEHeaderKey "x-forwarded-USER" = "X-Forwarded-User"%string /\
  CanonicalMIMEHeaderKey "bad key" = "bad key"%string /\
  CutPrefix "Bearer abc" "Bearer " = ("abc"%string, true).
Proof. vm_compute. repeat split. Qed.
