(* ===== verification/GoFlag.v ===== *)
(** * Package flag

    The flag sets of the program hold string and boolean flags; they are read
    with [flag.ExitOnError].  [Parse] follows FlagSet.Parse and parseOne; what
    it prints is the error, the usage text is left out. *)
From S2P Require Import Prelude GoRuntime Utf8 GoStrings.
From Stdlib Require Import Ascii String.
Local Open Scope Z_scope.

Inductive Value := StringValue (s : string) | BoolValue (b : bool).

(** The values of the flags that are defined. *)
Notation FlagSet := (gmap string Value).

Definition get_string (fs : FlagSet) (name : string) : string :=
  match fs !! name with Some (StringValue s) => s | _ => "" end.
Definition get_bool (fs : FlagSet) (name : string) : bool :=
  match fs !! name with Some (BoolValue b) => b | _ => false end.

(** [strconv.ParseBool]. *)
Definition ParseBool (s : string) : option bool :=
  if bool_decide (s ∈ ["1"; "t"; "T"; "true"; "TRUE"; "True"]%string) then Some true
  else if bool_decide (s ∈ ["0"; "f"; "F"; "false"; "FALSE"; "False"]%string) then Some false
  else None.

(** ** One argument *)

(** Up to the first equals sign, and what follows it. *)
Fixpoint cut_equals (s : string) : string * option string :=
  match s with
  | EmptyString => (EmptyString, None)
  | String c s' =>
      if bool_decide (c = "="%char) then (EmptyString, Some s')
      else let '(n, v) := cut_equals s' in (String c n, v)
  end.

Inductive Argument := NotAFlag | Terminator | BadSyntax | AFlag (name : string) (value : option string).

(** After the dashes; an equals sign cannot come first. *)
Definition read_name (name : string) : Argument :=
  match name with
  | EmptyString => BadSyntax
  | String c s =>
      if bool_decide (c = "-"%char) || bool_decide (c = "="%char) then BadSyntax
      else let '(n, v) := cut_equals s in AFlag (String c n) v
  end.

Definition read_argument (s : string) : Argument :=
  match s with
  | String d (String c s') =>
      if negb (bool_decide (d = "-"%char)) then NotAFlag
      else if bool_decide (c = "-"%char) then
        (if bool_decide (s' = EmptyString) then Terminator else read_name s')
      else read_name (String c s')
  | _ => NotAFlag
  end.

(** ** All arguments *)
Inductive Parsed := Done (fs : FlagSet) (args : list string) | ErrHelp | Failed (err : string).

Fixpoint Parse (fs : FlagSet) (args : list string) : Parsed :=
  match args with
  | [] => Done fs []
  | s :: rest =>
      match read_argument s with
      | NotAFlag => Done fs args
      | Terminator => Done fs rest
      | BadSyntax => Failed ("bad flag syntax: " +:+ s)
      | AFlag name value =>
          match fs !! name with
          | None =>
              if bool_decide (name = "help"%string) || bool_decide (name = "h"%string) then ErrHelp
              else Failed ("flag provided but not defined: -" +:+ name)
          | Some (BoolValue _) =>
              match value with
              | None => Parse (<[name := BoolValue true]> fs) rest
              | Some v =>
                  match ParseBool v with
                  | Some b => Parse (<[name := BoolValue b]> fs) rest
                  | None => Failed ("invalid boolean value " +:+ Quote v +:+ " for -" +:+ name +:+ ": parse error")
                  end
              end
          | Some (StringValue _) =>
              match value, rest with
              | Some v, _ => Parse (<[name := StringValue v]> fs) rest
              | None, v :: rest => Parse (<[name := StringValue v]> fs) rest
              | None, [] => Failed ("flag needs an argument: -" +:+ name)
              end
          end
      end
  end.

(** ** Reading what was written *)

(** The names flags have. *)
Fixpoint no_equals (s : string) : bool :=
  match s with EmptyString => true | String c s => negb (bool_decide (c = "="%char)) && no_equals s end.

Definition flag_name (s : string) : bool :=
  match s with EmptyString => false | String c _ => negb (bool_decide (c = "-"%char)) && no_equals s end.

Definition dashes (two : bool) : string := if two then "--" else "-".

Lemma append_cons c s t : String c s +:+ t = String c (s +:+ t).
Proof. done. Qed.

Lemma append_nil s : s +:+ "" = s.
Proof. apply bytes_of_string_inj. by rewrite bytes_of_string_app, app_nil_r. Qed.

Lemma cut_equals_none s : no_equals s = true -> cut_equals s = (s, None).
Proof.
  induction s as [|c s IH]; [done|]. cbn [no_equals cut_equals]. case_bool_decide; [done|].
  intros Hs. by rewrite IH.
Qed.

Lemma cut_equals_some s v : no_equals s = true -> cut_equals (s +:+ String "=" v) = (s, Some v).
Proof.
  induction s as [|c s IH]; [done|]. rewrite append_cons. cbn [no_equals cut_equals]. case_bool_decide; [done|].
  intros Hs. by rewrite IH.
Qed.

Lemma flag_name_cons s : flag_name s = true -> exists c s', s = String c s' /\ c <> "-"%char /\
  c <> "="%char /\ no_equals s' = true.
Proof.
  destruct s as [|c s]; [done|]. cbn. rewrite !andb_true_iff, !negb_true_iff, !bool_decide_eq_false.
  intros (? & ? & ?). by exists c, s.
Qed.

Lemma read_written two name rest :
  flag_name name = true ->
  read_argument (dashes two +:+ (name +:+ rest)) =
  let '(n, v) := cut_equals (name +:+ rest) in AFlag n v.
Proof.
  intros (c & s & -> & Hd & He & _)%flag_name_cons. rewrite append_cons.
  assert (read_argument (dashes two +:+ String c (s +:+ rest)) = read_name (String c (s +:+ rest))) as ->.
  { destruct two; [done|].
    change (read_argument (String "-" (String c (s +:+ rest))) = read_name (String c (s +:+ rest))).
    cbn [read_argument]. by rewrite (bool_decide_eq_false_2 (c = _)). }
  cbn [read_name cut_equals]. rewrite !bool_decide_eq_false_2 by done. cbn [orb].
  by destruct (cut_equals (s +:+ rest)).
Qed.

Lemma no_equals_name name : flag_name name = true -> no_equals name = true.
Proof.
  intros (c & s & -> & _ & He & Hs)%flag_name_cons. cbn [no_equals]. by rewrite bool_decide_eq_false_2.
Qed.

Lemma read_joined two name v :
  flag_name name = true -> read_argument (dashes two +:+ (name +:+ String "=" v)) = AFlag name (Some v).
Proof. intros H. by rewrite read_written, cut_equals_some by eauto using no_equals_name. Qed.

Lemma read_bare two name : flag_name name = true -> read_argument (dashes two +:+ name) = AFlag name None.
Proof.
  intros H. rewrite <-(append_nil name) at 1. rewrite read_written, append_nil, cut_equals_none
    by eauto using no_equals_name. done.
Qed.

(** A flag with its value: after an equals sign, or as the next argument, or
    for a boolean flag that is set, by its name alone. *)
Record Written := mkWritten { wr_two : bool; wr_joined : bool; wr_name : string; wr_value : Value }.

Definition bool_text (b : bool) : string := if b then "true" else "false".

Definition written (w : Written) : list string :=
  let name := dashes (wr_two w) +:+ wr_name w in
  match wr_value w with
  | StringValue v =>
      if wr_joined w then [dashes (wr_two w) +:+ (wr_name w +:+ String "=" v)] else [name; v]
  | BoolValue b =>
      if wr_joined w || negb b then [dashes (wr_two w) +:+ (wr_name w +:+ String "=" (bool_text b))] else [name]
  end.

(** It is defined, with a value of its kind. *)
Definition fits (fs : FlagSet) (w : Written) : Prop :=
  flag_name (wr_name w) = true /\
  match fs !! wr_name w, wr_value w with
  | Some (StringValue _), StringValue _ | Some (BoolValue _), BoolValue _ => True
  | _, _ => False
  end.

Definition assign (fs : FlagSet) (w : Written) : FlagSet := <[wr_name w := wr_value w]> fs.

Lemma Parse_written fs w args :
  fits fs w -> Parse fs (written w ++ args) = Parse (assign fs w) args.
Proof.
  destruct w as [two joined name value]. unfold fits, written, assign. cbn [wr_two wr_joined wr_name wr_value].
  intros [Hn Hf]. destruct (fs !! name) as [[old|old]|] eqn:E; [| |done]; destruct value as [v|b]; try done.
  - destruct joined; cbn [app Parse]; [by rewrite read_joined, E|by rewrite read_bare, E].
  - destruct joined, b; cbn [orb negb app Parse]; rewrite ?read_joined, ?read_bare, E by done; done.
Qed.

Lemma fits_assign fs w w' : fits fs w -> fits fs w' -> fits (assign fs w) w'.
Proof.
  unfold fits, assign. intros [_ Hw] [Hn Hw']. split; [done|].
  destruct (decide (wr_name w = wr_name w')) as [E|E]; [|by rewrite lookup_insert_ne].
  rewrite <-E in *. rewrite lookup_insert_eq. destruct (fs !! wr_name w) as [[]|], (wr_value w), (wr_value w'); done.
Qed.

(** Flags in any order and style, the last one of a name counting; then what
    is not a flag. *)
Definition stops (args : list string) : bool :=
  match args with
  | [] => true
  | s :: _ => match read_argument s with NotAFlag | Terminator => true | _ => false end
  end.

Lemma Parse_all fs ws args :
  Forall (fits fs) ws -> stops args = true ->
  exists rest, Parse fs ((ws ≫= written) ++ args) = Done (fold_left assign ws fs) rest.
Proof.
  intros Hws Hstop. revert fs Hws. induction ws as [|w ws IH]; intros fs Hws; cbn [mbind list_bind fold_left app].
  - destruct args as [|s args]; [by exists []|]. cbn [Parse stops] in *. destruct (read_argument s); [..|done|done]; by eexists.
  - apply Forall_cons in Hws as [Hw Hws]. rewrite <-app_assoc, Parse_written by done. apply IH.
    eapply Forall_impl; [exact Hws|]. intros w'. by apply fits_assign.
Qed.
