(* ===== verification/GoTime.v ===== *)
(** * Calendar time: time.Parse and the format of timestamps in JSON

    [ParseRFC3339] is [time.Parse] with the layout [time.RFC3339] (the fast
    path of the package accepts a part of what this accepts, with the same
    result); [FormatRFC3339Nano] is what [time.Time] marshals to, in a zone
    given by its offset.  What is printed is parsed back to the same instant. *)
From S2P Require Import Prelude GoRuntime Utf8 GoStrings.
Local Open Scope Z_scope.

(** ** Days and dates

    Days are counted from 1 January of year 1, as in the proleptic Gregorian
    calendar of package time. *)
Definition isLeap (y : Z) : bool :=
  (y mod 4 =? 0) && (negb (y mod 100 =? 0) || (y mod 400 =? 0)).

Definition month_lengths (y : Z) : list Z :=
  [31; if isLeap y then 29 else 28; 31; 30; 31; 30; 31; 31; 30; 31; 30; 31].

Definition daysIn (m y : Z) : Z := month_lengths y !!! Z.to_nat (m - 1).

Definition days_before_month (m y : Z) : Z :=
  foldr Z.add 0 (take (Z.to_nat (m - 1)) (month_lengths y)).

Definition days_of_date (y m d : Z) : Z :=
  let p := y - 1 in
  365 * p + p / 4 - p / 100 + p / 400 + days_before_month m y + (d - 1).

(** The day 1 January 1970. *)
Definition epoch_days : Z := 719162.

(** The year and the day in it, by whole cycles of 400, 100, 4 and 1 years;
    the last cycle of 100 and of 1 may be one day longer. *)
Definition year_of_days (n : Z) : Z * Z :=
  let n400 := n / 146097 in let n := n mod 146097 in
  let n100 := Z.min 3 (n / 36524) in let n := n - 36524 * n100 in
  let n4 := n / 1461 in let n := n mod 1461 in
  let n1 := Z.min 3 (n / 365) in
  (400 * n400 + 100 * n100 + 4 * n4 + n1 + 1, n - 365 * n1).

Fixpoint month_of_day (lens : list Z) (m k : Z) : Z * Z :=
  match lens with
  | [] => (m, k)
  | l :: lens => if k <? l then (m, k) else month_of_day lens (m + 1) (k - l)
  end.

(** Year, month and day of the month. *)
Definition date_of_days (n : Z) : Z * Z * Z :=
  let '(y, k) := year_of_days n in
  let '(m, k) := month_of_day (month_lengths y) 1 k in (y, m, k + 1).

(** *** The date of a day is a date, and its day is that day *)
Lemma leap_cycle a b c e :
  0 <= b <= 3 -> 0 <= c <= 24 -> 0 <= e <= 3 ->
  isLeap (400 * a + 100 * b + 4 * c + e + 1) = (e =? 3) && (negb (c =? 24) || (b =? 3)).
Proof.
  intros Hb Hc He. unfold isLeap. set (y := 400 * a + 100 * b + 4 * c + e + 1).
  assert (y mod 4 = (e + 1) mod 4) as -> by (unfold y; zify_div; lia).
  assert (y mod 100 = (4 * c + e + 1) mod 100) as -> by (unfold y; zify_div; lia).
  assert (y mod 400 = (100 * b + 4 * c + e + 1) mod 400) as -> by (unfold y; zify_div; lia).
  destruct (Z.eqb_spec ((e + 1) mod 4) 0), (Z.eqb_spec e 3); try (exfalso; zify_div; lia); [|done].
  subst e. destruct (Z.eqb_spec ((4 * c + 3 + 1) mod 100) 0), (Z.eqb_spec c 24);
    try (exfalso; zify_div; lia); [|done].
  subst c. destruct (Z.eqb_spec ((100 * b + 4 * 24 + 3 + 1) mod 400) 0), (Z.eqb_spec b 3);
    try (exfalso; zify_div; lia); done.
Qed.

Definition year_length (y : Z) : Z := if isLeap y then 366 else 365.

Lemma year_of_days_spec n y k :
  year_of_days n = (y, k) ->
  n = 365 * (y - 1) + (y - 1) / 4 - (y - 1) / 100 + (y - 1) / 400 + k /\ 0 <= k < year_length y.
Proof.
  unfold year_of_days. intros [= Hy Hk].
  set (a := n / 146097) in *. set (n1 := n mod 146097) in *.
  assert (n = 146097 * a + n1 /\ 0 <= n1 < 146097) as [Hn H1] by (unfold a, n1; zify_div; lia).
  set (b := Z.min 3 (n1 / 36524)) in *. set (n2 := n1 - 36524 * b) in *.
  assert (0 <= b <= 3 /\ 0 <= n2 <= 36524 /\ (n2 = 36524 -> b = 3)) as (Hb & H2 & Hb3)
    by (unfold n2, b; zify_div; lia).
  set (c := n2 / 1461) in *. set (n3 := n2 mod 1461) in *.
  assert (n2 = 1461 * c + n3 /\ 0 <= n3 < 1461 /\ 0 <= c <= 24) as (Hn2 & H3 & Hc)
    by (unfold c, n3; zify_div; lia).
  set (e := Z.min 3 (n3 / 365)) in *.
  assert (0 <= e <= 3 /\ 0 <= n3 - 365 * e <= 365 /\ (n3 - 365 * e = 365 -> e = 3)) as (He & H4 & He3)
    by (unfold e; zify_div; lia).
  assert (y - 1 = 400 * a + 100 * b + 4 * c + e) as Hy1 by lia.
  assert ((y - 1) / 4 = 100 * a + 25 * b + c) as -> by (rewrite Hy1; clear -He; zify_div; lia).
  assert ((y - 1) / 100 = 4 * a + b) as -> by (rewrite Hy1; clear -He Hc; zify_div; lia).
  assert ((y - 1) / 400 = a) as -> by (rewrite Hy1; clear -He Hc Hb; zify_div; lia).
  split; [unfold n2 in *; lia|]. unfold year_length.
  rewrite <-Hy, leap_cycle by lia.
  destruct (Z.eqb_spec e 3), (Z.eqb_spec c 24), (Z.eqb_spec b 3); simpl; unfold n2 in *; lia.
Qed.

Lemma month_of_day_spec lens m k m' k' :
  Forall (fun l => 0 < l) lens -> 0 <= k < foldr Z.add 0 lens -> month_of_day lens m k = (m', k') ->
  m <= m' < m + Z.of_nat (length lens) /\
  k = foldr Z.add 0 (take (Z.to_nat (m' - m)) lens) + k' /\ 0 <= k' < lens !!! Z.to_nat (m' - m).
Proof.
  revert m k. induction lens as [|l lens IH]; intros m k Hl Hk; simpl in *; [lia|].
  apply Forall_cons in Hl as [Hl0 Hl]. destruct (Z.ltb_spec k l).
  - intros [= <- <-]. rewrite Z.sub_diag. simpl. lia.
  - intros E. destruct (IH (m + 1) (k - l) Hl ltac:(lia) E) as (H1 & H2 & H3).
    replace (Z.to_nat (m' - m)) with (S (Z.to_nat (m' - (m + 1)))) by lia. simpl. lia.
Qed.

Lemma date_of_days_spec n y m d :
  date_of_days n = (y, m, d) ->
  days_of_date y m d = n /\ 1 <= m <= 12 /\ 1 <= d <= daysIn m y.
Proof.
  unfold date_of_days. destruct (year_of_days n) as [y' k] eqn:Ey.
  destruct (year_of_days_spec n y' k Ey) as [Hn Hk].
  destruct (month_of_day (month_lengths y') 1 k) as [m' k'] eqn:Em. intros [= -> -> <-].
  assert (foldr Z.add 0 (month_lengths y) = year_length y) as Hlen
    by (unfold month_lengths, year_length; destruct (isLeap y); reflexivity).
  destruct (month_of_day_spec (month_lengths y) 1 k m k') as (Hm & Hkm & Hk').
  - unfold month_lengths. repeat constructor; try lia. destruct (isLeap y); lia.
  - by rewrite Hlen.
  - done.
  - unfold days_of_date, days_before_month, daysIn. cbv zeta. simpl length in Hm. lia.
Qed.

(** ** Parsing *)
Definition isDigit (c : Z) : bool := in_range 48 57 c.

Definition expect (c : Z) (s : list Z) : option (list Z) :=
  match s with x :: s => if x =? c then Some s else None | [] => None end.

(** One or two digits, or exactly two when [fixed]. *)
Definition getnum (fixed : bool) (s : list Z) : option (Z * list Z) :=
  match s with
  | a :: s =>
      if negb (isDigit a) then None else
      match s with
      | b :: s' =>
          if isDigit b then Some ((a - 48) * 10 + (b - 48), s')
          else if fixed then None else Some (a - 48, s)
      | [] => if fixed then None else Some (a - 48, [])
      end
  | [] => None
  end.

(** A number that must lie in a range. *)
Definition getnum_in (fixed : bool) (lo hi : Z) (s : list Z) : option (Z * list Z) :=
  match getnum fixed s with
  | Some (n, s) => if (lo <=? n) && (n <=? hi) then Some (n, s) else None
  | None => None
  end.

(** The four digits of a year. *)
Definition get_year (s : list Z) : option (Z * list Z) :=
  match s with
  | a :: b :: c :: d :: s =>
      match digits_value [a; b; c; d] 0 with Some y => Some (y, s) | None => None end
  | _ => None
  end.

Fixpoint span_digits (s : list Z) : list Z * list Z :=
  match s with
  | c :: s' => if isDigit c then let '(ds, rest) := span_digits s' in (c :: ds, rest) else ([], s)
  | [] => ([], [])
  end.

(** [parseNanoseconds]: the first nine digits, scaled. *)
Definition nanoseconds (ds : list Z) : Z :=
  let ds := take 9 ds in
  default 0 (digits_value ds 0) * 10 ^ (9 - Z.of_nat (length ds)).

(** A fraction after the seconds, with a point or a comma. *)
Definition get_fraction (s : list Z) : Z * list Z :=
  match s with
  | c :: d :: _ =>
      if ((c =? 46) || (c =? 44)) && isDigit d
      then let '(ds, rest) := span_digits (tail s) in (nanoseconds ds, rest)
      else (0, s)
  | _ => (0, s)
  end.

(** The zone, in seconds east of UTC; nothing may follow it. *)
Definition get_zone (s : list Z) : option Z :=
  match s with
  | [90] => Some 0
  | sign :: h1 :: h2 :: 58 :: m1 :: m2 :: [] =>
      if sign =? 90 then None else
      match getnum_in true 0 24 [h1; h2], getnum_in true 0 60 [m1; m2] with
      | Some (hr, _), Some (mm, _) =>
          if sign =? 43 then Some ((hr * 60 + mm) * 60)
          else if sign =? 45 then Some (- ((hr * 60 + mm) * 60)) else None
      | _, _ => None
      end
  | _ => None
  end.

(** [time.Date] in UTC, moved by the offset. *)
Definition instant (y m d hour min sec nsec off : Z) : Time :=
  ((days_of_date y m d - epoch_days) * 86400 + hour * 3600 + min * 60 + sec - off) * Second + nsec.

Definition parse_bytes (s : list Z) : option Time :=
  '(y, s) ← get_year s;
  s ← expect 45 s;
  '(m, s) ← getnum_in true 1 12 s;
  s ← expect 45 s;
  '(d, s) ← getnum true s;
  s ← expect 84 s;
  '(hour, s) ← getnum_in false 0 23 s;
  s ← expect 58 s;
  '(min, s) ← getnum_in true 0 59 s;
  s ← expect 58 s;
  '(sec, s) ← getnum_in true 0 59 s;
  let '(nsec, s) := get_fraction s in
  off ← get_zone s;
  if (1 <=? d) && (d <=? daysIn m y) then Some (instant y m d hour min sec nsec off) else None.

Definition ParseRFC3339 (v : string) : option Time := parse_bytes (bytes_of_string v).

(** ** Printing *)
Definition digit (n : Z) : Z := 48 + n mod 10.
Definition digits2 (n : Z) : list Z := [digit (n / 10); digit n].
Definition digits4 (n : Z) : list Z := digits2 (n / 100) ++ digits2 n.

Fixpoint digits (k : nat) (n : Z) : list Z :=
  match k with O => [] | S k => digits k (n / 10) ++ [digit n] end.

Fixpoint drop_zeros (s : list Z) : list Z :=
  match s with c :: s' => if c =? 48 then drop_zeros s' else s | [] => [] end.

(** Nine digits without the trailing zeros, or no fraction at all. *)
Definition fraction (nsec : Z) : list Z :=
  match reverse (drop_zeros (reverse (digits 9 nsec))) with
  | [] => []
  | ds => 46 :: ds
  end.

(** The offset in minutes. *)
Definition zone (off : Z) : list Z :=
  if off =? 0 then [90]
  else (if off <? 0 then 45 else 43) :: digits2 (Z.abs off / 60) ++ 58 :: digits2 (Z.abs off mod 60).

Definition format_bytes (t : Time) (off : Z) : list Z :=
  let local := t + off * 60 * Second in
  let secs := local / Second in
  let '(y, m, d) := date_of_days (secs / 86400 + epoch_days) in
  let sod := secs mod 86400 in
  digits4 y ++ 45 :: digits2 m ++ 45 :: digits2 d ++ 84 :: digits2 (sod / 3600) ++ 58 ::
  digits2 (sod / 60 mod 60) ++ 58 :: digits2 (sod mod 60) ++ fraction (local mod Second) ++ zone off.

Definition FormatRFC3339Nano (t : Time) (off : Z) : string := string_of_bytes (format_bytes t off).

Example time_values :
  FormatRFC3339Nano zeroTime 0 = "0001-01-01T00:00:00Z"%string /\
  FormatRFC3339Nano 1700000000120000000 330 = "2023-11-15T03:43:20.12+05:30"%string /\
  ParseRFC3339 "2023-11-15T03:43:20.12+05:30" = Some 1700000000120000000 /\
  ParseRFC3339 "2024-02-29T00:00:00Z" = Some 1709164800000000000 /\
  ParseRFC3339 "2023-02-29T00:00:00Z" = None /\
  ParseRFC3339 "2024-02-29 00:00:00Z" = None /\ ParseRFC3339 "2024-02-29T24:00:00Z" = None /\
  ParseRFC3339 "1969-12-31T23:59:59,5-00:00" = Some (-500000000) /\
  ParseRFC3339 "2024-02-29T3:04:05Z" = ParseRFC3339 "2024-02-29T03:04:05Z" /\
  ParseRFC3339 "2024-02-29T00:00:00" = None /\ ParseRFC3339 "" = None.
Proof. vm_compute. repeat split. Qed.

(** ** What is printed is parsed back *)
Lemma isDigit_digit n : isDigit (digit n) = true.
Proof. unfold isDigit, in_range, digit. apply andb_true_iff. split; apply Z.leb_le; zify_div; lia. Qed.

Lemma getnum_digits2 fixed n s : 0 <= n < 100 -> getnum fixed (digits2 n ++ s) = Some (n, s).
Proof.
  intros Hn. unfold digits2. cbn [app getnum]. rewrite !isDigit_digit. cbn [negb].
  do 2 f_equal. unfold digit. zify_div. lia.
Qed.

Lemma getnum_in_digits2 fixed lo hi n s :
  0 <= lo <= n -> n <= hi < 100 -> getnum_in fixed lo hi (digits2 n ++ s) = Some (n, s).
Proof.
  intros Hlo Hhi. unfold getnum_in. rewrite getnum_digits2 by lia.
  by rewrite (proj2 (Z.leb_le lo n)), (proj2 (Z.leb_le n hi)) by lia.
Qed.

Lemma digits_value_app a b acc :
  digits_value (a ++ b) acc = digits_value a acc ≫= digits_value b.
Proof. revert acc. induction a as [|c a IH]; intros acc; simpl; [done|]. case_match; [apply IH|done]. Qed.

Lemma digits_value_digits k n acc :
  0 <= n < 10 ^ Z.of_nat k -> digits_value (digits k n) acc = Some (acc * 10 ^ Z.of_nat k + n).
Proof.
  revert n acc. induction k as [|k IH]; intros n acc Hn.
  - simpl in *. f_equal. lia.
  - rewrite Nat2Z.inj_succ, Z.pow_succ_r in * by lia. cbn [digits]. rewrite digits_value_app.
    rewrite IH by (zify_div; lia). cbn [mbind option_bind digits_value].
    rewrite (isDigit_digit n : in_range 48 57 (digit n) = true). f_equal. unfold digit. zify_div. lia.
Qed.

Lemma get_year_digits4 y s : 0 <= y <= 9999 -> get_year (digits4 y ++ s) = Some (y, s).
Proof.
  intros Hy. unfold digits4, digits2, get_year. cbn [app digits_value].
  rewrite !(isDigit_digit _ : in_range 48 57 (digit _) = true).
  do 2 f_equal. unfold digit. zify_div. lia.
Qed.

(** *** The fraction *)
Lemma digits_all_digits k n : Forall (fun c => isDigit c = true) (digits k n).
Proof.
  revert n. induction k as [|k IH]; intros n; [constructor|]. apply Forall_app_2; [apply IH|].
  repeat constructor. apply isDigit_digit.
Qed.

Lemma length_digits k n : length (digits k n) = k.
Proof. revert n. induction k as [|k IH]; intros n; simpl; [done|]. rewrite length_app, IH. simpl. lia. Qed.

Lemma drop_zeros_split s : exists k, s = replicate k 48 ++ drop_zeros s.
Proof.
  induction s as [|c s [k Hk]]; simpl; [by exists O|].
  destruct (Z.eqb_spec c 48) as [->|]; [|by exists O]. exists (S k). simpl. by rewrite <-Hk.
Qed.

Lemma digits_value_zeros k acc : digits_value (replicate k 48) acc = Some (acc * 10 ^ Z.of_nat k).
Proof.
  revert acc. induction k as [|k IH]; intros acc; [simpl; f_equal; lia|].
  cbn [replicate digits_value]. change (in_range 48 57 48) with true. cbv iota.
  rewrite IH. f_equal. rewrite Nat2Z.inj_succ, Z.pow_succ_r by lia. lia.
Qed.

Lemma digits_value_Some s acc :
  Forall (fun c => isDigit c = true) s -> is_Some (digits_value s acc).
Proof.
  revert acc. induction s as [|c s IH]; intros acc Hs; [by eexists|].
  apply Forall_cons in Hs as [Hc Hs]. simpl. unfold isDigit in Hc. rewrite Hc. by apply IH.
Qed.

(** The trimmed digits stand for the same nanoseconds. *)
Lemma trimmed_nanoseconds n ds :
  0 <= n < Second -> reverse (drop_zeros (reverse (digits 9 n))) = ds ->
  nanoseconds ds = n /\ Forall (fun c => isDigit c = true) ds.
Proof.
  intros Hn Hds. destruct (drop_zeros_split (reverse (digits 9 n))) as [k Hk].
  apply (f_equal reverse) in Hk. rewrite reverse_involutive, reverse_app, Hds, reverse_replicate in Hk.
  pose proof (digits_all_digits 9 n) as Hd. rewrite Hk in Hd. apply Forall_app in Hd as [Hd _].
  split; [|done].
  assert (length ds + k = 9)%nat as Hl
    by (rewrite <-(length_digits 9 n), Hk, length_app, length_replicate; done).
  pose proof (digits_value_digits 9 n 0 Hn) as Hv. rewrite Hk, digits_value_app in Hv.
  destruct (digits_value_Some ds 0 Hd) as [v Hdv]. rewrite Hdv in Hv. cbn in Hv.
  rewrite digits_value_zeros in Hv. injection Hv as Hv.
  unfold nanoseconds. rewrite take_ge by lia. rewrite Hdv. cbn.
  replace (9 - Z.of_nat (length ds)) with (Z.of_nat k) by lia. lia.
Qed.

Lemma span_digits_app ds s :
  Forall (fun c => isDigit c = true) ds -> (match s with c :: _ => isDigit c = false | [] => True end) ->
  span_digits (ds ++ s) = (ds, s).
Proof.
  intros Hd Hs. induction Hd as [|c ds Hc _ IH]; simpl.
  - destruct s as [|c s]; simpl; [done|]. by rewrite Hs.
  - by rewrite Hc, IH.
Qed.

(** The zone starts with a character that ends the fraction. *)
Lemma zone_head off : exists c s, zone off = c :: s /\ isDigit c = false /\ c <> 46 /\ c <> 44.
Proof. unfold zone. repeat case_match; do 2 eexists; (split; [done|]); vm_compute; repeat split; discriminate. Qed.

Lemma get_fraction_printed nsec off :
  0 <= nsec < Second -> get_fraction (fraction nsec ++ zone off) = (nsec, zone off).
Proof.
  intros Hn. unfold fraction. destruct (zone_head off) as (c & s & Hz & Hc & H46 & H44).
  destruct (trimmed_nanoseconds nsec _ Hn eq_refl) as [Hv Hd].
  destruct (reverse _) as [|d ds].
  - cbn [app]. rewrite Hz. unfold get_fraction. destruct s as [|d s]; [by rewrite <-Hv|].
    rewrite (proj2 (Z.eqb_neq c 46)), (proj2 (Z.eqb_neq c 44)) by done. cbn. by rewrite <-Hv.
  - cbn [app get_fraction]. pose proof Hd as Hd'. apply Forall_cons in Hd' as [Hd0 _]. rewrite Hd0. cbn [Z.eqb orb andb tail].
    change (d :: ds ++ zone off) with ((d :: ds) ++ zone off).
    change (46 =? 46) with true. cbn [orb andb]. rewrite span_digits_app; [by rewrite Hv|done|].
    by rewrite Hz.
Qed.

(** *** The zone *)
Lemma get_zone_printed off : -1440 < off < 1440 -> get_zone (zone off) = Some (off * 60).
Proof.
  intros Ho. unfold zone. destruct (Z.eqb_spec off 0) as [->|Hne]; [done|].
  assert (getnum_in true 0 24 (digits2 (Z.abs off / 60) ++ []) = Some (Z.abs off / 60, [])) as H1
    by (apply getnum_in_digits2; zify_div; lia).
  assert (getnum_in true 0 60 (digits2 (Z.abs off mod 60) ++ []) = Some (Z.abs off mod 60, [])) as H2
    by (apply getnum_in_digits2; zify_div; lia).
  unfold digits2 in *. cbn [app] in *. unfold get_zone.
  destruct (Z.ltb_spec off 0); rewrite H1, H2; cbn; f_equal; zify_div; lia.
Qed.

(** The times and zones that can be printed: four-digit years. *)
Definition printable (t : Time) (off : Z) : Prop :=
  -1440 < off < 1440 /\
  0 <= (date_of_days ((t + off * 60 * Second) / Second / 86400 + epoch_days)).1.1 <= 9999.

Lemma parse_format_bytes t off : printable t off -> parse_bytes (format_bytes t off) = Some t.
Proof.
  intros [Ho Hy]. unfold format_bytes. set (local := t + off * 60 * Second) in *. cbv zeta.
  destruct (date_of_days _) as [[y m] d] eqn:Ed. cbn [fst] in Hy.
  destruct (date_of_days_spec _ _ _ _ Ed) as (Hdays & Hm & Hd).
  assert (daysIn m y <= 31) as Hd31.
  { unfold daysIn, month_lengths. destruct (isLeap y);
      (assert (m = 1 \/ m = 2 \/ m = 3 \/ m = 4 \/ m = 5 \/ m = 6 \/ m = 7 \/ m = 8 \/ m = 9 \/
        m = 10 \/ m = 11 \/ m = 12) as Hc by lia); clear -Hc; naive_solver (vm_compute; discriminate). }
  set (secs := local / Second) in *. set (sod := secs mod 86400) in *.
  assert (0 <= sod < 86400) as Hsod by (unfold sod; apply Z.mod_pos_bound; lia).
  assert (0 <= local mod Second < Second) as Hnsec by (apply Z.mod_pos_bound; done).
  unfold parse_bytes.
  rewrite get_year_digits4 by done. cbn [mbind option_bind expect Z.eqb Pos.eqb].
  rewrite getnum_in_digits2 by lia. cbn [mbind option_bind expect Z.eqb Pos.eqb].
  rewrite getnum_digits2 by lia. cbn [mbind option_bind expect Z.eqb Pos.eqb].
  rewrite getnum_in_digits2 by (zify_div; lia). cbn [mbind option_bind expect Z.eqb Pos.eqb].
  rewrite getnum_in_digits2 by (zify_div; lia). cbn [mbind option_bind expect Z.eqb Pos.eqb].
  rewrite getnum_in_digits2 by (zify_div; lia). cbn [mbind option_bind expect Z.eqb Pos.eqb].
  rewrite get_fraction_printed by done. rewrite get_zone_printed by done.
  cbn [mbind option_bind].
  rewrite (proj2 (Z.leb_le 1 d)), (proj2 (Z.leb_le d (daysIn m y))) by lia. cbn [andb]. f_equal.
  unfold instant. rewrite Hdays.
  assert (sod / 3600 * 3600 + sod / 60 mod 60 * 60 + sod mod 60 = sod) as Hs by (zify_div; lia).
  assert (secs = secs / 86400 * 86400 + sod) as Hsecs by (unfold sod; zify_div; lia).
  assert (local = secs * Second + local mod Second) as Hlocal
    by (unfold secs, Second; clear; zify_div; lia).
  unfold local in Hlocal at 1. unfold Second in *. lia.
Qed.

(** What is printed is ASCII. *)
Lemma isDigit_byte c : isDigit c = true -> 0 <= c < 256.
Proof. unfold isDigit, in_range. intros [?%Z.leb_le ?%Z.leb_le]%andb_true_iff. lia. Qed.

Lemma digits2_bytes n : Forall (fun b => 0 <= b < 256) (digits2 n).
Proof. repeat constructor; apply isDigit_byte, isDigit_digit. Qed.

Lemma fraction_bytes n : 0 <= n < Second -> Forall (fun b => 0 <= b < 256) (fraction n).
Proof.
  intros Hn. unfold fraction. destruct (trimmed_nanoseconds n _ Hn eq_refl) as [_ Hd].
  destruct (reverse _); [constructor|]. constructor; [lia|].
  eapply Forall_impl; [exact Hd|]. apply isDigit_byte.
Qed.

Lemma zone_bytes off : Forall (fun b => 0 <= b < 256) (zone off).
Proof.
  unfold zone. destruct (off =? 0); [repeat constructor; lia|].
  constructor; [destruct (off <? 0); lia|]. apply Forall_app_2; [apply digits2_bytes|].
  constructor; [lia|]. apply digits2_bytes.
Qed.

Lemma format_bytes_bytes t off : Forall (fun b => 0 <= b < 256) (format_bytes t off).
Proof.
  unfold format_bytes, digits4. cbv zeta. destruct (date_of_days _) as [[y m] d].
  repeat (apply Forall_app_2 || (apply Forall_cons; split; [lia|]));
    auto using digits2_bytes, zone_bytes.
  apply fraction_bytes, Z.mod_pos_bound. done.
Qed.

Lemma ParseRFC3339_Format t off :
  printable t off -> ParseRFC3339 (FormatRFC3339Nano t off) = Some t.
Proof.
  intros Hp. unfold ParseRFC3339, FormatRFC3339Nano.
  rewrite bytes_of_string_of_bytes by apply format_bytes_bytes. by apply parse_format_bytes.
Qed.

(** A printed time is not the empty string. *)
Lemma Format_nonempty t off : printable t off -> FormatRFC3339Nano t off <> ""%string.
Proof. intros Hp E. pose proof (ParseRFC3339_Format t off Hp) as H. by rewrite E in H. Qed.

(** Times of the years 1 to 9998 are printable in every zone. *)
Definition year_0001 : Time := zeroTime + 86400 * Second.
Definition year_9999 : Time := 253370764800 * Second.

Lemma printable_years t off :
  year_0001 <= t < year_9999 -> -1440 < off < 1440 -> printable t off.
Proof.
  intros Ht Ho. split; [done|]. set (n := (t + off * 60 * Second) / Second / 86400 + epoch_days).
  assert (0 <= n < 3652059) as Hn
    by (unfold n, epoch_days, year_0001, year_9999, zeroTime, Second in *; zify_div; lia).
  unfold date_of_days. destruct (year_of_days n) as [y k] eqn:E.
  destruct (month_of_day _ _ _) as [m d]. cbn [fst].
  destruct (year_of_days_spec n y k E) as [Hy Hk].
  assert (year_length y <= 366) by (unfold year_length; destruct (isLeap y); lia).
  clearbody n. clear -Hn Hy Hk H. zify_div. lia.
Qed.
