(* ===== verification/Sha256.v ===== *)
(** * crypto/sha256 and encoding/hex

    The two standard-library functions behind [hashToken]: SHA-256 on byte
    lists (FIPS 180-4) with 32-bit words as [Z], and lower-case hexadecimal. *)
From S2P Require Import Prelude GoRuntime Utf8.
From Stdlib Require Import Ascii String.
Local Open Scope Z_scope.

Definition word32 (x : Z) : Z := Z.land x 4294967295.

Definition rotr (n x : Z) : Z := Z.lor (Z.shiftr x n) (word32 (Z.shiftl x (32 - n))).

Definition big_sigma0 (x : Z) : Z := Z.lxor (rotr 2 x) (Z.lxor (rotr 13 x) (rotr 22 x)).
Definition big_sigma1 (x : Z) : Z := Z.lxor (rotr 6 x) (Z.lxor (rotr 11 x) (rotr 25 x)).
Definition small_sigma0 (x : Z) : Z := Z.lxor (rotr 7 x) (Z.lxor (rotr 18 x) (Z.shiftr x 3)).
Definition small_sigma1 (x : Z) : Z := Z.lxor (rotr 17 x) (Z.lxor (rotr 19 x) (Z.shiftr x 10)).
Definition choice (x y z : Z) : Z :=
  Z.lxor (Z.land x y) (Z.land (Z.lxor x 4294967295) z).
Definition majority (x y z : Z) : Z :=
  Z.lxor (Z.land x y) (Z.lxor (Z.land x z) (Z.land y z)).

Definition round_constants : list Z :=
  [1116352408; 1899447441; 3049323471; 3921009573; 961987163; 1508970993; 2453635748; 2870763221;
   3624381080; 310598401; 607225278; 1426881987; 1925078388; 2162078206; 2614888103; 3248222580;
   3835390401; 4022224774; 264347078; 604807628; 770255983; 1249150122; 1555081692; 1996064986;
   2554220882; 2821834349; 2952996808; 3210313671; 3336571891; 3584528711; 113926993; 338241895;
   666307205; 773529912; 1294757372; 1396182291; 1695183700; 1986661051; 2177026350; 2456956037;
   2730485921; 2820302411; 3259730800; 3345764771; 3516065817; 3600352804; 4094571909; 275423344;
   430227734; 506948616; 659060556; 883997877; 958139571; 1322822218; 1537002063; 1747873779;
   1955562222; 2024104815; 2227730452; 2361852424; 2428436474; 2756734187; 3204031479; 3329325298].

(** The chaining value and, within a block, the working variables. *)
Record Words := mkWords { wa : Z; wb : Z; wc : Z; wd : Z; we : Z; wf : Z; wg : Z; wh : Z }.

Definition initial_words : Words :=
  mkWords 1779033703 3144134277 1013904242 2773480762 1359893119 2600822924 528734635 1541459225.

(** [n] big-endian bytes. *)
Fixpoint be_bytes (n : nat) (x : Z) : list Z :=
  match n with
  | O => []
  | S n => be_bytes n (x / 256) ++ [x mod 256]
  end.

(** A 1 bit, zeros up to 56 modulo 64 bytes, the bit length in 8 bytes. *)
Definition pad (msg : list Z) : list Z :=
  let n := Z.of_nat (List.length msg) in
  msg ++ 128 :: replicate (Z.to_nat ((55 - n) mod 64)) 0 ++ be_bytes 8 (8 * n).

Fixpoint words_of_bytes (bs : list Z) : list Z :=
  match bs with
  | b0 :: b1 :: b2 :: b3 :: rest =>
      ((b0 * 256 + b1) * 256 + b2) * 256 + b3 :: words_of_bytes rest
  | _ => []
  end.

(** The message schedule: [w] holds the words so far, newest first. *)
Fixpoint schedule (n : nat) (w : list Z) : list Z :=
  match n with
  | O => reverse w
  | S n =>
      let next := word32 (small_sigma1 (nth 1 w 0) + nth 6 w 0 +
                          small_sigma0 (nth 14 w 0) + nth 15 w 0) in
      schedule n (next :: w)
  end.

Definition compress_round (v : Words) (kw : Z * Z) : Words :=
  let t1 := word32 (wh v + big_sigma1 (we v) + choice (we v) (wf v) (wg v) + kw.1 + kw.2) in
  let t2 := word32 (big_sigma0 (wa v) + majority (wa v) (wb v) (wc v)) in
  mkWords (word32 (t1 + t2)) (wa v) (wb v) (wc v) (word32 (wd v + t1)) (we v) (wf v) (wg v).

Definition compress (h : Words) (block : list Z) : Words :=
  let w := schedule 48 (reverse (words_of_bytes block)) in
  let v := fold_left compress_round (zip round_constants w) h in
  mkWords (word32 (wa h + wa v)) (word32 (wb h + wb v)) (word32 (wc h + wc v))
    (word32 (wd h + wd v)) (word32 (we h + we v)) (word32 (wf h + wf v))
    (word32 (wg h + wg v)) (word32 (wh h + wh v)).

Fixpoint compress_blocks (n : nat) (h : Words) (bs : list Z) : Words :=
  match n with
  | O => h
  | S n => compress_blocks n (compress h (take 64 bs)) (drop 64 bs)
  end.

(** [sha256.Sum256] *)
Definition Sum256 (msg : list Z) : list Z :=
  let bs := pad msg in
  let h := compress_blocks (List.length bs / 64)%nat initial_words bs in
  [wa h; wb h; wc h; wd h; we h; wf h; wg h; wh h] ≫= be_bytes 4.

(** [hex.EncodeToString] *)
Definition hex_digit (d : Z) : Z := if d <? 10 then 48 + d else 87 + d.
Definition EncodeToString (bs : list Z) : string :=
  string_of_bytes (bs ≫= fun b => [hex_digit (b / 16); hex_digit (b mod 16)]).

(** The FIPS 180-4 example vectors: one block, and two. *)
Example Sum256_abc :
  EncodeToString (Sum256 (bytes_of_string "abc")) =
  "ba7816bf8f01cfea414140de5dae2223b00361a396177a9cb410ff61f20015ad"%string.
Proof. vm_compute. reflexivity. Qed.

Example Sum256_two_blocks :
  EncodeToString (Sum256 (bytes_of_string "abcdbcdecdefdefgefghfghighijhijkijkljklmklmnlmnomnopnopq")) =
  "248d6a61d20638b8e5c026930c3e6039a33ce45964ff2167f6ecedd419db06c1"%string.
Proof. vm_compute. reflexivity. Qed.

(** A padded message is a whole number of blocks, and a digest has 32 bytes. *)
Lemma length_be_bytes n x : List.length (be_bytes n x) = n.
Proof. revert x. induction n; intros x; simpl; [done|]. rewrite length_app, IHn. simpl. lia. Qed.

Lemma pad_blocks msg : (Z.of_nat (List.length (pad msg))) mod 64 = 0.
Proof.
  unfold pad. rewrite length_app. cbn [List.length]. rewrite length_app, length_replicate, length_be_bytes.
  pose proof (Z.mod_pos_bound (55 - Z.of_nat (List.length msg)) 64 ltac:(lia)).
  Z.to_euclidean_division_equations. lia.
Qed.

Lemma length_Sum256 msg : List.length (Sum256 msg) = 32%nat.
Proof. unfold Sum256. cbn [mbind list_bind]. by rewrite !length_app, !length_be_bytes. Qed.
