(* ===== verification/Graph.v ===== *)
(** * internal/graph: the wait-for forest

    Models [types.go] (snapshot, session, edge) and [Build] of [builder.go].
    Maps keyed by PID are [gmap Z _]; both map iterations and both sorts of
    [Build] go through the [GoRuntime] interface.  The second loop of [Build]
    writes [IsRoot] into the session map it was given; since the map is shared
    with the returned snapshot, the model threads it through the loop. *)
From S2P Require Import Prelude GoRuntime.
Local Open Scope Z_scope.

(** ** types.go *)
Record Session := mkSession {
  PID : Z;
  User : string;
  AppName : string;
  ClientAddr : string;
  State : string;
  WaitEventType : string;
  WaitEvent : string;
  BackendType : string;
  XactStart : Time;
  QueryStart : Time;
  WaitStart : Time;
  Query : string;
  BlockedBy : list Z;
  IsRoot : bool
}.

Record Edge := mkEdge {
  WaiterPID : Z;
  BlockerPID : Z;
  LockType : string;
  Relation : string;
  WaiterMode : string;
  BlockerMode : string
}.

Record EdgeKey := mkEdgeKey { key_WaiterPID : Z; key_BlockerPID : Z }.

Record Snapshot := mkSnapshot {
  Cluster : string;
  TakenAt : Time;
  Sessions : gmap Z Session;
  Edges : list Edge;
  Roots : list Z
}.

#[export] Instance Session_eq_dec : EqDecision Session.
Proof. solve_decision. Defined.
#[export] Instance Edge_eq_dec : EqDecision Edge.
Proof. solve_decision. Defined.
#[export] Instance EdgeKey_eq_dec : EqDecision EdgeKey.
Proof. solve_decision. Defined.
#[export] Instance EdgeKey_countable : Countable EdgeKey.
Proof.
  refine (inj_countable' (fun k => (key_WaiterPID k, key_BlockerPID k))
                         (fun p => mkEdgeKey p.1 p.2) _).
  by intros [].
Defined.
#[export] Instance Snapshot_eq_dec : EqDecision Snapshot.
Proof. solve_decision. Defined.

(** The zero values [Session{}], [Edge{WaiterPID: w, BlockerPID: b}] and
    [Snapshot{}]. *)
Definition emptySession : Session :=
  mkSession 0 "" "" "" "" "" "" "" zeroTime zeroTime zeroTime "" [] false.
Definition emptySnapshot : Snapshot := mkSnapshot "" zeroTime ∅ [] [].

Definition set_IsRoot (b : bool) (s : Session) : Session :=
  mkSession (PID s) (User s) (AppName s) (ClientAddr s) (State s)
    (WaitEventType s) (WaitEvent s) (BackendType s) (XactStart s)
    (QueryStart s) (WaitStart s) (Query s) (BlockedBy s) b.

Definition set_Query (q : string) (s : Session) : Session :=
  mkSession (PID s) (User s) (AppName s) (ClientAddr s) (State s)
    (WaitEventType s) (WaitEvent s) (BackendType s) (XactStart s)
    (QueryStart s) (WaitStart s) q (BlockedBy s) (IsRoot s).

(** ** builder.go *)
Record LockLabel := mkLockLabel {
  lbl_LockType : string;
  lbl_Relation : string;
  lbl_WaiterMode : string;
  lbl_BlockerMode : string
}.

(** The body of the inner loop: the edge of one (waiter, blocker) pair, with
    its label when there is one. *)
Definition make_edge (labels : gmap EdgeKey LockLabel) (pid blocker : Z) : Edge :=
  match labels !! mkEdgeKey pid blocker with
  | Some l => mkEdge pid blocker (lbl_LockType l) (lbl_Relation l)
                (lbl_WaiterMode l) (lbl_BlockerMode l)
  | None => mkEdge pid blocker "" "" "" ""
  end.

Definition edges_blocker_step (labels : gmap EdgeKey LockLabel) (pid : Z)
    (acc : list Edge * gmap Z bool) (blocker : Z) : list Edge * gmap Z bool :=
  let '(edges, isBlocker) := acc in
  (edges ++ [make_edge labels pid blocker], <[blocker := true]> isBlocker).

(** One iteration of [for pid, s := range sessions]. *)
Definition edges_session_step (labels : gmap EdgeKey LockLabel)
    (acc : list Edge * gmap Z bool) (entry : Z * Session) : list Edge * gmap Z bool :=
  fold_left (edges_blocker_step labels entry.1) (BlockedBy entry.2) acc.

(** One iteration of [for pid := range isBlocker]. *)
Definition roots_step (acc : gmap Z Session * list Z) (pid : Z)
    : gmap Z Session * list Z :=
  let '(sessions, roots) := acc in
  match sessions !! pid with
  | None => (sessions, roots)
  | Some s =>
      if (length (BlockedBy s) =? 0)%nat
      then (<[pid := set_IsRoot true s]> sessions, roots ++ [pid])
      else (sessions, roots)
  end.

(** The [less] argument of [sort.Slice(edges, ...)]. *)
Definition edge_less (a b : Edge) : bool :=
  if negb (WaiterPID a =? WaiterPID b) then WaiterPID a <? WaiterPID b
  else BlockerPID a <? BlockerPID b.

Definition Build `{GoRuntime} (cluster : string) (takenAt : Time)
    (sessions : gmap Z Session) (labels : gmap EdgeKey LockLabel) : Snapshot :=
  let '(edges, isBlocker) :=
    fold_left (edges_session_step labels) (range_map sessions) ([], ∅) in
  let '(sessions, roots) :=
    fold_left roots_step (range_map isBlocker).*1 (sessions, []) in
  mkSnapshot cluster takenAt sessions
    (sort_slice edge_less edges) (sort_slice int_less roots).

(** ** Specification: the wait-for relation *)

(** [w] waits for [b]: what [pg_blocking_pids] reported for session [w]. *)
Definition waits_for (sessions : gmap Z Session) (w b : Z) : Prop :=
  exists s, sessions !! w = Some s /\ b ∈ BlockedBy s.

(** A head blocker blocks someone, is a known session and waits for nobody. *)
Definition head_blocker (sessions : gmap Z Session) (r : Z) : Prop :=
  (exists w, waits_for sessions w r) /\
  exists s, sessions !! r = Some s /\ BlockedBy s = [].

(** The edges of the relation, with multiplicity, in map order. *)
Definition all_edges (sessions : gmap Z Session) (labels : gmap EdgeKey LockLabel)
    : list Edge :=
  map_to_list sessions ≫= fun entry => make_edge labels entry.1 <$> BlockedBy entry.2.

(** ** Lemmas on the two loops *)
Section loops.
Context (labels : gmap EdgeKey LockLabel).

Lemma make_edge_key pid blocker :
  WaiterPID (make_edge labels pid blocker) = pid /\
  BlockerPID (make_edge labels pid blocker) = blocker.
Proof. unfold make_edge. by case_match. Qed.

Lemma edges_blocker_fold pid bs es isb :
  fold_left (edges_blocker_step labels pid) bs (es, isb) =
  (es ++ (make_edge labels pid <$> bs),
   fold_left (fun m b => <[b := true]> m) bs isb).
Proof.
  revert es isb. induction bs as [|b bs IH]; intros es isb; simpl.
  - by rewrite app_nil_r.
  - by rewrite IH, <-app_assoc.
Qed.

Lemma insert_all_lookup (bs : list Z) (isb : gmap Z bool) p :
  is_Some (fold_left (fun m b => <[b := true]> m) bs isb !! p) <->
  p ∈ bs \/ is_Some (isb !! p).
Proof.
  revert isb. induction bs as [|b bs IH]; intros isb; simpl; [set_solver|].
  rewrite IH, lookup_insert_is_Some', elem_of_cons. naive_solver.
Qed.

Lemma edges_session_fold entries es isb :
  let r := fold_left (edges_session_step labels) entries (es, isb) in
  r.1 = es ++ (entries ≫= fun e => make_edge labels e.1 <$> BlockedBy e.2) /\
  forall p, is_Some (r.2 !! p) <->
    (exists w s, (w, s) ∈ entries /\ p ∈ BlockedBy s) \/ is_Some (isb !! p).
Proof.
  revert es isb. induction entries as [|[w s] entries IH]; intros es isb; simpl.
  - rewrite app_nil_r. split; [done|]. set_solver.
  - unfold edges_session_step at 2 4. simpl. rewrite edges_blocker_fold.
    destruct (IH (es ++ (make_edge labels w <$> BlockedBy s))
      (fold_left (fun m b => <[b := true]> m) (BlockedBy s) isb)) as [-> IH2].
    split; [by rewrite <-app_assoc|].
    intros p. rewrite IH2, insert_all_lookup. set_solver.
Qed.
End loops.

(** The root loop over distinct PIDs decides each of them on the original
    session map. *)
Definition is_root_pid (sessions : gmap Z Session) (p : Z) : bool :=
  match sessions !! p with
  | Some s => (length (BlockedBy s) =? 0)%nat
  | None => false
  end.

Lemma is_root_pid_spec sessions p :
  is_root_pid sessions p = true <-> exists s, sessions !! p = Some s /\ BlockedBy s = [].
Proof.
  unfold is_root_pid. destruct (sessions !! p) as [s|]; [|naive_solver].
  rewrite Nat.eqb_eq, length_zero_iff_nil. naive_solver.
Qed.

Definition flag_roots (sessions : gmap Z Session) (roots : list Z) : gmap Z Session :=
  map_imap (fun p s => Some (if bool_decide (p ∈ roots) then set_IsRoot true s else s)) sessions.

Definition roots_among (sessions : gmap Z Session) (pids : list Z) : list Z :=
  filter (fun p => is_root_pid sessions p = true) pids.

Lemma roots_among_snoc sessions pids p :
  roots_among sessions (pids ++ [p]) =
  roots_among sessions pids ++ (if is_root_pid sessions p then [p] else []).
Proof.
  unfold roots_among. rewrite filter_app. f_equal.
  rewrite filter_cons, filter_nil. by case_decide; case_match.
Qed.

Lemma flag_roots_lookup sessions roots p :
  flag_roots sessions roots !! p =
  (fun s => if bool_decide (p ∈ roots) then set_IsRoot true s else s) <$> sessions !! p.
Proof. unfold flag_roots. rewrite map_lookup_imap. by destruct (sessions !! p). Qed.

Lemma flag_roots_snoc sessions roots p s :
  sessions !! p = Some s ->
  flag_roots sessions (roots ++ [p]) =
  <[p := set_IsRoot true s]> (flag_roots sessions roots).
Proof.
  intros Hs. apply map_eq. intros q.
  rewrite lookup_insert, !flag_roots_lookup. case_decide; subst.
  - rewrite Hs. simpl. by rewrite bool_decide_eq_true_2 by set_solver.
  - destruct (sessions !! q); simpl; [|done].
    by rewrite (bool_decide_ext (q ∈ roots ++ [p]) (q ∈ roots)) by set_solver.
Qed.

Lemma roots_step_flag sessions pids p :
  p ∉ pids ->
  roots_step (flag_roots sessions (roots_among sessions pids), roots_among sessions pids) p =
  (flag_roots sessions (roots_among sessions (pids ++ [p])),
   roots_among sessions (pids ++ [p])).
Proof.
  intros Hp. unfold roots_step. rewrite flag_roots_lookup, roots_among_snoc.
  rewrite bool_decide_eq_false_2.
  2:{ unfold roots_among. rewrite list_elem_of_filter. tauto. }
  unfold is_root_pid. destruct (sessions !! p) as [s|] eqn:Es; simpl.
  - destruct (_ =? 0)%nat; [by erewrite flag_roots_snoc|by rewrite app_nil_r].
  - by rewrite app_nil_r.
Qed.

Lemma roots_fold sessions pids pids0 :
  NoDup (pids0 ++ pids) ->
  fold_left roots_step pids
    (flag_roots sessions (roots_among sessions pids0), roots_among sessions pids0) =
  (flag_roots sessions (roots_among sessions (pids0 ++ pids)),
   roots_among sessions (pids0 ++ pids)).
Proof.
  revert pids0. induction pids as [|p pids IH]; intros pids0 Hnd; cbn [fold_left].
  { by rewrite app_nil_r. }
  replace (pids0 ++ p :: pids) with ((pids0 ++ [p]) ++ pids) in *
    by (by rewrite <-app_assoc).
  rewrite roots_step_flag, IH; [done..|].
  apply NoDup_app in Hnd as [Hnd _]. apply NoDup_app in Hnd. set_solver.
Qed.

Lemma flag_roots_nil sessions : flag_roots sessions [] = sessions.
Proof. apply map_eq. intros p. rewrite flag_roots_lookup. by destruct (sessions !! p). Qed.

(** ** Build in closed form *)
Lemma edge_less_strict_weak : StrictWeak edge_less.
Proof.
  unfold edge_less. split; intros *.
  - destruct (Z.eqb_spec (WaiterPID a) (WaiterPID b)),
      (Z.eqb_spec (WaiterPID b) (WaiterPID a)); simpl;
      rewrite ?Z.ltb_lt, ?Z.ltb_ge; lia.
  - destruct (Z.eqb_spec (WaiterPID a) (WaiterPID b)),
      (Z.eqb_spec (WaiterPID b) (WaiterPID c)),
      (Z.eqb_spec (WaiterPID a) (WaiterPID c)); simpl;
      rewrite ?Z.ltb_ge; lia.
Qed.

Lemma edge_less_total_key a b :
  edge_less a b = false -> edge_less b a = false ->
  WaiterPID a = WaiterPID b /\ BlockerPID a = BlockerPID b.
Proof.
  unfold edge_less.
  destruct (Z.eqb_spec (WaiterPID a) (WaiterPID b)),
    (Z.eqb_spec (WaiterPID b) (WaiterPID a)); simpl; rewrite ?Z.ltb_ge; lia.
Qed.

#[export] Hint Resolve edge_less_strict_weak : pgl.

Section build.
Context `{Go : GoRuntime} (cluster : string) (takenAt : Time).
Context (sessions : gmap Z Session) (labels : gmap EdgeKey LockLabel).

(** The set of blockers the first loop collects, in the order the second
    loop visits it. *)
Definition blocker_pids : list Z :=
  (range_map (fold_left (edges_session_step labels) (range_map sessions) ([], ∅)).2).*1.

Lemma elem_of_blocker_pids p :
  p ∈ blocker_pids <-> exists w, waits_for sessions w p.
Proof.
  unfold blocker_pids. rewrite list_elem_of_fmap.
  destruct (edges_session_fold labels (range_map sessions) [] ∅) as [_ H].
  split.
  - intros ([q b] & -> & Hq). apply elem_of_range_map in Hq.
    destruct (proj1 (H q) (mk_is_Some _ _ Hq)) as [(w & s & Hs & Hp)|[? ?]].
    + apply elem_of_range_map in Hs. by exists w, s.
    + by rewrite lookup_empty in *.
  - intros (w & s & Hs & Hp).
    destruct (proj2 (H p)) as [b Hb].
    { left. exists w, s. by rewrite elem_of_range_map. }
    exists (p, b). by rewrite elem_of_range_map.
Qed.

Lemma NoDup_blocker_pids : NoDup blocker_pids.
Proof. apply NoDup_range_map. Qed.

Lemma Build_unfold :
  Build cluster takenAt sessions labels =
  mkSnapshot cluster takenAt
    (flag_roots sessions (roots_among sessions blocker_pids))
    (sort_slice edge_less
       (range_map sessions ≫= fun e => make_edge labels e.1 <$> BlockedBy e.2))
    (sort_slice int_less (roots_among sessions blocker_pids)).
Proof.
  unfold Build, blocker_pids.
  pose proof (edges_session_fold labels (range_map sessions) [] ∅) as [He _].
  destruct (fold_left (edges_session_step labels) _ _) as [es isb] eqn:E.
  simpl in He. subst es. simpl.
  rewrite <-(flag_roots_nil sessions) at 1.
  pose proof (roots_fold sessions (range_map isb).*1 []) as Hr.
  unfold roots_among in Hr at 1 2. rewrite filter_nil in Hr. simpl in Hr.
  rewrite Hr by apply NoDup_range_map. done.
Qed.

Lemma elem_of_roots_among p :
  p ∈ roots_among sessions blocker_pids <-> head_blocker sessions p.
Proof.
  unfold roots_among, head_blocker.
  by rewrite list_elem_of_filter, is_root_pid_spec, elem_of_blocker_pids, (comm and).
Qed.

Lemma Build_Roots_iff p :
  p ∈ Roots (Build cluster takenAt sessions labels) <-> head_blocker sessions p.
Proof.
  rewrite Build_unfold. simpl. by rewrite sort_slice_perm, elem_of_roots_among.
Qed.

Lemma Build_Edges_perm :
  Edges (Build cluster takenAt sessions labels) ≡ₚ all_edges sessions labels.
Proof.
  rewrite Build_unfold. simpl. rewrite sort_slice_perm. unfold all_edges.
  by rewrite range_map_perm.
Qed.

Lemma elem_of_all_edges e :
  e ∈ all_edges sessions labels <->
  waits_for sessions (WaiterPID e) (BlockerPID e) /\
  e = make_edge labels (WaiterPID e) (BlockerPID e).
Proof.
  unfold all_edges. rewrite list_elem_of_bind. split.
  - intros ([w s] & (b & -> & Hb)%list_elem_of_fmap & Hs). simpl in *.
    destruct (make_edge_key labels w b) as [-> ->].
    apply elem_of_map_to_list in Hs. by split; [exists s|].
  - intros [(s & Hs & Hb) He]. exists (WaiterPID e, s). simpl. split.
    + rewrite He at 1. by apply list_elem_of_fmap_2.
    + by apply elem_of_map_to_list.
Qed.
End build.

(** ** Walking the wait-for relation *)

Lemma tc_last_step {A} (R : relation A) x z : tc R x z -> exists y, R y z.
Proof. induction 1; eauto. Qed.

(** Following blockers from a waiter ends at a head blocker, at a PID outside
    the session set, or closes a deadlock cycle. *)
Section walk.
Context (sessions : gmap Z Session).
Implicit Types w p : Z.

Notation waits := (waits_for sessions).

Definition walk_end (w : Z) : Prop :=
  (exists r, tc waits w r /\ head_blocker sessions r) \/
  (exists b, tc waits w b /\ sessions !! b = None) \/
  (exists p, rtc waits w p /\ tc waits p p).

Lemma walk_from w p (V : gset Z) :
  tc waits w p -> V ⊆ dom sessions ->
  (forall v, v ∈ V -> tc waits v p /\ rtc waits w v) -> walk_end w.
Proof.
  remember (size (dom sessions ∖ V)) as k eqn:Ek. revert p V Ek.
  induction (Nat.lt_wf_0 k) as [k _ IH]. intros p V -> Hwp HV Hvisited.
  destruct (sessions !! p) as [s|] eqn:Es; [|right; left; eauto].
  destruct (BlockedBy s) as [|b bs] eqn:Eb.
  { left. exists p. split; [done|]. split; [|eauto].
    by eapply tc_last_step. }
  assert (waits p b) as Hpb by (exists s; rewrite Eb; set_solver).
  assert (p ∈ dom sessions) as Hpd by (apply elem_of_dom; eauto).
  destruct (decide (p ∈ V)) as [HpV|HpV].
  { right; right. exists p. destruct (Hvisited p HpV). eauto. }
  eapply (IH (size (dom sessions ∖ ({[p]} ∪ V)))); [|done|..].
  - apply subset_size. set_solver.
  - eapply tc_r; eauto.
  - set_solver.
  - intros v [->%elem_of_singleton|Hv]%elem_of_union.
    + split; [by apply tc_once|by apply tc_rtc].
    + destruct (Hvisited v Hv). split; [eapply tc_r; eauto|done].
Qed.
End walk.

(** ** Properties of Build *)
Section properties.
Context `{Go : GoRuntime}.
Context (cluster : string) (takenAt : Time).
Context (sessions : gmap Z Session) (labels : gmap EdgeKey LockLabel).

(** The pairs [pg_blocking_pids] confirmed, with repetitions. *)
Definition confirmed_pairs : list (Z * Z) :=
  map_to_list sessions ≫= fun entry => pair entry.1 <$> BlockedBy entry.2.

(** An edge carries the label of its own pair, or empty texts. *)
Definition labelled (e : Edge) : Prop :=
  match labels !! mkEdgeKey (WaiterPID e) (BlockerPID e) with
  | Some l => LockType e = lbl_LockType l /\ Relation e = lbl_Relation l /\
              WaiterMode e = lbl_WaiterMode l /\ BlockerMode e = lbl_BlockerMode l
  | None => LockType e = "" /\ Relation e = "" /\ WaiterMode e = "" /\ BlockerMode e = ""
  end.

Lemma all_edges_pairs :
  (fun e => (WaiterPID e, BlockerPID e)) <$> all_edges sessions labels = confirmed_pairs.
Proof.
  unfold all_edges, confirmed_pairs. induction (map_to_list sessions) as [|[w s] l IH]; [done|].
  cbn [mbind list_bind]. rewrite fmap_app. f_equal; [|exact IH].
  rewrite <-list_fmap_compose. apply list_fmap_ext. intros i b _. unfold compose. simpl.
  by destruct (make_edge_key labels w b) as [-> ->].
Qed.

(** C1: the edges of the built snapshot are exactly the pairs
    [pg_blocking_pids] confirmed, one edge per reported blocker (duplicates
    included), each carrying the label of its pair or empty labels when there
    is none; labels of unconfirmed pairs never create an edge; the edges are
    ordered by waiter and then blocker. *)
Theorem Build_edges_confirmed :
  let edges := Edges (Build cluster takenAt sessions labels) in
  ((fun e => (WaiterPID e, BlockerPID e)) <$> edges) ≡ₚ confirmed_pairs /\
  Forall labelled edges /\
  Sorted (not_after edge_less) edges.
Proof.
  intros edges. split; [|split].
  - rewrite <-all_edges_pairs. apply fmap_Permutation, Build_Edges_perm.
  - apply Forall_forall. intros e. unfold edges. rewrite Build_Edges_perm.
    intros [_ He]%elem_of_all_edges. unfold labelled, make_edge in *.
    revert He. destruct (labels !! _); intros He; rewrite He; done.
  - unfold edges. rewrite Build_unfold. apply sort_slice_sorted; auto with pgl.
Qed.

(** Build changes nothing in the session map but the [IsRoot] flag,
    which it sets on exactly the roots; it never clears the flag. *)
Lemma Build_sessions_flagged p :
  Sessions (Build cluster takenAt sessions labels) !! p =
  (fun s => if bool_decide (p ∈ Roots (Build cluster takenAt sessions labels))
            then set_IsRoot true s else s) <$> sessions !! p.
Proof.
  rewrite Build_unfold. simpl. rewrite flag_roots_lookup.
  destruct (sessions !! p); simpl; [|done].
  by rewrite (bool_decide_ext _ _ (elem_of_Permutation_proper _ _ _ (sort_slice_perm int_less _))).
Qed.

(** C2: the roots are exactly the head blockers - sessions of the snapshot
    that block someone and wait for nobody - each listed once, in
    increasing PID order; and the session map is the one given, with the
    [IsRoot] flag set on exactly the roots and nothing else changed. *)
Theorem Build_roots_head_blockers :
  StronglySorted Z.lt (Roots (Build cluster takenAt sessions labels)) /\
  (forall p, p ∈ Roots (Build cluster takenAt sessions labels) <-> head_blocker sessions p) /\
  forall p, Sessions (Build cluster takenAt sessions labels) !! p =
    (fun s => if bool_decide (p ∈ Roots (Build cluster takenAt sessions labels))
              then set_IsRoot true s else s) <$> sessions !! p.
Proof.
  split; [|split; [apply Build_Roots_iff|apply Build_sessions_flagged]].
  rewrite Build_unfold. simpl. apply sorted_NoDup_lt.
  - apply sort_slice_sorted; auto with pgl.
  - rewrite sort_slice_perm. apply NoDup_filter, NoDup_blocker_pids.
Qed.

(** C22: no waiter is left without an explanation: following the wait-for
    relation from any blocked session reaches a session listed in [Roots],
    a blocker that is not among the sessions, or a deadlock cycle. *)
Theorem Build_every_waiter_explained w b :
  waits_for sessions w b ->
  (exists r, tc (waits_for sessions) w r /\
             r ∈ Roots (Build cluster takenAt sessions labels)) \/
  (exists q, tc (waits_for sessions) w q /\ sessions !! q = None) \/
  (exists p, rtc (waits_for sessions) w p /\ tc (waits_for sessions) p p).
Proof.
  intros Hwb.
  destruct (walk_from sessions w b ∅) as [(r & Hr & Hh)|[H|H]];
    [by apply tc_once|set_solver|set_solver|left|by right; left|by right; right].
  exists r. by rewrite Build_Roots_iff.
Qed.
End properties.

(** ** Determinism *)
Section determinism.
Context (cluster : string) (takenAt : Time).
Context (sessions : gmap Z Session) (labels : gmap EdgeKey LockLabel).

Lemma roots_among_perm (Go1 Go2 : GoRuntime) :
  roots_among sessions (@blocker_pids Go1 sessions labels) ≡ₚ
  roots_among sessions (@blocker_pids Go2 sessions labels).
Proof.
  apply NoDup_Permutation; try apply NoDup_filter, NoDup_blocker_pids.
  intros p. by rewrite !elem_of_roots_among.
Qed.

Lemma flag_roots_perm rs1 rs2 : rs1 ≡ₚ rs2 ->
  flag_roots sessions rs1 = flag_roots sessions rs2.
Proof.
  intros Hp. apply map_eq. intros p. rewrite !flag_roots_lookup.
  destruct (sessions !! p); simpl; [|done].
  by rewrite (bool_decide_ext (p ∈ rs1) (p ∈ rs2)) by (by rewrite Hp).
Qed.

(** C21: the snapshot does not depend on the order in which Go visits the
    two maps, nor on how the unstable [sort.Slice] breaks ties. *)
Theorem Build_deterministic (Go1 Go2 : GoRuntime) :
  @Build Go1 cluster takenAt sessions labels = @Build Go2 cluster takenAt sessions labels.
Proof.
  rewrite !Build_unfold. f_equal.
  - apply flag_roots_perm, roots_among_perm.
  - apply sort_slice_unique; auto with pgl.
    + intros a b Ha Hb H1 H2. destruct (edge_less_total_key a b H1 H2) as [Hw Hk].
      rewrite range_map_perm in Ha, Hb.
      apply elem_of_all_edges in Ha as [_ ->], Hb as [_ ->]. by rewrite Hw, Hk.
    + apply sort_slice_sorted; auto with pgl.
    + by rewrite sort_slice_perm, !range_map_perm.
  - apply sort_slice_unique; auto with pgl.
    + eauto using int_less_total_key.
    + apply sort_slice_sorted; auto with pgl.
    + rewrite sort_slice_perm. apply roots_among_perm.
Qed.
End determinism.

(** ** A concrete cluster: 300 waits for 200, which waits for 100 *)
Definition session_of (pid : Z) (blockedBy : list Z) : Session :=
  mkSession pid "" "" "" "" "" "" "" zeroTime zeroTime zeroTime "" blockedBy false.
Definition demo_sessions : gmap Z Session :=
  {[ 100 := session_of 100 []; 200 := session_of 200 [100]; 300 := session_of 300 [200] ]}.

Example Build_demo :
  Roots (@Build canonical "c1" 0 demo_sessions ∅) = [100] /\
  Edges (@Build reversing "c1" 0 demo_sessions ∅) =
    [mkEdge 200 100 "" "" "" ""; mkEdge 300 200 "" "" "" ""].
Proof. split; vm_compute; reflexivity. Qed.

Lemma Build_every_waiter_explained_witness :
  waits_for demo_sessions 300 200 /\
  ((exists r, tc (waits_for demo_sessions) 300 r /\
              r ∈ Roots (@Build canonical "c1" 0 demo_sessions ∅)) \/
   (exists q, tc (waits_for demo_sessions) 300 q /\ demo_sessions !! q = None) \/
   (exists p, rtc (waits_for demo_sessions) 300 p /\ tc (waits_for demo_sessions) p p)).
Proof.
  assert (waits_for demo_sessions 300 200) as Hw.
  { exists (session_of 300 [200]). split; [reflexivity|by apply list_elem_of_singleton]. }
  split; [exact Hw|].
  exact (@Build_every_waiter_explained canonical "c1" 0 demo_sessions ∅ 300 200 Hw).
Defined.
