(* ===== verification/Store.v ===== *)
(** * internal/store: the snapshot ring and the live subscribers

    [Store] is the struct of [store.go] with one addition: the channels its
    subscribers hold are heap objects, kept in [st_chans] by reference.
    Every method is a definition on that state.  [Put] is built from the three
    phases the method has between its lock operations (the critical section,
    the save, the non-blocking sends), so the same definitions serve the
    sequential theorems and the interleaving semantics of [StoreConc.v]. *)
From S2P Require Import Prelude GoRuntime Graph.
Local Open Scope Z_scope.
Local Open Scope pglockr_scope.

(** ** The optional durable backend *)
Record Meta := mkMeta {
  meta_TakenAt : Time;
  meta_Roots : Z;
  meta_Edges : Z;
  meta_Sessions : Z
}.

(** The [Persister] interface: [P] is the state behind the interface value,
    an error is its message. *)
Class Persister (P : Type) := {
  Save : P -> Snapshot -> P * option string;
  PersistAt : P -> Time -> Result (Snapshot * bool);
  PersistHistory : P -> Time -> Time -> Result (list Meta)
}.

(** ** State *)

(** A [chan graph.Snapshot] made with capacity 1. *)
Record Chan := mkChan { ch_buf : list Snapshot; ch_closed : bool }.
Definition chan_cap : nat := 1.

Record Store (P : Type) := mkStore {
  st_buf : list Snapshot;
  st_head : Z;
  st_size : Z;
  st_cap : Z;
  st_subs : gmap Z Z;         (* subscriber id -> channel reference *)
  st_nextID : Z;
  st_persist : option P;
  st_log : option (list string); (* None: a nil logger; otherwise its lines *)
  st_chans : gmap Z Chan      (* the heap of channels *)
}.
Arguments mkStore {P}.
Arguments st_buf {P}.
Arguments st_head {P}.
Arguments st_size {P}.
Arguments st_cap {P}.
Arguments st_subs {P}.
Arguments st_nextID {P}.
Arguments st_persist {P}.
Arguments st_log {P}.
Arguments st_chans {P}.

Section store.
Context `{Go : GoRuntime} {P : Type} `{!Persister P}.
Implicit Types st : Store P.

(** ** Constructors *)
Definition New (ringSize : Z) : Outcome (Store P) :=
  let ringSize := if ringSize <? 1 then 1 else ringSize in
  let* buf := make_slice ringSize emptySnapshot in
  Ok (mkStore buf 0 0 ringSize ∅ 0 None None ∅).

(** The store [New] returns when the slice can be allocated. *)
Definition fresh (ringSize : Z) : Store P :=
  mkStore (replicate (Z.to_nat (Z.max 1 ringSize)) emptySnapshot) 0 0 (Z.max 1 ringSize) ∅ 0 None None ∅.

Definition SetPersister st (p : option P) (log : option (list string)) : Store P :=
  mkStore (st_buf st) (st_head st) (st_size st) (st_cap st) (st_subs st)
    (st_nextID st) p log (st_chans st).

(** [log.Warn(line)] on a logger that may be nil. *)
Definition warn (log : option (list string)) (line : string) : option (list string) :=
  match log with None => None | Some lines => Some (lines ++ [line]) end.

(** ** Put *)

(** The critical section: write the slot, advance, copy the subscribers. *)
Definition put_locked st (snap : Snapshot) : Outcome (Store P * list Z) :=
  let* buf := slice_set (st_buf st) (st_head st) snap in
  if st_cap st =? 0 then Panic "integer divide by zero" else
  let head := Z.rem (st_head st + 1) (st_cap st) in
  let size := if st_size st <? st_cap st then st_size st + 1 else st_size st in
  Ok (mkStore buf head size (st_cap st) (st_subs st) (st_nextID st)
        (st_persist st) (st_log st) (st_chans st),
      (range_map (st_subs st)).*2).

(** The save outside the lock. *)
Definition put_save st (snap : Snapshot) : Store P :=
  match st_persist st with
  | None => st
  | Some p =>
      let '(p', err) := Save p snap in
      mkStore (st_buf st) (st_head st) (st_size st) (st_cap st) (st_subs st)
        (st_nextID st) (Some p')
        (match err with
         | Some _ => warn (st_log st) "persist snapshot failed"
         | None => st_log st
         end) (st_chans st)
  end.

Definition set_chans st (chans : gmap Z Chan) : Store P :=
  mkStore (st_buf st) (st_head st) (st_size st) (st_cap st) (st_subs st)
    (st_nextID st) (st_persist st) (st_log st) chans.

(** [select { case ch <- snap: default: }]: a full (or nil) channel drops
    the snapshot, a closed one panics. *)
Definition send_nonblocking st (snap : Snapshot) (c : Z) : Outcome (Store P) :=
  match st_chans st !! c with
  | None => Ok st
  | Some ch =>
      if ch_closed ch then Panic "send on closed channel"
      else if (length (ch_buf ch) <? chan_cap)%nat
      then Ok (set_chans st (<[c := mkChan (ch_buf ch ++ [snap]) false]> (st_chans st)))
      else Ok st
  end.

Fixpoint put_sends st (snap : Snapshot) (subs : list Z) : Outcome (Store P) :=
  match subs with
  | [] => Ok st
  | c :: subs => let* st' := send_nonblocking st snap c in put_sends st' snap subs
  end.

(** [Put] when nothing runs between its phases. *)
Definition Put st (snap : Snapshot) : Outcome (Store P) :=
  let* r := put_locked st snap in
  put_sends (put_save r.1 snap) snap r.2.

(** ** Queries *)
Definition Latest st : Outcome (Snapshot * bool) :=
  if st_size st =? 0 then Ok (emptySnapshot, false) else
  let idx := Z.rem (st_head st - 1 + st_cap st) (st_cap st) in
  let* s := slice_get (st_buf st) idx in Ok (s, true).

(** One comparison of the loop of [At], in 64-bit durations. *)
Definition closer (t : Time) (s : Snapshot) (bestDiff : Duration) : option Duration :=
  let d := Sub t (TakenAt s) in
  let d := if d <? 0 then int64 (- d) else d in
  if d <? bestDiff then Some d else None.

Fixpoint at_loop st (t : Time) (n : nat) (i : Z) (best : Snapshot)
    (bestDiff : Duration) (found : bool) : Outcome (Snapshot * bool) :=
  match n with
  | O => Ok (best, found)
  | S n =>
      let idx := Z.rem (st_head st - 1 - i + st_cap st * 2) (st_cap st) in
      let* s := slice_get (st_buf st) idx in
      match closer t s bestDiff with
      | Some d => at_loop st t n (i + 1) s d true
      | None => at_loop st t n (i + 1) best bestDiff found
      end
  end.

Definition at_ring st (t : Time) : Outcome (Snapshot * bool) :=
  if st_size st =? 0 then Ok (emptySnapshot, false) else
  at_loop st t (Z.to_nat (st_size st)) 0 emptySnapshot MaxInt64 false.

(** [At] also returns the store, for the warning it may log. *)
Definition set_log st (log : option (list string)) : Store P :=
  mkStore (st_buf st) (st_head st) (st_size st) (st_cap st) (st_subs st)
    (st_nextID st) (st_persist st) log (st_chans st).

Definition At st (t : Time) : Store P * Outcome (Snapshot * bool) :=
  match st_persist st with
  | None => (st, at_ring st t)
  | Some p =>
      match PersistAt p t with
      | Val r => (st, Ok r)
      | Err _ =>
          (set_log st (warn (st_log st) "persist At failed; falling back to ring"),
           at_ring st t)
      end
  end.

Definition meta_of (s : Snapshot) : Meta :=
  mkMeta (TakenAt s) (Z.of_nat (length (Roots s)))
    (Z.of_nat (length (Edges s))) (Z.of_nat (size (Sessions s))).

(** The two [continue] guards of the loop of [History]. *)
Definition in_window (from to : Time) (s : Snapshot) : bool :=
  if negb (IsZero from) && Before (TakenAt s) from then false
  else if negb (IsZero to) && After (TakenAt s) to then false
  else true.

Fixpoint history_loop st (from to : Time) (n : nat) (i : Z) (out : list Meta)
    : Outcome (list Meta) :=
  match n with
  | O => Ok out
  | S n =>
      let idx := Z.rem (st_head st - st_size st + i + st_cap st * 2) (st_cap st) in
      let* s := slice_get (st_buf st) idx in
      history_loop st from to n (i + 1)
        (if in_window from to s then out ++ [meta_of s] else out)
  end.

Definition history_ring st (from to : Time) : Outcome (list Meta) :=
  history_loop st from to (Z.to_nat (st_size st)) 0 [].

Definition History st (from to : Time) : Store P * Outcome (list Meta) :=
  match st_persist st with
  | None => (st, history_ring st from to)
  | Some p =>
      match PersistHistory p from to with
      | Val metas => (st, Ok metas)
      | Err _ =>
          (set_log st (warn (st_log st) "persist History failed; falling back to ring"),
           history_ring st from to)
      end
  end.

(** ** Subscriptions *)
Definition Subscribe st : Store P * (Z * Z) :=
  let id := st_nextID st in
  let c := id in (* make(chan graph.Snapshot, 1): a fresh reference *)
  (mkStore (st_buf st) (st_head st) (st_size st) (st_cap st)
     (<[id := c]> (st_subs st)) (id + 1) (st_persist st) (st_log st)
     (<[c := mkChan [] false]> (st_chans st)), (id, c)).

(** The unsubscribe function returned for [id]; closing twice panics. *)
Definition Unsubscribe st (id : Z) : Outcome (Store P) :=
  match st_subs st !! id with
  | None => Ok st
  | Some c =>
      match st_chans st !! c with
      | None => Panic "close of nil channel"
      | Some ch =>
          if ch_closed ch then Panic "close of closed channel" else
          Ok (mkStore (st_buf st) (st_head st) (st_size st) (st_cap st)
                (delete id (st_subs st)) (st_nextID st) (st_persist st) (st_log st)
                (<[c := mkChan (ch_buf ch) true]> (st_chans st)))
      end
  end.

(** [snap, ok := <-sub] when it does not block. *)
Definition Receive st (c : Z) : option (Store P * option Snapshot) :=
  match st_chans st !! c with
  | None => None
  | Some ch =>
      match ch_buf ch with
      | s :: rest =>
          Some (set_chans st (<[c := mkChan rest (ch_closed ch)]> (st_chans st)), Some s)
      | [] => if ch_closed ch then Some (st, None) else None
      end
  end.
End store.

(** ** Abstraction: the ring holds a bounded list of snapshots *)
#[export] Instance Snapshot_inhabited : Inhabited Snapshot := populate emptySnapshot.

Section ring.
Context `{Go : GoRuntime} {P : Type} `{!Persister P}.
Implicit Types st : Store P.

Record ring_wf st : Prop := {
  wf_cap : 1 <= st_cap st;
  wf_len : Z.of_nat (length (st_buf st)) = st_cap st;
  wf_head : 0 <= st_head st < st_cap st;
  wf_size : 0 <= st_size st <= st_cap st
}.

(** The newest [len] entries of a ring written up to [head], oldest first. *)
Definition ring_view (buf : list Snapshot) (head cap len : Z) : list Snapshot :=
  (fun k => buf !!! Z.to_nat ((head - len + k) mod cap)) <$> seqZ 0 len.

(** The retained snapshots, oldest first. *)
Definition contents st : list Snapshot :=
  ring_view (st_buf st) (st_head st) (st_cap st) (st_size st).

Lemma length_ring_view buf head cap len :
  length (ring_view buf head cap len) = Z.to_nat len.
Proof. unfold ring_view. by rewrite length_fmap, length_seqZ. Qed.

Lemma ring_view_lookup buf head cap len (k : nat) :
  Z.of_nat k < len ->
  ring_view buf head cap len !! k = Some (buf !!! Z.to_nat ((head - len + Z.of_nat k) mod cap)).
Proof.
  intros Hk. unfold ring_view. by rewrite list_lookup_fmap, lookup_seqZ_lt by lia.
Qed.

(** Writing at the head extends the view by one entry. *)
Lemma ring_view_write buf head cap len x :
  Z.of_nat (length buf) = cap -> 0 <= head < cap -> 0 <= len < cap ->
  ring_view (<[Z.to_nat head := x]> buf) ((head + 1) mod cap) cap (len + 1) =
  ring_view buf head cap len ++ [x].
Proof.
  intros Hl Hh Hlen. unfold ring_view. rewrite seqZ_app, fmap_app by lia. f_equal.
  - apply list_fmap_ext. intros i k [-> Hk]%lookup_seqZ.
    rewrite mod_sub_add.
    replace (head + 1 - (len + 1) + (0 + Z.of_nat i))
      with (head - len + (0 + Z.of_nat i)) by lia.
    rewrite list_lookup_total_insert_ne; [done|].
    intros Heq. apply Z2Nat.inj in Heq; [|lia|apply Z.mod_pos_bound; lia].
    enough (head = head - len + (0 + Z.of_nat i)) by lia.
    apply (mod_shift_inj _ _ cap); [lia|by rewrite (Z.mod_small head) by lia|lia].
  - unfold seqZ. simpl. f_equal. rewrite mod_sub_add.
    replace (head + 1 - (len + 1) + (Z.of_nat 0 + (0 + len))) with head by lia.
    rewrite Z.mod_small by lia. apply list_lookup_total_insert_eq. lia.
Qed.

Lemma ring_view_drop buf head cap len :
  0 < len -> ring_view buf head cap (len - 1) = drop 1 (ring_view buf head cap len).
Proof.
  intros Hlen. apply list_eq. intros i. rewrite lookup_drop.
  destruct (decide (Z.of_nat i < len - 1)).
  - rewrite !ring_view_lookup by lia. do 3 f_equal. f_equal. lia.
  - rewrite !lookup_ge_None_2; [done| |]; rewrite length_ring_view; lia.
Qed.

Lemma length_contents st : ring_wf st -> Z.of_nat (length (contents st)) = st_size st.
Proof. intros []. unfold contents. rewrite length_ring_view. lia. Qed.

(** Every index the queries compute is the slot of some entry, so reading
    it never panics. *)
Lemma slice_get_entry st (k : nat) idx :
  ring_wf st -> Z.of_nat k < st_size st ->
  idx = (st_head st - st_size st + Z.of_nat k) mod st_cap st ->
  exists s, contents st !! k = Some s /\ slice_get (st_buf st) idx = Ok s.
Proof.
  intros [Hc Hl Hh Hs] Hk ->.
  pose proof (Z.mod_pos_bound (st_head st - st_size st + Z.of_nat k) (st_cap st) ltac:(lia)).
  destruct (lookup_lt_is_Some_2 (st_buf st)
    (Z.to_nat ((st_head st - st_size st + Z.of_nat k) mod st_cap st))) as [s Hs']; [lia|].
  exists s. unfold contents. rewrite ring_view_lookup by done. split.
  - by rewrite (list_lookup_total_correct _ _ _ Hs').
  - apply slice_get_lookup; [lia|done].
Qed.

Lemma New_fresh n :
  (New n : Outcome (Store P)) = if Z.max 1 n <=? make_limit then Ok (fresh n) else Panic "makeslice: len out of range".
Proof.
  unfold New, fresh. replace (if n <? 1 then 1 else n) with (Z.max 1 n) by (destruct (Z.ltb_spec n 1); lia).
  unfold make_slice. destruct (Z.ltb_spec (Z.max 1 n) 0); [lia|]. cbn [orb].
  by destruct (Z.ltb_spec make_limit (Z.max 1 n)), (Z.leb_spec (Z.max 1 n) make_limit); [lia| | |lia].
Qed.

Lemma New_Ok n (st : Store P) : New n = Ok st -> st = fresh n /\ Z.max 1 n <= make_limit.
Proof. rewrite New_fresh. destruct (Z.leb_spec (Z.max 1 n) make_limit); [|done]. by intros [= <-]. Qed.

Lemma fresh_wf n : ring_wf (fresh n).
Proof. split; simpl; rewrite ?length_replicate; lia. Qed.

Lemma fresh_cap n : st_cap (fresh n : Store P) = Z.max 1 n.
Proof. done. Qed.

Lemma fresh_contents n : contents (fresh n) = [].
Proof. done. Qed.

(** Writing at the head appends to the contents, dropping the oldest entry
    when the ring is full. *)
Lemma put_locked_ok st snap :
  ring_wf st ->
  exists st', put_locked st snap = Ok (st', (range_map (st_subs st)).*2) /\
    ring_wf st' /\ contents st' = lastn (Z.to_nat (st_cap st)) (contents st ++ [snap]) /\
    st_cap st' = st_cap st /\ st_subs st' = st_subs st /\ st_chans st' = st_chans st /\
    st_nextID st' = st_nextID st /\ st_persist st' = st_persist st /\ st_log st' = st_log st.
Proof.
  intros Hwf. pose proof (length_contents st Hwf) as Hlc.
  pose proof Hwf as [Hc Hl Hh Hs]. unfold put_locked.
  rewrite slice_set_in_range by lia. simpl.
  destruct (Z.eqb_spec (st_cap st) 0); [lia|].
  eexists. split; [done|]. rewrite Z.rem_mod_nonneg by lia.
  assert (0 <= (st_head st + 1) mod st_cap st < st_cap st) by (apply Z.mod_pos_bound; lia).
  split; [|split; [|done]].
  { split; simpl; rewrite ?length_insert; destruct (Z.ltb_spec (st_size st) (st_cap st)); lia. }
  unfold contents at 1. simpl. destruct (Z.ltb_spec (st_size st) (st_cap st)) as [Hlt|Hge].
  - rewrite ring_view_write by lia. rewrite lastn_all; [done|]. rewrite length_app. simpl. lia.
  - assert (st_size st = st_cap st) as Hfull by lia.
    rewrite lastn_snoc by lia. unfold lastn.
    replace (st_size st) with (st_cap st - 1 + 1) by lia.
    rewrite ring_view_write by lia. f_equal.
    replace (st_cap st - 1) with (st_size st - 1) by lia.
    rewrite ring_view_drop by lia. fold (contents st). f_equal. lia.
Qed.
End ring.

(** ** Queries on the abstraction *)

(** The loop of [At] over the retained snapshots, newest first. *)
Fixpoint nearest (t : Time) (l : list Snapshot) (best : Snapshot)
    (bestDiff : Duration) (found : bool) : Snapshot * bool :=
  match l with
  | [] => (best, found)
  | s :: l =>
      match closer t s bestDiff with
      | Some d => nearest t l s d true
      | None => nearest t l best bestDiff found
      end
  end.

Definition distance (t : Time) (s : Snapshot) : Z := Z.abs (t - TakenAt s).

Lemma closer_in_range t s d :
  distance t s < MaxInt64 ->
  closer t s d = if distance t s <? d then Some (distance t s) else None.
Proof.
  unfold distance, closer. intros Hr.
  rewrite Sub_exact by (unfold in_int64, MinInt64, MaxInt64 in *; lia).
  destruct (Z.ltb_spec (t - TakenAt s) 0).
  - rewrite int64_id by (unfold in_int64, MinInt64, MaxInt64 in *; lia).
    by rewrite Z.abs_neq by lia.
  - by rewrite Z.abs_eq by lia.
Qed.

(** Either nothing beats the current best, or the result is the first entry
    at the least distance. *)
Lemma nearest_spec t l best d found :
  (forall s, s ∈ l -> distance t s < MaxInt64) ->
  (nearest t l best d found = (best, found) /\ forall s, s ∈ l -> d <= distance t s) \/
  exists l1 s l2, l = l1 ++ s :: l2 /\ nearest t l best d found = (s, true) /\
    distance t s < d /\ (forall x, x ∈ l1 -> distance t s < distance t x) /\
    (forall x, x ∈ l2 -> distance t s <= distance t x).
Proof.
  revert best d found. induction l as [|s l IH]; intros best d found Hr; cbn [nearest].
  { left. split; [done|]. set_solver. }
  rewrite closer_in_range by (apply Hr; set_solver).
  assert (forall x, x ∈ l -> distance t x < MaxInt64) as Hr' by set_solver.
  destruct (Z.ltb_spec (distance t s) d) as [Hlt|Hge].
  - right. destruct (IH s (distance t s) true Hr')
      as [[-> Hl]|(l1 & x & l2 & -> & -> & Hx & H1 & H2)].
    + exists [], s, l. set_solver.
    + exists (s :: l1), x, l2. repeat split; [lia| |done].
      intros y [->|Hy]%elem_of_cons; [done|auto].
  - destruct (IH best d found Hr') as [[-> Hl]|(l1 & x & l2 & -> & -> & Hx & H1 & H2)].
    + left. split; [done|]. intros x [->|Hx]%elem_of_cons; auto.
    + right. exists (s :: l1), x, l2. repeat split; [done| |done].
      intros y [->|Hy]%elem_of_cons; [lia|auto].
Qed.

Section queries.
Context {P : Type} `{!Persister P}.
Implicit Types st : Store P.

Lemma Latest_contents st :
  ring_wf st ->
  Latest st = Ok (match last (contents st) with
                  | Some s => (s, true)
                  | None => (emptySnapshot, false)
                  end).
Proof.
  intros Hwf. pose proof (length_contents st Hwf) as Hl. unfold Latest.
  destruct (Z.eqb_spec (st_size st) 0) as [E|E].
  { destruct (contents st) eqn:Ec; [done|]. simpl in Hl. lia. }
  pose proof Hwf as [Hc Hlen Hh Hs].
  destruct (slice_get_entry st (Z.to_nat (st_size st - 1))
    (Z.rem (st_head st - 1 + st_cap st) (st_cap st)) Hwf) as (s & Hk & ->); [lia| |].
  { rewrite <-(Z.mul_1_r (st_cap st)) at 1. rewrite rem_shift_mod by lia.
    f_equal. lia. }
  simpl. rewrite last_lookup.
  replace (Nat.pred (length (contents st))) with (Z.to_nat (st_size st - 1)) by lia.
  by rewrite Hk.
Qed.

Lemma history_loop_contents st from to n out :
  ring_wf st -> (n <= length (contents st))%nat ->
  history_loop st from to n (st_size st - Z.of_nat n) out =
  Ok (out ++ (meta_of <$> filter (fun s => in_window from to s = true)
                (drop (length (contents st) - n) (contents st)))).
Proof.
  intros Hwf. pose proof (length_contents st Hwf) as Hl.
  revert out. induction n as [|n IH]; intros out Hn; cbn [history_loop].
  { rewrite Nat.sub_0_r, drop_all. simpl. by rewrite app_nil_r. }
  pose proof Hwf as [Hc Hlen Hh Hs].
  destruct (slice_get_entry st (length (contents st) - S n)
    (Z.rem (st_head st - st_size st + (st_size st - Z.of_nat (S n)) + st_cap st * 2) (st_cap st)) Hwf)
    as (s & Hk & ->); [lia| |].
  { rewrite rem_shift_mod by lia. f_equal. lia. }
  simpl. replace (st_size st - Z.of_nat (S n) + 1) with (st_size st - Z.of_nat n) by lia.
  rewrite IH by lia. f_equal.
  rewrite (drop_S _ _ _ Hk), filter_cons.
  replace (S (length (contents st) - S n)) with (length (contents st) - n)%nat by lia.
  destruct (in_window from to s); case_decide; try done.
  simpl. by rewrite <-app_assoc.
Qed.

Lemma history_ring_contents st from to :
  ring_wf st ->
  history_ring st from to =
  Ok (meta_of <$> filter (fun s => in_window from to s = true) (contents st)).
Proof.
  intros Hwf. pose proof (length_contents st Hwf) as Hl. unfold history_ring.
  pose proof (history_loop_contents st from to (Z.to_nat (st_size st)) [] Hwf) as H.
  replace (st_size st - Z.of_nat (Z.to_nat (st_size st))) with 0 in H by lia.
  rewrite H by lia. by replace (length (contents st) - Z.to_nat (st_size st))%nat with 0%nat by lia.
Qed.

Lemma at_loop_contents st t n best d found :
  ring_wf st -> (n <= length (contents st))%nat ->
  at_loop st t n (st_size st - Z.of_nat n) best d found =
  Ok (nearest t (reverse (take n (contents st))) best d found).
Proof.
  intros Hwf. pose proof (length_contents st Hwf) as Hl. pose proof Hwf as [Hc Hlen Hh Hs].
  revert best d found. induction n as [|n IH]; intros best d found Hn; cbn [at_loop]; [done|].
  destruct (slice_get_entry st n
    (Z.rem (st_head st - 1 - (st_size st - Z.of_nat (S n)) + st_cap st * 2) (st_cap st)) Hwf)
    as (s & Hk & ->); [lia| |].
  { rewrite rem_shift_mod by lia. f_equal. lia. }
  simpl. rewrite (take_S_r _ _ _ Hk), reverse_snoc. simpl.
  replace (st_size st - Z.of_nat (S n) + 1) with (st_size st - Z.of_nat n) by lia.
  case_match; apply IH; lia.
Qed.

Lemma at_ring_contents st t :
  ring_wf st ->
  at_ring st t = Ok (nearest t (reverse (contents st)) emptySnapshot MaxInt64 false).
Proof.
  intros Hwf. pose proof (length_contents st Hwf) as Hl. unfold at_ring.
  destruct (Z.eqb_spec (st_size st) 0) as [E|E].
  { destruct (contents st) eqn:Ec; [done|]. simpl in Hl. lia. }
  pose proof (at_loop_contents st t (Z.to_nat (st_size st)) emptySnapshot MaxInt64 false Hwf) as H.
  replace (st_size st - Z.of_nat (Z.to_nat (st_size st))) with 0 in H by lia.
  rewrite H by lia. by rewrite take_ge by lia.
Qed.
End queries.

(** ** Subscribers *)

(** What a non-blocking send leaves in an open channel. *)
Definition deliver (snap : Snapshot) (ch : Chan) : Chan :=
  if (length (ch_buf ch) <? chan_cap)%nat
  then mkChan (ch_buf ch ++ [snap]) (ch_closed ch) else ch.

Definition deliver_to (snap : Snapshot) (cs : list Z) (chans : gmap Z Chan) : gmap Z Chan :=
  map_imap (fun c ch => Some (if bool_decide (c ∈ cs) then deliver snap ch else ch)) chans.

Lemma deliver_to_lookup snap cs chans c :
  deliver_to snap cs chans !! c =
  (fun ch => if bool_decide (c ∈ cs) then deliver snap ch else ch) <$> chans !! c.
Proof. unfold deliver_to. rewrite map_lookup_imap. by destruct (chans !! c). Qed.

Lemma deliver_closed snap ch : ch_closed (deliver snap ch) = ch_closed ch.
Proof. unfold deliver. by case_match. Qed.

Lemma deliver_length snap ch :
  (length (ch_buf ch) <= chan_cap)%nat -> (length (ch_buf (deliver snap ch)) <= chan_cap)%nat.
Proof.
  unfold deliver, chan_cap. destruct (Nat.ltb_spec (length (ch_buf ch)) 1); simpl; [|done].
  rewrite length_app. simpl. lia.
Qed.

Section subscribers.
Context `{Go : GoRuntime} {P : Type} `{!Persister P}.
Implicit Types st : Store P.

(** A registered subscriber has its own channel, open and within capacity. *)
Record chans_wf st : Prop := {
  cw_subs : forall id c, st_subs st !! id = Some c ->
    c = id /\ exists ch, st_chans st !! c = Some ch /\ ch_closed ch = false;
  cw_fresh : forall c, is_Some (st_chans st !! c) -> c < st_nextID st;
  cw_cap : forall c ch, st_chans st !! c = Some ch -> (length (ch_buf ch) <= chan_cap)%nat
}.

Record store_wf st : Prop := { sw_ring : ring_wf st; sw_chans : chans_wf st }.

Lemma fresh_store_wf n : store_wf (fresh n).
Proof. split; [apply fresh_wf|]. split; simpl; intros *; rewrite lookup_empty; by inversion 1. Qed.

Lemma set_chans_same st : set_chans st (st_chans st) = st.
Proof. by destruct st. Qed.

Lemma put_sends_ok st snap cs :
  NoDup cs ->
  (forall c, c ∈ cs -> exists ch, st_chans st !! c = Some ch /\ ch_closed ch = false) ->
  put_sends st snap cs = Ok (set_chans st (deliver_to snap cs (st_chans st))).
Proof.
  revert st. induction cs as [|c cs IH]; intros st Hnd Hopen; cbn [put_sends].
  { rewrite <-(set_chans_same st) at 1. do 2 f_equal. apply map_eq. intros c.
    rewrite deliver_to_lookup. by destruct (st_chans st !! c). }
  apply NoDup_cons in Hnd as [Hc Hnd].
  destruct (Hopen c) as (ch & Hch & Hcl); [set_solver|].
  assert (send_nonblocking st snap c =
    Ok (set_chans st (<[c := deliver snap ch]> (st_chans st)))) as ->.
  { unfold send_nonblocking, deliver. rewrite Hch, Hcl. case_match; [done|].
    rewrite insert_id by done. by rewrite set_chans_same. }
  simpl. rewrite IH; [|done|].
  - unfold set_chans. simpl. do 2 f_equal. apply map_eq. intros d.
    rewrite !deliver_to_lookup, lookup_insert. case_decide; subst.
    + rewrite Hch. simpl. by rewrite bool_decide_eq_false_2, bool_decide_eq_true_2 by set_solver.
    + by rewrite (bool_decide_ext (d ∈ c :: cs) (d ∈ cs)) by set_solver.
  - intros d Hd. destruct (Hopen d) as (ch' & Hch' & Hcl'); [set_solver|].
    simpl. exists ch'. by rewrite lookup_insert_ne by set_solver.
Qed.

Lemma send_closed st snap c ch :
  st_chans st !! c = Some ch -> ch_closed ch = true ->
  send_nonblocking st snap c = Panic "send on closed channel".
Proof. intros Hch Hcl. unfold send_nonblocking. by rewrite Hch, Hcl. Qed.

(** The references the critical section copies are the registered ones. *)
Lemma elem_of_copied_subs st c :
  c ∈ (range_map (st_subs st)).*2 <-> exists id, st_subs st !! id = Some c.
Proof.
  rewrite list_elem_of_fmap. split.
  - intros ([id c'] & -> & H). exists id. by apply elem_of_range_map.
  - intros [id H]. exists (id, c). by rewrite elem_of_range_map.
Qed.

Lemma NoDup_copied_subs st : chans_wf st -> NoDup (range_map (st_subs st)).*2.
Proof.
  intros [Hs _ _]. replace ((range_map (st_subs st)).*2) with ((range_map (st_subs st)).*1).
  { apply NoDup_range_map. }
  apply list_fmap_ext. intros i [id c] H%list_elem_of_lookup_2%elem_of_range_map.
  simpl. by destruct (Hs id c H).
Qed.

Lemma put_save_same st snap :
  st_buf (put_save st snap) = st_buf st /\ st_head (put_save st snap) = st_head st /\
  st_size (put_save st snap) = st_size st /\ st_cap (put_save st snap) = st_cap st /\
  st_subs (put_save st snap) = st_subs st /\ st_chans (put_save st snap) = st_chans st /\
  st_nextID (put_save st snap) = st_nextID st.
Proof. unfold put_save. destruct (st_persist st); [|done]. by destruct (Save _ _). Qed.

Lemma put_save_ring_wf st snap : ring_wf st -> ring_wf (put_save st snap).
Proof.
  destruct (put_save_same st snap) as (E1 & E2 & E3 & E4 & _).
  intros []; split; rewrite ?E1, ?E2, ?E3, ?E4; done.
Qed.

Lemma put_save_contents st snap : contents (put_save st snap) = contents st.
Proof.
  unfold contents. destruct (put_save_same st snap) as (-> & -> & -> & -> & _). done.
Qed.

Lemma deliver_chans_wf st snap cs :
  chans_wf st -> chans_wf (set_chans st (deliver_to snap cs (st_chans st))).
Proof.
  intros [Hs Hf Hc]. split; simpl.
  - intros id c H. destruct (Hs id c H) as (-> & ch & Hch & Hcl). split; [done|].
    rewrite deliver_to_lookup, Hch. simpl. eexists. split; [done|].
    case_bool_decide; [by rewrite deliver_closed|done].
  - intros c. rewrite deliver_to_lookup, fmap_is_Some. apply Hf.
  - intros c ch. rewrite deliver_to_lookup. intros (ch' & H & ->)%fmap_Some.
    case_bool_decide; eauto using deliver_length.
Qed.

(** An uninterrupted [Put] on a well-formed store. *)
Lemma Put_ok st snap :
  store_wf st ->
  exists st', Put st snap = Ok st' /\ store_wf st' /\
    contents st' = lastn (Z.to_nat (st_cap st)) (contents st ++ [snap]) /\
    st_cap st' = st_cap st /\ st_subs st' = st_subs st /\
    st_chans st' = deliver_to snap (range_map (st_subs st)).*2 (st_chans st).
Proof.
  intros [Hr Hch]. unfold Put.
  destruct (put_locked_ok st snap Hr)
    as (st1 & -> & Hr1 & Hc1 & Hcap1 & Hsub1 & Hch1 & Hid1 & _). simpl.
  destruct (put_save_same st1 snap) as (_ & _ & _ & Ecap & Esub & Echs & Eid).
  assert (chans_wf (put_save st1 snap)) as Hcw.
  { destruct Hch. split; rewrite ?Esub, ?Echs, ?Eid, ?Hsub1, ?Hch1, ?Hid1; done. }
  rewrite put_sends_ok.
  - eexists. split; [done|]. split; [split; [|by apply deliver_chans_wf]|].
    { by destruct (put_save_ring_wf st1 snap Hr1). }
    rewrite Echs, Hch1, <-Hc1, <-Hcap1, <-Ecap, <-Hsub1, <-Esub.
    split; [|done]. by rewrite <-(put_save_contents st1 snap).
  - by apply NoDup_copied_subs.
  - intros c [id H]%elem_of_copied_subs. rewrite Echs, Hch1.
    by apply Hch in H as (_ & H).
Qed.
End subscribers.

(** ** Subscriptions keep the invariant *)
Section subscriptions.
Context {P : Type} `{!Persister P}.
Implicit Types st : Store P.

Lemma Subscribe_wf st : store_wf st -> store_wf (Subscribe st).1.
Proof.
  intros [[] [Hs Hf Hc]]. split; [by split|]. split; simpl.
  - intros id c [[? ?]|[Hne H]]%lookup_insert_Some; subst.
    + split; [done|]. rewrite lookup_insert_eq. eauto.
    + destruct (Hs id c H) as (-> & ch & Hch & Hcl). split; [done|]. exists ch.
      by rewrite lookup_insert_ne.
  - intros c. rewrite lookup_insert_is_Some'. intros [?|H]; [lia|].
    specialize (Hf c H). lia.
  - intros c ch [[? ?]|[Hne H]]%lookup_insert_Some; subst; [|by eauto].
    unfold chan_cap. simpl. lia.
Qed.

(** The unsubscribe function of a well-formed store never panics, however
    often it is called. *)
Lemma Unsubscribe_wf st id :
  store_wf st ->
  exists st', Unsubscribe st id = Ok st' /\ store_wf st' /\ st_subs st' = delete id (st_subs st).
Proof.
  intros [[] [Hs Hf Hc]]. unfold Unsubscribe.
  destruct (st_subs st !! id) as [c|] eqn:Hid.
  2:{ exists st. split; [done|]. split; [by split; split|]. by rewrite delete_id. }
  destruct (Hs id c Hid) as (-> & ch & Hch & Hcl). rewrite Hch, Hcl.
  eexists. split; [done|]. split; [|done]. split; [by split|]. split; simpl.
  - intros id' c' [Hne H]%lookup_delete_Some. destruct (Hs id' c' H) as (-> & ch' & Hch' & Hcl').
    split; [done|]. exists ch'. by rewrite lookup_insert_ne.
  - intros c. rewrite lookup_insert_is_Some'. intros [<-|H]; eauto.
  - intros c ch' [[<- <-]|[Hne H]]%lookup_insert_Some; simpl; eauto.
Qed.

Lemma Receive_wf st c st' o :
  store_wf st -> Receive st c = Some (st', o) -> store_wf st'.
Proof.
  intros [Hr [Hs Hf Hc]]. unfold Receive.
  destruct (st_chans st !! c) as [ch|] eqn:Hch; [|done].
  destruct (ch_buf ch) as [|s rest] eqn:Hb.
  { destruct (ch_closed ch); [|done]. intros [= <- <-]. by split. }
  intros [= <- <-]. split; [by destruct Hr; split|]. split; simpl.
  - intros id c' H. destruct (Hs id c' H) as (-> & ch' & Hch' & Hcl').
    split; [done|]. rewrite lookup_insert. case_decide; simplify_eq; eauto.
  - intros d. rewrite lookup_insert_is_Some'. intros [<-|H]; eauto.
  - intros d ch' [[<- <-]|[Hne H]]%lookup_insert_Some; simpl; [|eauto].
    specialize (Hc _ _ Hch). rewrite Hb in Hc. simpl in Hc. lia.
Qed.
End subscriptions.

(** ** Histories of puts *)
Section histories.
Context `{Go : GoRuntime} {P : Type} `{!Persister P}.
Implicit Types st : Store P.

Fixpoint put_all st (snaps : list Snapshot) : Outcome (Store P) :=
  match snaps with
  | [] => Ok st
  | s :: snaps => let* st' := Put st s in put_all st' snaps
  end.

Lemma put_sends_durable st snap cs st' :
  put_sends st snap cs = Ok st' -> st_persist st' = st_persist st /\ st_log st' = st_log st.
Proof.
  revert st. induction cs as [|c cs IH]; intros st; cbn [put_sends]; [by intros [= <-]|].
  unfold send_nonblocking.
  destruct (st_chans st !! c) as [ch|]; simpl; [|apply IH].
  destruct (ch_closed ch); [done|]. case_match; simpl; intros E%IH; done.
Qed.

Lemma Put_no_persister st snap st' :
  st_persist st = None -> Put st snap = Ok st' -> st_persist st' = None.
Proof.
  unfold Put, put_locked. intros Hp. destruct (slice_set _ _ _); simpl; [|done].
  case_match; simpl; [done|]. unfold put_save. simpl. rewrite Hp.
  intros E%put_sends_durable. by destruct E as [-> _].
Qed.

(** A put saves once; an error of the backend costs one line. *)
Lemma Put_saves st p snap st' :
  st_persist st = Some p -> Put st snap = Ok st' ->
  st_persist st' = Some (Save p snap).1 /\
  st_log st' = match (Save p snap).2 with
               | None => st_log st | Some _ => warn (st_log st) "persist snapshot failed" end.
Proof.
  unfold Put, put_locked. intros Hp. destruct (slice_set _ _ _); simpl; [|done].
  case_match; simpl; [done|]. unfold put_save. simpl. rewrite Hp.
  destruct (Save p snap) as [p' [err|]]; intros E%put_sends_durable; by destruct E as [-> ->].
Qed.

Lemma contents_bounded st :
  ring_wf st -> (length (contents st) <= Z.to_nat (st_cap st))%nat.
Proof. intros Hwf. pose proof (length_contents st Hwf). destruct Hwf. lia. Qed.

Lemma put_all_ok st snaps :
  store_wf st ->
  exists st', put_all st snaps = Ok st' /\ store_wf st' /\ st_cap st' = st_cap st /\
    contents st' = lastn (Z.to_nat (st_cap st)) (contents st ++ snaps) /\
    (st_persist st = None -> st_persist st' = None).
Proof.
  revert st. induction snaps as [|s snaps IH]; intros st Hwf; cbn [put_all].
  { exists st. rewrite app_nil_r, lastn_all; [done|]. apply contents_bounded, Hwf. }
  destruct (Put_ok st s Hwf) as (st1 & HP & Hwf1 & Hc1 & Hcap & _). rewrite HP. simpl.
  destruct (IH st1 Hwf1) as (st' & -> & Hwf' & Hcap' & Hc' & Hn). exists st'.
  split; [done|]. split; [done|]. split; [by rewrite Hcap'|]. split.
  - by rewrite Hc', Hcap, Hc1, lastn_app_lastn, <-app_assoc.
  - intros H. apply Hn. by eapply Put_no_persister.
Qed.

(** The window of [History]: a zero bound is none. *)
Definition within (from to : Time) (s : Snapshot) : Prop :=
  (from = zeroTime \/ from <= TakenAt s) /\ (to = zeroTime \/ TakenAt s <= to).

Lemma in_window_within from to s : in_window from to s = true <-> within from to s.
Proof. unfold in_window, within, IsZero, Before, After. repeat case_match; split; (done || lia). Qed.

#[export] Instance within_dec from to s : Decision (within from to s).
Proof. unfold within. apply _. Defined.

(** The summaries of the snapshots in the window. *)
Definition timeline (from to : Time) (l : list Snapshot) : list Meta :=
  (fun s => mkMeta (TakenAt s) (Z.of_nat (length (Roots s))) (Z.of_nat (length (Edges s)))
              (Z.of_nat (size (Sessions s)))) <$> filter (within from to) l.

Lemma timeline_eq from to l :
  meta_of <$> filter (fun s => in_window from to s = true) l = timeline from to l.
Proof. unfold timeline. f_equal. apply list_filter_iff. intros s. apply in_window_within. Qed.

(** C9: [New] returns a store, unless its ring is longer than a slice can be,
    and after any sequence of puts into that store, without a persister, the
    ring holds exactly the last [max 1 ringSize] snapshots in order; [Latest]
    answers the newest of them (or none before the first put) and [History] the
    metadata of those in the window, oldest first. *)
Theorem store_keeps_newest (ringSize : Z) (snaps : list Snapshot) :
  if Z.max 1 ringSize <=? make_limit then
  exists st, (let* st := New ringSize in put_all st snaps) = Ok st /\
    let kept := lastn (Z.to_nat (Z.max 1 ringSize)) snaps in
    contents st = kept /\
    Latest st = Ok (match last kept with
                    | Some s => (s, true) | None => (emptySnapshot, false) end) /\
    forall from to, History st from to =
      (st, Ok (timeline from to kept))
  else (New ringSize : Outcome (Store P)) = Panic "makeslice: len out of range".
Proof.
  rewrite New_fresh. destruct (Z.max 1 ringSize <=? make_limit); [|done]. cbn [outcome_bind].
  destruct (put_all_ok (fresh ringSize) snaps (fresh_store_wf ringSize))
    as (st & Hst & [Hr Hcw] & Hcap & Hc & Hn).
  exists st. split; [done|]. rewrite fresh_cap, fresh_contents in Hc. simpl in Hc.
  cbv zeta. rewrite <-Hc. split; [done|]. split; [by apply Latest_contents|].
  intros from to. unfold History. rewrite (Hn eq_refl).
  by rewrite history_ring_contents, timeline_eq.
Qed.
End histories.

(** ** Properties of the queries and of Put *)
Section properties.
Context `{Go : GoRuntime} {P : Type} `{!Persister P}.
Implicit Types st : Store P.

(** In range the search is a nearest-neighbour search. *)
Lemma ring_nearest st t :
  ring_wf st -> st_persist st = None -> contents st <> [] ->
  (forall s, s ∈ contents st -> distance t s < MaxInt64) ->
  exists older s newer, contents st = older ++ s :: newer /\
    At st t = (st, Ok (s, true)) /\
    (forall x, x ∈ older -> distance t s <= distance t x) /\
    (forall x, x ∈ newer -> distance t s < distance t x).
Proof.
  intros Hwf Hp Hne Hr. unfold At. rewrite Hp, at_ring_contents by done.
  destruct (nearest_spec t (reverse (contents st)) emptySnapshot MaxInt64 false)
    as [[_ Hl]|(l1 & s & l2 & Hl & -> & _ & H1 & H2)].
  - intros s. rewrite elem_of_reverse. apply Hr.
  - exfalso. destruct (contents st) as [|s l] eqn:Ec; [done|].
    specialize (Hr s ltac:(set_solver)). specialize (Hl s).
    rewrite elem_of_reverse in Hl. specialize (Hl ltac:(set_solver)). lia.
  - exists (reverse l2), s, (reverse l1). split; [|split; [done|]].
    + rewrite <-(reverse_involutive (contents st)), Hl, reverse_app, reverse_cons.
      by rewrite <-app_assoc.
    + split; intros x; rewrite elem_of_reverse; auto.
Qed.

Lemma nearest_stuck t l best d found :
  (forall s, s ∈ l -> closer t s d = None) ->
  nearest t l best d found = (best, found).
Proof.
  induction l as [|s l IH]; intros Hl; cbn [nearest]; [done|].
  rewrite Hl by set_solver. apply IH. set_solver.
Qed.

Lemma ring_out_of_range st t :
  ring_wf st -> st_persist st = None ->
  ((forall s, s ∈ contents st -> MaxInt64 <= t - TakenAt s) ->
     At st t = (st, Ok (emptySnapshot, false))) /\
  (forall older s, contents st = older ++ [s] ->
     (forall x, x ∈ contents st -> t - TakenAt x <= MinInt64) ->
     At st t = (st, Ok (s, true))).
Proof.
  intros Hwf Hp. unfold At. rewrite Hp, at_ring_contents by done. split.
  - intros Hfar. rewrite nearest_stuck; [done|].
    intros s Hs%elem_of_reverse%Hfar. unfold closer, Sub, MaxInt64, MinInt64 in *.
    destruct (Z.ltb_spec (t - TakenAt s) (-2 ^ 63)); [lia|].
    destruct (Z.ltb_spec (2 ^ 63 - 1) (t - TakenAt s)); simpl; [done|].
    destruct (Z.ltb_spec (t - TakenAt s) 0); [lia|].
    destruct (Z.ltb_spec (t - TakenAt s) (2 ^ 63 - 1)); [lia|done].
  - intros older s Hc Hpast.
    assert (forall x, x ∈ contents st -> forall d,
      closer t x d = if MinInt64 <? d then Some MinInt64 else None) as Hcl.
    { intros x Hx%Hpast d. unfold closer.
      assert (Sub t (TakenAt x) = MinInt64) as ->; [|done].
      unfold Sub, MinInt64 in *. destruct (Z.ltb_spec (t - TakenAt x) (-2 ^ 63)); [done|].
      destruct (Z.ltb_spec MaxInt64 (t - TakenAt x)); unfold MaxInt64 in *; lia. }
    rewrite Hc, reverse_snoc. cbn [nearest]. rewrite Hcl by (rewrite Hc; set_solver).
    simpl. rewrite nearest_stuck; [done|].
    intros x Hx%elem_of_reverse. by rewrite Hcl by (rewrite Hc; set_solver).
Qed.

(** C23: without a persister, [At] is a nearest-neighbour search as far as
    durations reach: for times within 292 years of every retained snapshot it
    returns a retained snapshot at the least distance from [t], the newest among
    equally distant ones; for a time 292 years or more after every retained
    snapshot it reports that there is none, and for one 292 years or more before
    them it returns the newest, which is the farthest when they are in order. *)
Theorem At_nearest st t :
  ring_wf st -> st_persist st = None ->
  (contents st <> [] -> (forall s, s ∈ contents st -> distance t s < MaxInt64) ->
   exists older s newer, contents st = older ++ s :: newer /\
     At st t = (st, Ok (s, true)) /\
     (forall x, x ∈ older -> distance t s <= distance t x) /\
     (forall x, x ∈ newer -> distance t s < distance t x)) /\
  ((forall s, s ∈ contents st -> MaxInt64 <= t - TakenAt s) ->
     At st t = (st, Ok (emptySnapshot, false))) /\
  (forall older s, contents st = older ++ [s] ->
     (forall x, x ∈ contents st -> t - TakenAt x <= MinInt64) ->
     At st t = (st, Ok (s, true))).
Proof.
  intros Hwf Hp. split; [by apply ring_nearest|]. by apply ring_out_of_range.
Qed.

(** C24: with a persister, [At] and [History] answer what it answers; when it
    fails they log the failure (if there is a logger) and answer from the
    ring, which is left unchanged.  A [Put] that nothing interrupts saves the
    snapshot once; whether the save fails or not, it returns with the snapshot in
    the ring and offered to the same subscribers, and a failure costs one line in
    the log. *)
Theorem persister_delegation st p :
  store_wf st -> st_persist st = Some p ->
  (forall t, At st t =
     match PersistAt p t with
     | Val r => (st, Ok r)
     | Err _ => (set_log st (warn (st_log st) "persist At failed; falling back to ring"),
                 Ok (nearest t (reverse (contents st)) emptySnapshot MaxInt64 false))
     end) /\
  (forall from to, History st from to =
     match PersistHistory p from to with
     | Val metas => (st, Ok metas)
     | Err _ => (set_log st (warn (st_log st) "persist History failed; falling back to ring"),
                 Ok (timeline from to (contents st)))
     end) /\
  (forall snap, exists st', Put st snap = Ok st' /\
     st_persist st' = Some (Save p snap).1 /\
     st_log st' = match (Save p snap).2 with
                  | None => st_log st | Some _ => warn (st_log st) "persist snapshot failed" end /\
     contents st' = lastn (Z.to_nat (st_cap st)) (contents st ++ [snap]) /\
     st_subs st' = st_subs st /\
     st_chans st' = deliver_to snap (range_map (st_subs st)).*2 (st_chans st)).
Proof.
  intros Hst Hp. pose proof (sw_ring _ Hst) as Hwf. split; [|split].
  3: { intros snap. destruct (Put_ok st snap Hst) as (st' & E & _ & Hc & _ & Hs & Hch).
    destruct (Put_saves _ _ _ _ Hp E) as [Hp' Hl]. by exists st'. }
  all: unfold At, History; rewrite Hp.
  all: intros *; case_match; rewrite ?at_ring_contents, ?history_ring_contents, ?timeline_eq by done; done.
Qed.

(** An uninterrupted [Put] on a well-formed store neither panics nor
    blocks; afterwards every registered subscriber that had drained its
    channel holds exactly the new snapshot, one that had not keeps its older
    frame, and no other channel changes. *)
Lemma Put_delivers st snap :
  store_wf st ->
  exists st', Put st snap = Ok st' /\ store_wf st' /\
    contents st' = lastn (Z.to_nat (st_cap st)) (contents st ++ [snap]) /\
    forall c ch, st_chans st !! c = Some ch ->
      (st_subs st !! c = Some c -> exists ch', st_chans st' !! c = Some ch' /\
         ch_closed ch' = false /\
         ch_buf ch' = match ch_buf ch with [] => [snap] | old => old end) /\
      (st_subs st !! c = None -> st_chans st' !! c = Some ch).
Proof.
  intros Hwf. destruct (Put_ok st snap Hwf) as (st' & HP & Hwf' & Hc & _ & _ & Hch).
  exists st'. split; [done|]. split; [done|]. split; [done|].
  intros c ch Hl. rewrite Hch, deliver_to_lookup, Hl. simpl.
  destruct Hwf as [_ [Hs _ Hcap]]. split.
  - intros Hsub. rewrite bool_decide_eq_true_2 by (apply elem_of_copied_subs; eauto).
    eexists. split; [done|]. destruct (Hs c c Hsub) as (_ & ch0 & H0 & Hcl).
    rewrite Hl in H0. injection H0 as <-. rewrite deliver_closed. split; [done|].
    specialize (Hcap _ _ Hl). unfold deliver, chan_cap in *.
    destruct (ch_buf ch) as [|x [|y l]] eqn:Eb; simpl in *; [done|by rewrite Eb|lia].
  - intros Hsub. rewrite bool_decide_eq_false_2; [done|].
    intros [id H]%elem_of_copied_subs. destruct (Hs id c H) as [-> _]. congruence.
Qed.
End properties.

(** ** Concrete stores *)

(** A backend whose queries always fail. *)
Definition failing_persister : Persister unit := {|
  Save p _ := (p, Some "boom");
  PersistAt _ _ := Err "boom";
  PersistHistory _ _ _ := Err "boom"
|}.

Definition snap_at (t : Time) : Snapshot := mkSnapshot "c1" t ∅ [] [].

(** A ring of three after four puts, one second apart; the write wrapped. *)
Definition demo_store : Store unit :=
  mkStore [snap_at (3 * Second); snap_at (1 * Second); snap_at (2 * Second)] 1 3 3
    {[ 0 := 0; 1 := 1 ]} 2 None None
    {[ 0 := mkChan [] false; 1 := mkChan [snap_at (2 * Second)] false ]}.

Example demo_store_is_put_all :
  @put_all canonical unit failing_persister (fresh 3)
    [snap_at 0; snap_at (1 * Second); snap_at (2 * Second); snap_at (3 * Second)] =
  Ok (mkStore (st_buf demo_store) 1 3 3 ∅ 0 None None ∅).
Proof. reflexivity. Qed.

Lemma demo_ring_wf : ring_wf demo_store.
Proof. split; simpl; lia. Qed.

Lemma demo_contents :
  contents demo_store = [snap_at (1 * Second); snap_at (2 * Second); snap_at (3 * Second)].
Proof. reflexivity. Qed.

Lemma demo_store_wf : store_wf demo_store.
Proof.
  split; [apply demo_ring_wf|]. split; simpl.
  - intros id c [[<- <-]|[_ [<- <-]%lookup_singleton_Some]]%lookup_insert_Some; eauto.
  - intros c [ch [[<- _]|[_ [<- _]%lookup_singleton_Some]]%lookup_insert_Some]; lia.
  - intros c ch [[_ <-]|[_ [_ <-]%lookup_singleton_Some]]%lookup_insert_Some;
      unfold chan_cap; simpl; lia.
Qed.

Lemma demo_distance s : s ∈ contents demo_store -> distance 2100000000 s < MaxInt64.
Proof.
  rewrite demo_contents. unfold distance, MaxInt64, Second.
  rewrite !elem_of_cons, elem_of_nil. intros [->|[->|[->|[]]]]; simpl; lia.
Qed.

(** A near request, and [at=2400-01-01T00:00:00Z], against January 1970. *)
Lemma At_nearest_witness :
  (exists older s newer, contents demo_store = older ++ s :: newer /\
    @At unit failing_persister demo_store 2100000000 = (demo_store, Ok (s, true)) /\
    (forall x, x ∈ older -> distance 2100000000 s <= distance 2100000000 x) /\
    (forall x, x ∈ newer -> distance 2100000000 s < distance 2100000000 x)) /\
  @At unit failing_persister demo_store (13569465600 * Second) =
    (demo_store, Ok (emptySnapshot, false)).
Proof.
  split.
  - exact (proj1 (@At_nearest unit failing_persister demo_store 2100000000 demo_ring_wf eq_refl)
      (fun H => eq_ind (contents demo_store) (fun l => match l with [] => False | _ => True end) I [] H)
      demo_distance).
  - apply (@At_nearest unit failing_persister demo_store (13569465600 * Second) demo_ring_wf eq_refl).
    rewrite demo_contents. unfold MaxInt64, Second. intros s.
    rewrite !elem_of_cons, elem_of_nil. intros [->|[->|[->|[]]]]; simpl; lia.
Defined.

Lemma persister_delegation_witness :
  let st := SetPersister demo_store (Some tt) (Some []) in
  (@At unit failing_persister st 0).1 =
    set_log st (Some ["persist At failed; falling back to ring"]) /\
  (forall t, @At unit failing_persister st t =
    (set_log st (warn (st_log st) "persist At failed; falling back to ring"),
     Ok (nearest t (reverse (contents st)) emptySnapshot MaxInt64 false))) /\
  exists st', @Put canonical unit failing_persister st (snap_at (4 * Second)) = Ok st' /\
    st_log st' = Some ["persist snapshot failed"] /\
    contents st' = [snap_at (2 * Second); snap_at (3 * Second); snap_at (4 * Second)].
Proof.
  intros st. split; [reflexivity|].
  destruct (@persister_delegation canonical unit failing_persister st tt) as (Hat & _ & Hput).
  - destruct demo_store_wf as [[] []]. split; split; assumption.
  - reflexivity.
  - split; [exact Hat|]. destruct (Hput (snap_at (4 * Second))) as (st' & E & _ & Hl & Hc & _).
    exists st'. split; [exact E|]. split; [exact Hl|exact Hc].
Defined.
