(* ===== verification/StoreConc.v ===== *)
(** * internal/store under concurrency: Put interleaved with subscribers

    The poller goroutine calls [Put]; WebSocket handlers call [Subscribe],
    receive from their channel and call the unsubscribe function.  [Put] holds
    the lock only in its first phase, so the transitions below interleave the
    handlers' (atomic, because locked) operations between the critical
    section, the save and each non-blocking send.  One [Put] is in flight at a
    time: [Poller.Run] is the only caller and calls it in sequence. *)
From S2P Require Import Prelude GoRuntime Graph Store.
Local Open Scope Z_scope.

(** Where the goroutine inside [Put] is. *)
Inductive PutPc :=
| Idle
| Saving (snap : Snapshot) (subs : list Z)
| Sending (snap : Snapshot) (subs : list Z).

(** The store, the putter, and (ghost) every snapshot put so far. *)
Record Config (P : Type) := mkConfig {
  cf_store : Store P;
  cf_pc : PutPc;
  cf_put : list Snapshot
}.
Arguments mkConfig {P}.
Arguments cf_store {P}.
Arguments cf_pc {P}.
Arguments cf_put {P}.

(** What happens in one transition. *)
Inductive Event :=
| EvLock (snap : Snapshot)
| EvSave
| EvSend
| EvReturn
| EvSubscribe
| EvUnsubscribe (id : Z)
| EvReceive (c : Z).

Section conc.
Context `{Go : GoRuntime} {P : Type} `{!Persister P}.
Implicit Types c : Config P.

(** One transition; a panic in any goroutine ends the process. *)
Inductive step : Config P -> Event -> Outcome (Config P) -> Prop :=
| step_lock st put snap :
    step (mkConfig st Idle put) (EvLock snap)
      (outcome_map (fun r => mkConfig r.1 (Saving snap r.2) (put ++ [snap]))
         (put_locked st snap))
| step_save st put snap subs :
    step (mkConfig st (Saving snap subs) put) EvSave
      (Ok (mkConfig (put_save st snap) (Sending snap subs) put))
| step_send st put snap ch subs :
    step (mkConfig st (Sending snap (ch :: subs)) put) EvSend
      (outcome_map (fun st' => mkConfig st' (Sending snap subs) put)
         (send_nonblocking st snap ch))
| step_return st put snap :
    step (mkConfig st (Sending snap []) put) EvReturn (Ok (mkConfig st Idle put))
| step_subscribe st pc put :
    step (mkConfig st pc put) EvSubscribe (Ok (mkConfig (Subscribe st).1 pc put))
| step_unsubscribe st pc put id :
    step (mkConfig st pc put) (EvUnsubscribe id)
      (outcome_map (fun st' => mkConfig st' pc put) (Unsubscribe st id))
| step_receive st pc put ch st' o :
    Receive st ch = Some (st', o) ->
    step (mkConfig st pc put) (EvReceive ch) (Ok (mkConfig st' pc put)).

Definition next c c' : Prop := exists e, step c e (Ok c').

Definition initial (ringSize : Z) : Config P := mkConfig (fresh ringSize) Idle [].

Definition reachable (ringSize : Z) c : Prop := rtc next (initial ringSize) c.

(** ** The invariant *)

(** The channels the putter still has to serve: distinct, existing, and
    either registered or unsubscribed since the critical section. *)
Definition pending (pc : PutPc) : list Z :=
  match pc with Idle => [] | Saving _ subs | Sending _ subs => subs end.

Record inv (ringSize : Z) c : Prop := {
  inv_wf : store_wf (cf_store c);
  inv_cap : st_cap (cf_store c) = Z.max 1 ringSize;
  inv_contents :
    contents (cf_store c) = lastn (Z.to_nat (Z.max 1 ringSize)) (cf_put c);
  inv_pending : forall ch, ch ∈ pending (cf_pc c) -> exists x,
    st_chans (cf_store c) !! ch = Some x /\
    (ch_closed x = true <-> st_subs (cf_store c) !! ch = None);
  inv_frames : forall ch x s, st_chans (cf_store c) !! ch = Some x ->
    s ∈ ch_buf x -> s ∈ cf_put c;
  inv_current : match cf_pc c with
                | Idle => True
                | Saving s _ | Sending s _ => s ∈ cf_put c
                end
}.

Lemma inv_initial n : inv n (initial n).
Proof.
  split; simpl; [apply fresh_store_wf|apply (fresh_cap (P := P))|done|set_solver| |done].
  intros *. by rewrite lookup_empty.
Qed.

Lemma inv_lock n st put snap c' :
  inv n (mkConfig st Idle put) ->
  step (mkConfig st Idle put) (EvLock snap) (Ok c') -> inv n c'.
Proof.
  intros [[Hr Hc] Hcap Hcont _ Hfr _] Hstep. simpl in *. inversion Hstep; subst.
  destruct (put_locked_ok st snap Hr)
    as (st1 & E & Hr1 & Hc1 & Hcap1 & Hsub1 & Hch1 & Hid1 & _).
  rewrite E in *. simplify_eq/=. split; simpl.
  - split; [done|]. destruct Hc. split; rewrite ?Hsub1, ?Hch1, ?Hid1; done.
  - by rewrite Hcap1.
  - by rewrite Hc1, Hcont, Hcap, lastn_app_lastn.
  - intros ch [id Hid]%elem_of_copied_subs. rewrite Hch1, Hsub1.
    destruct (cw_subs _ Hc id ch Hid) as (-> & x & Hx & Hcl).
    exists x. rewrite Hid, Hcl. done.
  - intros ch x s Hx Hs. rewrite Hch1 in Hx. apply elem_of_app. left. by eapply Hfr.
  - set_solver.
Qed.

Lemma inv_save n st put snap subs c' :
  inv n (mkConfig st (Saving snap subs) put) ->
  step (mkConfig st (Saving snap subs) put) EvSave (Ok c') -> inv n c'.
Proof.
  intros [[Hr Hc] Hcap Hcont Hp Hfr Hcur] Hstep. simpl in *. inversion Hstep; subst.
  destruct (put_save_same st snap) as (_ & _ & _ & Ecap & Esub & Ech & Eid).
  split; simpl; rewrite ?Ecap, ?Esub, ?Ech, ?put_save_contents; try done.
  split; [by apply put_save_ring_wf|]. destruct Hc. split; rewrite ?Esub, ?Ech, ?Eid; done.
Qed.

Lemma send_open (st : Store P) snap ch x :
  st_chans st !! ch = Some x -> ch_closed x = false ->
  send_nonblocking st snap ch = Ok (set_chans st (deliver_to snap [ch] (st_chans st))).
Proof.
  intros Hx Hcl. pose proof (put_sends_ok st snap [ch] (NoDup_singleton ch)) as Hs.
  cbn [put_sends] in Hs.
  destruct (send_nonblocking st snap ch); simpl in Hs; [apply Hs|discriminate Hs];
    intros d ->%list_elem_of_singleton; eauto.
Qed.

Lemma inv_send n st put snap ch subs c' :
  inv n (mkConfig st (Sending snap (ch :: subs)) put) ->
  step (mkConfig st (Sending snap (ch :: subs)) put) EvSend (Ok c') -> inv n c'.
Proof.
  intros [[Hr Hc] Hcap Hcont Hp Hfr Hcur] Hstep. simpl in *. inversion Hstep; subst.
  assert (send_nonblocking st snap ch =
    Ok (set_chans st (deliver_to snap [ch] (st_chans st)))) as E.
  { destruct (Hp ch) as (x & Hx & Hcl); [set_solver|]. apply (send_open st snap ch x Hx).
    destruct (ch_closed x) eqn:Ex; [|done]. by rewrite (send_closed st snap ch x) in * by done. }
  rewrite E in *. simplify_eq/=. split; simpl; try done.
  - split; [by destruct Hr|]. by apply deliver_chans_wf.
  - intros d Hd. destruct (Hp d) as (x & Hx & Hcl); [set_solver|].
    rewrite deliver_to_lookup, Hx. eexists. split; [done|].
    case_bool_decide; by rewrite ?deliver_closed.
  - intros d x s. rewrite deliver_to_lookup. intros (y & Hy & ->)%fmap_Some.
    case_bool_decide; [|by eapply Hfr]. unfold deliver. case_match; [|by eapply Hfr].
    simpl. intros [Hs| ->%list_elem_of_singleton]%elem_of_app; [by eapply Hfr|done].
Qed.

Lemma inv_subscribe n st pc put :
  inv n (mkConfig st pc put) -> inv n (mkConfig (Subscribe st).1 pc put).
Proof.
  intros [Hwf Hcap Hcont Hp Hfr Hcur]. simpl in *.
  split; simpl; [by apply Subscribe_wf|done|done| | |done].
  - intros ch Hch. destruct (Hp ch Hch) as (x & Hx & Hcl).
    assert (ch < st_nextID st) by (apply (cw_fresh _ (sw_chans _ Hwf)); eauto).
    exists x. by rewrite !lookup_insert_ne by lia.
  - intros ch x s [[? ?]|[_ H]]%lookup_insert_Some Hs; subst; [set_solver|by eapply Hfr].
Qed.

Lemma inv_unsubscribe n st pc put id st' :
  inv n (mkConfig st pc put) -> Unsubscribe st id = Ok st' -> inv n (mkConfig st' pc put).
Proof.
  intros [Hwf Hcap Hcont Hp Hfr Hcur] HU. simpl in *.
  destruct (Unsubscribe_wf st id Hwf) as (st1 & E & Hwf1 & _). rewrite E in HU.
  simplify_eq. revert E. unfold Unsubscribe.
  destruct (st_subs st !! id) as [c|] eqn:Hid; [|by intros [= ->]; split].
  destruct (cw_subs _ (sw_chans _ Hwf) id c Hid) as (-> & x & Hx & Hcl).
  rewrite Hx, Hcl. intros [= <-]. split; simpl; try done.
  - intros ch Hch. destruct (decide (ch = id)) as [->|Hne].
    + exists (mkChan (ch_buf x) true). by rewrite lookup_insert_eq, lookup_delete_eq.
    + rewrite lookup_insert_ne, lookup_delete_ne by done. by apply Hp.
  - intros ch y s [[? ?]|[_ H]]%lookup_insert_Some Hs; subst; [|by eapply Hfr].
    by apply (Hfr ch x).
Qed.

Lemma inv_receive n st pc put ch st' o :
  inv n (mkConfig st pc put) -> Receive st ch = Some (st', o) -> inv n (mkConfig st' pc put).
Proof.
  intros [Hwf Hcap Hcont Hp Hfr Hcur] HR. simpl in *.
  pose proof (Receive_wf st ch st' o Hwf HR) as Hwf'. revert HR. unfold Receive.
  destruct (st_chans st !! ch) as [x|] eqn:Hx; [|done].
  destruct (ch_buf x) as [|s0 rest] eqn:Hb.
  { destruct (ch_closed x); [|done]. by intros [= <- <-]. }
  intros [= <- <-]. split; simpl; try done.
  - intros d Hd. destruct (Hp d Hd) as (y & Hy & Hcl).
    rewrite lookup_insert. case_decide; [|by exists y]. simplify_eq.
    eexists. by split.
  - intros d y s [[? ?]|[_ H]]%lookup_insert_Some Hs; subst; [|by eapply Hfr].
    apply (Hfr d x); [done|]. rewrite Hb. simpl in Hs. set_solver.
Qed.

Lemma inv_step n c e c' : inv n c -> step c e (Ok c') -> inv n c'.
Proof.
  intros Hinv Hstep. destruct e; inversion Hstep; subst; try done.
  - by eapply inv_lock.
  - by eapply inv_save.
  - by eapply inv_send.
  - destruct Hinv. by split.
  - by apply inv_subscribe.
  - destruct (Unsubscribe st id) as [st'|] eqn:HU; simplify_eq/=.
    by eapply inv_unsubscribe.
  - by eapply inv_receive.
Qed.

Lemma inv_reachable n c : reachable n c -> inv n c.
Proof.
  apply (rtc_ind_r (inv n)); [apply inv_initial|].
  intros c1 c2 _ [e He] Hinv. by eapply inv_step.
Qed.

(** C15: in every state reachable by interleaving the poller's puts with
    subscribers that come, read and go, the ring holds exactly the newest
    snapshots put so far, every subscriber's channel is within its capacity
    of one and carries only snapshots that were put, and a registered
    subscriber's channel is open. *)
Theorem reachable_store_consistent n c :
  reachable n c ->
  contents (cf_store c) = lastn (Z.to_nat (Z.max 1 n)) (cf_put c) /\
  (forall ch x, st_chans (cf_store c) !! ch = Some x ->
     (length (ch_buf x) <= chan_cap)%nat /\ forall s, s ∈ ch_buf x -> s ∈ cf_put c) /\
  (forall id ch, st_subs (cf_store c) !! id = Some ch ->
     exists x, st_chans (cf_store c) !! ch = Some x /\ ch_closed x = false).
Proof.
  intros Hinv%inv_reachable. destruct Hinv as [[_ Hcw] _ Hcont _ Hfr _].
  split; [done|]. split.
  - intros ch x Hx. split; [by eapply cw_cap|]. intros s. by eapply Hfr.
  - intros id ch H. by destruct (cw_subs _ Hcw id ch H).
Qed.

(** Indexing, division and double closes never panic. *)
Lemma panic_after_unsubscribe n c e why :
  reachable n c -> step c e (Panic why) ->
  why = "send on closed channel" /\
  exists snap ch rest, cf_pc c = Sending snap (ch :: rest) /\ e = EvSend /\
    st_subs (cf_store c) !! ch = None.
Proof.
  intros Hinv%inv_reachable Hstep. destruct Hinv as [Hwf Hcap _ Hp _ _].
  inversion Hstep; subst; simpl in *.
  - destruct (put_locked_ok st snap (sw_ring _ Hwf)) as (st1 & E & _). by rewrite E in *.
  - destruct (Hp ch) as (x & Hx & Hcl); [set_solver|].
    unfold send_nonblocking in *. rewrite Hx in *.
    destruct (ch_closed x) eqn:Ex; [|by case_match].
    simplify_eq/=. split; [done|]. exists snap, ch, subs. split; [done|].
    split; [done|]. by apply Hcl.
  - destruct (Unsubscribe_wf st id Hwf) as (st1 & E & _). by rewrite E in *.
Qed.

(** ** Progress *)

(** The transitions of the goroutine inside [Put], and how many are left. *)
Definition putter (e : Event) : bool :=
  match e with EvSave | EvSend | EvReturn => true | _ => false end.

Definition remaining (pc : PutPc) : nat :=
  match pc with
  | Idle => 0
  | Saving _ subs => 2 + length subs
  | Sending _ subs => 1 + length subs
  end.

Definition put_next c c' : Prop := exists e, putter e = true /\ step c e (Ok c').

(** Nobody the putter still has to serve has left. *)
Definition all_stay c : Prop :=
  forall ch, ch ∈ pending (cf_pc c) -> is_Some (st_subs (cf_store c) !! ch).

Lemma step_remaining c e c' :
  step c e (Ok c') -> cf_pc c <> Idle ->
  remaining (cf_pc c) = ((if putter e then 1 else 0) + remaining (cf_pc c'))%nat.
Proof.
  intros Hs Hpc. inversion Hs; subst; simpl in *; try done.
  - destruct (send_nonblocking st snap ch); simplify_eq/=. lia.
  - destruct (Unsubscribe st id); by simplify_eq/=.
Qed.

(** A send fills the buffer it finds empty. *)
Lemma deliver_nonempty snap x : ch_buf (deliver snap x) <> [].
Proof.
  unfold deliver, chan_cap. destruct (ch_buf x) as [|s l] eqn:E; simpl; [done|].
  destruct (Nat.ltb_spec (S (length l)) 1); [lia|]. by rewrite E.
Qed.

Lemma filled_stays snap cs (chans : gmap Z Chan) ch x :
  chans !! ch = Some x -> ch_buf x <> [] ->
  exists y, deliver_to snap cs chans !! ch = Some y /\ ch_buf y <> [].
Proof.
  intros Hx Hb. rewrite deliver_to_lookup, Hx. eexists. split; [done|].
  case_bool_decide; [apply deliver_nonempty|done].
Qed.

(** From the sends on. *)
Lemma sending_finishes n st put snap subs :
  inv n (mkConfig st (Sending snap subs) put) -> all_stay (mkConfig st (Sending snap subs) put) ->
  exists c', nsteps put_next (1 + length subs) (mkConfig st (Sending snap subs) put) c' /\
    cf_pc c' = Idle /\ cf_put c' = put /\ st_subs (cf_store c') = st_subs st /\
    (forall ch x, st_chans st !! ch = Some x -> ch_buf x <> [] ->
       exists y, st_chans (cf_store c') !! ch = Some y /\ ch_buf y <> []) /\
    forall ch, ch ∈ subs -> exists x, st_chans (cf_store c') !! ch = Some x /\ ch_buf x <> [].
Proof.
  revert st. induction subs as [|ch subs IH]; intros st Hinv Hstay.
  { exists (mkConfig st Idle put). split; [|split_and!; try done; [eauto|by intros ? ?%elem_of_nil]].
    eapply nsteps_l; [exists EvReturn; split; [done|apply step_return]|apply nsteps_O]. }
  destruct (inv_pending _ _ Hinv ch) as (x & Hx & Hcl); [by left|].
  assert (ch_closed x = false) as Hopen.
  { destruct (Hstay ch) as [d Hd]; [by left|]. cbn [cf_store] in *.
    destruct (ch_closed x); [|done]. rewrite (proj1 Hcl eq_refl) in Hd. done. }
  set (st1 := set_chans st (deliver_to snap [ch] (st_chans st))).
  assert (step (mkConfig st (Sending snap (ch :: subs)) put) EvSend
    (Ok (mkConfig st1 (Sending snap subs) put))) as Hstep.
  { pose proof (step_send st put snap ch subs) as Hs. cbn [cf_store] in Hx.
    by rewrite (send_open st snap ch x Hx Hopen) in Hs. }
  destruct (IH st1 (inv_send _ _ _ _ _ _ _ Hinv Hstep)) as (c' & Hn & Hi & Hp & Hsub & Hkeep & Hall).
  { intros d Hd. apply (Hstay d). by right. }
  exists c'. split; [eapply nsteps_l; [by exists EvSend|exact Hn]|]. split_and!; try done.
  - intros d y Hd Hy. destruct (filled_stays snap [ch] (st_chans st) d y Hd Hy) as (z & Hz & Hb).
    exact (Hkeep d z Hz Hb).
  - intros d [->|Hd]%elem_of_cons; [|by apply Hall]. apply (Hkeep ch (deliver snap x)).
    + simpl. rewrite deliver_to_lookup. cbn [cf_store] in Hx. rewrite Hx. simpl.
      by rewrite bool_decide_eq_true_2 by set_solver.
    + apply deliver_nonempty.
Qed.

(** C8: [Put] is never blocked by its subscribers.  While a put is under way,
    whatever the others do, each step of the putter brings it one step closer
    to its end and no step of anybody else moves it away; and from every
    reachable state in which no subscriber still to be served has left, the
    putter alone, in as many steps, finishes, with the snapshot in the ring and
    a frame in the buffer of every subscriber it had to serve, whether they
    read or not. *)
Theorem Put_finishes n c :
  reachable n c ->
  (forall e c', step c e (Ok c') -> cf_pc c <> Idle ->
     remaining (cf_pc c) = ((if putter e then 1 else 0) + remaining (cf_pc c'))%nat) /\
  (all_stay c -> exists c', nsteps put_next (remaining (cf_pc c)) c c' /\ cf_pc c' = Idle /\
     contents (cf_store c') = lastn (Z.to_nat (Z.max 1 n)) (cf_put c) /\
     st_subs (cf_store c') = st_subs (cf_store c) /\
     forall ch, ch ∈ pending (cf_pc c) ->
       exists x, st_chans (cf_store c') !! ch = Some x /\ ch_buf x <> []).
Proof.
  intros Hr. pose proof (inv_reachable n c Hr) as Hinv. split; [intros; by apply step_remaining|].
  assert (forall c' k, nsteps put_next k c c' ->
    contents (cf_store c') = lastn (Z.to_nat (Z.max 1 n)) (cf_put c')) as Hcont.
  { intros c' k Hk. apply (inv_contents n), inv_reachable. unfold reachable. etrans; [exact Hr|].
    apply rtc_nsteps_2 in Hk. revert Hk. apply rtc_subrel. intros a b (e & _ & He). by exists e. }
  destruct c as [st [|snap subs|snap subs] put]; intros Hstay.
  - exists (mkConfig st Idle put). split; [constructor|]. split_and!; try done; [|by intros ? ?%elem_of_nil].
    exact (inv_contents n _ Hinv).
  - pose proof (step_save st put snap subs) as Hs.
    pose proof (inv_save _ _ _ _ _ _ Hinv Hs) as Hinv'.
    destruct (put_save_same st snap) as (_ & _ & _ & _ & Esub & _).
    destruct (sending_finishes n _ put snap subs Hinv') as (c' & Hn & Hi & Hp & Hsub & _ & Hall).
    { intros ch Hch. simpl. rewrite Esub. exact (Hstay ch Hch). }
    assert (nsteps put_next (2 + length subs) (mkConfig st (Saving snap subs) put) c') as Hk
      by (eapply nsteps_l; [by exists EvSave|exact Hn]).
    exists c'. split; [exact Hk|]. split; [done|]. split; [rewrite (Hcont _ _ Hk), Hp; done|].
    split; [by rewrite Hsub|done].
  - destruct (sending_finishes n _ put snap subs Hinv Hstay) as (c' & Hn & Hi & Hp & Hsub & _ & Hall).
    exists c'. split; [exact Hn|]. split; [done|]. split; [rewrite (Hcont _ _ Hn), Hp; done|]. done.
Qed.
End conc.

(** ** Everybody but the putter

    What handlers do to the store while a put may be under way: they log,
    subscribe, leave and receive, each in one locked operation. *)
Section readers.
Context {P : Type} `{!Persister P}.
Implicit Types st : Store P.

Inductive reader_move : Store P -> Store P -> Prop :=
| move_log st log : reader_move st (set_log st log)
| move_subscribe st : reader_move st (Subscribe st).1
| move_unsubscribe st id st' : Unsubscribe st id = Ok st' -> reader_move st st'
| move_receive st ch st' o : Receive st ch = Some (st', o) -> reader_move st st'.

Definition readers : Store P -> Store P -> Prop := rtc reader_move.

Lemma reader_move_contents st st' :
  reader_move st st' -> contents st' = contents st /\ st_cap st' = st_cap st /\
    st_persist st' = st_persist st.
Proof.
  intros [ | |? ? ? HU|? ? ? ? HR]; try done.
  - revert HU. unfold Unsubscribe. repeat case_match; intros [= <-]; done.
  - revert HR. unfold Receive. repeat case_match; intros [= <- _]; done.
Qed.

Lemma readers_contents st st' :
  readers st st' -> contents st' = contents st /\ st_cap st' = st_cap st /\
    st_persist st' = st_persist st.
Proof.
  induction 1 as [|st1 st2 st3 Hm _ (IH1 & IH2 & IH3)]; [done|].
  apply reader_move_contents in Hm as (E1 & E2 & E3). split_and!; congruence.
Qed.

Context `{Go : GoRuntime}.

Lemma inv_readers n st st' pc put :
  readers st st' -> inv n (mkConfig st pc put) -> inv n (mkConfig st' pc put).
Proof.
  induction 1 as [|st1 st2 st3 Hm _ IH]; [done|]. intros Hinv. apply IH.
  destruct Hm as [st log|st|st id st' HU|st ch st' o HR].
  - destruct Hinv as [[[] []] Hcap Hcont Hp Hfr Hcur]. by split; [split; split|..].
  - by apply inv_subscribe.
  - by eapply inv_unsubscribe.
  - by eapply inv_receive.
Qed.
End readers.

(** ** The race, executed

    A subscriber leaves between the critical section of [Put] and the send to
    its channel: the poller goroutine panics, which ends the process. *)
Definition race_snap : Snapshot := mkSnapshot "c1" 0 ∅ [] [].

Section race.
Context {P : Type} `{!Persister P}.

Definition race_store_subscribed : Store P := (Subscribe (fresh 1)).1.
Definition race_store_locked : Store P :=
  mkStore [race_snap] 0 1 1 {[ 0 := 0 ]} 1 None None {[ 0 := mkChan [] false ]}.
Definition race_store_unsubscribed : Store P :=
  mkStore [race_snap] 0 1 1 ∅ 1 None None {[ 0 := mkChan [] true ]}.
Definition race_config : Config P :=
  mkConfig race_store_unsubscribed (Sending race_snap [0]) [race_snap].

Definition serving_config : Config P :=
  mkConfig race_store_locked (Saving race_snap [0]) [race_snap].

Lemma serving_reachable : @reachable canonical P _ 1 serving_config.
Proof.
  unfold reachable, initial.
  eapply rtc_l; [exists EvSubscribe; apply step_subscribe|].
  eapply rtc_l; [exists (EvLock race_snap);
    exact (@step_lock canonical P _ race_store_subscribed [] race_snap)|].
  apply rtc_refl.
Qed.

Lemma race_reachable : @reachable canonical P _ 1 race_config.
Proof.
  unfold reachable. etrans; [apply serving_reachable|].
  eapply rtc_l; [exists EvSave; apply step_save|].
  eapply rtc_l; [exists (EvUnsubscribe 0);
    exact (@step_unsubscribe canonical P _ race_store_locked _ [race_snap] 0)|].
  apply rtc_refl.
Qed.

Lemma race_panics :
  @step canonical P _ race_config EvSend (Panic "send on closed channel").
Proof. exact (@step_send canonical P _ race_store_unsubscribed [race_snap] race_snap 0 []). Qed.

(** The only panic the store can raise, in any interleaving, is [Put]
    sending on a channel whose subscriber unsubscribed after [Put] copied the
    subscriber list; and that panic is reachable: subscribe, put (critical
    section and save), unsubscribe, send. *)
Lemma only_panic_is_send_after_unsubscribe :
  (forall (Go : GoRuntime) n (c : Config P) e why, reachable n c -> step c e (Panic why) ->
    why = "send on closed channel" /\
    exists snap ch rest, cf_pc c = Sending snap (ch :: rest) /\ e = EvSend /\
      st_subs (cf_store c) !! ch = None) /\
  exists c : Config P, @reachable canonical P _ 1 c /\
    @step canonical P _ c EvSend (Panic "send on closed channel").
Proof.
  split; [intros Go n c e why; apply panic_after_unsubscribe|].
  exists race_config. split; [apply race_reachable|apply race_panics].
Qed.
End race.

Lemma reachable_store_consistent_witness :
  contents (@cf_store unit race_config) = [race_snap].
Proof.
  exact (proj1 (@reachable_store_consistent canonical unit failing_persister 1 race_config
    (@race_reachable unit failing_persister))).
Defined.

Lemma only_panic_is_send_after_unsubscribe_witness :
  exists snap ch rest, @cf_pc unit race_config = Sending snap (ch :: rest) /\ EvSend = EvSend /\
    st_subs (cf_store (@race_config unit)) !! ch = None.
Proof.
  exact (proj2 (proj1 (@only_panic_is_send_after_unsubscribe unit failing_persister) canonical 1%Z
    race_config EvSend "send on closed channel"
    (@race_reachable unit failing_persister) (@race_panics unit failing_persister))).
Defined.

Lemma Put_finishes_witness : exists c',
  nsteps (@put_next canonical unit failing_persister) 3 serving_config c' /\
  cf_pc c' = Idle /\ contents (cf_store c') = [race_snap].
Proof.
  destruct (proj2 (@Put_finishes canonical unit failing_persister 1 serving_config
    (@serving_reachable unit failing_persister))) as (c' & Hn & Hi & Hc & _).
  - intros ch [->|[]%elem_of_nil]%elem_of_cons. eexists. reflexivity.
  - exists c'. split; [exact Hn|]. split; [exact Hi|exact Hc].
Defined.
