(* ===== verification/Diff.v ===== *)
(** * internal/store/diff.go: what changed between two snapshots *)
From S2P Require Import Prelude GoRuntime Graph.
Local Open Scope Z_scope.

Record Diff := mkDiff { Added : list Z; Removed : list Z; Changed : list Z }.

(** The index loop of [equalInts], entered when the lengths agree. *)
Fixpoint equalInts_loop (a b : list Z) : bool :=
  match a, b with
  | x :: a, y :: b => if negb (x =? y) then false else equalInts_loop a b
  | _, _ => true
  end.

Definition equalInts (a b : list Z) : bool :=
  if negb (length a =? length b)%nat then false else equalInts_loop a b.

Definition sessionChanged (a b : Session) : bool :=
  if negb (bool_decide (State a = State b)) || negb (bool_decide (WaitEvent a = WaitEvent b)) ||
     negb (bool_decide (WaitEventType a = WaitEventType b)) ||
     negb (eqb (IsRoot a) (IsRoot b)) || negb (bool_decide (Query a = Query b))
  then true
  else negb (equalInts (BlockedBy a) (BlockedBy b)).

(** The two loops of [DiffSnapshots]. *)
Definition added_step (prev : gmap Z Session) (added : list Z) (entry : Z * Session) : list Z :=
  match prev !! entry.1 with
  | None => added ++ [entry.1]
  | Some _ => added
  end.

Definition removed_changed_step (cur : gmap Z Session) (acc : list Z * list Z)
    (entry : Z * Session) : list Z * list Z :=
  let '(removed, changed) := acc in
  match cur !! entry.1 with
  | None => (removed ++ [entry.1], changed)
  | Some cs =>
      if sessionChanged entry.2 cs then (removed, changed ++ [entry.1])
      else (removed, changed)
  end.

Definition DiffSnapshots `{GoRuntime} (prev cur : Snapshot) : Diff :=
  let added := fold_left (added_step (Sessions prev)) (range_map (Sessions cur)) [] in
  let '(removed, changed) :=
    fold_left (removed_changed_step (Sessions cur)) (range_map (Sessions prev)) ([], []) in
  mkDiff added removed changed.

(** ** The fields of a session that the forest view shows *)
Definition forest_fields (s : Session) : string * string * string * bool * string * list Z :=
  (State s, WaitEvent s, WaitEventType s, IsRoot s, Query s, BlockedBy s).

Lemma equalInts_eq a b : equalInts a b = true <-> a = b.
Proof.
  unfold equalInts. destruct (Nat.eqb_spec (length a) (length b)) as [Hl|Hl]; simpl.
  - revert b Hl. induction a as [|x a IH]; intros [|y b] Hl; simpl in *; try done; try lia.
    destruct (Z.eqb_spec x y) as [->|Hne]; simpl; [|naive_solver].
    rewrite IH by lia. naive_solver.
  - split; [done|]. intros ->. done.
Qed.

Lemma sessionChanged_iff a b :
  sessionChanged a b = true <-> forest_fields a <> forest_fields b.
Proof.
  unfold sessionChanged, forest_fields.
  repeat case_bool_decide; destruct (eqb_spec (IsRoot a) (IsRoot b)); simpl;
    try (split; [intros _|done]; congruence).
  destruct (equalInts (BlockedBy a) (BlockedBy b)) eqn:E; simpl.
  - apply equalInts_eq in E. split; [done|congruence].
  - split; [|done]. intros _ Heq.
    assert (BlockedBy a = BlockedBy b) as Hb by congruence.
    apply equalInts_eq in Hb. congruence.
Qed.

Section diff.
Context `{Go : GoRuntime}.

Lemma added_fold prev l acc :
  fold_left (added_step prev) l acc =
  acc ++ filter (fun p => prev !! p = None) l.*1.
Proof.
  revert acc. induction l as [|[p s] l IH]; intros acc; cbn [fold_left fmap list_fmap].
  - by rewrite app_nil_r.
  - rewrite IH. unfold added_step. rewrite filter_cons. simpl.
    destruct (prev !! p); case_decide; try done. by rewrite <-app_assoc.
Qed.

Definition in_both_changed (cur : gmap Z Session) (entry : Z * Session) : bool :=
  match cur !! entry.1 with
  | Some cs => sessionChanged entry.2 cs
  | None => false
  end.

Lemma removed_changed_fold cur l acc :
  fold_left (removed_changed_step cur) l acc =
  (acc.1 ++ filter (fun p => cur !! p = None) l.*1,
   acc.2 ++ (filter (fun e => in_both_changed cur e = true) l).*1).
Proof.
  revert acc. induction l as [|[p s] l IH]; intros [r c]; cbn [fold_left fmap list_fmap].
  - by rewrite !app_nil_r.
  - rewrite IH. unfold removed_changed_step. rewrite !filter_cons. simpl.
    destruct (in_both_changed cur (p, s)) eqn:E; unfold in_both_changed in E; simpl in E;
      destruct (cur !! p) as [cs|]; try rewrite E; simpl; by rewrite <-?app_assoc.
Qed.

Lemma elem_of_range_keys {V} (m : gmap Z V) p : p ∈ (range_map m).*1 <-> is_Some (m !! p).
Proof.
  rewrite list_elem_of_fmap. split.
  - intros ([k v] & -> & H). apply elem_of_range_map in H. eauto.
  - intros [v H]. exists (p, v). by rewrite elem_of_range_map.
Qed.

Lemma elem_of_changed cur (m : gmap Z Session) p :
  p ∈ (filter (fun e => in_both_changed cur e = true) (range_map m)).*1 <->
  exists a b, m !! p = Some a /\ cur !! p = Some b /\ sessionChanged a b = true.
Proof.
  rewrite list_elem_of_fmap. split.
  - intros ([k a] & -> & [Hc Hm]%list_elem_of_filter). apply elem_of_range_map in Hm.
    unfold in_both_changed in Hc. simpl in *. destruct (cur !! k) as [b|] eqn:E; [eauto|done].
  - intros (a & b & Ha & Hb & Hc). exists (p, a). split; [done|].
    apply list_elem_of_filter. split; [|by apply elem_of_range_map].
    unfold in_both_changed. simpl. by rewrite Hb.
Qed.

(** C25: [DiffSnapshots] lists each PID at most once: [Added] holds exactly
    those only in the new snapshot, [Removed] those only in the old one, and
    [Changed] those in both whose state, wait event (or type), root flag,
    query or blockers differ. *)
Theorem DiffSnapshots_correct prev cur :
  let d := DiffSnapshots prev cur in
  NoDup (Added d ++ Removed d ++ Changed d) /\
  forall p,
    (p ∈ Added d <-> Sessions prev !! p = None /\ is_Some (Sessions cur !! p)) /\
    (p ∈ Removed d <-> is_Some (Sessions prev !! p) /\ Sessions cur !! p = None) /\
    (p ∈ Changed d <-> exists a b, Sessions prev !! p = Some a /\
       Sessions cur !! p = Some b /\ forest_fields a <> forest_fields b).
Proof.
  unfold DiffSnapshots. rewrite added_fold, removed_changed_fold. simpl.
  assert (forall p,
    (p ∈ filter (fun p => Sessions prev !! p = None) (range_map (Sessions cur)).*1 <->
      Sessions prev !! p = None /\ is_Some (Sessions cur !! p)) /\
    (p ∈ filter (fun p => Sessions cur !! p = None) (range_map (Sessions prev)).*1 <->
      is_Some (Sessions prev !! p) /\ Sessions cur !! p = None)) as Hm.
  { intros p. rewrite !list_elem_of_filter, !elem_of_range_keys. tauto. }
  split.
  - rewrite !NoDup_app. repeat split; try (apply NoDup_filter, (NoDup_range_map (V := Session))).
    + intros p [Hp _]%Hm. rewrite elem_of_app. intros [[[? H] _]%Hm|H%elem_of_changed]; [congruence|].
      destruct H as (a & b & ? & ? & _). congruence.
    + intros p [_ Hp]%Hm (a & b & ? & ? & _)%elem_of_changed. congruence.
    + eapply sublist_NoDup; [apply (NoDup_range_map (Sessions prev))|]. apply fmap_sublist, sublist_filter.
  - intros p. split; [apply Hm|]. split; [apply Hm|].
    rewrite elem_of_changed. by setoid_rewrite sessionChanged_iff.
Qed.
End diff.
