(* ===== verification/Redact.v ===== *)
(** * internal/redact: masking literals in query texts

    [Mask] of [redact.go], index by index: the loops keep the source's
    conditions, a bounds check [i < n && r[i] == c] being a lookup that may
    fail.  Each inner [for] is [scan_while] with the loop condition as
    predicate; its fuel is the number of runes left, which the termination
    lemmas show to be enough.  The literal search uses byte offsets
    ([strings.Index]) next to rune indices, as the source does. *)
From S2P Require Import Prelude GoRuntime Utf8.
From Stdlib Require Import String.
Local Open Scope Z_scope.

(** ** Runes of interest *)
Definition rQuote : Z := 39.      (* single quote *)
Definition rDQuote : Z := 34.     (* double quote *)
Definition rDollar : Z := 36.
Definition rDash : Z := 45.
Definition rSlash : Z := 47.
Definition rStar : Z := 42.
Definition rNewline : Z := 10.
Definition rMark : Z := 63.       (* question mark *)
Definition rDot : Z := 46.
Definition rPlus : Z := 43.
Definition rLowerE : Z := 101.
Definition rUpperE : Z := 69.

Definition isDigit (c : Z) : bool := (48 <=? c) && (c <=? 57).

Definition isWord (c : Z) : bool :=
  (c =? 95) || ((97 <=? c) && (c <=? 122)) || ((65 <=? c) && (c <=? 90)) || isDigit c.

(** [i < n && p(r[i])] *)
Definition at_rune (r : list Z) (i : nat) (p : Z -> bool) : bool :=
  match r !! i with Some c => p c | None => false end.

(** [i > 0 && p(r[i-1])] *)
Definition before_rune (r : list Z) (i : nat) (p : Z -> bool) : bool :=
  match i with O => false | S j => at_rune r j p end.

(** [string(r[i:j])] *)
Definition slice (r : list Z) (i j : nat) : list Z := take (j - i) (drop i r).

(** [for cond(i) { i++ }] *)
Fixpoint scan_while (cond : nat -> bool) (fuel i : nat) : nat :=
  match fuel with
  | O => i
  | S fuel => if cond i then scan_while cond fuel (S i) else i
  end.

(** The loop that skips the body of a string literal. *)
Fixpoint skip_string (r : list Z) (fuel i : nat) : nat :=
  match fuel with
  | O => i
  | S fuel =>
      match r !! i with
      | None => i
      | Some c =>
          if c =? rQuote then
            if at_rune r (S i) (Z.eqb rQuote) then skip_string r fuel (S (S i))
            else S i
          else skip_string r fuel (S i)
      end
  end.

(** The loop that copies a quoted identifier: the index after it. *)
Fixpoint skip_ident (r : list Z) (fuel i : nat) : nat :=
  match fuel with
  | O => i
  | S fuel =>
      match r !! i with
      | None => i
      | Some c => if c =? rDQuote then S i else skip_ident r fuel (S i)
      end
  end.

(** The loop condition of a numeric literal, its [break] included. *)
Definition number_cond (r : list Z) (i : nat) : bool :=
  at_rune r i (fun c =>
    ((c =? rDot) || (c =? rLowerE) || (c =? rUpperE) || (c =? rPlus) || (c =? rDash) || isDigit c) &&
    negb (((c =? rPlus) || (c =? rDash)) &&
          negb (before_rune r i (fun p => (p =? rLowerE) || (p =? rUpperE))))).

(** [case c == '$']: a dollar-quoted string, or a dollar sign kept with the
    digits of a positional parameter. *)
Definition dollar_step (r : list Z) (i : nat) : list Z * nat :=
  let n := List.length r in
  let left := (n - i)%nat in
  let j := scan_while (fun j => at_rune r j (fun x => negb (x =? rDollar) && isWord x)) left (S i) in
  if at_rune r j (Z.eqb rDollar) then
    let tag := utf8 (slice r i (S j)) in
    let rest := utf8 (drop (S j) r) in
    match Index rest tag with
    | Some e => ([rMark], (j + 1 + e + List.length (runes tag))%nat)
    | None => ([rMark], n)
    end
  else
    let k := scan_while (fun k => at_rune r k isDigit) left (S i) in
    (slice r i k, k).

(** The body of the main loop at index [i], whose rune is [c]: the text
    written and the next index. *)
Definition mask_step (r : list Z) (i : nat) (c : Z) : list Z * nat :=
  let n := List.length r in
  let left := (n - i)%nat in
  if (c =? rDash) && at_rune r (S i) (Z.eqb rDash) then
    ([rDash; rDash; rMark],
     scan_while (fun i => at_rune r i (fun x => negb (x =? rNewline))) left i)
  else if (c =? rSlash) && at_rune r (S i) (Z.eqb rStar) then
    let i1 := scan_while (fun i => at_rune r (S i) (fun _ => true) &&
                negb (at_rune r i (Z.eqb rStar) && at_rune r (S i) (Z.eqb rSlash)))
                left (i + 2)%nat in
    let i2 := (i1 + 2)%nat in
    ([rSlash; rStar; rMark; rStar; rSlash], if (n <? i2)%nat then n else i2)
  else if c =? rQuote then
    ([rMark], skip_string r left (S i))
  else if c =? rDollar then
    dollar_step r i
  else if c =? rDQuote then
    let k := skip_ident r left (S i) in
    (slice r i k, k)
  else if isDigit c && ((i =? 0)%nat || negb (before_rune r i isWord)) then
    ([rMark], scan_while (number_cond r) left i)
  else ([c], S i).

(** [for i := 0; i < n; { ... }] *)
Fixpoint mask_loop (r : list Z) (fuel i : nat) : list Z :=
  match fuel with
  | O => []
  | S fuel =>
      match r !! i with
      | None => []
      | Some c => let '(out, i') := mask_step r i c in out ++ mask_loop r fuel i'
      end
  end.

Definition mask_runes (r : list Z) : list Z := mask_loop r (List.length r) 0.

Definition Mask (q : string) : string :=
  string_of_bytes (utf8 (mask_runes (runes (bytes_of_string q)))).

(** ** The test table of redact_test.go *)
Example Mask_test_values :
  Mask "UPDATE accounts SET email = 'bob@x.io', balance = 42.5 WHERE id = 7"
    = "UPDATE accounts SET email = ?, balance = ? WHERE id = ?"%string /\
  Mask "SELECT * FROM t WHERE name = 'O''Brien'" = "SELECT * FROM t WHERE name = ?"%string /\
  Mask "SELECT col2 FROM t1 WHERE a2b = 'x'" = "SELECT col2 FROM t1 WHERE a2b = ?"%string /\
  Mask "DO $$ secret body $$" = "DO ?"%string /\
  Mask "SELECT $tag$ hidden $tag$ FROM x" = "SELECT ? FROM x"%string /\
  Mask "SELECT * FROM t WHERE id = $1 AND v = $2" = "SELECT * FROM t WHERE id = $1 AND v = $2"%string /\
  Mask "SELECT /* secret */ x FROM t" = "SELECT /*?*/ x FROM t"%string /\
  Mask "SELECT 1.5e+10, 2E-3" = "SELECT ?, ?"%string /\
  Mask "SELECT 'oops" = "SELECT ?"%string /\
  Mask "DO $$ never closed" = "DO ?"%string /\
  Mask "" = ""%string.
Proof. vm_compute. repeat split. Qed.

(** ** Termination: every iteration advances *)
Lemma scan_while_ge cond fuel i : (i <= scan_while cond fuel i)%nat.
Proof.
  revert i. induction fuel as [|fuel IH]; intros i; simpl; [lia|].
  case_match; [|lia]. specialize (IH (S i)). lia.
Qed.

Lemma skip_string_ge r fuel i : (i <= skip_string r fuel i)%nat.
Proof.
  revert i. induction fuel as [|fuel IH]; intros i; simpl; [lia|].
  repeat case_match; try lia; [specialize (IH (S (S i)))|specialize (IH (S i))]; lia.
Qed.

Lemma skip_ident_ge r fuel i : (i <= skip_ident r fuel i)%nat.
Proof.
  revert i. induction fuel as [|fuel IH]; intros i; simpl; [lia|].
  repeat case_match; try lia. specialize (IH (S i)). lia.
Qed.

(** A scan whose condition checks the bounds stops by itself: with fuel for
    the runes left, it ends where the condition fails. *)
Lemma scan_while_stops cond n fuel i :
  (forall k, cond k = true -> (k < n)%nat) -> (n - i <= fuel)%nat ->
  cond (scan_while cond fuel i) = false.
Proof.
  intros Hb. revert i. induction fuel as [|fuel IH]; intros i Hf; simpl.
  - destruct (cond i) eqn:E; [|done]. apply Hb in E. lia.
  - destruct (cond i) eqn:E; [|done]. apply IH. lia.
Qed.

Lemma at_rune_lt r i p : at_rune r i p = true -> (i < List.length r)%nat.
Proof.
  unfold at_rune. destruct (r !! i) eqn:E; [|done]. intros _. by eapply lookup_lt_Some.
Qed.

Lemma mask_step_advances r i c :
  r !! i = Some c -> (i < (mask_step r i c).2)%nat.
Proof.
  intros Hi. pose proof (lookup_lt_Some _ _ _ Hi) as Hlt. unfold mask_step.
  destruct ((c =? rDash) && _) eqn:E1; [|destruct ((c =? rSlash) && _) eqn:E2;
    [|destruct (c =? rQuote); [|destruct (c =? rDollar);
    [|destruct (c =? rDQuote); [|destruct (isDigit c && _) eqn:E6]]]]]; simpl; try lia.
  - destruct (List.length r - i)%nat eqn:En; [lia|]. cbn [scan_while].
    apply andb_true_iff in E1 as [Ec%Z.eqb_eq _]. subst.
    unfold at_rune at 1. rewrite Hi. simpl.
    eapply Nat.lt_le_trans; [|apply scan_while_ge]. lia.
  - case_match; [lia|]. pose proof (scan_while_ge (fun i => at_rune r (S i) (fun _ => true) &&
      negb (at_rune r i (Z.eqb rStar) && at_rune r (S i) (Z.eqb rSlash)))
      (List.length r - i) (i + 2)). lia.
  - pose proof (skip_string_ge r (List.length r - i) (S i)). lia.
  - unfold dollar_step.
    pose proof (scan_while_ge (fun j => at_rune r j (fun x => negb (x =? rDollar) && isWord x))
      (List.length r - i) (S i)).
    pose proof (scan_while_ge (fun k => at_rune r k isDigit) (List.length r - i) (S i)).
    repeat case_match; simpl; lia.
  - pose proof (skip_ident_ge r (List.length r - i) (S i)). lia.
  - apply andb_true_iff in E6 as [Ed _].
    destruct (List.length r - i)%nat eqn:En; [lia|]. cbn [scan_while].
    assert (number_cond r i = true) as ->.
    { unfold number_cond, at_rune. rewrite Hi, Ed, !orb_true_r. simpl.
      unfold isDigit, rPlus, rDash in *.
      destruct (c =? 43) eqn:?, (c =? 45) eqn:?; simpl; done || lia. }
    eapply Nat.lt_le_trans; [|apply scan_while_ge]. lia.
Qed.

(** More fuel than runes left changes nothing. *)
Lemma mask_loop_fuel r f1 f2 i :
  (List.length r - i <= f1)%nat -> (List.length r - i <= f2)%nat ->
  mask_loop r f1 i = mask_loop r f2 i.
Proof.
  remember (List.length r - i)%nat as m eqn:Em. revert i f1 f2 Em.
  induction (Nat.lt_wf_0 m) as [m _ IH]. intros i f1 f2 -> H1 H2.
  destruct (r !! i) as [c|] eqn:Ei.
  2:{ destruct f1, f2; simpl; by rewrite ?Ei. }
  pose proof (lookup_lt_Some _ _ _ Ei). pose proof (mask_step_advances r i c Ei) as Ha.
  destruct f1 as [|f1], f2 as [|f2]; try lia. simpl. rewrite Ei.
  destruct (mask_step r i c) as [out i']. simpl in *. f_equal.
  eapply (IH (List.length r - i')%nat); lia.
Qed.

(** [mask_at r i]: what the loop writes from index [i] on. *)
Definition mask_at (r : list Z) (i : nat) : list Z := mask_loop r (List.length r - i) i.

Lemma mask_at_end r i : (List.length r <= i)%nat -> mask_at r i = [].
Proof. intros. unfold mask_at. by replace (List.length r - i)%nat with O by lia. Qed.

Lemma mask_at_step r i c :
  r !! i = Some c -> mask_at r i = (mask_step r i c).1 ++ mask_at r (mask_step r i c).2.
Proof.
  intros Hi. pose proof (lookup_lt_Some _ _ _ Hi). pose proof (mask_step_advances r i c Hi).
  unfold mask_at at 1. destruct (List.length r - i)%nat eqn:En; [lia|]. simpl. rewrite Hi.
  destruct (mask_step r i c) as [out i']. simpl in *. f_equal. apply mask_loop_fuel; lia.
Qed.

Lemma mask_runes_at r : mask_runes r = mask_at r 0.
Proof. unfold mask_runes, mask_at. by rewrite Nat.sub_0_r. Qed.

(** ** What a step depends on

    From index [i] on, the masker looks at the runes from [i] onward and, for
    the rune at [i] itself, at whether the one before it is part of a word. *)
Section agree.
Context (r r' : list Z) (i i' : nat).
Hypothesis Hdrop : drop i r = drop i' r'.
Hypothesis Hi : (i <= List.length r)%nat.
Hypothesis Hi' : (i' <= List.length r')%nat.

Lemma agree_left : (List.length r - i = List.length r' - i')%nat.
Proof. by rewrite <-!length_drop, Hdrop. Qed.

Lemma agree_lookup k : r !! (i + k)%nat = r' !! (i' + k)%nat.
Proof. by rewrite <-!lookup_drop, Hdrop. Qed.

Lemma agree_at k p : at_rune r (i + k) p = at_rune r' (i' + k) p.
Proof. unfold at_rune. by rewrite agree_lookup. Qed.

Lemma agree_drop k : drop (i + k) r = drop (i' + k) r'.
Proof. by rewrite <-!drop_drop, Hdrop. Qed.

Lemma agree_slice k : slice r i (i + k) = slice r' i' (i' + k).
Proof. unfold slice. rewrite Hdrop. f_equal. lia. Qed.

Lemma agree_scan cond cond' fuel k :
  (forall j, (k <= j)%nat -> cond (i + j)%nat = cond' (i' + j)%nat) ->
  exists m, (k <= m)%nat /\ scan_while cond fuel (i + k) = (i + m)%nat /\
            scan_while cond' fuel (i' + k) = (i' + m)%nat.
Proof.
  revert k. induction fuel as [|fuel IH]; intros k Hc; simpl; [by exists k|].
  rewrite Hc by lia. destruct (cond' (i' + k)%nat); [|by exists k].
  destruct (IH (S k)) as (m & Hm & H1 & H2); [intros; apply Hc; lia|].
  exists m. rewrite <-!Nat.add_succ_r. split; [lia|done].
Qed.

Lemma agree_skip_string fuel k :
  exists m, skip_string r fuel (i + k) = (i + m)%nat /\
            skip_string r' fuel (i' + k) = (i' + m)%nat.
Proof.
  revert k. induction fuel as [|fuel IH]; intros k; simpl; [by exists k|].
  rewrite agree_lookup. destruct (r' !! _) as [c|]; [|by exists k].
  rewrite <-!Nat.add_succ_r, agree_at.
  destruct (c =? rQuote); [|apply IH]. destruct (at_rune r' _ _); [apply IH|by eexists].
Qed.

Lemma agree_skip_ident fuel k :
  exists m, skip_ident r fuel (i + k) = (i + m)%nat /\
            skip_ident r' fuel (i' + k) = (i' + m)%nat.
Proof.
  revert k. induction fuel as [|fuel IH]; intros k; simpl; [by exists k|].
  rewrite agree_lookup. destruct (r' !! _) as [c|]; [|by exists k].
  rewrite <-!Nat.add_succ_r. destruct (c =? rDQuote); [by eexists|apply IH].
Qed.

Lemma agree_number_cond c k :
  r !! i = Some c -> isDigit c = true ->
  number_cond r (i + k) = number_cond r' (i' + k).
Proof.
  intros Hc Hd. destruct k as [|k].
  - unfold number_cond, at_rune. rewrite !Nat.add_0_r.
    pose proof (agree_lookup 0) as Hl. rewrite !Nat.add_0_r in Hl. rewrite <-Hl, Hc, Hd.
    unfold isDigit, rPlus, rDash in *.
    destruct (c =? 43) eqn:?, (c =? 45) eqn:?; simpl; done || lia.
  - assert (forall p, before_rune r (i + S k) p = before_rune r' (i' + S k) p) as Hb.
    { intros p. rewrite !Nat.add_succ_r. apply agree_at. }
    unfold number_cond, at_rune. rewrite agree_lookup.
    destruct (r' !! _); [|done]. by rewrite Hb.
Qed.

Lemma dollar_step_agree :
  exists out k, dollar_step r i = (out, (i + k)%nat) /\ dollar_step r' i' = (out, (i' + k)%nat).
Proof.
  unfold dollar_step. cbv zeta. rewrite <-agree_left.
  assert (S i = i + 1)%nat as -> by lia. assert (S i' = i' + 1)%nat as -> by lia.
  edestruct agree_scan as (j & _ & E1 & E2); [|rewrite E1, E2].
  { intros j _. apply agree_at. }
  rewrite agree_at. destruct (at_rune r' _ _).
  - rewrite <-!Nat.add_succ_r, agree_slice, agree_drop.
    case_match; eexists _; [exists (j + 1 + n + List.length (runes (utf8 (slice r' i' (i' + S j)))))%nat
      |exists (List.length r - i)%nat].
    + split; f_equal; lia.
    + pose proof agree_left. split; f_equal; lia.
  - edestruct agree_scan as (k & _ & E3 & E4); [|rewrite E3, E4].
    { intros k _. apply agree_at. }
    rewrite agree_slice. by eexists _, k.
Qed.

Lemma mask_step_agree c :
  (isDigit c = true -> before_rune r i isWord = before_rune r' i' isWord) ->
  r !! i = Some c ->
  exists out k, mask_step r i c = (out, (i + k)%nat) /\ mask_step r' i' c = (out, (i' + k)%nat).
Proof.
  intros Hprev Hc. unfold mask_step. rewrite <-agree_left.
  assert (S i = i + 1)%nat as ES by lia. assert (S i' = i' + 1)%nat as ES' by lia.
  rewrite ES, ES', !agree_at.
  destruct ((c =? rDash) && _); [|destruct ((c =? rSlash) && _);
    [|destruct (c =? rQuote); [|destruct (c =? rDollar); [|destruct (c =? rDQuote)]]]].
  - destruct (agree_scan (fun i => at_rune r i (fun x => negb (x =? rNewline)))
      (fun i => at_rune r' i (fun x => negb (x =? rNewline))) (List.length r - i) 0) as (m & _ & E1 & E2).
    { intros j _. apply agree_at. }
    rewrite !Nat.add_0_r in E1, E2. rewrite E1, E2. by exists [rDash; rDash; rMark], m.
  - edestruct agree_scan as (m & _ & E1 & E2); [|rewrite E1, E2].
    { intros j _. simpl. rewrite <-!Nat.add_succ_r, !agree_at. reflexivity. }
    pose proof agree_left.
    exists [rSlash; rStar; rMark; rStar; rSlash],
      (if (List.length r <? i + m + 2)%nat then List.length r - i else m + 2)%nat.
    destruct (Nat.ltb_spec (List.length r) (i + m + 2)),
      (Nat.ltb_spec (List.length r') (i' + m + 2)); try lia; split; f_equal; lia.
  - destruct (agree_skip_string (List.length r - i) 1) as (m & -> & ->).
    by eexists _, m.
  - apply dollar_step_agree.
  - destruct (agree_skip_ident (List.length r - i) 1) as (m & -> & ->).
    rewrite agree_slice. by eexists _, m.
  - assert (forall (x : list Z) j, (j =? 0)%nat || negb (before_rune x j isWord) =
      negb (before_rune x j isWord)) as Hz by (intros x [|j]; done).
    rewrite !Hz.
    replace (isDigit c && negb (before_rune r' i' isWord))
      with (isDigit c && negb (before_rune r i isWord))
      by (destruct (isDigit c); simpl; [by rewrite Hprev|done]).
    destruct (isDigit c && _) eqn:E.
    + apply andb_true_iff in E as [Hd _].
      destruct (agree_scan (number_cond r) (number_cond r') (List.length r - i) 0) as (m & _ & E1 & E2).
      { intros j _. by eapply agree_number_cond. }
      rewrite !Nat.add_0_r in E1, E2. rewrite E1, E2. by eexists _, m.
    + by eexists _, 1%nat.
Qed.
End agree.

(** The rest of the output depends on the rest of the input only. *)
Lemma mask_at_agree r i r' i' :
  drop i r = drop i' r' -> (i <= List.length r)%nat -> (i' <= List.length r')%nat ->
  (at_rune r i isDigit = true -> before_rune r i isWord = before_rune r' i' isWord) ->
  mask_at r i = mask_at r' i'.
Proof.
  remember (List.length r - i)%nat as m eqn:Em. revert i i' Em.
  induction (Nat.lt_wf_0 m) as [m _ IH]. intros i i' -> Hd Hi Hi' Hp.
  pose proof (agree_left r r' i i' Hd) as Hlen.
  destruct (r !! i) as [c|] eqn:Ec.
  2:{ apply lookup_ge_None in Ec. rewrite !mask_at_end by lia. done. }
  pose proof (agree_lookup r r' i i' Hd 0) as Hl. rewrite !Nat.add_0_r in Hl.
  pose proof (lookup_lt_Some _ _ _ Ec).
  pose proof (mask_step_advances r i c Ec) as Ha.
  rewrite (mask_at_step r i c), (mask_at_step r' i' c) by congruence.
  destruct (mask_step_agree r r' i i' Hd Hi Hi' c) as (out & k & E1 & E2);
    [by unfold at_rune in Hp; rewrite Ec in Hp|done|].
  rewrite E1, E2 in *. simpl in *. f_equal.
  destruct (decide (i + k <= List.length r)%nat) as [Hk|Hk].
  2:{ rewrite !mask_at_end by lia. done. }
  eapply (IH (List.length r - (i + k))%nat); [lia|done|by apply agree_drop|lia|lia|].
  intros _. destruct k as [|k]; [lia|]. rewrite !Nat.add_succ_r. cbn [before_rune].
  by apply agree_at.
Qed.

(** ** A step is settled by the text it consumed and one rune more *)
Lemma scan_while_run cond f i e :
  scan_while cond f i = e ->
  (forall k, (i <= k < e)%nat -> cond k = true) /\ (e - i <= f)%nat.
Proof.
  revert i. induction f as [|f IH]; intros i; simpl; [intros <-; split; lia|].
  destruct (cond i) eqn:E; [|intros <-; split; lia].
  intros He. destruct (IH _ He) as [H1 H2]. split; [|lia].
  intros k Hk. destruct (decide (k = i)) as [->|]; [done|]. apply H1. lia.
Qed.

Lemma scan_while_intro cond f i e :
  (i <= e)%nat -> (forall k, (i <= k < e)%nat -> cond k = true) -> cond e = false ->
  (e - i <= f)%nat -> scan_while cond f i = e.
Proof.
  revert i. induction f as [|f IH]; intros i Hie Hc He Hf; simpl; [lia|].
  destruct (decide (i = e)) as [->|]; [by rewrite He|].
  rewrite Hc by lia. apply IH; try lia || done. intros; apply Hc; lia.
Qed.

Lemma ascii_encode_rune c : (0 <= c < 128)%Z -> encode_rune c = [c].
Proof. intros. unfold encode_rune. by replace ((0 <=? c) && (c <=? 127)) with true by lia. Qed.

Lemma ascii_utf8 t : Forall (fun c => 0 <= c < 128) t -> utf8 t = t.
Proof.
  induction 1 as [|c t Hc Ht IH]; [done|].
  change (encode_rune c ++ utf8 t = c :: t). by rewrite ascii_encode_rune, IH.
Qed.

Lemma ascii_runes t : Forall (fun c => 0 <= c < 128) t -> runes t = t.
Proof.
  intros Ht. rewrite <-(ascii_utf8 t Ht) at 1. apply runes_utf8.
  eapply Forall_impl; [exact Ht|]. intros c Hc. simpl in Hc. unfold valid_rune, MaxRune. lia.
Qed.

Lemma isWord_ascii c : isWord c = true -> 0 <= c < 128.
Proof. unfold isWord, isDigit. lia. Qed.

(** The opening tag of a dollar quote is ASCII. *)
Lemma dollar_tag_ascii r i j f :
  r !! i = Some rDollar ->
  scan_while (fun j => at_rune r j (fun x => negb (x =? rDollar) && isWord x)) f (S i) = j ->
  at_rune r j (Z.eqb rDollar) = true ->
  Forall (fun c => 0 <= c < 128) (slice r i (S j)).
Proof.
  intros Hi [Hrun _]%scan_while_run Hj. apply Forall_lookup_2. intros k c Hk.
  unfold slice in Hk. apply lookup_take_Some in Hk as [Hk Hlt]. rewrite lookup_drop in Hk.
  destruct (decide (k = O)) as [->|]; [rewrite Nat.add_0_r in Hk; simplify_eq; unfold rDollar; lia|].
  destruct (decide (i + k = j)%nat) as [<-|].
  - unfold at_rune in Hj. rewrite Hk in Hj. apply Z.eqb_eq in Hj. subst. unfold rDollar. lia.
  - specialize (Hrun (i + k)%nat ltac:(lia)). unfold at_rune in Hrun. rewrite Hk in Hrun.
    apply isWord_ascii. by destruct (isWord c); [|rewrite andb_false_r in Hrun].
Qed.

Section prefix.
Context (r r' : list Z) (m : nat).
Hypothesis Hm : (m < List.length r)%nat.
Hypothesis Htake : take (S m) r = take (S m) r'.

Lemma prefix_length : (m < List.length r')%nat.
Proof. apply (f_equal List.length) in Htake. rewrite !length_take in Htake. lia. Qed.

Lemma prefix_lookup k : (k <= m)%nat -> r !! k = r' !! k.
Proof.
  intros Hk. rewrite <-(lookup_take_lt r (S m)), <-(lookup_take_lt r' (S m)) by lia.
  by rewrite Htake.
Qed.

Lemma prefix_at k p : (k <= m)%nat -> at_rune r k p = at_rune r' k p.
Proof. intros. unfold at_rune. by rewrite prefix_lookup. Qed.

Lemma prefix_before k p : (k <= S m)%nat -> before_rune r k p = before_rune r' k p.
Proof. intros. destruct k as [|k]; [done|]. apply prefix_at. lia. Qed.

Lemma prefix_slice i j : (j <= S m)%nat -> slice r i j = slice r' i j.
Proof.
  intros Hj. unfold slice. apply list_eq. intros k.
  destruct (decide (k < j - i)%nat); [|by rewrite !lookup_take_ge by lia].
  rewrite !lookup_take_lt, !lookup_drop by lia. apply prefix_lookup. lia.
Qed.

Lemma prefix_scan cond cond' f f' i :
  (forall k, cond k = true -> (k < List.length r)%nat) ->
  (List.length r - i <= f)%nat -> (List.length r' - i <= f')%nat ->
  (scan_while cond f i <= m)%nat ->
  (forall k, (k <= scan_while cond f i)%nat -> cond k = cond' k) ->
  scan_while cond' f' i = scan_while cond f i.
Proof.
  intros Hb Hf Hf' Hem Hagree. pose proof prefix_length.
  pose proof (scan_while_ge cond f i). pose proof (scan_while_stops cond _ f i Hb Hf).
  destruct (scan_while_run cond f i _ eq_refl) as [Hrun _].
  apply scan_while_intro; [lia| | |lia].
  - intros k Hk. rewrite <-Hagree by lia. by apply Hrun.
  - rewrite <-Hagree by lia. congruence.
Qed.

Lemma prefix_skip_string f f' i :
  (List.length r - i <= f)%nat -> (List.length r' - i <= f')%nat ->
  (skip_string r f i <= m)%nat -> skip_string r' f' i = skip_string r f i.
Proof.
  pose proof prefix_length. revert f' i. induction f as [|f IH]; intros f' i Hf Hf'; simpl; [lia|].
  destruct (r !! i) as [c|] eqn:Ei; [|apply lookup_ge_None in Ei; lia].
  intros He. assert (i <= m)%nat.
  { revert He. repeat case_match; pose proof (skip_string_ge r f (S (S i)));
      pose proof (skip_string_ge r f (S i)); lia. }
  destruct f' as [|f']; [lia|]. simpl. rewrite <-prefix_lookup, Ei by done.
  destruct (c =? rQuote); [|apply IH; lia || done].
  destruct (at_rune r (S i) (Z.eqb rQuote)) eqn:E; rewrite <-prefix_at.
  - rewrite E. apply IH; lia || done.
  - apply at_rune_lt in E. pose proof (skip_string_ge r f (S (S i))). lia.
  - by rewrite E.
  - lia.
Qed.

Lemma prefix_skip_ident f f' i :
  (List.length r - i <= f)%nat -> (List.length r' - i <= f')%nat ->
  (skip_ident r f i <= m)%nat -> skip_ident r' f' i = skip_ident r f i.
Proof.
  pose proof prefix_length. revert f' i. induction f as [|f IH]; intros f' i Hf Hf'; simpl; [lia|].
  destruct (r !! i) as [c|] eqn:Ei; [|apply lookup_ge_None in Ei; lia].
  intros He. assert (i <= m)%nat.
  { revert He. case_match; pose proof (skip_ident_ge r f (S i)); lia. }
  destruct f' as [|f']; [lia|]. simpl. rewrite <-prefix_lookup, Ei by done.
  destruct (c =? rDQuote); [done|]. apply IH; lia || done.
Qed.

Lemma prefix_number_cond k : (k <= m)%nat -> number_cond r k = number_cond r' k.
Proof.
  intros Hk. unfold number_cond, at_rune. rewrite prefix_lookup by done.
  destruct (r' !! k); [|done]. by rewrite prefix_before by lia.
Qed.

(** The position [m] is a possible end of a token: its rune is not part of a
    word, or it is a digit after something that is not. *)
Definition token_boundary : Prop :=
  at_rune r m isWord = false \/
  (before_rune r m isWord = false /\ at_rune r m isDigit = true).

Hypothesis Hboundary : token_boundary.

(** The scan for a dollar-quote tag does not run past a boundary. *)
Lemma tag_scan_bounded i f :
  (i < m)%nat -> (List.length r - S i <= f)%nat -> r !! i = Some rDollar ->
  let j := scan_while (fun j => at_rune r j (fun x => negb (x =? rDollar) && isWord x)) f (S i) in
  (j <= m)%nat \/ (S i = m /\ at_rune r m isDigit = true).
Proof.
  intros Him Hf Hi j. destruct (decide (j <= m)%nat) as [|Hj]; [by left|]. right.
  pose proof (scan_while_run _ f (S i) j eq_refl) as [Hrun _].
  assert (forall k, (S i <= k <= m)%nat -> at_rune r k isWord = true) as Hw.
  { intros k Hk. specialize (Hrun k ltac:(lia)). unfold at_rune in *.
    destruct (r !! k); [|done]. by apply andb_true_iff in Hrun as [_ ?]. }
  destruct Hboundary as [Hb|[Hb Hd]]; [rewrite Hw in Hb by lia; done|].
  split; [|done]. destruct (decide (S i = m)) as [|Hne]; [done|].
  destruct m as [|m']; [lia|]. cbn [before_rune] in Hb. rewrite Hw in Hb by lia. done.
Qed.

(** Finding the closing tag inside the common prefix. *)
Lemma prefix_Index i j f e :
  r !! i = Some rDollar ->
  scan_while (fun j => at_rune r j (fun x => negb (x =? rDollar) && isWord x)) f (S i) = j ->
  at_rune r j (Z.eqb rDollar) = true ->
  (j + 1 + e + List.length (runes (utf8 (slice r i (S j)))) <= m)%nat ->
  Index (utf8 (drop (S j) r)) (utf8 (slice r i (S j))) = Some e ->
  Index (utf8 (drop (S j) r')) (utf8 (slice r i (S j))) = Some e.
Proof.
  intros Hi Hscan Hj Hle HI. pose proof prefix_length.
  pose proof (dollar_tag_ascii r i j f Hi Hscan Hj) as Hasc.
  rewrite (ascii_utf8 _ Hasc), (ascii_runes _ Hasc) in *.
  rewrite <-(take_drop (m - S j) (drop (S j) r)), utf8_app in HI.
  rewrite <-(take_drop (m - S j) (drop (S j) r')), utf8_app.
  assert (take (m - S j) (drop (S j) r) = take (m - S j) (drop (S j) r')) as <-.
  { pose proof (prefix_slice (S j) m ltac:(lia)) as Hs. exact Hs. }
  eapply Index_app; [exact HI|].
  etrans; [|apply length_utf8]. rewrite length_take, length_drop. lia.
Qed.

Lemma mask_dollar_prefix i :
  (i < m)%nat -> r !! i = Some rDollar -> ((dollar_step r i).2 <= m)%nat ->
  dollar_step r' i = dollar_step r i.
Proof.
  intros Him Hi. pose proof prefix_length as Hlen. unfold dollar_step. cbv zeta.
  set (left := (List.length r - i)%nat). set (left' := (List.length r' - i)%nat).
  set (tagc := fun c => negb (c =? rDollar) && isWord c).
  set (j := scan_while (fun j => at_rune r j tagc) left (S i)).
  destruct (tag_scan_bounded i left Him ltac:(lia) Hi) as [Hj|[Heq Hd]].
  - fold tagc in Hj. fold j in Hj.
    rewrite (prefix_scan (fun j => at_rune r j tagc) (fun j => at_rune r' j tagc) left left' (S i));
      [|intros k; apply at_rune_lt|lia|lia|done|intros k Hk; apply prefix_at; fold j in Hk; lia].
    fold j. rewrite <-(prefix_at j) by done.
    destruct (at_rune r j (Z.eqb rDollar)) eqn:Ej.
    + rewrite <-(prefix_slice i (S j)) by lia.
      destruct (Index (utf8 (drop (S j) r)) _) as [e|] eqn:HI; simpl; intros He; [|lia].
      by rewrite (prefix_Index i j left e Hi eq_refl Ej He HI).
    + intros He. simpl in He.
      rewrite (prefix_scan (fun k => at_rune r k isDigit) (fun k => at_rune r' k isDigit) left left' (S i));
        [|intros k; apply at_rune_lt|lia|lia|done|intros k Hk; apply prefix_at; lia].
      f_equal. symmetry. apply prefix_slice. lia.
  - intros He. exfalso. revert He.
    assert (m < scan_while (fun k => at_rune r k isDigit) left (S i))%nat as Hk.
    { destruct left eqn:El; [lia|]. cbn [scan_while]. rewrite Heq, Hd.
      eapply Nat.lt_le_trans; [|apply scan_while_ge]. lia. }
    pose proof (scan_while_ge (fun j => at_rune r j tagc) left (S i)) as Hge. fold j in Hge.
    destruct (at_rune r j _); [|simpl; lia]. destruct (Index _ _); simpl; lia.
Qed.

Lemma mask_step_prefix i c :
  (i < m)%nat -> r !! i = Some c -> ((mask_step r i c).2 <= m)%nat ->
  mask_step r' i c = mask_step r i c.
Proof.
  intros Him Hc. pose proof prefix_length as Hlen. unfold mask_step.
  rewrite <-(prefix_at (S i)) by lia.
  rewrite <-(prefix_at (S i) (Z.eqb rStar)) by lia.
  destruct ((c =? rDash) && _); [|destruct ((c =? rSlash) && _);
    [|destruct (c =? rQuote); [|destruct (Z.eqb_spec c rDollar) as [->|];
    [|destruct (c =? rDQuote)]]]]; simpl.
  - intros He. f_equal. apply prefix_scan; try lia.
    + intros k. apply at_rune_lt.
    + intros k Hk. apply prefix_at. lia.
  - set (cond := fun k => at_rune r (S k) _ && _).
    set (cond' := fun k => at_rune r' (S k) _ && _).
    intros He. pose proof (prefix_scan cond cond' (List.length r - i) (List.length r' - i) (i + 2)) as Hs.
    destruct (Nat.ltb_spec (List.length r) (scan_while cond (List.length r - i) (i + 2) + 2)); [lia|].
    rewrite Hs; [|..|lia|].
    + destruct (Nat.ltb_spec (List.length r') (scan_while cond (List.length r - i) (i + 2) + 2)); [lia|done].
    + intros k [Hk%at_rune_lt _]%andb_true_iff. lia.
    + lia.
    + lia.
    + intros k Hk. unfold cond, cond'. by rewrite !prefix_at by lia.
  - intros He. f_equal. apply prefix_skip_string; lia.
  - apply mask_dollar_prefix; done || lia.
  - intros He. rewrite (prefix_skip_ident (List.length r - i)) by lia.
    f_equal. symmetry. apply prefix_slice. lia.
  - rewrite <-(prefix_before i isWord) by lia.
    destruct (isDigit c && _); [|done]. simpl. intros He. f_equal.
    apply prefix_scan; try lia.
    + intros k. apply at_rune_lt.
    + intros k Hk. apply prefix_number_cond. lia.
Qed.
End prefix.

(** ** Reaching a position between tokens *)

(** The main loop arrives at index [i] having written [out]. *)
Inductive mask_reaches (r : list Z) : nat -> list Z -> Prop :=
| reach_start : mask_reaches r 0 []
| reach_step i out c :
    mask_reaches r i out -> r !! i = Some c ->
    mask_reaches r (mask_step r i c).2 (out ++ (mask_step r i c).1).

Lemma reaches_output r i out :
  mask_reaches r i out -> mask_runes r = out ++ mask_at r i.
Proof.
  induction 1 as [|i out c Hr IH Hc]; [apply mask_runes_at|].
  by rewrite IH, (mask_at_step r i c Hc), app_assoc.
Qed.

Lemma reaches_prefix r r' m i out :
  (m < List.length r)%nat -> take (S m) r = take (S m) r' -> token_boundary r m ->
  mask_reaches r i out -> (i <= m)%nat -> mask_reaches r' i out.
Proof.
  intros Hm Ht Hb. induction 1 as [|i out c Hr IH Hc]; intros Him; [constructor|].
  pose proof (mask_step_advances r i c Hc).
  rewrite <-(mask_step_prefix r r' m Hm Ht Hb i c) by (done || lia).
  apply reach_step; [apply IH; lia|].
  by rewrite <-(prefix_lookup r r' m Hm Ht) by lia.
Qed.

(** Executable form, for concrete queries. *)
Fixpoint reach_run (fuel : nat) (r : list Z) (i : nat) (out : list Z) (m : nat) : option (list Z) :=
  if (i =? m)%nat then Some out else
  match fuel with
  | O => None
  | S fuel =>
      match r !! i with
      | None => None
      | Some c => reach_run fuel r (mask_step r i c).2 (out ++ (mask_step r i c).1) m
      end
  end.

Lemma reach_run_sound fuel r i out m out' :
  mask_reaches r i out -> reach_run fuel r i out m = Some out' -> mask_reaches r m out'.
Proof.
  revert i out. induction fuel as [|fuel IH]; intros i out Hr; simpl;
    (destruct (Nat.eqb_spec i m) as [->|]; [by intros [= <-]|]); [done|].
  destruct (r !! i) as [c|] eqn:Hc; [|done]. apply IH. by apply reach_step.
Qed.

(** Two queries that differ in one span, which the masker replaces by the same
    text, have the same masked form. *)
Lemma hide_span pre s1 s2 post out x c :
  let r1 := pre ++ s1 ++ post in
  let r2 := pre ++ s2 ++ post in
  let m := List.length pre in
  mask_reaches r1 m out -> r1 !! m = Some c -> r2 !! m = Some c -> isWord c = false ->
  mask_step r1 m c = (x, (m + List.length s1)%nat) ->
  mask_step r2 m c = (x, (m + List.length s2)%nat) ->
  (at_rune post 0 isDigit = true ->
     before_rune r1 (m + List.length s1) isWord = before_rune r2 (m + List.length s2) isWord) ->
  mask_runes r1 = mask_runes r2.
Proof.
  intros r1 r2 m Hr H1 H2 Hc E1 E2 Hp.
  assert (mask_reaches r2 m out) as Hr2.
  { apply (reaches_prefix r1 r2 m m out); [by eapply lookup_lt_Some| | |done|done].
    - rewrite (take_S_r _ _ _ H1), (take_S_r _ _ _ H2). unfold r1, r2, m.
      by rewrite !take_app_length.
    - left. unfold at_rune. by rewrite H1. }
  rewrite (reaches_output _ _ _ Hr), (reaches_output _ _ _ Hr2). f_equal.
  rewrite (mask_at_step r1 m c H1), (mask_at_step r2 m c H2), E1, E2. simpl. f_equal.
  assert (forall s, drop (m + List.length s) (pre ++ s ++ post) = post) as Hd.
  { intros s. rewrite app_assoc, drop_app_length'; [done|]. by rewrite length_app. }
  apply mask_at_agree; unfold r1, r2, m in *; rewrite ?Hd, ?length_app; try lia; [done|].
  intros Hdig. apply Hp. unfold at_rune in *.
  pose proof (Hd s1) as Hd1. apply (f_equal (fun l => l !! O)) in Hd1.
  rewrite lookup_drop, Nat.add_0_r in Hd1. by rewrite <-Hd1.
Qed.

(** ** The four kinds of masked spans *)
Inductive SpanKind :=
| StringLit                    (* '...' with doubled quotes *)
| DollarLit (tag : list Z)     (* $tag$...$tag$ *)
| LineComment                  (* --... up to the newline *)
| BlockComment.                (* /*...*/ *)

(** A string body as it is written: quotes doubled. *)
Definition double_quotes (v : list Z) : list Z :=
  v ≫= fun c => if c =? rQuote then [rQuote; rQuote] else [c].

Definition dollar_tag (t : list Z) : list Z := rDollar :: t ++ [rDollar].

Definition span_text (k : SpanKind) (v : list Z) : list Z :=
  match k with
  | StringLit => rQuote :: double_quotes v ++ [rQuote]
  | DollarLit t => dollar_tag t ++ v ++ dollar_tag t
  | LineComment => rDash :: rDash :: v
  | BlockComment => rSlash :: rStar :: v ++ [rStar; rSlash]
  end.

Definition span_mask (k : SpanKind) : list Z :=
  match k with
  | StringLit | DollarLit _ => [rMark]
  | LineComment => [rDash; rDash; rMark]
  | BlockComment => [rSlash; rStar; rMark; rStar; rSlash]
  end.

(** When [v] is a body of the span, given the text that follows it. *)
Definition span_ok (k : SpanKind) (v post : list Z) : Prop :=
  match k with
  | StringLit => at_rune post 0 (Z.eqb rQuote) = false
  | DollarLit t => Forall (fun c => isWord c = true) t /\
                   Forall (fun c => 0 <= c < 128 /\ c <> rDollar) v
  | LineComment => rNewline ∉ v /\ (post = [] \/ at_rune post 0 (Z.eqb rNewline) = true)
  | BlockComment => forall i, at_rune v i (Z.eqb rStar) && at_rune v (S i) (Z.eqb rSlash) = false
  end.

(** Lengths of concatenations, then arithmetic. *)
Ltac lens := do 4 (rewrite ?length_app; simpl); lia.

(** Lookups in [pre ++ s]. *)
Lemma lookup_past (pre s : list Z) k : (pre ++ s) !! (List.length pre + k)%nat = s !! k.
Proof. by rewrite lookup_app_r, Nat.add_comm, Nat.add_sub by lia. Qed.

Lemma at_rune_past pre s k p : at_rune (pre ++ s) (List.length pre + k) p = at_rune s k p.
Proof. unfold at_rune. by rewrite lookup_past. Qed.

Lemma slice_past pre s j k : slice (pre ++ s) (List.length pre + j) (List.length pre + k) = slice s j k.
Proof.
  unfold slice. rewrite <-drop_drop, drop_app_length. f_equal. lia.
Qed.

Lemma skip_string_body r f i v post :
  drop i r = double_quotes v ++ rQuote :: post ->
  at_rune post 0 (Z.eqb rQuote) = false -> (List.length r - i <= f)%nat ->
  skip_string r f i = (i + List.length (double_quotes v) + 1)%nat.
Proof.
  intros Hd Hp. revert i f Hd. induction v as [|c v IH]; intros i f Hd Hf.
  - assert (r !! i = Some rQuote) as Hi by (by rewrite <-(Nat.add_0_r i), <-lookup_drop, Hd).
    pose proof (lookup_lt_Some _ _ _ Hi). destruct f as [|f]; [lia|]. simpl. rewrite Hi. simpl.
    assert (at_rune r (S i) (Z.eqb rQuote) = false) as ->.
    { unfold at_rune. rewrite <-Nat.add_1_r, <-lookup_drop, Hd. exact Hp. }
    lia.
  - change (double_quotes (c :: v)) with
      ((if c =? rQuote then [rQuote; rQuote] else [c]) ++ double_quotes v) in *.
    destruct (Z.eqb_spec c rQuote) as [->|Hc].
    + assert (r !! i = Some rQuote) as Hi by (by rewrite <-(Nat.add_0_r i), <-lookup_drop, Hd).
      pose proof (lookup_lt_Some _ _ _ Hi). destruct f as [|f]; [lia|]. cbn [skip_string]. rewrite Hi.
      assert (at_rune r (S i) (Z.eqb rQuote) = true) as ->.
      { unfold at_rune. by rewrite <-Nat.add_1_r, <-lookup_drop, Hd. }
      rewrite IH; [simpl; lia| |lia].
      replace (S (S i)) with (i + 2)%nat by lia. by rewrite <-drop_drop, Hd.
    + assert (r !! i = Some c) as Hi by (by rewrite <-(Nat.add_0_r i), <-lookup_drop, Hd).
      pose proof (lookup_lt_Some _ _ _ Hi). destruct f as [|f]; [lia|]. simpl. rewrite Hi.
      destruct (Z.eqb_spec c rQuote); [done|].
      rewrite IH; [lia| |lia].
      rewrite <-Nat.add_1_r. by rewrite <-drop_drop, Hd.
Qed.

Lemma Index_fresh (v u post : list Z) c :
  c ∉ v -> Index (v ++ (c :: u) ++ post) (c :: u) = Some (List.length v).
Proof.
  induction v as [|b v IH]; intros Hc.
  - simpl. by rewrite Z.eqb_refl, (proj2 (is_prefix_spec u (u ++ post))) by eauto.
  - apply not_elem_of_cons in Hc as [Hne Hc].
    change (Index (b :: v ++ (c :: u) ++ post) (c :: u) = Some (S (List.length v))).
    cbn [Index is_prefix]. destruct (Z.eqb_spec c b); [done|]. cbn [andb]. by rewrite IH.
Qed.

(** Inside a block comment's body the loop condition holds. *)
Lemma block_body_continues v post j :
  span_ok BlockComment v post -> (j < List.length v)%nat ->
  let w := v ++ [rStar; rSlash] ++ post in
  at_rune (rSlash :: rStar :: w) (S (S (S j))) (fun _ => true) &&
  negb (at_rune (rSlash :: rStar :: w) (S (S j)) (Z.eqb rStar) &&
        at_rune (rSlash :: rStar :: w) (S (S (S j))) (Z.eqb rSlash)) = true.
Proof.
  intros Hok Hj w. specialize (Hok j).
  change (at_rune w (S j) (fun _ => true) &&
    negb (at_rune w j (Z.eqb rStar) && at_rune w (S j) (Z.eqb rSlash)) = true).
  assert (at_rune w j (Z.eqb rStar) = at_rune v j (Z.eqb rStar)) as ->.
  { unfold at_rune, w. by rewrite lookup_app_l. }
  destruct (decide (S j < List.length v)%nat) as [Hl|Hl].
  - assert (forall p, at_rune w (S j) p = at_rune v (S j) p) as Hw.
    { intros p. unfold at_rune, w. by rewrite lookup_app_l. }
    rewrite !Hw, Hok, andb_true_r. unfold at_rune.
    by destruct (lookup_lt_is_Some_2 v _ Hl) as [y ->].
  - assert (forall p, at_rune w (S j) p = p rStar) as Hw.
    { intros p. unfold at_rune, w. rewrite lookup_app_r by lia.
      by replace (S j - List.length v)%nat with O by lia. }
    rewrite !Hw. by rewrite andb_false_r.
Qed.

Lemma block_body_ends v post :
  let w := v ++ [rStar; rSlash] ++ post in
  let j := List.length v in
  at_rune (rSlash :: rStar :: w) (S (S (S j))) (fun _ => true) &&
  negb (at_rune (rSlash :: rStar :: w) (S (S j)) (Z.eqb rStar) &&
        at_rune (rSlash :: rStar :: w) (S (S (S j))) (Z.eqb rSlash)) = false.
Proof.
  intros w j.
  change (at_rune w (S j) (fun _ => true) &&
    negb (at_rune w j (Z.eqb rStar) && at_rune w (S j) (Z.eqb rSlash)) = false).
  assert (forall p, at_rune w (j + 0) p = p rStar) as H0 by (intros p; apply at_rune_past).
  assert (forall p, at_rune w (j + 1) p = p rSlash) as H1 by (intros p; apply at_rune_past).
  rewrite Nat.add_0_r in H0. rewrite Nat.add_1_r in H1. by rewrite !H1, H0.
Qed.

Section spans.
Context (pre post : list Z).
Notation m := (List.length pre).
Notation query k v := (pre ++ span_text k v ++ post).

Lemma step_string v :
  span_ok StringLit v post ->
  mask_step (query StringLit v) m rQuote = ([rMark], (m + List.length (span_text StringLit v))%nat).
Proof.
  intros Hok. unfold mask_step. simpl. f_equal.
  rewrite (skip_string_body _ _ _ v post); [lens| |done|lens].
  rewrite <-Nat.add_1_r, <-drop_drop, drop_app_length. simpl. by rewrite <-app_assoc.
Qed.

Lemma step_line v :
  span_ok LineComment v post ->
  mask_step (query LineComment v) m rDash =
  ([rDash; rDash; rMark], (m + List.length (span_text LineComment v))%nat).
Proof.
  intros [Hv Hpost]. unfold mask_step.
  rewrite <-(Nat.add_1_r m), (at_rune_past pre _ 1). simpl (_ && _). cbv iota. f_equal.
  apply scan_while_intro; [lia| | |lens].
  - intros k Hk. replace k with (m + (k - m))%nat by lia. rewrite at_rune_past.
    unfold at_rune. rewrite lookup_app_l by (simpl in *; lia).
    destruct (lookup_lt_is_Some_2 (span_text LineComment v) (k - m)) as [x Hx]; [simpl in *; lia|].
    rewrite Hx. apply list_elem_of_lookup_2 in Hx. simpl in Hx.
    apply negb_true_iff, Z.eqb_neq. intros ->. unfold rDash, rNewline in *.
    rewrite !elem_of_cons in Hx. naive_solver.
  - rewrite at_rune_past. unfold at_rune. rewrite lookup_app_r, Nat.sub_diag by lia.
    destruct Hpost as [->|Hn]; [done|]. unfold at_rune in Hn.
    destruct (post !! O); [|done]. apply Z.eqb_eq in Hn as <-. done.
Qed.

Lemma step_block v :
  span_ok BlockComment v post ->
  mask_step (query BlockComment v) m rSlash =
  ([rSlash; rStar; rMark; rStar; rSlash], (m + List.length (span_text BlockComment v))%nat).
Proof.
  intros Hok. simpl in Hok. unfold mask_step.
  rewrite <-!(Nat.add_1_r m), !(at_rune_past pre _ 1). simpl (_ && _). cbv iota.
  set (cond := fun i => _).
  assert (forall j, cond (m + j)%nat =
    at_rune (span_text BlockComment v ++ post) (S j) (fun _ => true) &&
    negb (at_rune (span_text BlockComment v ++ post) j (Z.eqb rStar) &&
          at_rune (span_text BlockComment v ++ post) (S j) (Z.eqb rSlash))) as Hcond.
  { intros j. unfold cond. rewrite <-!Nat.add_succ_r. by rewrite !at_rune_past. }
  assert (scan_while cond (List.length (query BlockComment v) - m) (m + 2) = m + 2 + List.length v)%nat as ->.
  { apply scan_while_intro; [lia| | |lens].
    - intros k Hk. replace k with (m + S (S (k - m - 2)))%nat by lia. rewrite Hcond.
      cbn [span_text app]. rewrite <-app_assoc. apply block_body_continues; [exact Hok|lia].
    - replace (m + 2 + List.length v)%nat with (m + S (S (List.length v)))%nat by lia.
      rewrite Hcond. cbn [span_text app]. rewrite <-app_assoc. apply block_body_ends. }
  f_equal. case_match eqn:Hlt; [apply Nat.ltb_lt in Hlt; revert Hlt|]; lens.
Qed.

Lemma step_dollar t v :
  span_ok (DollarLit t) v post ->
  mask_step (query (DollarLit t) v) m rDollar =
  ([rMark], (m + List.length (span_text (DollarLit t) v))%nat).
Proof.
  intros [Ht Hv]. unfold mask_step. simpl (_ && _). cbv iota. unfold dollar_step. cbv zeta.
  set (q := query (DollarLit t) v).
  assert (q = pre ++ rDollar :: t ++ rDollar :: v ++ dollar_tag t ++ post) as Eq.
  { unfold q, span_text, dollar_tag. cbn [app]. do 4 (rewrite <-?app_assoc; cbn [app]). done. }
  assert (Forall (fun c => 0 <= c < 128) (dollar_tag t)) as Htag.
  { unfold dollar_tag. constructor; [unfold rDollar; lia|]. apply Forall_app_2.
    - eapply Forall_impl; [exact Ht|]. apply isWord_ascii.
    - repeat constructor; unfold rDollar; lia. }
  assert (scan_while (fun j => at_rune q j (fun x => negb (x =? rDollar) && isWord x))
    (List.length q - m) (S m) = (m + S (List.length t))%nat) as ->.
  { apply scan_while_intro; [lia| | |rewrite Eq; lens].
    - intros k Hk. replace k with (m + S (k - m - 1))%nat by lia. rewrite Eq, at_rune_past.
      unfold at_rune. simpl. rewrite lookup_app_l by lia.
      destruct (lookup_lt_is_Some_2 t (k - m - 1)) as [x Hx]; [lia|]. rewrite Hx.
      rewrite Forall_lookup in Ht. specialize (Ht _ _ Hx). rewrite Ht, andb_true_r.
      apply negb_true_iff, Z.eqb_neq. intros ->. done.
    - rewrite Eq, at_rune_past. unfold at_rune. simpl.
      by rewrite lookup_app_r, Nat.sub_diag by lia. }
  assert (at_rune q (m + S (List.length t)) (Z.eqb rDollar) = true) as ->.
  { rewrite Eq, at_rune_past. unfold at_rune. simpl. by rewrite lookup_app_r, Nat.sub_diag by lia. }
  assert (slice q m (S (m + S (List.length t))) = dollar_tag t) as ->.
  { rewrite <-Nat.add_succ_r. rewrite <-(Nat.add_0_r m) at 1. rewrite Eq, slice_past.
    unfold slice, dollar_tag. rewrite drop_0, Nat.sub_0_r.
    change (rDollar :: t ++ rDollar :: v ++ (rDollar :: t ++ [rDollar]) ++ post)
      with ((rDollar :: t) ++ [rDollar] ++ v ++ (rDollar :: t ++ [rDollar]) ++ post).
    rewrite app_assoc. by rewrite take_app_length' by (rewrite length_app; simpl; lia). }
  assert (drop (S (m + S (List.length t))) q = v ++ dollar_tag t ++ post) as ->.
  { rewrite Eq. replace (S (m + S (List.length t))) with (m + S (List.length (t ++ [rDollar])))%nat
      by (rewrite length_app; simpl; lia).
    rewrite <-drop_drop, drop_app_length. cbn [drop].
    change (rDollar :: v ++ dollar_tag t ++ post) with ([rDollar] ++ (v ++ dollar_tag t ++ post)).
    rewrite (app_assoc t [rDollar]). apply drop_app_length. }
  rewrite !utf8_app, (ascii_utf8 _ Htag), (ascii_runes _ Htag), (ascii_utf8 v).
  2:{ eapply Forall_impl; [exact Hv|]. by intros c [? _]. }
  unfold dollar_tag at 1 2. rewrite Index_fresh.
  2:{ intros Hin. rewrite Forall_forall in Hv. by destruct (Hv _ Hin). }
  f_equal. unfold span_text, dollar_tag. lens.
Qed.
End spans.

Lemma span_step k pre v post :
  span_ok k v post ->
  exists c, isWord c = false /\ (pre ++ span_text k v ++ post) !! List.length pre = Some c /\
    head (span_text k v) = Some c /\
    mask_step (pre ++ span_text k v ++ post) (List.length pre) c =
    (span_mask k, (List.length pre + List.length (span_text k v))%nat).
Proof.
  intros Hok. pose proof (lookup_past pre (span_text k v ++ post) 0) as Hl.
  rewrite Nat.add_0_r in Hl. rewrite Hl.
  destruct k; eexists; (split; [|split; [reflexivity|split; [reflexivity|]]]);
    auto using step_string, step_dollar, step_line, step_block.
Qed.

(** The last rune of a span does not depend on its body, except in a line
    comment, which a newline follows. *)
Lemma span_last k pre v post :
  span_ok k v post -> at_rune post 0 isDigit = true ->
  before_rune (pre ++ span_text k v ++ post) (List.length pre + List.length (span_text k v)) isWord = false.
Proof.
  intros Hok Hd.
  assert (exists s c, span_text k v = s ++ [c] /\ isWord c = false) as (s & c & -> & Hc).
  { destruct k as [|t| |]; simpl in Hok.
    - exists (rQuote :: double_quotes v), rQuote. done.
    - exists (dollar_tag t ++ v ++ rDollar :: t), rDollar. split; [|done].
      simpl. unfold dollar_tag. by rewrite <-!app_assoc, <-app_comm_cons.
    - destruct Hok as [_ [->|Hn]]; [done|]. unfold at_rune in *.
      destruct (post !! O); [|done]. apply Z.eqb_eq in Hn as <-. done.
    - exists (rSlash :: rStar :: v ++ [rStar]), rSlash. split; [|done].
      simpl. by rewrite <-app_assoc. }
  rewrite length_app, Nat.add_1_r, Nat.add_succ_r. cbn [before_rune].
  rewrite at_rune_past, <-app_assoc. rewrite <-(Nat.add_0_r (List.length s)), at_rune_past. done.
Qed.

Lemma Mask_text r : Forall (fun c => valid_rune c = true) r -> Mask (text r) = text (mask_runes r).
Proof.
  intros Hr. unfold Mask, text.
  by rewrite bytes_of_string_of_bytes, runes_utf8 by (done || apply utf8_bytes).
Qed.

Lemma hide_span_runes k v w pre post out :
  span_ok k v post -> span_ok k w post ->
  mask_reaches (pre ++ span_text k v ++ post) (List.length pre) out ->
  mask_runes (pre ++ span_text k v ++ post) = mask_runes (pre ++ span_text k w ++ post).
Proof.
  intros Hv Hw Hr.
  destruct (span_step k pre v post Hv) as (c & Hc & H1 & Hh & E1).
  destruct (span_step k pre w post Hw) as (c' & _ & H2 & Hh' & E2).
  assert (c' = c) as -> by (destruct k; simpl in *; congruence).
  apply (hide_span pre _ _ post out (span_mask k) c); try done.
  intros Hd. by rewrite !span_last.
Qed.

(** ** Properties *)

(** C13: the body of a string literal, of a line comment or of a block
    comment, and that of a dollar-quoted string as long as it is ASCII without a
    dollar sign, does not influence the masked query: two queries that differ
    only in such a body, at a position the masker reaches between tokens, have
    the same masked form.  (With other dollar-quoted bodies it does, see
    [Mask_leaks].) *)
Theorem Mask_hides_span (k : SpanKind) (v w pre post out : list Z)
    (Hv : span_ok k v post) (Hw : span_ok k w post)
    (Hrv : Forall (fun c => valid_rune c = true) (pre ++ span_text k v ++ post))
    (Hrw : Forall (fun c => valid_rune c = true) (pre ++ span_text k w ++ post))
    (Hreach : mask_reaches (pre ++ span_text k v ++ post) (List.length pre) out) :
  Mask (text (pre ++ span_text k v ++ post)) = Mask (text (pre ++ span_text k w ++ post)).
Proof. rewrite !Mask_text by done. f_equal. by apply (hide_span_runes k v w pre post out). Qed.

Lemma Mask_hides_span_witness :
  Mask "SELECT a FROM t WHERE n = 'O''Brien', 7" = Mask "SELECT a FROM t WHERE n = '', 7".
Proof.
  apply (Mask_hides_span StringLit (bytes_of_string "O'Brien") []
    (bytes_of_string "SELECT a FROM t WHERE n = ") (bytes_of_string ", 7")
    (bytes_of_string "SELECT a FROM t WHERE n = ")).
  - reflexivity.
  - reflexivity.
  - repeat constructor.
  - repeat constructor.
  - apply (reach_run_sound 40 _ 0 []); [constructor|vm_compute; reflexivity].
Defined.

(** Every index the loop visits can be continued to the end. *)
Lemma reaches_end r i out :
  mask_reaches r i out -> exists k, mask_reaches r k (mask_runes r) /\ (List.length r <= k)%nat.
Proof.
  remember (List.length r - i)%nat as d eqn:Ed. revert i out Ed.
  induction (Nat.lt_wf_0 d) as [d _ IH]. intros i out -> Hr.
  destruct (r !! i) as [c|] eqn:Hc.
  - pose proof (lookup_lt_Some _ _ _ Hc). pose proof (mask_step_advances r i c Hc).
    eapply (IH (List.length r - (mask_step r i c).2)%nat); [lia|done|]. by apply reach_step.
  - apply lookup_ge_None in Hc. exists i. split; [|done].
    by rewrite (reaches_output r i out Hr), mask_at_end, app_nil_r.
Qed.

(** C27: [Mask] terminates on every input: the main loop's index grows in every
    iteration, the loop arrives past the last rune with the whole output
    written, and any fuel from the number of runes on gives that output. *)
Theorem Mask_terminates (r : list Z) :
  (forall i c, r !! i = Some c -> (i < (mask_step r i c).2)%nat) /\
  (exists k, mask_reaches r k (mask_runes r) /\ (List.length r <= k)%nat) /\
  (forall fuel, (List.length r <= fuel)%nat -> mask_loop r fuel 0 = mask_runes r).
Proof.
  split; [apply mask_step_advances|]. split; [apply (reaches_end r 0 []); constructor|].
  intros fuel Hf. apply mask_loop_fuel; lia.
Qed.

Lemma number_cond_digit r i : at_rune r i isDigit = true -> number_cond r i = true.
Proof.
  unfold number_cond, at_rune. destruct (r !! i) as [c|]; [|done].
  unfold isDigit, rPlus, rDash. intros Hc.
  destruct (c =? 43) eqn:?, (c =? 45) eqn:?; simpl; lia.
Qed.

(** *** Texts without literals *)

(** Position [i] holds a rune the masker copies. *)
Definition plain_at (r : list Z) (i : nat) : bool :=
  at_rune r i (fun c =>
    negb ((c =? rDash) && at_rune r (S i) (Z.eqb rDash)) &&
    negb ((c =? rSlash) && at_rune r (S i) (Z.eqb rStar)) &&
    negb (c =? rQuote) && negb (c =? rDollar) && negb (c =? rDQuote) &&
    (negb (isDigit c) || before_rune r i isWord)).

Definition plain (r : list Z) : bool := forallb (plain_at r) (seq 0 (List.length r)).

Lemma plain_at_step r i c : r !! i = Some c -> plain_at r i = true -> mask_step r i c = ([c], S i).
Proof.
  intros Hi Hp. unfold plain_at, at_rune at 1 in Hp. rewrite Hi in Hp.
  rewrite !andb_true_iff, !negb_true_iff in Hp. destruct Hp as [[[[[H1 H2] H3] H4] H5] H6].
  unfold mask_step. rewrite H1, H2, H3, H4, H5.
  destruct (isDigit c); [|done]. simpl in H6. rewrite H6. by destruct i.
Qed.

(** Keywords, identifiers and structure are preserved: a query without
    literals, comments and quoted parts is its own masked form. *)
Lemma Mask_keeps_plain (r : list Z) (Hr : Forall (fun c => valid_rune c = true) r)
    (Hp : plain r = true) : Mask (text r) = text r.
Proof.
  rewrite Mask_text by done. f_equal. rewrite mask_runes_at.
  cut (forall i, (i <= List.length r)%nat -> mask_at r i = drop i r); [intros H; by rewrite H by lia|].
  unfold plain in Hp. rewrite forallb_forall in Hp.
  intros i. remember (List.length r - i)%nat as d eqn:Ed. revert i Ed.
  induction d as [|d IH]; intros i Ed Hi; [by rewrite mask_at_end, drop_ge by lia|].
  destruct (lookup_lt_is_Some_2 r i) as [c Hc]; [lia|].
  rewrite (mask_at_step r i c Hc), (plain_at_step r i c Hc); simpl.
  - rewrite IH by lia. by rewrite (drop_S _ _ _ Hc).
  - apply Hp, in_seq. lia.
Qed.

(** *** What escapes the masker *)

(** The literals below are masked in part only; each line is a query and its
    masked form. *)

(** Some literals are not hidden in full.  With a dollar-quoted body of
    four two-byte runes the masker resumes four runes late and writes out most of
    the string literal that follows; a backslash-escaped quote of an E-string
    closes the literal for the masker; hexadecimal and digit-separated numbers
    are masked up to the first letter or underscore, and a nested block comment
    up to the first end marker. *)
Lemma Mask_leaks :
  (let body := [233; 233; 233; 233] in   (* four times U+00E9 *)
   mask_runes (bytes_of_string "f($$" ++ body ++ bytes_of_string "$$, 'secret')") =
   bytes_of_string "f(?ecret?") /\
  Mask "SET note = E'it\'s a secret' WHERE id = 7" = "SET note = E?s a secret?"%string /\
  Mask "WHERE id = 0x1F4" = "WHERE id = ?x1F4"%string /\
  Mask "WHERE id = 1_234_567" = "WHERE id = ?_234_567"%string /\
  Mask "SELECT /* a /* b */ secret */ x" = "SELECT /*?*/ secret */ x"%string.
Proof. vm_compute. repeat split. Qed.
