(* ===== verification/Pieces.v ===== *)
(** * internal/redact: the masker on whole queries

    A query is a sequence of pieces: the literals and comments the masker hides,
    and what it keeps (words, symbols, quoted identifiers, positional
    parameters).  The definitions here are the reference [Mask] is compared with:
    they say how each piece is written, when a text can be read that way, and what
    is to be left of it; none of them scans. *)
From S2P Require Import Prelude GoRuntime Utf8 Redact.
Local Open Scope Z_scope.

(** ** Pieces of a query *)

(** A decimal constant: digits, a fraction, an exponent with its sign. *)
Record Numeral := mkNumeral {
  whole : list Z;
  fraction : option (list Z);
  exponent : option (Z * list Z * list Z)   (* e or E, sign, digits *)
}.

Definition numeral_text (n : Numeral) : list Z :=
  whole n ++ match fraction n with Some d => rDot :: d | None => [] end ++
  match exponent n with Some (e, sign, d) => e :: sign ++ d | None => [] end.

Definition digits (d : list Z) : bool := forallb isDigit d.
Definition some_digits (d : list Z) : bool := digits d && negb (bool_decide (d = [])).

Definition numeral_ok (n : Numeral) : bool :=
  some_digits (whole n) && match fraction n with Some d => digits d | None => true end &&
  match exponent n with
  | Some (e, sign, d) => ((e =? rLowerE) || (e =? rUpperE)) &&
      bool_decide (sign ∈ [[]; [rPlus]; [rDash]]) && some_digits d
  | None => true
  end.

Inductive Piece :=
| Word (w : list Z)                       (* keyword or identifier *)
| Symbol (c : Z)                          (* blank, operator, punctuation *)
| QuotedIdent (v : list Z)
| Param (d : list Z)                      (* $1, or a lone dollar sign *)
| Number (n : Numeral)
| Literal (k : SpanKind) (v : list Z)     (* a closed string, dollar quote or comment *)
| Unclosed (k : SpanKind) (v : list Z).   (* one that runs to the end of the query *)

Definition unclosed_text (k : SpanKind) (v : list Z) : list Z :=
  match k with
  | StringLit => rQuote :: double_quotes v
  | DollarLit t => dollar_tag t ++ v
  | LineComment => rDash :: rDash :: v
  | BlockComment => rSlash :: rStar :: v
  end.

Definition piece_text (p : Piece) : list Z :=
  match p with
  | Word w => w
  | Symbol c => [c]
  | QuotedIdent v => rDQuote :: v ++ [rDQuote]
  | Param d => rDollar :: d
  | Number n => numeral_text n
  | Literal k v => span_text k v
  | Unclosed k v => unclosed_text k v
  end.

(** What may be left of it. *)
Definition piece_mask (p : Piece) : list Z :=
  match p with
  | Number _ => [rMark]
  | Literal k _ | Unclosed k _ => span_mask k
  | _ => piece_text p
  end.

Definition pieces_text (ps : list Piece) : list Z := ps ≫= piece_text.
Definition pieces_mask (ps : list Piece) : list Z := ps ≫= piece_mask.

(** ** When a text can be read as these pieces *)
Definition ends_word (pre : list Z) : bool := before_rune pre (List.length pre) isWord.

Definition unclosed_ok (k : SpanKind) (v : list Z) : Prop :=
  match k with
  | StringLit => True
  | DollarLit t => Forall (fun c => isWord c = true) t /\ rDollar ∉ v
  | LineComment => False   (* one at the end is closed *)
  | BlockComment => forall i, at_rune v i (Z.eqb rStar) && at_rune v (S i) (Z.eqb rSlash) = false
  end.

(** A piece between the text before it and the text after it.  Words and numbers
    neither touch each other nor themselves, as in SQL; a dollar quote with
    characters outside ASCII in its body is not closed where it should be. *)
Definition piece_ok (pre : list Z) (p : Piece) (post : list Z) : Prop :=
  match p with
  | Word w => forallb isWord w = true /\ at_rune w 0 isDigit = false /\
              ends_word pre = false /\ at_rune post 0 isWord = false
  | Symbol c => isWord c = false /\ c ∉ [rQuote; rDollar; rDQuote] /\
                (c = rDash -> at_rune post 0 (Z.eqb rDash) = false) /\
                (c = rSlash -> at_rune post 0 (Z.eqb rStar) = false)
  | QuotedIdent v => rDQuote ∉ v
  | Param d => digits d = true /\ at_rune post 0 (fun c => isWord c || (c =? rDollar)) = false
  | Number n => numeral_ok n = true /\ ends_word pre = false /\
                at_rune post 0 (fun c => isWord c || (c =? rDot)) = false
  | Literal k v => span_ok k v post
  | Unclosed k v => unclosed_ok k v /\ post = []
  end.

Fixpoint pieces_ok (pre : list Z) (ps : list Piece) : Prop :=
  match ps with
  | [] => True
  | p :: ps => piece_ok pre p (pieces_text ps) /\ pieces_ok (pre ++ piece_text p) ps
  end.

(** ** The masker takes a piece *)
Section piece.
Context (pre post : list Z).
Notation m := (List.length pre).

(** The masker, at the start of [s], writes [out] and goes on after it. *)
Definition masked_as (s out : list Z) : Prop :=
  mask_at (pre ++ s ++ post) m = out ++ mask_at (pre ++ s ++ post) (m + List.length s).

Lemma one_step c s out :
  mask_step (pre ++ (c :: s) ++ post) m c = (out, (m + List.length (c :: s))%nat) -> masked_as (c :: s) out.
Proof.
  intros E. unfold masked_as. rewrite (mask_at_step _ m c), E; [done|].
  rewrite <-(Nat.add_0_r m). by rewrite lookup_past.
Qed.
End piece.

Lemma before_past pre s p : before_rune (pre ++ s) (List.length pre) p = before_rune pre (List.length pre) p.
Proof.
  destruct (List.length pre) as [|n] eqn:E; [done|]. cbn [before_rune]. unfold at_rune.
  by rewrite lookup_app_l by lia.
Qed.

Lemma at_rune_start pre s p : at_rune (pre ++ s) (List.length pre) p = at_rune s 0 p.
Proof. rewrite <-(Nat.add_0_r (List.length pre)). apply at_rune_past. Qed.

(** A rune the masker copies. *)
Lemma copied pre c post :
  (c = rDash -> at_rune post 0 (Z.eqb rDash) = false) -> (c = rSlash -> at_rune post 0 (Z.eqb rStar) = false) ->
  c <> rQuote -> c <> rDollar -> c <> rDQuote -> (isDigit c = true -> ends_word pre = true) ->
  masked_as pre post [c] [c].
Proof.
  intros Hd Hs Hq Hdl Hdq Hw. apply one_step. cbn [app List.length].
  assert ((pre ++ c :: post) !! List.length pre = Some c) as Hc
    by (rewrite <-(Nat.add_0_r (List.length pre)); by rewrite lookup_past).
  rewrite (plain_at_step _ _ c Hc); [by rewrite Nat.add_1_r|].
  assert (forall p, at_rune (pre ++ c :: post) (S (List.length pre)) p = at_rune post 0 p) as Hnext
    by (intros p; rewrite <-Nat.add_1_r; by rewrite at_rune_past).
  unfold plain_at. rewrite at_rune_start. unfold at_rune at 1. cbn [lookup list_lookup].
  rewrite !Hnext, before_past. rewrite !andb_true_iff, !negb_true_iff, orb_true_iff, !Z.eqb_neq.
  split_and!; try done.
  - destruct (Z.eqb_spec c rDash); [by apply Hd|done].
  - destruct (Z.eqb_spec c rSlash); [by apply Hs|done].
  - destruct (isDigit c); [right; by apply Hw|by left].
Qed.

Lemma masked_as_nil pre post : masked_as pre post [] [].
Proof. unfold masked_as. by rewrite Nat.add_0_r. Qed.

Lemma masked_as_app pre s t post out out' :
  masked_as pre (t ++ post) s out -> masked_as (pre ++ s) post t out' -> masked_as pre post (s ++ t) (out ++ out').
Proof.
  unfold masked_as. intros H1 H2. rewrite length_app, <-!app_assoc in *. by rewrite H1, H2, Nat.add_assoc.
Qed.

Lemma ends_word_snoc pre c : ends_word (pre ++ [c]) = isWord c.
Proof.
  unfold ends_word. rewrite length_app, Nat.add_1_r. cbn [before_rune]. by rewrite at_rune_start.
Qed.

Lemma word_kept pre w post :
  forallb isWord w = true -> (at_rune w 0 isDigit = true -> ends_word pre = true) -> masked_as pre post w w.
Proof.
  revert pre. induction w as [|c w IH]; intros pre Hw Hp; [apply masked_as_nil|].
  cbn [forallb] in Hw. apply andb_true_iff in Hw as [Hc Hw].
  change (c :: w) with ([c] ++ w). apply masked_as_app.
  - apply copied; try (intros ->; discriminate Hc). exact Hp.
  - apply IH; [done|]. intros _. by rewrite ends_word_snoc.
Qed.

(** *** Numbers *)
Lemma forallb_lookup {X} (f : X -> bool) l k x : forallb f l = true -> l !! k = Some x -> f x = true.
Proof. rewrite forallb_forall. intros Hf Hx. apply Hf. apply list_elem_of_In. by eapply list_elem_of_lookup_2. Qed.

Definition exponent_mark (c : Z) : bool := (c =? rLowerE) || (c =? rUpperE).

(** Runes the number loop passes over, a sign only after an exponent mark. *)
Definition numeric (d : list Z) : Prop :=
  forall k c, d !! k = Some c ->
    isDigit c = true \/ c = rDot \/ exponent_mark c = true \/
    ((c = rPlus \/ c = rDash) /\ before_rune d k exponent_mark = true).

Lemma numeric_digits d : digits d = true -> numeric d.
Proof. intros Hd k c Hc. left. by apply (forallb_lookup _ _ _ _ Hd Hc). Qed.

Lemma numeric_app a b : numeric a -> numeric b -> numeric (a ++ b).
Proof.
  intros Ha Hb k c Hc. destruct (decide (k < List.length a)%nat) as [Hk|Hk].
  - rewrite lookup_app_l in Hc by done. destruct (Ha k c Hc) as [|[|[|[Hs Hp]]]]; auto. do 3 right. split; [done|].
    destruct k as [|k]; [done|]. cbn [before_rune] in *. unfold at_rune in *. by rewrite lookup_app_l by lia.
  - replace k with (List.length a + (k - List.length a))%nat in * by lia. rewrite lookup_past in Hc.
    destruct (Hb _ c Hc) as [|[|[|[Hs Hp]]]]; auto. do 3 right. split; [done|].
    destruct (k - List.length a)%nat as [|j]; [done|]. rewrite Nat.add_succ_r. cbn [before_rune] in *.
    by rewrite at_rune_past.
Qed.

Lemma numeral_numeric n : numeral_ok n = true -> numeric (numeral_text n).
Proof.
  unfold numeral_ok, numeral_text, some_digits. destruct n as [w f x]. cbn [whole fraction exponent].
  rewrite !andb_true_iff. intros [[[Hw _] Hf] Hx]. apply numeric_app; [by apply numeric_digits|]. apply numeric_app.
  - destruct f as [d|]; [|by intros k c Hc]. apply (numeric_app [rDot]); [|by apply numeric_digits].
    intros [|k] c Hc; [|done]. injection Hc as <-. by right; left.
  - destruct x as [[[e sign] d]|]; [|by intros k c Hc]. rewrite !andb_true_iff in Hx. destruct Hx as [[He Hs] [Hd _]].
    change (e :: sign ++ d) with ((e :: sign) ++ d). apply numeric_app; [|by apply numeric_digits].
    apply bool_decide_eq_true in Hs.
    intros [|[|k]] c Hc; [injection Hc as <-; by right; right; left| |].
    + do 3 right. cbn [before_rune at_rune lookup list_lookup]. split; [|exact He].
      repeat (apply elem_of_cons in Hs as [->|Hs]; [cbn in Hc; naive_solver|]). by apply elem_of_nil in Hs.
    + repeat (apply elem_of_cons in Hs as [->|Hs]; [done|]). by apply elem_of_nil in Hs.
Qed.

(** A numeral starts with a digit and ends with one or with its point. *)
Lemma numeral_first n : numeral_ok n = true -> exists c s, numeral_text n = c :: s /\ isDigit c = true.
Proof.
  unfold numeral_ok, numeral_text, some_digits. destruct (whole n) as [|c w]; [done|].
  cbn [digits forallb]. rewrite !andb_true_iff. intros [[[[Hc _] _] _] _]. eexists c, _. by split.
Qed.

Lemma digits_last d : some_digits d = true -> exists s c, d = s ++ [c] /\ isDigit c = true.
Proof.
  unfold some_digits. rewrite andb_true_iff. intros [Hd Hn]. destruct d as [|c s _] using rev_ind; [done|].
  exists s, c. split; [done|]. unfold digits in Hd. rewrite forallb_app, andb_true_iff in Hd.
  destruct Hd as [_ Hd]. cbn in Hd. by rewrite andb_true_r in Hd.
Qed.

Lemma numeral_last n :
  numeral_ok n = true -> exists s c, numeral_text n = s ++ [c] /\ (isDigit c = true \/ c = rDot).
Proof.
  unfold numeral_ok, numeral_text. destruct n as [w f x]. cbn [whole fraction exponent].
  rewrite !andb_true_iff. intros [[Hw Hf] Hx]. destruct x as [[[e sign] d]|].
  - rewrite !andb_true_iff in Hx. destruct Hx as [_ Hd]. destruct (digits_last d Hd) as (s & c & -> & Hc).
    exists (w ++ match f with Some d => rDot :: d | None => [] end ++ e :: sign ++ s), c. split; [|by left].
    by rewrite <-!app_assoc, <-app_comm_cons, <-app_assoc.
  - rewrite app_nil_r. destruct f as [d|].
    + destruct d as [|c d _] using rev_ind; [exists w, rDot; auto|].
      exists (w ++ rDot :: d), c. split; [by rewrite <-app_assoc|]. left.
      unfold digits in Hf. rewrite forallb_app, andb_true_iff in Hf. destruct Hf as [_ Hf]. cbn in Hf.
      by rewrite andb_true_r in Hf.
    + rewrite app_nil_r. destruct (digits_last w Hw) as (s & c & -> & Hc). exists s, c. auto.
Qed.

Lemma number_cond_word pre d post k :
  numeric d -> (0 < k)%nat -> (k < List.length d)%nat -> number_cond (pre ++ d ++ post) (List.length pre + k) = true.
Proof.
  intros Hd H0 Hk. destruct (lookup_lt_is_Some_2 d k Hk) as [c Hc]. unfold number_cond. rewrite at_rune_past.
  unfold at_rune at 1. rewrite lookup_app_l, Hc by done. destruct k as [|k]; [lia|].
  rewrite Nat.add_succ_r. cbn [before_rune]. rewrite at_rune_past. unfold at_rune. rewrite lookup_app_l by lia.
  destruct (Hd _ _ Hc) as [H|[->|[H|[H Hp]]]].
  - unfold isDigit, rDot, rLowerE, rUpperE, rPlus, rDash in *. lia.
  - done.
  - unfold exponent_mark, isDigit, rDot, rLowerE, rUpperE, rPlus, rDash in *. lia.
  - cbn [before_rune] in Hp. unfold at_rune in Hp. destruct (d !! k) as [p|]; [|done].
    unfold exponent_mark in Hp. rewrite Hp. unfold rPlus, rDash in *. by destruct H as [-> | ->].
Qed.

Lemma number_cond_end pre s l post :
  isDigit l = true \/ l = rDot -> at_rune post 0 (fun c => isWord c || (c =? rDot)) = false ->
  number_cond (pre ++ (s ++ [l]) ++ post) (List.length pre + List.length (s ++ [l])) = false.
Proof.
  intros Hl Hpost. set (q := pre ++ (s ++ [l]) ++ post). set (k := (List.length pre + _)%nat).
  assert (forall p, before_rune q k p = p l) as Hb.
  { intros p. unfold k, q. rewrite length_app, Nat.add_1_r, Nat.add_succ_r. cbn [before_rune].
    by rewrite at_rune_past, <-app_assoc, at_rune_start. }
  assert (q !! k = post !! 0%nat) as Hk.
  { unfold k, q. rewrite lookup_past, <-(Nat.add_0_r (List.length (s ++ [l]))). apply lookup_past. }
  unfold number_cond, at_rune in *. rewrite Hk. destruct (post !! 0%nat) as [x|]; [|done]. rewrite Hb.
  unfold isWord, isDigit, rDot, rLowerE, rUpperE, rPlus, rDash in *. lia.
Qed.

Lemma number_masked pre n post : piece_ok pre (Number n) post -> masked_as pre post (numeral_text n) [rMark].
Proof.
  intros (Hn & Hpre & Hpost). pose proof (numeral_numeric n Hn) as Hnum.
  destruct (numeral_last n Hn) as (s & l & Hlast & Hl). destruct (numeral_first n Hn) as (c & d & Hd & Hc).
  rewrite Hd in *. apply one_step.
  assert ((pre ++ (c :: d) ++ post) !! List.length pre = Some c) as Hat
    by (rewrite <-(Nat.add_0_r (List.length pre)); by rewrite lookup_past).
  unfold mask_step. rewrite before_past. fold (ends_word pre). rewrite Hpre, Hc, orb_true_r. cbn [negb andb].
  assert (c =? rDash = false /\ c =? rSlash = false /\ c =? rQuote = false /\ c =? rDollar = false /\ c =? rDQuote = false)
    as (-> & -> & -> & -> & ->)
    by (unfold isDigit, rDash, rSlash, rQuote, rDollar, rDQuote in *; lia). cbn [andb].
  f_equal. apply scan_while_intro; [lia| | |rewrite !length_app; lia].
  - intros k Hk. destruct (decide (k = List.length pre)) as [->|].
    { apply number_cond_digit. unfold at_rune. by rewrite Hat. }
    replace k with (List.length pre + (k - List.length pre))%nat by lia. apply number_cond_word; [done|lia|lia].
  - rewrite Hlast. by apply number_cond_end.
Qed.

(** *** Quoted identifiers and positional parameters *)
Lemma skip_ident_body r f i v post :
  drop i r = v ++ rDQuote :: post -> rDQuote ∉ v -> (List.length r - i <= f)%nat ->
  skip_ident r f i = (i + List.length v + 1)%nat.
Proof.
  revert i f. induction v as [|c v IH]; intros i f Hd Hv Hf;
    (assert (r !! i = head (drop i r)) as Hi by (by rewrite <-(Nat.add_0_r i), <-lookup_drop, Nat.add_0_r; destruct (drop i r)));
    rewrite Hd in Hi; cbn [head app] in Hi; pose proof (lookup_lt_Some _ _ _ Hi);
    (destruct f as [|f]; [lia|]); cbn [skip_ident]; rewrite Hi.
  - rewrite Z.eqb_refl. cbn [List.length]. lia.
  - apply not_elem_of_cons in Hv as [Hc Hv]. destruct (Z.eqb_spec c rDQuote); [congruence|].
    rewrite (IH (S i) f); [cbn [List.length]; lia| |done|lia].
    by rewrite <-Nat.add_1_r, <-drop_drop, Hd.
Qed.

Lemma ident_kept pre v post : rDQuote ∉ v -> masked_as pre post (piece_text (QuotedIdent v)) (piece_text (QuotedIdent v)).
Proof.
  intros Hv. cbn [piece_text]. apply one_step. unfold mask_step.
  change ((rDQuote =? rDash) && _) with false. change ((rDQuote =? rSlash) && _) with false.
  change (rDQuote =? rQuote) with false. change (rDQuote =? rDollar) with false.
  change (rDQuote =? rDQuote) with true. cbv iota zeta.
  rewrite (skip_ident_body _ _ _ v post); [|rewrite <-Nat.add_1_r, <-drop_drop, drop_app_length; cbn; by rewrite <-app_assoc|done|lia].
  assert (S (List.length pre) + List.length v + 1 = List.length pre + List.length (rDQuote :: v ++ [rDQuote]))%nat as ->
    by (cbn [List.length]; rewrite length_app; cbn [List.length]; lia).
  f_equal. rewrite <-(Nat.add_0_r (List.length pre)) at 1. rewrite slice_past. unfold slice.
  by rewrite drop_0, Nat.sub_0_r, take_app_length.
Qed.

(** A scan over what follows a rune. *)
Lemma scan_past p pre x d post :
  Forall (fun c => p c = true) d -> at_rune post 0 p = false ->
  let q := pre ++ (x :: d) ++ post in
  scan_while (fun j => at_rune q j p) (List.length q - List.length pre) (S (List.length pre)) =
    (List.length pre + List.length (x :: d))%nat.
Proof.
  intros Hd Hpost q. apply scan_while_intro; [cbn; lia| | |unfold q; rewrite !length_app; cbn; lia].
  - intros k Hk. replace k with (List.length pre + S (k - List.length pre - 1))%nat by lia. unfold q.
    rewrite at_rune_past. unfold at_rune. cbn [List.length] in Hk.
    change (((x :: d) ++ post) !! S ?n) with ((d ++ post) !! n).
    destruct (lookup_lt_is_Some_2 d (k - List.length pre - 1)) as [c Hc]; [lia|].
    rewrite lookup_app_l, Hc by lia. exact (Forall_lookup_1 _ _ _ _ Hd Hc).
  - unfold q. rewrite at_rune_past, at_rune_start. done.
Qed.

Lemma param_kept pre d post : piece_ok pre (Param d) post -> masked_as pre post (rDollar :: d) (rDollar :: d).
Proof.
  intros [Hd Hpost]. apply one_step. unfold mask_step.
  change ((rDollar =? rDash) && _) with false. change ((rDollar =? rSlash) && _) with false.
  change (rDollar =? rQuote) with false. change (rDollar =? rDollar) with true. cbv iota. unfold dollar_step. cbv zeta.
  assert (Forall (fun c => isDigit c = true) d) as Hdig.
  { apply Forall_forall. intros c Hc. unfold digits in Hd. rewrite forallb_forall in Hd. by apply Hd, list_elem_of_In. }
  rewrite scan_past.
  - rewrite at_rune_past, at_rune_start.
    assert (at_rune post 0 (Z.eqb rDollar) = false) as ->.
    { unfold at_rune in *. destruct (post !! 0%nat); [|done]. lia. }
    rewrite scan_past; [|done|].
    + f_equal. rewrite <-(Nat.add_0_r (List.length pre)) at 1. rewrite slice_past. unfold slice.
      by rewrite drop_0, Nat.sub_0_r, take_app_length.
    + unfold at_rune, isWord in *. destruct (post !! 0%nat); [|done]. cbv beta in *. destruct (isDigit z); [|done]. lia.
  - eapply Forall_impl; [exact Hdig|]. intros c Hc. unfold isWord, isDigit, rDollar in *. lia.
  - unfold at_rune in *. destruct (post !! 0%nat); [|done]. cbv beta in *. destruct (isWord z); [done|apply andb_false_r].
Qed.

(** *** Literals and comments *)
Lemma literal_masked pre k v post : span_ok k v post -> masked_as pre post (span_text k v) (span_mask k).
Proof.
  intros (c & _ & _ & Hh & E)%(span_step k pre). destruct (span_text k v) as [|c' s]; [done|].
  injection Hh as ->. by apply one_step.
Qed.

Lemma skip_string_open r f i v :
  drop i r = double_quotes v -> (List.length r - i <= f)%nat ->
  skip_string r f i = (i + List.length (double_quotes v))%nat.
Proof.
  revert i f. induction v as [|c v IH]; intros i f Hd Hf.
  - apply (f_equal List.length) in Hd. rewrite length_drop in Hd. cbn in *.
    destruct f as [|f]; cbn [skip_string]; [lia|]. destruct (r !! i) eqn:Hi; [|lia]. apply lookup_lt_Some in Hi. lia.
  - change (double_quotes (c :: v)) with ((if c =? rQuote then [rQuote; rQuote] else [c]) ++ double_quotes v) in *.
    assert (r !! i = Some c) as Hi.
    { rewrite <-(Nat.add_0_r i), <-lookup_drop, Hd. by destruct (Z.eqb_spec c rQuote) as [->|]. }
    pose proof (lookup_lt_Some _ _ _ Hi). destruct f as [|f]; [lia|]. cbn [skip_string]. rewrite Hi.
    destruct (Z.eqb_spec c rQuote) as [->|Hc].
    + assert (at_rune r (S i) (Z.eqb rQuote) = true) as ->.
      { unfold at_rune. by rewrite <-Nat.add_1_r, <-lookup_drop, Hd. }
      rewrite IH; [simpl; lia| |lia]. replace (S (S i)) with (i + 2)%nat by lia. by rewrite <-drop_drop, Hd.
    + rewrite IH; [simpl; lia| |lia]. rewrite <-Nat.add_1_r. by rewrite <-drop_drop, Hd.
Qed.

Lemma Index_absent (u s : list Z) c : c ∉ u -> Index u (c :: s) = None.
Proof.
  induction u as [|b u IH]; [done|]. intros [Hne Hc]%not_elem_of_cons. cbn [Index is_prefix].
  destruct (Z.eqb_spec c b); [done|]. cbn [andb]. by rewrite IH.
Qed.

(** An ASCII byte is no part of another rune. *)
Lemma encode_rune_ascii r c : 0 <= c < 128 -> c ∈ encode_rune r -> c = r.
Proof.
  intros Hc. unfold encode_rune, valid_rune, MaxRune.
  repeat case_match; rewrite ?elem_of_cons, ?elem_of_nil; intros Hin; Z.to_euclidean_division_equations; lia.
Qed.

Lemma utf8_ascii_elem rs c : 0 <= c < 128 -> c ∈ utf8 rs -> c ∈ rs.
Proof. intros Hc (r & Hr & Hin)%list_elem_of_bind. by rewrite (encode_rune_ascii r c Hc Hr). Qed.

Lemma unclosed_string pre v : masked_as pre [] (rQuote :: double_quotes v) [rMark].
Proof.
  apply one_step. unfold mask_step. rewrite app_nil_r. simpl. f_equal.
  rewrite (skip_string_open _ _ _ v); [lia| |rewrite length_app; cbn; lia].
  rewrite <-Nat.add_1_r, <-drop_drop, drop_app_length. done.
Qed.

Lemma unclosed_block pre v :
  unclosed_ok BlockComment v ->
  masked_as pre [] (unclosed_text BlockComment v) (span_mask BlockComment).
Proof.
  intros Hok. cbn [unclosed_text unclosed_ok] in *. apply one_step. unfold mask_step. rewrite app_nil_r.
  set (q := pre ++ _). assert (List.length q = List.length pre + 2 + List.length v)%nat as Hq
    by (unfold q; rewrite length_app; cbn; lia).
  assert (at_rune q (S (List.length pre)) (Z.eqb rStar) = true) as ->
    by (rewrite <-Nat.add_1_r; unfold q; by rewrite at_rune_past).
  change ((rSlash =? rDash) && _) with false. change ((rSlash =? rSlash) && true) with true. cbv iota zeta.
  set (cond := fun i => _). set (e := scan_while cond _ _). f_equal.
  assert (cond e = false) as He.
  { apply (scan_while_stops cond (List.length q)); [|lia]. intros k [Hk%at_rune_lt _]%andb_true_iff. lia. }
  pose proof (scan_while_ge cond (List.length q - List.length pre) (List.length pre + 2)) as Hge. fold e in Hge.
  assert (List.length q <= S e)%nat as Hend.
  { destruct (decide (List.length q <= S e)%nat) as [|Hlt]; [done|]. exfalso.
    assert (forall k p, at_rune q (List.length pre + S (S k)) p = at_rune v k p) as Hbody
      by (intros k p; unfold q; by rewrite at_rune_past).
    unfold cond in He. replace (S e) with (List.length pre + S (S (S (e - List.length pre - 2))))%nat in He by lia.
    replace e with (List.length pre + S (S (e - List.length pre - 2)))%nat in He at 2 by lia.
    rewrite !Hbody, Hok, andb_true_r in He. unfold at_rune in He.
    destruct (lookup_lt_is_Some_2 v (S (e - List.length pre - 2))) as [x Hx]; [lia|]. by rewrite Hx in He. }
  destruct (Nat.ltb_spec (List.length q) (e + 2)); cbn [List.length]; lia.
Qed.

Lemma unclosed_dollar pre t v :
  unclosed_ok (DollarLit t) v -> masked_as pre [] (unclosed_text (DollarLit t) v) [rMark].
Proof.
  intros [Ht Hv]. cbn [unclosed_text]. unfold dollar_tag. cbn [app]. apply one_step. unfold mask_step.
  change ((rDollar =? rDash) && _) with false. change ((rDollar =? rSlash) && _) with false.
  change (rDollar =? rQuote) with false. change (rDollar =? rDollar) with true. cbv iota.
  rewrite app_nil_r. unfold dollar_step. cbv zeta.
  assert (pre ++ rDollar :: (t ++ [rDollar]) ++ v = pre ++ (rDollar :: t) ++ rDollar :: v) as ->
    by (rewrite <-app_assoc; done).
  rewrite scan_past; [|eapply Forall_impl; [exact Ht|]|done].
  2:{ intros c Hc. unfold isWord, isDigit, rDollar in *. lia. }
  rewrite at_rune_past, at_rune_start. change (at_rune (rDollar :: v) 0 (Z.eqb rDollar)) with true. cbv iota.
  assert (drop (S (List.length pre + List.length (rDollar :: t))) (pre ++ (rDollar :: t) ++ rDollar :: v) = v) as ->.
  { rewrite <-Nat.add_succ_r, <-drop_drop, drop_app_length, <-Nat.add_1_r, <-drop_drop, drop_app_length. done. }
  assert (exists s, utf8 (slice (pre ++ (rDollar :: t) ++ rDollar :: v) (List.length pre)
    (S (List.length pre + List.length (rDollar :: t)))) = rDollar :: s) as [s ->].
  { pose proof (slice_past pre ((rDollar :: t) ++ rDollar :: v) 0 (S (List.length (rDollar :: t)))) as Hs.
    rewrite Nat.add_0_r, Nat.add_succ_r in Hs. rewrite Hs. by eexists. }
  rewrite Index_absent; [f_equal; rewrite !length_app; cbn; rewrite !length_app; cbn; lia|].
  intros Hin%utf8_ascii_elem; [done|unfold rDollar; lia].
Qed.

Lemma piece_masked pre p post : piece_ok pre p post -> masked_as pre post (piece_text p) (piece_mask p).
Proof.
  destruct p as [w|c|v|d|n|k v|k v]; cbn [piece_text piece_mask].
  - intros (Hw & Hd & _). apply word_kept; [done|]. congruence.
  - intros (Hw & Hc & Hd & Hs). rewrite !not_elem_of_cons in Hc. destruct Hc as (? & ? & ? & _).
    apply copied; try done. intros Hdig. unfold isWord in Hw. by rewrite Hdig, orb_true_r in Hw.
  - apply ident_kept.
  - apply param_kept.
  - apply number_masked.
  - apply literal_masked.
  - intros [Hk ->]. destruct k; [by apply unclosed_string|by apply unclosed_dollar|done|by apply unclosed_block].
Qed.

Lemma pieces_masked pre ps :
  pieces_ok pre ps -> mask_at (pre ++ pieces_text ps) (List.length pre) = pieces_mask ps.
Proof.
  revert pre. induction ps as [|p ps IH]; intros pre; [intros _; apply mask_at_end; rewrite app_nil_r; lia|].
  intros [Hp Hps]. change (pieces_text (p :: ps)) with (piece_text p ++ pieces_text ps).
  rewrite (piece_masked pre p _ Hp). change (pieces_mask (p :: ps)) with (piece_mask p ++ pieces_mask ps).
  f_equal. rewrite app_assoc, <-length_app. by apply IH.
Qed.

(** ** The masker hides the literals and nothing else *)

(** C26: a query that reads as words, symbols, quoted identifiers, positional
    parameters, decimal constants, string literals with doubled quotes, dollar
    quotes and comments, the last of them possibly unclosed, is masked piece by
    piece: each constant, literal and comment body becomes a question mark,
    whatever is in it, and everything else stays as it is.  Dollar quotes with a
    body of ASCII characters without a dollar sign only, if they are closed;
    numbers with letters or underscores in them, escaped quotes of E-strings and
    nested comments do not read that way. *)
Theorem Mask_pieces (ps : list Piece) (Hok : pieces_ok [] ps)
    (Hr : Forall (fun c => valid_rune c = true) (pieces_text ps)) :
  Mask (text (pieces_text ps)) = text (pieces_mask ps).
Proof. rewrite Mask_text by done. f_equal. rewrite mask_runes_at. by apply (pieces_masked []). Qed.

(** An update with every kind of piece. *)
Definition an_update : list Piece :=
  let word s := Word (bytes_of_string s) in
  let blank := Symbol 32 in
  let equals := Symbol 61 in
  [word "UPDATE"; blank; QuotedIdent (bytes_of_string "My 1st"); blank; word "SET"; blank;
   word "c2"; equals; Literal StringLit (bytes_of_string "O'Brien, 1"); Symbol 44;
   word "x"; equals; Symbol rDash; Number (mkNumeral [49] (Some [53]) (Some (rLowerE, [rPlus], [49; 48]))); Symbol rPlus;
   Param [49]; Symbol 44; word "d"; equals; Literal (DollarLit (bytes_of_string "t")) (bytes_of_string "it's");
   blank; Literal LineComment (bytes_of_string " id 7"); Symbol rNewline;
   Literal BlockComment (bytes_of_string " 'x' "); word "WHERE"; blank; word "n"; equals;
   Unclosed StringLit (bytes_of_string "secr")]%string.

Lemma Mask_pieces_witness :
  Mask (text (bytes_of_string "UPDATE " ++ [rDQuote] ++ bytes_of_string "My 1st" ++ [rDQuote] ++
    bytes_of_string " SET c2='O''Brien, 1',x=-1.5e+10+$1,d=$t$it's$t$ -- id 7" ++ [rNewline] ++
    bytes_of_string "/* 'x' */WHERE n='secr")) =
  text (bytes_of_string "UPDATE " ++ [rDQuote] ++ bytes_of_string "My 1st" ++ [rDQuote] ++
    bytes_of_string " SET c2=?,x=-?+$1,d=? --?" ++ [rNewline] ++ bytes_of_string "/*?*/WHERE n=?").
Proof.
  refine (Mask_pieces an_update _ _); [|repeat constructor].
  cbn [pieces_ok an_update piece_ok span_ok unclosed_ok]. split_and!; try done; try (vm_compute; reflexivity).
  all: try (intros _; vm_compute; reflexivity).
  all: try (refine (bool_decide_eq_true_1 _ _); vm_compute; reflexivity).
  intros i. do 6 (destruct i as [|i]; [done|]). done.
Defined.

