(* ===== verification/Auth.v ===== *)
(** * internal/auth: principals, identity sources and middleware

    A request is resolved to a [Principal] by an [Identity] (bearer tokens or
    a trusted proxy); the middleware stores it in the request's context and
    enforces a minimum role.  Handlers are functions from a request and the
    state [W] of the program to the new state and a response, or a panic. *)
From S2P Require Import Prelude GoRuntime Utf8 GoStrings Sha256.
From Stdlib Require Import Ascii String.
Local Open Scope Z_scope.

(** ** Roles *)
Definition Role := string.
Definition RoleViewer : Role := "viewer".
Definition RoleOperator : Role := "operator".
Definition RoleAdmin : Role := "admin".

Definition rank (r : Role) : Z :=
  if bool_decide (r = RoleViewer) then 1
  else if bool_decide (r = RoleOperator) then 2
  else if bool_decide (r = RoleAdmin) then 3
  else 0.

Definition AtLeast (r min : Role) : bool := (0 <? rank r) && (rank min <=? rank r).

Definition ParseRole (s : string) : Result Role :=
  let r : Role := s in
  if bool_decide (r = RoleViewer) || bool_decide (r = RoleOperator) || bool_decide (r = RoleAdmin)
  then Val r
  else Err ("invalid role " +:+ Quote s +:+ " (want viewer|operator|admin)").

Record Principal := mkPrincipal { Name : string; PrincipalRole : Role }.
Definition noPrincipal : Principal := mkPrincipal "" "".

(** ** Requests and responses (net/http)

    Header keys are canonical, as the server delivers them; the cookies are
    those parsed from the request, in order; [ctx_principal] is the value the
    context holds under [principalKey]. *)
Record Request := mkRequest {
  Method : string;
  Path : string;
  Host : string;
  Header : gmap string (list string);
  Cookies : list (string * string);
  Query : gmap string (list string);
  URLParams : gmap string string;
  ctx_principal : option Principal
}.

Definition header_Get (h : gmap string (list string)) (key : string) : string :=
  match h !! CanonicalMIMEHeaderKey key with
  | Some (v :: _) => v
  | _ => ""
  end.

Definition query_Get (q : gmap string (list string)) (key : string) : string :=
  match q !! key with
  | Some (v :: _) => v
  | _ => ""
  end.

Fixpoint find_cookie (cs : list (string * string)) (name : string) : option string :=
  match cs with
  | [] => None
  | (n, v) :: cs => if bool_decide (n = name) then Some v else find_cookie cs name
  end.

Definition with_principal (r : Request) (p : Principal) : Request :=
  mkRequest (Method r) (Path r) (Host r) (Header r) (Cookies r) (Query r) (URLParams r) (Some p).

Inductive Body (B : Type) := TextBody (s : string) | JSONBody (b : B) | OtherBody.
Arguments TextBody {B} s.
Arguments JSONBody {B} b.
Arguments OtherBody {B}.

Record Response (B : Type) := mkResponse {
  resp_Status : Z;
  resp_Header : list (string * string);
  resp_Body : Body B
}.
Arguments mkResponse {B}.
Arguments resp_Status {B}.
Arguments resp_Header {B}.
Arguments resp_Body {B}.

Definition StatusOK : Z := 200.
Definition StatusBadRequest : Z := 400.
Definition StatusUnauthorized : Z := 401.
Definition StatusForbidden : Z := 403.
Definition StatusNotFound : Z := 404.
Definition StatusMethodNotAllowed : Z := 405.
Definition StatusInternalServerError : Z := 500.
Definition StatusBadGateway : Z := 502.
Definition StatusServiceUnavailable : Z := 503.

(** [http.Error], after the headers [hs] set by the handler. *)
Definition http_Error {B} (hs : list (string * string)) (msg : string) (code : Z) : Response B :=
  mkResponse code
    (hs ++ [("Content-Type", "text/plain; charset=utf-8"); ("X-Content-Type-Options", "nosniff")])
    (TextBody msg).

Definition Handler (W B : Type) := Request -> W -> Outcome (W * Response B).

(** ** Identity sources *)
Class Identity (I : Type) := Authenticate : I -> Request -> Principal * bool.

(** Its promise: the answer depends on the headers and cookies only. *)
Class IdentityLaws (I : Type) `{!Identity I} :=
  authenticate_headers (id : I) r r' : Header r = Header r' -> Cookies r = Cookies r' ->
    Authenticate id r = Authenticate id r'.

(** *** Bearer tokens *)
Record TokenPrincipal := mkTokenPrincipal { tp_Name : string; tp_Role : Role; tp_Token : string }.
Record TokenIdentity := mkTokenIdentity { byHash : gmap string Principal }.

Definition hashToken (tok : string) : string := EncodeToString (Sum256 (bytes_of_string tok)).

Definition index_token (m : gmap string Principal) (e : TokenPrincipal) : gmap string Principal :=
  if bool_decide (tp_Token e = "") then m
  else <[hashToken (tp_Token e) := mkPrincipal (tp_Name e) (tp_Role e)]> m.

Definition NewTokenIdentity (entries : list TokenPrincipal) : TokenIdentity :=
  mkTokenIdentity (fold_left index_token entries ∅).

Definition cookie_token (r : Request) : string :=
  match find_cookie (Cookies r) "pglockr_token" with
  | Some v => v
  | None => ""
  end.

Definition tokenFromRequest (r : Request) : string :=
  let h := header_Get (Header r) "Authorization" in
  if bool_decide (h = "") then cookie_token r
  else match CutPrefix h "Bearer " with
       | (t, true) => t
       | (_, false) => cookie_token r
       end.

Definition TokenAuthenticate (t : TokenIdentity) (r : Request) : Principal * bool :=
  let tok := tokenFromRequest r in
  if bool_decide (tok = "") then (noPrincipal, false)
  else match byHash t !! hashToken tok with
       | Some p => (p, true)
       | None => (noPrincipal, false)
       end.

#[export] Instance token_identity : Identity TokenIdentity := TokenAuthenticate.

(** *** The trusted proxy *)
Record ProxyConfig := mkProxyConfig {
  UserHeader : string;
  GroupsHeader : string;
  GroupsSep : string;
  TrustMode : string;
  SecretHeader : string;
  Secret : string;
  DefaultRole : Role;
  GroupToRole : gmap string Role
}.

Definition set_GroupsSep (cfg : ProxyConfig) (sep : string) : ProxyConfig :=
  mkProxyConfig (UserHeader cfg) (GroupsHeader cfg) sep (TrustMode cfg) (SecretHeader cfg)
    (Secret cfg) (DefaultRole cfg) (GroupToRole cfg).

Definition NewProxyIdentity (cfg : ProxyConfig) : Result ProxyConfig :=
  if bool_decide (UserHeader cfg = "") then Err "proxy: userHeader is required" else
  if bool_decide (TrustMode cfg = "secret") &&
     (bool_decide (SecretHeader cfg = "") || bool_decide (Secret cfg = ""))
  then Err "proxy: trustMode 'secret' requires secretHeader and a secret value" else
  if negb (bool_decide (TrustMode cfg = "secret") || bool_decide (TrustMode cfg = "network"))
  then Err ("proxy: invalid trustMode " +:+ Quote (TrustMode cfg) +:+ " (want secret|network)") else
  if (size (GroupToRole cfg) =? 0)%nat && bool_decide (DefaultRole cfg = "")
  then Err "proxy: configure at least one group→role mapping or a defaultRole" else
  Val (if bool_decide (GroupsSep cfg = "") then set_GroupsSep cfg "," else cfg).

(** [subtle.ConstantTimeCompare]: no early exit, 1 when equal. *)
Fixpoint xor_all (x y : list Z) (v : Z) : Z :=
  match x, y with
  | a :: x, b :: y => xor_all x y (Z.lor v (Z.lxor a b))
  | _, _ => v
  end.

Definition ConstantTimeCompare (x y : list Z) : Z :=
  if negb (List.length x =? List.length y)%nat then 0
  else if xor_all x y 0 =? 0 then 1 else 0.

(** One iteration of the loop of [highestRole]. *)
Definition role_step (groupToRole : gmap string Role) (acc : Role * bool) (g : string) : Role * bool :=
  let '(best, found) := acc in
  let g := TrimSpace g in
  if bool_decide (g = "") then acc else
  match groupToRole !! g with
  | Some role => if negb found || (rank best <? rank role) then (role, true) else acc
  | None => acc
  end.

Definition highestRole (p : ProxyConfig) (groups : string) : Role * bool :=
  fold_left (role_step (GroupToRole p)) (Split groups (GroupsSep p)) ("", false).

Definition proxy_identity_of (p : ProxyConfig) (r : Request) : Principal * bool :=
  let user := TrimSpace (header_Get (Header r) (UserHeader p)) in
  if bool_decide (user = "") then (noPrincipal, false) else
  match highestRole p (header_Get (Header r) (GroupsHeader p)) with
  | (role, true) => (mkPrincipal user role, true)
  | (_, false) =>
      if bool_decide (DefaultRole p = "") then (noPrincipal, false)
      else (mkPrincipal user (DefaultRole p), true)
  end.

Definition ProxyAuthenticate (p : ProxyConfig) (r : Request) : Principal * bool :=
  if bool_decide (TrustMode p = "secret") &&
     negb (ConstantTimeCompare (bytes_of_string (header_Get (Header r) (SecretHeader p)))
             (bytes_of_string (Secret p)) =? 1)
  then (noPrincipal, false)
  else proxy_identity_of p r.

#[export] Instance proxy_identity : Identity ProxyConfig := ProxyAuthenticate.

(** ** Middleware *)
Section middleware.
Context {I W B : Type} `{!Identity I}.

Definition AuthenticateMW (id : I) (next : Handler W B) : Handler W B := fun r w =>
  match Authenticate id r with
  | (_, false) => Ok (w, http_Error [("WWW-Authenticate", "Bearer")] "unauthorized" StatusUnauthorized)
  | (p, true) => next (with_principal r p) w
  end.

Definition PrincipalFrom (r : Request) : option Principal := ctx_principal r.

Definition RequireRole (min : Role) (next : Handler W B) : Handler W B := fun r w =>
  match PrincipalFrom r with
  | None => Ok (w, http_Error [] "unauthorized" StatusUnauthorized)
  | Some p =>
      if negb (AtLeast (PrincipalRole p) min)
      then Ok (w, http_Error [] ("forbidden: requires " +:+ min +:+ " role") StatusForbidden)
      else next r w
  end.
End middleware.

Definition CheckOrigin (r : Request) : bool :=
  let origin := header_Get (Header r) "Origin" in
  if bool_decide (origin = "") then true
  else HasSuffix origin ("://" +:+ Host r) || HasSuffix origin (Host r).

#[export] Instance token_identity_laws : IdentityLaws TokenIdentity.
Proof.
  intros t r r' Hh Hc. unfold Authenticate, token_identity, TokenAuthenticate, tokenFromRequest, cookie_token.
  by rewrite Hh, Hc.
Qed.

#[export] Instance proxy_identity_laws : IdentityLaws ProxyConfig.
Proof.
  intros p r r' Hh Hc. unfold Authenticate, proxy_identity, ProxyAuthenticate, proxy_identity_of.
  by rewrite Hh.
Qed.

(** ** Roles: a total preorder with an absent bottom *)
Lemma AtLeast_spec r min : AtLeast r min = true <-> 1 <= rank r /\ rank min <= rank r.
Proof. unfold AtLeast. lia. Qed.

(** ** Tokens *)

Local Opaque hashToken.

(** The last entry, in configuration order, that carries the token. *)
Definition entry_for (entries : list TokenPrincipal) (tok : string) : option TokenPrincipal :=
  last (filter (fun e => tp_Token e = tok) entries).

Lemma index_tokens_lookup (entries : list TokenPrincipal) m h :
  fold_left index_token entries m !! h =
  match last (filter (fun e => tp_Token e <> "" /\ hashToken (tp_Token e) = h) entries) with
  | Some e => Some (mkPrincipal (tp_Name e) (tp_Role e))
  | None => m !! h
  end.
Proof.
  induction entries as [|e entries IH] using rev_ind; [done|].
  rewrite fold_left_app, filter_app. simpl. unfold index_token at 1.
  rewrite filter_cons, filter_nil.
  case_bool_decide as He; case_decide as Hf; rewrite ?app_nil_r; [naive_solver|done| |].
  - destruct Hf as [_ <-]. by rewrite lookup_insert_eq, last_snoc.
  - rewrite lookup_insert_ne; [done|]. intros Hh. apply Hf. by split.
Qed.

Lemma filter_by_hash (entries : list TokenPrincipal) tok :
  tok <> "" ->
  (forall e, e ∈ entries -> hashToken (tp_Token e) = hashToken tok -> tp_Token e = tok) ->
  filter (fun e => tp_Token e <> "" /\ hashToken (tp_Token e) = hashToken tok) entries =
  filter (fun e => tp_Token e = tok) entries.
Proof.
  intros Ht. induction entries as [|e entries IH]; intros Hcol; [done|].
  rewrite !filter_cons, IH by (intros e' He'; apply Hcol; by right).
  destruct (decide (tp_Token e = tok)) as [He|He]; case_decide as Hd; [done| | |done].
  - exfalso. apply Hd. rewrite He. done.
  - exfalso. apply He, Hcol; [by left|]. by destruct Hd.
Qed.

(** ** The trusted proxy *)
Lemma xor_all_zero x y v :
  List.length x = List.length y -> (xor_all x y v = 0 <-> v = 0 /\ x = y).
Proof.
  revert y v. induction x as [|a x IH]; intros [|b y] v Hl; simpl in *; try lia; [naive_solver|].
  rewrite IH, Z.lor_eq_0_iff, Z.lxor_eq_0_iff by lia. naive_solver.
Qed.

Lemma ConstantTimeCompare_eq x y : ConstantTimeCompare x y = 1 <-> x = y.
Proof.
  unfold ConstantTimeCompare. destruct (Nat.eqb_spec (List.length x) (List.length y)) as [Hl|Hl]; simpl.
  - destruct (Z.eqb_spec (xor_all x y 0) 0) as [H|H]; rewrite xor_all_zero in H by done; naive_solver.
  - split; [done|]. by intros ->.
Qed.

(** [role] is configured for one of the groups in the header. *)
Definition granted (m : gmap string Role) (groups : list string) (role : Role) : Prop :=
  exists g, g ∈ groups /\ TrimSpace g <> "" /\ m !! TrimSpace g = Some role.

(** The accumulator holds a most privileged role of those that satisfy [G]. *)
Definition best_of (G : Role -> Prop) (acc : Role * bool) : Prop :=
  (acc.2 = true -> G acc.1 /\ forall role, G role -> rank role <= rank acc.1) /\
  (acc.2 = false -> forall role, ~ G role).

Lemma role_step_best m G g acc :
  best_of G acc ->
  best_of (fun role => G role \/ (TrimSpace g <> "" /\ m !! TrimSpace g = Some role)) (role_step m acc g).
Proof.
  destruct acc as [best found]. unfold role_step, best_of. intros [Ht Hf].
  case_bool_decide as Hg; [simpl in *; naive_solver|].
  destruct (m !! TrimSpace g) as [role|]; [|simpl in *; naive_solver].
  destruct found; simpl in *.
  - destruct (Ht eq_refl) as [Hb Hmax].
    destruct (Z.ltb_spec (rank best) (rank role)); simpl; split; try discriminate; intros _.
    + split; [naive_solver|]. intros role' [Hr|[_ [= <-]]]; [|lia]. apply Hmax in Hr. lia.
    + split; [naive_solver|]. intros role' [Hr|[_ [= <-]]]; [by apply Hmax|lia].
  - split; [|discriminate]. intros _. split; [naive_solver|].
    intros role' [Hr|[_ [= <-]]]; [by apply Hf in Hr|lia].
Qed.

Lemma roles_fold m groups :
  best_of (granted m groups) (fold_left (role_step m) groups ("", false)).
Proof.
  induction groups as [|g groups IH] using rev_ind.
  - split; [discriminate|]. intros _ role (g & Hg & _). by apply elem_of_nil in Hg.
  - rewrite fold_left_app. apply (role_step_best m _ g) in IH. cbn [fold_left].
    unfold best_of, granted in *. setoid_rewrite elem_of_app. setoid_rewrite list_elem_of_singleton.
    destruct IH as [Ht Hf]. split; [intros Hb; destruct (Ht Hb) as [H1 H2]; split|intros Hb; specialize (Hf Hb)];
      naive_solver.
Qed.

Lemma NewProxyIdentity_valid cfg p :
  NewProxyIdentity cfg = Val p ->
  UserHeader p <> "" /\ GroupsSep p <> "" /\
  (TrustMode p = "network"%string \/ TrustMode p = "secret"%string /\ SecretHeader p <> "" /\ Secret p <> "").
Proof.
  unfold NewProxyIdentity.
  destruct (bool_decide_reflect (UserHeader cfg = "")); [discriminate|].
  destruct (bool_decide_reflect (SecretHeader cfg = "")), (bool_decide_reflect (Secret cfg = "")),
    (bool_decide_reflect (TrustMode cfg = "secret")), (bool_decide_reflect (TrustMode cfg = "network"));
    cbn [andb orb negb]; try discriminate;
    (destruct (_ && _); [discriminate|]; intros [= <-];
     destruct (bool_decide_reflect (GroupsSep cfg = "")); cbn;
     (split; [done|split; [done|tauto]])).
Qed.

(** What makes the proxy's headers trustworthy: the operator's network, or the
    shared secret in the secret header. *)
Definition trusted (p : ProxyConfig) (r : Request) : Prop :=
  TrustMode p = "network"%string \/
  (TrustMode p = "secret"%string /\ Secret p <> "" /\
   header_Get (Header r) (SecretHeader p) = Secret p).

(** The most privileged configured role of the user's groups, or the default
    role when no group is configured. *)
Definition role_of (p : ProxyConfig) (r : Request) (role : Role) : Prop :=
  let groups := Split (header_Get (Header r) (GroupsHeader p)) (GroupsSep p) in
  (granted (GroupToRole p) groups role /\
   forall role', granted (GroupToRole p) groups role' -> rank role' <= rank role) \/
  ((forall role', ~ granted (GroupToRole p) groups role') /\ DefaultRole p <> "" /\ role = DefaultRole p).

Lemma highestRole_best p groups :
  best_of (granted (GroupToRole p) (Split groups (GroupsSep p))) (highestRole p groups).
Proof. apply roles_fold. Qed.

Lemma trust_check p r :
  (UserHeader p <> "" /\ GroupsSep p <> "" /\
   (TrustMode p = "network"%string \/
    TrustMode p = "secret"%string /\ SecretHeader p <> "" /\ Secret p <> "")) ->
  (trusted p r -> ProxyAuthenticate p r = proxy_identity_of p r) /\
  (~ trusted p r -> ProxyAuthenticate p r = (noPrincipal, false)).
Proof.
  unfold ProxyAuthenticate, trusted. intros (_ & _ & Hm).
  case_bool_decide as Ht; cbn [andb].
  - assert (Secret p <> "") as Hs by (rewrite Ht in Hm; destruct Hm as [Hm|(_ & _ & ?)]; done).
    destruct (Z.eqb_spec (ConstantTimeCompare (bytes_of_string (header_Get (Header r) (SecretHeader p)))
      (bytes_of_string (Secret p))) 1) as [He|He]; cbn [negb]; rewrite ConstantTimeCompare_eq in He.
    + apply bytes_of_string_inj in He. split; [done|]. intros Hn. exfalso. apply Hn. by right.
    + split; [|done]. intros [Hw|(_ & _ & Hw)]; [congruence|]. by rewrite Hw in He.
  - destruct Hm as [Hm|(? & _)]; [|done]. split; [done|]. intros Hn. exfalso. apply Hn. by left.
Qed.

Lemma proxy_identity_of_sound p r who :
  proxy_identity_of p r = (who, true) ->
  Name who = TrimSpace (header_Get (Header r) (UserHeader p)) /\ Name who <> "" /\
  role_of p r (PrincipalRole who).
Proof.
  unfold proxy_identity_of, role_of. set (user := TrimSpace _).
  pose proof (highestRole_best p (header_Get (Header r) (GroupsHeader p))) as [Ht Hf].
  case_bool_decide; [discriminate|].
  destruct (highestRole p _) as [role [|]]; simpl in *.
  - intros [= <-]. simpl. split; [done|split; [done|]]. left. by apply Ht.
  - case_bool_decide; [discriminate|]. intros [= <-]. simpl.
    split; [done|split; [done|]]. right. split; [by apply Hf|done].
Qed.

Lemma proxy_identity_of_complete p r role :
  TrimSpace (header_Get (Header r) (UserHeader p)) <> "" -> role_of p r role ->
  exists who, proxy_identity_of p r = (who, true).
Proof.
  unfold proxy_identity_of, role_of. intros Hu Hr. rewrite bool_decide_eq_false_2 by done.
  pose proof (highestRole_best p (header_Get (Header r) (GroupsHeader p))) as [_ Hf].
  destruct (highestRole p _) as [best [|]]; simpl in *; [by eexists|].
  destruct Hr as [[Hg _]|(_ & Hd & _)]; [by apply Hf in Hg|].
  rewrite bool_decide_eq_false_2 by done. by eexists.
Qed.

(** ** Properties *)

(** C28: a request is authenticated by token exactly as the configuration says:
    a non-empty token in the Authorization header or the cookie yields the
    principal of the last entry carrying that token, anything else yields
    none; the token is the one after Bearer in the Authorization header, or
    else the cookie's.  The entries' tokens must not collide with the
    presented one under SHA-256. *)
Theorem TokenAuthenticate_correct (entries : list TokenPrincipal) (r : Request)
    (Hcol : forall e, e ∈ entries ->
      hashToken (tp_Token e) = hashToken (tokenFromRequest r) -> tp_Token e = tokenFromRequest r) :
  TokenAuthenticate (NewTokenIdentity entries) r =
  match entry_for entries (tokenFromRequest r) with
  | Some e => if bool_decide (tokenFromRequest r = "") then (noPrincipal, false)
              else (mkPrincipal (tp_Name e) (tp_Role e), true)
  | None => (noPrincipal, false)
  end /\
  (forall t, header_Get (Header r) "Authorization" = "Bearer " +:+ t -> tokenFromRequest r = t) /\
  ((forall t, header_Get (Header r) "Authorization" <> "Bearer " +:+ t) ->
   tokenFromRequest r = default "" (find_cookie (Cookies r) "pglockr_token")).
Proof.
  split; [|split].
  - unfold TokenAuthenticate, entry_for. case_bool_decide as Ht; [by case_match|].
    unfold NewTokenIdentity. simpl. rewrite index_tokens_lookup, filter_by_hash by done.
    rewrite lookup_empty. by destruct (last _).
  - intros t Ht. unfold tokenFromRequest. by rewrite Ht, CutPrefix_app.
  - intros Hn. unfold tokenFromRequest, cookie_token. case_bool_decide; [by case_match|].
    destruct (CutPrefix _ _) as [t [|]] eqn:E; [|by case_match].
    apply CutPrefix_found in E. by apply Hn in E.
Qed.

Definition demo_entries : list TokenPrincipal :=
  [mkTokenPrincipal "ann" RoleViewer "t1"; mkTokenPrincipal "bob" RoleOperator "t2"].

Definition bearer_request (h : string) : Request :=
  mkRequest "POST" "/" "app.local" {["Authorization" := [h]]} [] ∅ ∅ None.

Lemma TokenAuthenticate_correct_witness :
  TokenAuthenticate (NewTokenIdentity demo_entries) (bearer_request "Bearer t2") =
  (mkPrincipal "bob" RoleOperator, true).
Proof.
  destruct (TokenAuthenticate_correct demo_entries (bearer_request "Bearer t2")) as [Ha _].
  2:{ rewrite Ha. vm_compute. reflexivity. }
  - intros e He. unfold demo_entries in He. repeat (apply elem_of_cons in He as [->|He]; [intros Hh; vm_compute in Hh; first [discriminate Hh | vm_compute; reflexivity]|]).
    destruct (proj1 (elem_of_nil e) He).
Defined.

(** C16: the trusted proxy's identity is accepted only behind the trust
    boundary: with a validated configuration, a principal is returned exactly
    when the headers are trusted (network mode, or the configured secret was
    presented), the user header is not blank, and the user has a role; the role
    is then the most privileged one configured for the user's groups, or the
    default role when there is none. *)
Theorem ProxyAuthenticate_correct (cfg p : ProxyConfig) (r : Request)
    (Hp : NewProxyIdentity cfg = Val p) :
  (forall who, ProxyAuthenticate p r = (who, true) ->
     trusted p r /\ Name who = TrimSpace (header_Get (Header r) (UserHeader p)) /\
     Name who <> "" /\ role_of p r (PrincipalRole who)) /\
  (trusted p r -> TrimSpace (header_Get (Header r) (UserHeader p)) <> "" ->
     (exists role, role_of p r role) -> exists who, ProxyAuthenticate p r = (who, true)).
Proof.
  destruct (trust_check p r (NewProxyIdentity_valid cfg p Hp)) as [Ht Hn]. split.
  - intros who Hw. assert (trusted p r) as Htr.
    { unfold trusted. destruct (decide (TrustMode p = "network"%string)); [by left|].
      destruct (decide (TrustMode p = "secret"%string /\ Secret p <> "" /\
        header_Get (Header r) (SecretHeader p) = Secret p)); [by right|].
      rewrite Hn in Hw by (unfold trusted; tauto). discriminate. }
    rewrite Ht in Hw by done. split; [done|]. by apply proxy_identity_of_sound.
  - intros Htr Hu [role Hr]. rewrite Ht by done. by eapply proxy_identity_of_complete.
Qed.

Definition demo_proxy : ProxyConfig :=
  mkProxyConfig "X-Forwarded-User" "X-Forwarded-Groups" "," "secret" "X-Proxy-Secret" "s3cret" ""
    (<["dba" := RoleAdmin]> {["dev" := RoleViewer]}).

Definition proxy_request (secret : string) : Request :=
  mkRequest "GET" "/" "app.local"
    (<["X-Proxy-Secret" := [secret]]> (<["X-Forwarded-User" := ["ann"]]>
      {["X-Forwarded-Groups" := ["dev, dba"]]})) [] ∅ ∅ None.

Lemma ProxyAuthenticate_correct_witness :
  ProxyAuthenticate demo_proxy (proxy_request "s3cret") = (mkPrincipal "ann" RoleAdmin, true) /\
  ProxyAuthenticate demo_proxy (proxy_request "guess") = (noPrincipal, false) /\
  trusted demo_proxy (proxy_request "s3cret").
Proof.
  split; [vm_compute; reflexivity|]. split; [vm_compute; reflexivity|].
  apply (proj1 (ProxyAuthenticate_correct demo_proxy demo_proxy (proxy_request "s3cret") eq_refl)
    (mkPrincipal "ann" RoleAdmin)).
  vm_compute. reflexivity.
Defined.

(** The Origin a browser sends for a page served by [host]. *)
Definition same_origin (origin host : string) : Prop :=
  exists scheme, origin = scheme +:+ "://" +:+ host.

(** The cross-site check lets through every request without an Origin and
    every same-origin request, and otherwise exactly the origins that end in the
    Host header; that is weaker than a match: an origin of a different host
    with that suffix passes. *)
Lemma CheckOrigin_suffix_only :
  (forall r, CheckOrigin r = true <->
     header_Get (Header r) "Origin" = "" \/
     exists p, header_Get (Header r) "Origin" = p +:+ Host r) /\
  (forall r, same_origin (header_Get (Header r) "Origin") (Host r) -> CheckOrigin r = true) /\
  (exists r, CheckOrigin r = true /\ header_Get (Header r) "Origin" = "https://evilapp.local"%string /\
     Host r = "app.local"%string).
Proof.
  assert (forall r, CheckOrigin r = true <->
     header_Get (Header r) "Origin" = "" \/
     exists p, header_Get (Header r) "Origin" = p +:+ Host r) as H.
  { intros r. unfold CheckOrigin. case_bool_decide as He; [naive_solver|].
    rewrite orb_true_iff, !HasSuffix_spec. split; [|naive_solver].
    intros [[p Hp]|Hp]; [|by right]. right. exists (p +:+ "://"). rewrite Hp.
    apply string_app_assoc. }
  split; [done|]. split.
  - intros r [scheme Hs]. apply H. right. exists (scheme +:+ "://"). rewrite Hs.
    apply string_app_assoc.
  - exists (mkRequest "POST" "/" "app.local" {["Origin" := ["https://evilapp.local"]]} [] ∅ ∅ None).
    vm_compute. repeat split.
Qed.
