(* ===== verification/AuditTrail.v ===== *)
(** * internal/audit: the action trail and its in-memory sink *)
From S2P Require Import Prelude GoRuntime.
From Stdlib Require Import String.
Local Open Scope Z_scope.
Local Open Scope pglockr_scope.

Record Entry := mkEntry {
  At : Time;
  Actor : string;
  Action : string;
  PID : Z;
  VictimQuery : string;
  Delivered : bool;
  Error : string
}.

(** The [Sink] interface: [S] is the state behind the interface value; an
    error is its message. *)
Class Sink (S : Type) := {
  RecordEntry : S -> Entry -> S * option string;
  Recent : S -> Z -> Outcome (Result (list Entry))
}.

(** ** The bounded in-memory sink *)
Record Memory := mkMemory { entries : list Entry; mem_cap : Z }.

Definition NewMemory (capacity : Z) : Memory :=
  mkMemory [] (if capacity <? 1 then 1 else capacity).

Definition memory_Record (m : Memory) (e : Entry) : Memory * option string :=
  let es := entries m ++ [e] in
  let n := Z.of_nat (List.length es) in
  (mkMemory (if mem_cap m <? n then drop (Z.to_nat (n - mem_cap m)) es else es) (mem_cap m), None).

(** [for i := n - 1; i >= n-limit; i--], [k] iterations left. *)
Fixpoint recent_loop (es : list Entry) (k : nat) (i : Z) (out : list Entry) : Outcome (list Entry) :=
  match k with
  | O => Ok out
  | S k => let* e := slice_get es i in recent_loop es k (i - 1) (out ++ [e])
  end.

Definition memory_Recent (m : Memory) (limit : Z) : Outcome (Result (list Entry)) :=
  let n := Z.of_nat (List.length (entries m)) in
  let limit := if (limit <=? 0) || (n <? limit) then n else limit in
  let* out := recent_loop (entries m) (Z.to_nat limit) (n - 1) [] in Ok (Val out).

#[export] Instance memory_sink : Sink Memory := {|
  RecordEntry := memory_Record;
  Recent := memory_Recent
|}.

(** ** The abstract trail

    A sink keeps a trail when every entry recorded is appended to it and
    [Recent] returns its newest entries first, among the last [bound]. *)
Class SinkLaws (S : Type) `{Sink S} := {
  sink_bound : S -> nat;
  sink_represents : S -> list Entry -> Prop;
  record_represents s trail e : sink_represents s trail ->
    sink_represents (RecordEntry s e).1 (trail ++ [e]) /\ sink_bound (RecordEntry s e).1 = sink_bound s;
  recent_represents s trail limit : sink_represents s trail ->
    Recent s limit =
    Ok (Val (let kept := reverse (lastn (sink_bound s) trail) in
             if (limit <=? 0) then kept else take (Z.to_nat limit) kept))
}.

Lemma recent_loop_spec es k i out :
  Z.of_nat k <= i + 1 <= Z.of_nat (List.length es) ->
  recent_loop es k i out = Ok (out ++ reverse (lastn k (take (Z.to_nat (i + 1)) es))).
Proof.
  revert i out. induction k as [|k IH]; intros i out Hk; simpl.
  - unfold lastn. by rewrite Nat.sub_0_r, drop_all, app_nil_r.
  - destruct (lookup_lt_is_Some_2 es (Z.to_nat i)) as [e He]; [lia|].
    rewrite (slice_get_lookup es _ e) by (done || lia). simpl. rewrite IH by lia. f_equal.
    replace (Z.to_nat (i + 1)) with (S (Z.to_nat i)) by lia.
    rewrite (take_S_r _ _ _ He), lastn_snoc by lia.
    replace (S k - 1)%nat with k by lia. replace (Z.to_nat (i - 1 + 1)) with (Z.to_nat i) by lia.
    by rewrite reverse_snoc, <-app_assoc.
Qed.

Lemma memory_Recent_newest m limit :
  memory_Recent m limit =
  Ok (Val (if limit <=? 0 then reverse (entries m) else take (Z.to_nat limit) (reverse (entries m)))).
Proof.
  unfold memory_Recent. set (n := Z.of_nat (List.length (entries m))).
  assert (forall k, Z.of_nat k <= n -> recent_loop (entries m) k (n - 1) [] =
    Ok (take k (reverse (entries m)))) as Hloop.
  { intros k Hk. rewrite recent_loop_spec by lia.
    replace (Z.to_nat (n - 1 + 1)) with (List.length (entries m)) by lia.
    by rewrite firstn_all, take_reverse. }
  destruct (Z.leb_spec limit 0), (Z.ltb_spec n limit); cbn [orb]; rewrite Hloop by lia; simpl;
    try (rewrite take_ge by (rewrite length_reverse; lia)); try done.
  by rewrite take_ge by (rewrite length_reverse; lia).
Qed.

Lemma memory_Record_newest m e :
  1 <= mem_cap m ->
  entries (memory_Record m e).1 = lastn (Z.to_nat (mem_cap m)) (entries m ++ [e]).
Proof.
  intros Hc. unfold memory_Record. cbn [fst entries].
  case_match eqn:Hlt; [apply Z.ltb_lt in Hlt|apply Z.ltb_ge in Hlt; rewrite lastn_all by lia; done].
  unfold lastn. f_equal. lia.
Qed.

#[export] Program Instance memory_laws : SinkLaws Memory := {|
  sink_bound m := Z.to_nat (mem_cap m);
  sink_represents m trail := 1 <= mem_cap m /\ entries m = lastn (Z.to_nat (mem_cap m)) trail
|}.
Next Obligation.
  intros m trail e [Hc He]. split; [|done]. split; [done|].
  change (entries (memory_Record m e).1 = lastn (Z.to_nat (mem_cap m)) (trail ++ [e])).
  by rewrite memory_Record_newest, He, lastn_app_lastn.
Qed.
Next Obligation.
  intros m trail limit [Hc He]. simpl. rewrite memory_Recent_newest, He. done.
Qed.

Lemma NewMemory_represents capacity : sink_represents (NewMemory capacity) [].
Proof. simpl. case_match eqn:H; [apply Z.ltb_lt in H|apply Z.ltb_ge in H]; simpl; split; (done || lia). Qed.

(** Every sink with the laws keeps the trail of a sequence of records. *)
Lemma record_all_represents {S} `{SinkLaws S} (s : S) trail es :
  sink_represents s trail ->
  sink_represents (fold_left (fun s e => (RecordEntry s e).1) es s) (trail ++ es) /\
  sink_bound (fold_left (fun s e => (RecordEntry s e).1) es s) = sink_bound s.
Proof.
  revert s trail. induction es as [|e es IH]; intros s trail Hs; simpl; [by rewrite app_nil_r|].
  destruct (record_represents s trail e Hs) as [Hr <-].
  rewrite cons_middle, app_assoc. by apply IH.
Qed.

(** The in-memory audit sink keeps the newest [capacity] entries (at least
    one), and [Recent] returns them newest first, up to the limit when it is
    positive; no index is out of range. *)
Lemma Memory_keeps_newest (capacity : Z) (es : list Entry) (limit : Z) :
  memory_Recent (fold_left (fun m e => (memory_Record m e).1) es (NewMemory capacity)) limit =
  Ok (Val (let kept := reverse (lastn (Z.to_nat (Z.max 1 capacity)) es) in
           if limit <=? 0 then kept else take (Z.to_nat limit) kept)).
Proof.
  destruct (record_all_represents (NewMemory capacity) [] es (NewMemory_represents capacity)) as [Hr Hb].
  pose proof (recent_represents _ _ limit Hr) as H. rewrite Hb in H.
  replace (sink_bound (NewMemory capacity)) with (Z.to_nat (Z.max 1 capacity)) in H; [exact H|].
  clear. simpl. case_match eqn:E; [apply Z.ltb_lt in E|apply Z.ltb_ge in E]; simpl; lia.
Qed.
