(* ===== verification/Signal.v ===== *)
(** * internal/signal: audited cancel and terminate

    [Do] sends the action through the [Signaler], records one audit entry,
    notifies the observer and logs one line.  The optional fields of the
    service (nil interfaces) are options; the query lookup and the clock are
    arguments of the call. *)
From S2P Require Import Prelude GoRuntime.
From S2P Require Import AuditTrail.
From Stdlib Require Import String.
Local Open Scope Z_scope.

Definition Action := string.
Definition ActionCancel : Action := "cancel".
Definition ActionTerminate : Action := "terminate".

(** The [Signaler] interface on the state [G] of the target cluster: whether
    the signal was delivered, and an error. *)
Class Signaler (G : Type) := {
  Cancel : G -> Z -> G * (bool * option string);
  Terminate : G -> Z -> G * (bool * option string)
}.

(** The [Observer] interface. *)
Class Observer (O : Type) := ObserveAction : O -> string -> bool -> O.

(** A structured log line. *)
Inductive Attr := AttrString (s : string) | AttrInt (n : Z) | AttrBool (b : bool) | AttrTime (t : Time).
Record LogLine := mkLogLine { log_level : string; log_msg : string; log_attrs : list (string * Attr) }.

Record Result := mkResult {
  res_Action : Action;
  res_PID : Z;
  res_Delivered : bool;
  res_At : Time
}.

Section service.
Context {G S O : Type} `{!Signaler G} `{!AuditTrail.Sink S} `{!Observer O}.

Record Service := mkService {
  sig : G;
  log : list LogLine;
  sink : option S;
  obs : option O
}.

(** The [switch] on the action: an unknown one sends nothing. *)
Definition send (g : G) (action : Action) (pid : Z) : G * (bool * option string) :=
  if bool_decide (action = ActionCancel) then Cancel g pid
  else if bool_decide (action = ActionTerminate) then Terminate g pid
  else (g, (false, None)).

Definition entry_of (action : Action) (pid : Z) (actor victimQuery : string) (at_ : Time)
    (delivered : bool) (err : option string) : AuditTrail.Entry :=
  AuditTrail.mkEntry at_ actor action pid victimQuery (delivered && bool_decide (err = None))
    (default "" err).

Definition record_entry (snk : option S) (lg : list LogLine) (e : AuditTrail.Entry)
    : option S * list LogLine :=
  match snk with
  | None => (None, lg)
  | Some s =>
      match AuditTrail.RecordEntry s e with
      | (s', None) => (Some s', lg)
      | (s', Some rerr) =>
          (Some s', lg ++ [mkLogLine "ERROR" "audit sink write failed" [("err"%string, AttrString rerr)]])
      end
  end.

Definition signal_attrs (action : Action) (pid : Z) (actor victimQuery : string) (at_ : Time)
    (delivered : bool) : list (string * Attr) :=
  [("audit", AttrBool true); ("action", AttrString action); ("pid", AttrInt pid);
   ("actor", AttrString actor); ("delivered", AttrBool delivered);
   ("victim_query", AttrString victimQuery); ("at", AttrTime at_)]%string.

(** [Do]: the service after the call, the result and the error. *)
Definition Do (svc : Service) (lookup : option (Z -> string * bool)) (now : Time)
    (action : Action) (pid : Z) (actor : string) : Service * (Result * option string) :=
  let '(g, (delivered, err)) := send (sig svc) action pid in
  let victimQuery := match lookup with Some f => (f pid).1 | None => ""%string end in
  let entry := entry_of action pid actor victimQuery now delivered err in
  let '(snk, lg) := record_entry (sink svc) (log svc) entry in
  let o := (fun o => ObserveAction o action (AuditTrail.Delivered entry)) <$> obs svc in
  let attrs := signal_attrs action pid actor victimQuery now delivered in
  match err with
  | Some e =>
      (mkService g (lg ++ [mkLogLine "ERROR" "signal action failed" (attrs ++ [("error"%string, AttrString e)])])
         snk o,
       (mkResult action pid false now, Some e))
  | None =>
      (mkService g (lg ++ [mkLogLine "INFO" "signal action" attrs]) snk o,
       (mkResult action pid delivered now, None))
  end.

(** ** A sequence of calls *)
Record Call := mkCall {
  call_lookup : option (Z -> string * bool);
  call_now : Time;
  call_action : Action;
  call_pid : Z;
  call_actor : string
}.

Definition do_call (svc : Service) (c : Call) : Service * (Result * option string) :=
  Do svc (call_lookup c) (call_now c) (call_action c) (call_pid c) (call_actor c).

(** The services after each call, with the answers. *)
Fixpoint do_all (svc : Service) (cs : list Call) : Service * list (Result * option string) :=
  match cs with
  | [] => (svc, [])
  | c :: cs =>
      let '(svc1, a) := do_call svc c in
      let '(svc2, rest) := do_all svc1 cs in
      (svc2, a :: rest)
  end.

(** What an auditor expects to read about a call, given its answer. *)
Definition expected_entry (c : Call) (a : Result * option string) : AuditTrail.Entry :=
  AuditTrail.mkEntry (call_now c) (call_actor c) (call_action c) (call_pid c)
    (match call_lookup c with Some f => (f (call_pid c)).1 | None => ""%string end)
    (res_Delivered a.1) (default ""%string a.2).

(** The signals sent to the cluster by the calls. *)
Definition cluster_after (g : G) (cs : list Call) : G :=
  fold_left (fun g c => (send g (call_action c) (call_pid c)).1) cs g.

Lemma Do_effects svc c :
  let '(svc', a) := do_call svc c in
  sig svc' = (send (sig svc) (call_action c) (call_pid c)).1 /\
  a.2 = (send (sig svc) (call_action c) (call_pid c)).2.2 /\
  res_Delivered a.1 = (send (sig svc) (call_action c) (call_pid c)).2.1 &&
    bool_decide (a.2 = None) /\
  sink svc' = (fun s => (AuditTrail.RecordEntry s (expected_entry c a)).1) <$> sink svc.
Proof.
  unfold do_call, Do, entry_of, expected_entry.
  destruct (send _ _ _) as (g & delivered & err).
  destruct (record_entry _ _ _) as [snk lg] eqn:E. unfold record_entry in E.
  destruct err as [e|]; simpl in *; rewrite ?andb_true_r, ?andb_false_r in *;
    (repeat split); (destruct (sink svc) as [s|]; [|by injection E as <- _]);
    (destruct (AuditTrail.RecordEntry s _) as [s' [rerr|]] eqn:Er; injection E as <- _; simpl; by rewrite Er).
Qed.
(** What the cluster answers to the calls, one after the other. *)
Definition answer_of (g : G) (c : Call) : Result * option string :=
  let '(_, (delivered, err)) := send g (call_action c) (call_pid c) in
  (mkResult (call_action c) (call_pid c) (delivered && bool_decide (err = None)) (call_now c), err).

Fixpoint answers_from (g : G) (cs : list Call) : list (Result * option string) :=
  match cs with
  | [] => []
  | c :: cs => answer_of g c :: answers_from (send g (call_action c) (call_pid c)).1 cs
  end.

Lemma Do_answer svc c : (do_call svc c).2 = answer_of (sig svc) c.
Proof.
  unfold do_call, Do, answer_of. destruct (send _ _ _) as (g & delivered & err).
  destruct (record_entry _ _ _). destruct err; simpl; by rewrite ?andb_true_r, ?andb_false_r.
Qed.

Lemma do_all_answers svc cs :
  (do_all svc cs).2 = answers_from (sig svc) cs /\ sig (do_all svc cs).1 = cluster_after (sig svc) cs.
Proof.
  revert svc. induction cs as [|c cs IH]; intros svc; [done|]. simpl.
  pose proof (Do_answer svc c) as Ha. pose proof (Do_effects svc c) as He.
  destruct (do_call svc c) as [svc1 a]. destruct He as (Hsig & _).
  specialize (IH svc1). destruct (do_all svc1 cs) as [svc2 rest]. simpl in *.
  rewrite <-Hsig, <-Ha. destruct IH as [-> ->]. done.
Qed.

Lemma do_all_sink svc cs :
  sink (do_all svc cs).1 =
  (fun s => fold_left (fun s e => (AuditTrail.RecordEntry s e).1)
     (zip_with expected_entry cs (do_all svc cs).2) s) <$> sink svc.
Proof.
  revert svc. induction cs as [|c cs IH]; intros svc; simpl; [by destruct (sink svc)|].
  pose proof (Do_effects svc c) as He. destruct (do_call svc c) as [svc1 a].
  destruct He as (_ & _ & _ & Hs). specialize (IH svc1).
  destruct (do_all svc1 cs) as [svc2 rest]. simpl in *. rewrite IH, Hs. by destruct (sink svc).
Qed.

(** C12: every attempt is audited, exactly once and truthfully: after any
    sequence of calls on a service with a sink, the sink serves, newest first,
    one entry per call after what it held, carrying the caller, the action, the
    process id, the query known at that time, the time, and the cluster's
    answer (delivered only without an error); the caller got the same answer,
    and the cluster received the calls' signals in that order and nothing
    else: a cancel cancels, a terminate terminates, any other action sends
    nothing. *)
Theorem Do_audits_every_attempt `{!AuditTrail.SinkLaws S} (svc : Service) (cs : list Call) (s : S)
    (trail : list AuditTrail.Entry) (Hs : sink svc = Some s) (Hr : AuditTrail.sink_represents s trail) :
  (forall g pid, send g "cancel" pid = Cancel g pid /\ send g "terminate" pid = Terminate g pid /\
     forall action, action <> "cancel"%string -> action <> "terminate"%string ->
       send g action pid = (g, (false, None))) /\
  sig (do_all svc cs).1 = cluster_after (sig svc) cs /\
  (do_all svc cs).2 = answers_from (sig svc) cs /\
  exists s', sink (do_all svc cs).1 = Some s' /\
    forall limit, AuditTrail.Recent s' limit =
      Ok (Val (let kept := reverse (lastn (AuditTrail.sink_bound s)
                 (trail ++ zip_with expected_entry cs (answers_from (sig svc) cs))) in
               if limit <=? 0 then kept else take (Z.to_nat limit) kept)).
Proof.
  destruct (do_all_answers svc cs) as [Ha Hg]. split.
  { intros g pid. split; [done|]. split; [done|]. intros action Hc Ht. unfold send.
    by rewrite !bool_decide_eq_false_2. }
  split; [done|]. split; [done|].
  rewrite do_all_sink, Hs, Ha. eexists. split; [reflexivity|]. intros limit.
  destruct (AuditTrail.record_all_represents s trail
    (zip_with expected_entry cs (answers_from (sig svc) cs)) Hr) as [Hr' Hb].
  by rewrite (AuditTrail.recent_represents _ _ limit Hr'), Hb.
Qed.
End service.
Arguments Service : clear implicits.

(** A cluster on which process 7 is gone and termination needs a privilege. *)
#[export] Instance demo_signaler : Signaler (list (string * Z)) := {|
  Cancel g pid := (g ++ [("cancel"%string, pid)], (negb (pid =? 7), None));
  Terminate g pid := (g ++ [("terminate"%string, pid)], (false, Some "permission denied"%string))
|}.
#[export] Instance demo_observer : Observer (list bool) := fun o _ d => o ++ [d].

Definition demo_service : Service (list (string * Z)) AuditTrail.Memory (list bool) :=
  mkService [] [] (Some (AuditTrail.NewMemory 10)) None.

Definition demo_calls : list Call :=
  [mkCall (Some (fun _ => ("SELECT ?"%string, true))) 5 ActionCancel 4 "ann";
   mkCall None 6 ActionCancel 7 "ann";
   mkCall None 7 ActionTerminate 4 "bob"].

Lemma Do_audits_every_attempt_witness : exists s',
  sink (do_all demo_service demo_calls).1 = Some s' /\
  AuditTrail.Recent s' 2 = Ok (Val
    [AuditTrail.mkEntry 7 "bob" "terminate" 4 "" false "permission denied";
     AuditTrail.mkEntry 6 "ann" "cancel" 7 "" false ""]).
Proof.
  destruct (Do_audits_every_attempt demo_service demo_calls (AuditTrail.NewMemory 10) [] eq_refl
    (AuditTrail.NewMemory_represents 10)) as (_ & _ & _ & s' & Hs' & Hrecent).
  exists s'. split; [exact Hs'|]. rewrite Hrecent. vm_compute. reflexivity.
Defined.
