(* ===== verification/SignalConc.v ===== *)
(** * internal/signal under concurrency: calls of [Do] in flight together

    Every HTTP request has its own goroutine, so any number of calls of [Do] run
    at the same time.  They meet in the cluster, the audit sink, the observer
    and the log, each of which takes one operation at a time; between two of
    these operations a call can be overtaken.  A call stops here before each of
    them, in the order of the source. *)
From S2P Require Import Prelude GoRuntime AuditTrail Signal.
From Stdlib Require Import String.
Local Open Scope Z_scope.
Local Open Scope pglockr_scope.

(** A signal that has been sent, and the cluster's answer. *)
Record Attempt := mkAttempt {
  att_action : Signal.Action;
  att_pid : Z;
  att_actor : string;
  att_delivered : bool;
  att_err : option string
}.

(** What [Do] knows when it builds the entry: the victim's query and the time. *)
Record Known := mkKnown { kn_attempt : Attempt; kn_victim : string; kn_at : Time }.

Definition known_entry (y : Known) : AuditTrail.Entry :=
  let x := kn_attempt y in
  entry_of (att_action x) (att_pid x) (att_actor x) (kn_victim y) (kn_at y) (att_delivered x) (att_err x).

Definition known_attrs (y : Known) : list (string * Attr) :=
  let x := kn_attempt y in
  signal_attrs (att_action x) (att_pid x) (att_actor x) (kn_victim y) (kn_at y) (att_delivered x).

(** The last lines of [Do]: what it logs and what it returns. *)
Definition final_line (y : Known) : LogLine :=
  match att_err (kn_attempt y) with
  | Some e => mkLogLine "ERROR" "signal action failed" (known_attrs y ++ [("error"%string, AttrString e)])
  | None => mkLogLine "INFO" "signal action" (known_attrs y)
  end.

Definition final_answer (y : Known) : Result * option string :=
  let x := kn_attempt y in
  match att_err x with
  | Some e => (mkResult (att_action x) (att_pid x) false (kn_at y), Some e)
  | None => (mkResult (att_action x) (att_pid x) (att_delivered x) (kn_at y), None)
  end.

(** Where a call is. *)
Inductive Flight :=
| Calling (action : Signal.Action) (pid : Z) (actor : string)
| Answered (x : Attempt)
| Prepared (y : Known)
| Recorded (y : Known)
| Observed (y : Known).

(** What the calls in flight hold, seen through [f]. *)
Definition owed {X T} (f : X -> option T) (fl : gmap Z X) : list T :=
  omap f (map_to_list fl).*2.

Section owed.
Context {X T : Type} (f : X -> option T).
Implicit Types fl : gmap Z X.

Lemma owed_empty : owed f ∅ = [].
Proof. unfold owed. by rewrite map_to_list_empty. Qed.

Lemma owed_insert fl id x : fl !! id = None -> owed f (<[id := x]> fl) ≡ₚ option_list (f x) ++ owed f fl.
Proof.
  intros Hid. unfold owed. rewrite map_to_list_insert by done. cbn. by destruct (f x).
Qed.

Lemma owed_delete fl id x : fl !! id = Some x -> owed f fl ≡ₚ option_list (f x) ++ owed f (delete id fl).
Proof.
  intros Hid. rewrite <-(insert_delete_id fl id x Hid) at 1. apply owed_insert, lookup_delete_eq.
Qed.

Lemma owed_alter fl id x y :
  fl !! id = Some x ->
  owed f (partial_alter (fun _ => y) id fl) ≡ₚ option_list (y ≫= f) ++ owed f (delete id fl).
Proof.
  intros Hid. destruct y as [y|]; [|done]. cbn.
  change (partial_alter (fun _ => Some y) id fl) with (<[id := y]> fl).
  rewrite <-insert_delete_eq. apply owed_insert, lookup_delete_eq.
Qed.
End owed.

Section conc.
Context {G S O : Type} `{!Signaler G} `{!AuditTrail.Sink S} `{!Observer O}.
Notation Service := (Service G S O).

(** The service, the calls in flight, and (ghost) the signals sent, the entries
    recorded and the answers returned so far, each in its order. *)
Record Conc := mkConc {
  service : Service;
  flights : gmap Z Flight;
  sent : list Attempt;
  recorded : list Known;
  returned : list (Known * (Result * option string))
}.

Definition initial (svc : Service) : Conc := mkConc svc ∅ [] [] [].

Definition set_sig (s : Service) (g : G) : Service := mkService g (log s) (sink s) (obs s).
Definition set_trail (s : Service) (r : option S * list LogLine) : Service := mkService (sig s) r.2 r.1 (obs s).
Definition set_obs (s : Service) (o : option O) : Service := mkService (sig s) (log s) (sink s) o.
Definition add_line (s : Service) (l : LogLine) : Service := mkService (sig s) (log s ++ [l]) (sink s) (obs s).

(** The next step of a call, and where it is then, if it has not returned;
    [victim] is what the lookup answers and [now] the clock, read when the entry
    is built. *)
Definition flight_step (svc : Service) (f : Flight) (victim : string) (now : Time) : Service * option Flight :=
  match f with
  | Calling action pid actor =>
      let '(g, (delivered, err)) := send (sig svc) action pid in
      (set_sig svc g, Some (Answered (mkAttempt action pid actor delivered err)))
  | Answered x => (svc, Some (Prepared (mkKnown x victim now)))
  | Prepared y =>
      (set_trail svc (record_entry (sink svc) (log svc) (known_entry y)), Some (Recorded y))
  | Recorded y =>
      let o := (fun o => ObserveAction o (att_action (kn_attempt y)) (AuditTrail.Delivered (known_entry y))) <$> obs svc in
      (set_obs svc o, Some (Observed y))
  | Observed y => (add_line svc (final_line y), None)
  end.

Definition newly_sent (f' : option Flight) : list Attempt :=
  match f' with Some (Answered x) => [x] | _ => [] end.
Definition newly_recorded (f' : option Flight) : list Known :=
  match f' with Some (Recorded y) => [y] | _ => [] end.
Definition newly_returned (f : Flight) : list (Known * (Result * option string)) :=
  match f with Observed y => [(y, final_answer y)] | _ => [] end.

Definition advance (c : Conc) (id : Z) (victim : string) (now : Time) : Conc :=
  match flights c !! id with
  | None => c
  | Some f =>
      let '(svc, f') := flight_step (service c) f victim now in
      mkConc svc (partial_alter (fun _ => f') id (flights c))
        (sent c ++ newly_sent f') (recorded c ++ newly_recorded f') (returned c ++ newly_returned f)
  end.

Inductive CallEvent :=
| Start (id : Z) (action : Signal.Action) (pid : Z) (actor : string)
| Advance (id : Z) (victim : string) (now : Time).

Definition call_step (c : Conc) (ev : CallEvent) : Conc :=
  match ev with
  | Start id action pid actor =>
      if decide (flights c !! id = None) then
        mkConc (service c) (<[id := Calling action pid actor]> (flights c)) (sent c) (recorded c) (returned c)
      else c
  | Advance id victim now => advance c id victim now
  end.

Definition run_calls (c : Conc) (evs : list CallEvent) : Conc := fold_left call_step evs c.

(** ** What the calls in flight still owe *)
Definition unrecorded (f : Flight) : option Attempt :=
  match f with Answered x => Some x | Prepared y => Some (kn_attempt y) | _ => None end.
Definition unreturned (f : Flight) : option Known :=
  match f with Recorded y | Observed y => Some y | _ => None end.

(** The attempts are what the cluster was sent, with its answers. *)
Fixpoint answered_from (g : G) (xs : list Attempt) : Prop :=
  match xs with
  | [] => True
  | x :: xs =>
      (att_delivered x, att_err x) = (send g (att_action x) (att_pid x)).2 /\
      answered_from (send g (att_action x) (att_pid x)).1 xs
  end.

Definition cluster_of (g : G) (xs : list Attempt) : G :=
  fold_left (fun g x => (send g (att_action x) (att_pid x)).1) xs g.

Lemma cluster_app g xs ys : cluster_of g (xs ++ ys) = cluster_of (cluster_of g xs) ys.
Proof. unfold cluster_of. by rewrite fold_left_app. Qed.

Lemma answered_app g xs ys :
  answered_from g (xs ++ ys) <-> answered_from g xs /\ answered_from (cluster_of g xs) ys.
Proof.
  revert g. induction xs as [|x xs IH]; intros g; cbn; [tauto|]. rewrite IH. tauto.
Qed.

Definition trail_of (s : option S) (ys : list Known) : option S :=
  (fun s => fold_left (fun s e => (AuditTrail.RecordEntry s e).1) (known_entry <$> ys) s) <$> s.

Lemma record_entry_sink (s : option S) lg e :
  (record_entry s lg e).1 = (fun s => (AuditTrail.RecordEntry s e).1) <$> s.
Proof. unfold record_entry. destruct s as [s|]; [|done]. cbn. by destruct (RecordEntry s e) as [s' [|]]. Qed.

Lemma trail_app s ys zs : trail_of s (ys ++ zs) = trail_of (trail_of s ys) zs.
Proof. unfold trail_of. destruct s; [|done]. cbn. by rewrite fmap_app, fold_left_app. Qed.

(** ** The invariant *)
Record inv (svc : Service) (c : Conc) : Prop := {
  inv_cluster : sig (service c) = cluster_of (sig svc) (sent c);
  inv_answers : answered_from (sig svc) (sent c);
  inv_trail : sink (service c) = trail_of (sink svc) (recorded c);
  inv_sent : sent c ≡ₚ (kn_attempt <$> recorded c) ++ owed unrecorded (flights c);
  inv_recorded : recorded c ≡ₚ (returned c).*1 ++ owed unreturned (flights c);
  inv_returned : Forall (fun r => r.2 = final_answer r.1) (returned c)
}.

Lemma conc_inv_initial svc : inv svc (initial svc).
Proof.
  split; cbn; rewrite ?owed_empty; try done. unfold trail_of. by destruct (sink svc).
Qed.

(** What one step of a call does: to the cluster, to the trail, and to what the
    call still owes. *)
Lemma flight_step_effects svc f victim now :
  let '(svc', f') := flight_step svc f victim now in
  sig svc' = cluster_of (sig svc) (newly_sent f') /\ answered_from (sig svc) (newly_sent f') /\
  sink svc' = trail_of (sink svc) (newly_recorded f') /\
  option_list (unrecorded f) ++ newly_sent f' =
    (kn_attempt <$> newly_recorded f') ++ option_list (f' ≫= unrecorded) /\
  option_list (unreturned f) ++ newly_recorded f' = (newly_returned f).*1 ++ option_list (f' ≫= unreturned).
Proof.
  assert (trail_of (sink svc) [] = sink svc) as Htrail by (unfold trail_of; by destruct (sink svc)).
  destruct f as [action pid actor|x|y|y|y]; cbn [flight_step].
  - destruct (send (sig svc) action pid) as [g [delivered err]] eqn:E. cbn. rewrite E. split_and!; done.
  - cbn. split_and!; done.
  - cbn. split_and!; try done. rewrite record_entry_sink. unfold trail_of. by destruct (sink svc).
  - cbn. split_and!; done.
  - cbn. split_and!; done.
Qed.

Lemma exchange_owed {T} (l a b k : list T) : (l ++ a ++ b) ++ k ≡ₚ l ++ (a ++ k) ++ b.
Proof. solve_Permutation. Qed.

Lemma exchange_owed' {T} (l a b k : list T) : l ++ (a ++ b) ++ k ≡ₚ (l ++ a) ++ b ++ k.
Proof. solve_Permutation. Qed.

Lemma advance_inv svc c id victim now : inv svc c -> inv svc (advance c id victim now).
Proof.
  intros Hinv. unfold advance. destruct (flights c !! id) as [f|] eqn:Hf; [|done].
  destruct Hinv as [Hg Ha Ht Hs Hr Hret]. pose proof (flight_step_effects (service c) f victim now) as He.
  destruct (flight_step (service c) f victim now) as [svc' f']. destruct He as (Hg' & Ha' & Ht' & Hu & Hv).
  split; cbn [service flights sent recorded returned].
  - by rewrite cluster_app, <-Hg.
  - apply answered_app. by rewrite <-Hg.
  - by rewrite trail_app, <-Ht.
  - rewrite (owed_alter unrecorded _ _ _ _ Hf), Hs, (owed_delete unrecorded _ _ _ Hf), fmap_app.
    by rewrite exchange_owed, Hu, exchange_owed'.
  - rewrite (owed_alter unreturned _ _ _ _ Hf), Hr, (owed_delete unreturned _ _ _ Hf), fmap_app.
    by rewrite exchange_owed, Hv, exchange_owed'.
  - apply Forall_app. split; [done|]. destruct f; cbn; by repeat constructor.
Qed.

Lemma call_step_inv svc c ev : inv svc c -> inv svc (call_step c ev).
Proof.
  destruct ev as [id action pid actor|id victim now]; cbn [call_step]; [|apply advance_inv].
  intros [Hg Ha Ht Hs Hr Hret]. destruct (decide (flights c !! id = None)) as [Hid|]; [|done].
  split; cbn; try done; by rewrite owed_insert.
Qed.

Lemma run_calls_inv svc c evs : inv svc c -> inv svc (run_calls c evs).
Proof.
  revert c. induction evs as [|ev evs IH]; intros c Hc; [done|]. cbn. by apply IH, call_step_inv.
Qed.


(** *** Calls that do not overlap *)

(** A call with nobody else about. *)
Definition alone (c : Call) : list CallEvent :=
  let victim := match call_lookup c with Some f => (f (call_pid c)).1 | None => ""%string end in
  Start 0 (call_action c) (call_pid c) (call_actor c) :: replicate 5 (Advance 0 victim (call_now c)).

Lemma run_calls_cons c ev evs : run_calls c (ev :: evs) = run_calls (call_step c ev) evs.
Proof. done. Qed.

Lemma run_calls_app c evs1 evs2 : run_calls c (evs1 ++ evs2) = run_calls (run_calls c evs1) evs2.
Proof. apply fold_left_app. Qed.

(** The steps of one call on the service, one after the other. *)
Fixpoint flight_run (svc : Service) (f : Flight) (victim : string) (now : Time) (n : nat)
    : Service * option Flight :=
  match n with
  | 0%nat => (svc, Some f)
  | Datatypes.S n =>
      match flight_step svc f victim now with
      | (svc, Some f) => flight_run svc f victim now n
      | (svc, None) => (svc, None)
      end
  end.

(** Undisturbed, they are [Do]; before the last one the call has observed. *)
Lemma flight_run_Do svc call :
  let victim := match call_lookup call with Some f => (f (call_pid call)).1 | None => ""%string end in
  exists svc4 y,
    flight_run svc (Calling (call_action call) (call_pid call) (call_actor call)) victim (call_now call) 4 =
      (svc4, Some (Observed y)) /\
    (flight_step svc4 (Observed y) victim (call_now call)) = ((do_call svc call).1, None) /\
    final_answer y = (do_call svc call).2.
Proof.
  destruct call as [lookup now action pid actor]. unfold do_call, Do.
  cbn [call_lookup call_now call_action call_pid call_actor flight_run flight_step].
  destruct (send (sig svc) action pid) as [g [delivered err]]. cbn [flight_step].
  eexists _, _. split; [reflexivity|]. cbn [flight_step].
  unfold set_trail, set_sig, set_obs, add_line, known_entry, final_line, final_answer, known_attrs.
  cbn. destruct (record_entry _ _ _) as [snk lg]. cbn. by destruct err.
Qed.

Lemma run_advances svc f victim now n svc' f' snt rec ret :
  flight_run svc f victim now n = (svc', Some f') ->
  exists snt' rec', run_calls (mkConc svc {[0 := f]} snt rec ret) (replicate n (Advance 0 victim now)) =
    mkConc svc' {[0 := f']} snt' rec' ret.
Proof.
  revert svc f snt rec. induction n as [|n IH]; intros svc f snt rec; cbn [flight_run replicate].
  { intros [= <- <-]. by exists snt, rec. }
  destruct (flight_step svc f victim now) as [svc1 [f1|]] eqn:E; [|done]. intros Hrun.
  rewrite run_calls_cons. cbn [call_step].
  unfold advance. cbn [flights service sent recorded returned]. rewrite lookup_singleton_eq, E.
  change (partial_alter (fun _ => Some f1) 0 {[0 := f]}) with (<[0 := f1]> ({[0 := f]} : gmap Z Flight)).
  rewrite insert_singleton_eq. assert (newly_returned f = []) as -> by (by destruct f).
  rewrite app_nil_r. by apply IH.
Qed.

Lemma run_alone svc call snt rec ret :
  exists snt' rec' y, run_calls (mkConc svc ∅ snt rec ret) (alone call) =
    mkConc (do_call svc call).1 ∅ snt' rec' (ret ++ [(y, (do_call svc call).2)]).
Proof.
  destruct (flight_run_Do svc call) as (svc4 & y & Hrun & Hlast & <-). unfold alone.
  set (victim := match call_lookup call with Some f => (f (call_pid call)).1 | None => ""%string end) in *.
  rewrite run_calls_cons. cbn [call_step flights].
  rewrite decide_True by apply lookup_empty. cbn [service sent recorded returned]. rewrite insert_empty.
  rewrite (replicate_add 4 1), run_calls_app.
  destruct (run_advances _ _ _ _ _ _ _ snt rec ret Hrun) as (snt' & rec' & ->).
  cbn [replicate]. rewrite run_calls_cons. cbn [call_step]. unfold advance. cbn [flights service sent recorded returned].
  rewrite lookup_singleton_eq, Hlast. cbn [newly_returned].
  change (partial_alter (fun _ => None) 0 {[0 := Observed y]}) with (delete 0 ({[0 := Observed y]} : gmap Z Flight)).
  rewrite delete_singleton_eq. by eexists _, _, y.
Qed.

(** [Do] as one step is what its steps amount to when calls do not overlap:
    running the steps of the calls one call after the other leaves the service
    that [Do] leaves, and returns what [Do] returns. *)
Lemma separate_calls_are_Do (svc : Service) (cs : list Call) :
  let c := run_calls (initial svc) (cs ≫= alone) in
  service c = (do_all svc cs).1 /\ (returned c).*2 = (do_all svc cs).2 /\ flights c = ∅.
Proof.
  cbv zeta. unfold initial.
  cut (forall snt rec ret, let c := run_calls (mkConc svc ∅ snt rec ret) (cs ≫= alone) in
    service c = (do_all svc cs).1 /\ (returned c).*2 = ret.*2 ++ (do_all svc cs).2 /\ flights c = ∅).
  { intros Hall. apply Hall. }
  revert svc. induction cs as [|call cs IH]; intros svc snt rec ret; cbv zeta.
  { cbn. by rewrite app_nil_r. }
  rewrite bind_cons, run_calls_app.
  destruct (run_alone svc call snt rec ret) as (snt' & rec' & y & ->).
  destruct (IH (do_call svc call).1 snt' rec' (ret ++ [(y, (do_call svc call).2)])) as (Hs & Hr & Hf).
  rewrite Hs, Hr, Hf. cbn [do_all].
  destruct (do_call svc call) as [svc1 a]. cbn [fst snd]. destruct (do_all svc1 cs) as [svc2 rest].
  split_and!; try done. cbn. rewrite fmap_app, <-app_assoc. done.
Qed.
End conc.

(** ** Two calls at once *)

(** Both are sent, the second one first to be audited; the first has not come to
    it yet. *)
Definition overtaking : list CallEvent :=
  [Start 1 ActionCancel 4 "ann"; Start 2 ActionTerminate 7 "bob"; Advance 1 "" 0; Advance 2 "" 0;
   Advance 2 "SELECT ?" 5; Advance 2 "" 0]%string.

(** If the process ends here, the first signal has no entry in the trail. *)
Example overtaking_values :
  let c := run_calls (initial demo_service) overtaking in
  sig (service c) = [("cancel", 4); ("terminate", 7)]%string /\
  (att_actor <$> sent c) = ["ann"; "bob"]%string /\
  (entries <$> sink (service c)) = Some
    [AuditTrail.mkEntry 5 "bob" "terminate" 7 "SELECT ?" false "permission denied"] /\
  (att_actor <$> owed unrecorded (flights c)) = ["ann"%string].
Proof. vm_compute. repeat split. Qed.

(** Once both have returned, nothing is missing. *)
Example overtaking_done :
  let c := run_calls (initial demo_service)
    (overtaking ++ replicate 2 (Advance 2 "" 0) ++ Advance 1 "" 6 :: replicate 3 (Advance 1 "" 0)) in
  flights c = ∅ /\ (Actor <$> (default [] (entries <$> sink (service c)))) = ["bob"; "ann"]%string.
Proof. vm_compute. split; reflexivity. Qed.
