(* ===== verification/Poller.v ===== *)
(** * internal/poller: the snapshot loop

    [Run] is an endless loop around [pollOnce]; what it reads from outside (the
    clock, the context, the outcome of each sleep) is an [Env] per iteration.
    The source, the snapshot store and the observer are interfaces; the store's
    laws are discharged for [Store.v] at the end. *)
From S2P Require Import Prelude GoRuntime Graph Store.
Local Open Scope Z_scope.
Local Open Scope pglockr_scope.

(** ** Interfaces *)

(** The [Source] interface; [Src] is the state behind the value. *)
Class Source (Src : Type) :=
  SourceSnapshot : Src -> Src * Result (gmap Z Session * gmap EdgeKey LockLabel).

(** The [Observer] interface: cluster, duration, error.  An observer may panic. *)
Class PollObserver (O : Type) := ObservePoll : O -> string -> Duration -> option string -> Outcome O.

(** Its promise: on a cluster that is fine with it, it goes on. *)
Class PollObserverLaws (O : Type) `{!PollObserver O} := {
  observer_ok : O -> string -> Prop;
  observe_ok o c d err : observer_ok o c -> exists o', ObservePoll o c d err = Ok o' /\ observer_ok o' c
}.

(** What the loop needs of [store.Store]. *)
Class SnapshotStore (T : Type) := store_Put : T -> Snapshot -> Outcome T.

(** Its promise: a put succeeds and the store holds the newest snapshots. *)
Class SnapshotStoreLaws (T : Type) `{!SnapshotStore T} := {
  holds_inv : T -> Prop;
  held : T -> list Snapshot;
  held_bound : T -> nat;
  held_bounded t : holds_inv t -> (length (held t) <= held_bound t)%nat;
  put_held t s : holds_inv t -> exists t', store_Put t s = Ok t' /\ holds_inv t' /\
    held_bound t' = held_bound t /\ held t' = lastn (held_bound t) (held t ++ [s])
}.

Record Status := mkStatus {
  status_Cluster : string;
  Connected : bool;
  LastPoll : Time;
  LastError : string
}.

Section poller.
Context {Src T O : Type} `{Go : GoRuntime} `{!Source Src} `{!SnapshotStore T} `{!PollObserver O}.

Record Poller := mkPoller {
  cluster : string;
  src : Src;
  store : T;
  interval : Duration;
  log : list (string * Duration);   (* "poll failed" lines: error and backoff *)
  obs : option O;
  status : Status
}.

Definition New (cluster : string) (src : Src) (st : T) (interval : Duration) : Poller :=
  mkPoller cluster src st interval [] None (mkStatus cluster false zeroTime "").

Definition SetMetrics (p : Poller) (o : option O) : Poller :=
  mkPoller (cluster p) (src p) (store p) (interval p) (log p) o (status p).

Definition set_src (p : Poller) (s : Src) : Poller :=
  mkPoller (cluster p) s (store p) (interval p) (log p) (obs p) (status p).
Definition set_store (p : Poller) (t : T) : Poller :=
  mkPoller (cluster p) (src p) t (interval p) (log p) (obs p) (status p).
Definition set_status (p : Poller) (s : Status) : Poller :=
  mkPoller (cluster p) (src p) (store p) (interval p) (log p) (obs p) s.
Definition add_log (p : Poller) (line : string * Duration) : Poller :=
  mkPoller (cluster p) (src p) (store p) (interval p) (log p ++ [line]) (obs p) (status p).

Definition setOK (p : Poller) (now : Time) : Poller :=
  set_status p (mkStatus (status_Cluster (status p)) true now "").

Definition setError (p : Poller) (err : string) : Poller :=
  set_status p (mkStatus (status_Cluster (status p)) false (LastPoll (status p)) err).

(** What one iteration reads from outside: the clock at each reading, whether
    the context is done at the check, and whether the sleep was cut short. *)
Record Env := mkEnv {
  now_start : Time;
  now_build : Time;
  now_ok : Time;
  now_observe : Time;
  now_wait : Time;
  ctx_done : bool;
  sleep_cancelled : bool
}.

(** [pollOnce]: the error is the source's. *)
Definition pollOnce (p : Poller) (e : Env) : Outcome (Poller * option string) :=
  match SourceSnapshot (src p) with
  | (s, Err err) => Ok (set_src p s, Some err)
  | (s, Val (sessions, labels)) =>
      let p := set_src p s in
      let snap := Build (cluster p) (now_build e) sessions labels in
      let* st := store_Put (store p) snap in
      Ok (setOK (set_store p st) (now_ok e), None)
  end.

Definition maxBackoff : Duration := 30 * Second.

Definition next_backoff (backoff : Duration) : Duration :=
  if backoff <? maxBackoff then
    let backoff := int64 (backoff * 2) in
    if maxBackoff <? backoff then maxBackoff else backoff
  else backoff.

Definition observe (p : Poller) (e : Env) (err : option string) : Outcome Poller :=
  match obs p with
  | None => Ok p
  | Some o =>
      let* o := ObservePoll o (cluster p) (Sub (now_observe e) (now_start e)) err in
      Ok (SetMetrics p (Some o))
  end.

(** [sleep] at a moment at which the context is done or not and the timer has
    fired or not: what it returns, if it does not block.  Where both are ready,
    [select] may take either; [timer_first] says which. *)
Definition sleep (d : Duration) (done elapsed timer_first : bool) : option bool :=
  if d <=? 0 then Some (negb done)
  else match done, elapsed with
  | true, true => Some timer_first
  | true, false => Some false
  | false, true => Some true
  | false, false => None
  end.

(** How an iteration ends: [Run] returns, or it has slept and goes on. *)
Inductive Next := Return | Again (backoff : Duration).

(** What follows the observer in an iteration: the poller after it, the duration
    of its sleep if it got there, and how it ends. *)
Definition after_poll (p : Poller) (err : option string) (backoff : Duration) (e : Env)
    : Poller * option Duration * Next :=
  match err with
  | Some err =>
      if ctx_done e then (p, None, Return) else
      let p := add_log (setError p err) (err, backoff) in
      if sleep_cancelled e then (p, Some backoff, Return)
      else (p, Some backoff, Again (next_backoff backoff))
  | None =>
      let wait := int64 (interval p - Sub (now_wait e) (now_start e)) in
      let d := if 0 <? wait then wait else 0 in
      if sleep_cancelled e then (p, Some d, Return)
      else (p, Some d, Again (interval p))
  end.

(** One iteration. *)
Definition iteration (p : Poller) (backoff : Duration) (e : Env)
    : Outcome (Poller * option Duration * Next) :=
  let* r := pollOnce p e in
  let '(p, err) := r in
  let* p := observe p e err in
  Ok (after_poll p err backoff e).

(** The loop on the environments of its iterations, until it returns or they
    are used up: the poller, the durations it has called [sleep] with, and the
    backoff if it is still running. *)
Fixpoint run_loop (p : Poller) (backoff : Duration) (es : list Env)
    : Outcome (Poller * list Duration * option Duration) :=
  match es with
  | [] => Ok (p, [], Some backoff)
  | e :: es =>
      let* r := iteration p backoff e in
      match r with
      | (p, d, Return) => Ok (p, option_list d, None)
      | (p, d, Again backoff) =>
          let* q := run_loop p backoff es in
          let '(p, naps, b) := q in Ok (p, option_list d ++ naps, b)
      end
  end.

Definition Run (p : Poller) (es : list Env) : Outcome (Poller * list Duration * option Duration) :=
  run_loop p (interval p) es.

(** ** What the source delivers *)

(** The results of the first polls, as snapshots built at the polls' times. *)
Fixpoint polls (s : Src) (cl : string) (es : list Env) : list (Env * Result Snapshot) :=
  match es with
  | [] => []
  | e :: es =>
      match SourceSnapshot s with
      | (s', Err err) => (e, Err err) :: polls s' cl es
      | (s', Val (sessions, labels)) =>
          (e, Val (Build cl (now_build e) sessions labels)) :: polls s' cl es
      end
  end.

Definition snapshot_of (x : Env * Result Snapshot) : option Snapshot :=
  match x.2 with Val s => Some s | Err _ => None end.

(** The status after a poll. *)
Definition status_after (st : Status) (x : Env * Result Snapshot) : Status :=
  match x.2 with
  | Val _ => mkStatus (status_Cluster st) true (now_ok x.1) ""
  | Err err => mkStatus (status_Cluster st) false (LastPoll st) err
  end.

(** The number of failures since the last success. *)
Definition failures_after (n : nat) (x : Env * Result Snapshot) : nat :=
  match x.2 with Val _ => 0%nat | Err _ => S n end.

(** The delay before the next poll after [n] failures in a row. *)
Definition delay (iv : Duration) (n : nat) : Duration :=
  if iv <? maxBackoff then Z.min (iv * 2 ^ Z.of_nat n) maxBackoff else iv.

(** The sleep after a poll, with the backoff before it. *)
Definition nap_length (iv backoff : Duration) (x : Env * Result Snapshot) : Duration :=
  match x.2 with
  | Err _ => backoff
  | Val _ => Z.max 0 (int64 (iv - Sub (now_wait x.1) (now_start x.1)))
  end.

(** The sleeps after a list of polls that [n] failures precede. *)
Fixpoint nap_lengths (iv : Duration) (n : nat) (rs : list (Env * Result Snapshot)) : list Duration :=
  match rs with
  | [] => []
  | x :: rs => nap_length iv (delay iv n) x :: nap_lengths iv (failures_after n x) rs
  end.

Lemma nap_lengths_lookup iv n rs i :
  nap_lengths iv n rs !! i = nap_length iv (delay iv (fold_left failures_after (take i rs) n)) <$> rs !! i.
Proof.
  revert n i. induction rs as [|x rs IH]; intros n [|i]; [done..|]. cbn [nap_lengths lookup list_lookup take fold_left].
  apply IH.
Qed.

Lemma max_0_if w : (if 0 <? w then w else 0) = Z.max 0 w.
Proof. destruct (Z.ltb_spec 0 w); lia. Qed.

Lemma delay_0 iv : delay iv 0 = iv.
Proof. unfold delay. destruct (Z.ltb_spec iv maxBackoff); [|done]. change (Z.of_nat 0) with 0. lia. Qed.

Lemma next_backoff_delay iv n :
  0 < iv -> next_backoff (delay iv n) = delay iv (S n).
Proof.
  intros Hiv. unfold next_backoff, delay.
  assert (0 < 2 ^ Z.of_nat n) by (apply Z.pow_pos_nonneg; lia).
  replace (2 ^ Z.of_nat (S n)) with (2 * 2 ^ Z.of_nat n)
    by (rewrite Nat2Z.inj_succ, Z.pow_succ_r; lia).
  set (k := 2 ^ Z.of_nat n) in *.
  destruct (Z.ltb_spec iv maxBackoff) as [Hlt|Hge].
  - destruct (Z.ltb_spec (Z.min (iv * k) maxBackoff) maxBackoff).
    + rewrite int64_id by (unfold in_int64, MinInt64, MaxInt64, maxBackoff, Second in *; nia).
      destruct (Z.ltb_spec maxBackoff (Z.min (iv * k) maxBackoff * 2)); nia.
    + nia.
  - destruct (Z.ltb_spec iv maxBackoff); [lia|done].
Qed.

(** ** The loop against the interfaces *)
Context `{!SnapshotStoreLaws T} `{!PollObserverLaws O}.

(** The observer, if there is one, takes what it is told about this cluster. *)
Definition observed (p : Poller) : Prop := forall o, obs p = Some o -> observer_ok o (cluster p).

Definition poll_result (p : Poller) (e : Env) : Src * Result Snapshot :=
  match SourceSnapshot (src p) with
  | (s, Err err) => (s, Err err)
  | (s, Val (sessions, labels)) => (s, Val (Build (cluster p) (now_build e) sessions labels))
  end.

Lemma polls_cons p e es :
  polls (src p) (cluster p) (e :: es) =
  (e, (poll_result p e).2) :: polls (poll_result p e).1 (cluster p) es.
Proof. unfold poll_result. simpl. by destruct (SourceSnapshot (src p)) as [s [[ss ls]|err]]. Qed.

(** Observing changes the observer only. *)
Lemma observe_result p e err p' :
  observe p e err = Ok p' -> p' = SetMetrics p (obs p').
Proof.
  unfold observe. destruct (obs p) as [o|] eqn:E; [|intros [= <-]; by destruct p].
  destruct (ObservePoll _ _ _ _); [|discriminate]. by intros [= <-].
Qed.

Lemma observe_runs p e err :
  observed p -> exists p', observe p e err = Ok p' /\ observed p'.
Proof.
  unfold observe, observed. intros Ho. destruct (obs p) as [o|] eqn:E.
  - destruct (observe_ok o (cluster p) (Sub (now_observe e) (now_start e)) err (Ho o eq_refl)) as (o' & -> & Ho').
    eexists. split; [reflexivity|]. by intros ? [= <-].
  - exists p. split; [done|]. by rewrite E.
Qed.

(** *** One iteration *)
Lemma iteration_result p backoff e p' d nxt :
  holds_inv (store p) -> iteration p backoff e = Ok (p', d, nxt) ->
  let x := (e, (poll_result p e).2) in
  holds_inv (store p') /\ held_bound (store p') = held_bound (store p) /\
  held (store p') = lastn (held_bound (store p)) (held (store p) ++ option_list (snapshot_of x)) /\
  src p' = (poll_result p e).1 /\ cluster p' = cluster p /\ interval p' = interval p /\
  (forall w, d = Some w -> w = nap_length (interval p) backoff x) /\
  match nxt with
  | Return => if d then sleep_cancelled e = true else ctx_done e = true /\ is_err x.2 = true
  | Again b =>
      sleep_cancelled e = false /\ status p' = status_after (status p) x /\
      b = match x.2 with Val _ => interval p | Err _ => next_backoff backoff end /\ is_Some d
  end.
Proof.
  intros Hinv. unfold iteration, pollOnce, poll_result, nap_length.
  destruct (SourceSnapshot (src p)) as [s [[ss ls]|err]]; cbn [outcome_bind store cluster set_src].
  - destruct (put_held (store p) (Build (cluster p) (now_build e) ss ls) Hinv)
      as (t' & -> & Hinv' & Hb & Hh). cbn [outcome_bind].
    destruct (observe _ e None) as [q|] eqn:E; [|discriminate]. apply observe_result in E.
    cbn [outcome_bind]. unfold after_poll. rewrite max_0_if. 
    destruct (sleep_cancelled e); intros [= <- <- <-]; rewrite E; cbn in *; rewrite Hh, Hb, ?orb_true_r; naive_solver.
  - assert (held (store p) = lastn (held_bound (store p)) (held (store p) ++ [])) as Hl
      by (rewrite app_nil_r, lastn_all; [done|by apply held_bounded]).
    destruct (observe _ e (Some err)) as [q|] eqn:E; [|discriminate]. apply observe_result in E.
    cbn [outcome_bind]. unfold after_poll. destruct (ctx_done e), (sleep_cancelled e); intros [= <- <- <-];
      rewrite E; cbn in *; naive_solver.
Qed.

Lemma iteration_runs p backoff e :
  holds_inv (store p) -> observed p ->
  exists p' d nxt, iteration p backoff e = Ok (p', d, nxt) /\ observed p'.
Proof.
  intros Hinv Ho. unfold iteration, pollOnce.
  destruct (SourceSnapshot (src p)) as [s [[ss ls]|err]]; cbn [outcome_bind store cluster set_src].
  - destruct (put_held (store p) (Build (cluster p) (now_build e) ss ls) Hinv) as (t' & -> & _). cbn [outcome_bind].
    destruct (observe_runs (setOK (set_store (set_src p s) t') (now_ok e)) e None Ho) as (q & -> & Hq).
    cbn [outcome_bind]. unfold after_poll. destruct (sleep_cancelled e); do 3 eexists; by split.
  - destruct (observe_runs (set_src p s) e (Some err) Ho) as (q & -> & Hq). cbn [outcome_bind]. unfold after_poll.
    destruct (ctx_done e), (sleep_cancelled e); do 3 eexists; by split.
Qed.

(** The store and the source after an iteration, whatever the store is. *)
Lemma iteration_store p backoff e p' d nxt :
  iteration p backoff e = Ok (p', d, nxt) ->
  src p' = (SourceSnapshot (src p)).1 /\ cluster p' = cluster p /\ interval p' = interval p /\
  match (SourceSnapshot (src p)).2 with
  | Err _ => store p' = store p
  | Val (ss, ls) => store_Put (store p) (Build (cluster p) (now_build e) ss ls) = Ok (store p')
  end.
Proof.
  unfold iteration, after_poll, pollOnce. destruct (SourceSnapshot (src p)) as [s [[ss ls]|err]]; cbn [outcome_bind fst snd].
  - destruct (store_Put _ _) as [t|]; cbn [outcome_bind]; [|discriminate].
    destruct (observe _ e None) as [q|] eqn:E; [|discriminate]. apply observe_result in E.
    cbn [outcome_bind]. destruct (sleep_cancelled e); intros [= <- _ _]; by rewrite E.
  - destruct (observe _ e (Some err)) as [q|] eqn:E; [|discriminate]. apply observe_result in E.
    cbn [outcome_bind]. destruct (ctx_done e), (sleep_cancelled e); intros [= <- _ _]; by rewrite E.
Qed.

Lemma omap_cons_list {A B} (f : A -> option B) x l : omap f (x :: l) = option_list (f x) ++ omap f l.
Proof. simpl. by destruct (f x). Qed.

(** *** A run that has not panicked *)

(** How a loop that slept [naps] came to return: its last sleep was cut short, or
    the context was done after a poll that failed. *)
Definition returned (rs : list (Env * Result Snapshot)) (naps : list Duration) : Prop :=
  (exists naps0 d e r, naps = naps0 ++ [d] /\ rs !! length naps0 = Some (e, r) /\ sleep_cancelled e = true) \/
  (exists e err, rs !! length naps = Some (e, Err err) /\ ctx_done e = true).

Lemma returned_cons x w rs naps : returned rs naps -> returned (x :: rs) (w :: naps).
Proof.
  intros [(naps0 & d & e & r & -> & Hr & Hc)|(e & err & Hr & Hc)]; [left|right; by exists e, err].
  by exists (w :: naps0), d, e, r.
Qed.

(** What the loop has done after [k] polls, started after [n] failures. *)
Record ran (p : Poller) (n k : nat) (es : list Env) (p' : Poller) (naps : list Duration) (b : option Duration) : Prop := {
  ran_polls : (k <= length es)%nat;
  ran_held : held (store p') = lastn (held_bound (store p))
    (held (store p) ++ omap snapshot_of (take k (polls (src p) (cluster p) es)));
  ran_naps : naps `prefix_of` nap_lengths (interval p) n (polls (src p) (cluster p) es);
  ran_end : match b with
    | Some d => k = length es /\ length naps = length es /\
        d = delay (interval p) (fold_left failures_after (polls (src p) (cluster p) es) n) /\
        status p' = fold_left status_after (polls (src p) (cluster p) es) (status p)
    | None => exists e, last (take k es) = Some e /\ ctx_done e || sleep_cancelled e = true
    end;
  ran_return : b = None -> returned (polls (src p) (cluster p) es) naps
}.

Lemma failures_delay p n x backoff b :
  0 < interval p -> backoff = delay (interval p) n ->
  b = match x.2 with Val _ => interval p | Err _ => next_backoff backoff end ->
  b = delay (interval p) (failures_after n x).
Proof.
  intros Hiv -> ->. unfold failures_after. destruct x.2; [by rewrite delay_0|by apply next_backoff_delay].
Qed.

Lemma run_loop_result p n es p' naps b :
  0 < interval p -> holds_inv (store p) ->
  run_loop p (delay (interval p) n) es = Ok (p', naps, b) -> exists k, ran p n k es p' naps b.
Proof.
  intros Hiv. revert p n naps Hiv. induction es as [|e es IH]; intros p n naps Hiv Hinv; cbn [run_loop].
  { intros [= <- <- <-]. exists 0%nat. split; [done| |done|done|done].
    rewrite app_nil_r, lastn_all; [done|by apply held_bounded]. }
  destruct (iteration p _ e) as [[[p1 d] nxt]|] eqn:E1; cbn [outcome_bind]; [|discriminate].
  destruct (iteration_result _ _ _ _ _ _ Hinv E1) as (Hinv1 & Hb1 & Hh1 & Hs1 & Hc1 & Hi1 & Hd & Hn).
  set (x := (e, (poll_result p e).2)) in *.
  destruct nxt as [|b1].
  - intros [= <- <- <-]. exists 1%nat. split; rewrite ?polls_cons; fold x.
    + simpl. lia.
    + cbn [take]. rewrite omap_cons_list, take_0. cbn [omap list_omap]. by rewrite app_nil_r.
    + cbn [nap_lengths]. destruct d as [w|]; [|apply prefix_nil]. rewrite (Hd w eq_refl).
      apply prefix_cons, prefix_nil.
    + exists e. split; [done|]. destruct d; [by rewrite Hn, orb_true_r|by destruct Hn as [-> _]].
    + intros _. destruct d as [w|]; [left; by exists [], w, e, (poll_result p e).2|right].
      destruct Hn as [Hctx Herr]. unfold x in *. cbn [snd] in Herr. cbn [option_list length].
      destruct (poll_result p e).2 as [|err]; [done|]. by exists e, err.
  - destruct Hn as (Hsl & Hst & Hbk & [w ->]). specialize (Hd w eq_refl).
    rewrite (failures_delay p n x _ b1 Hiv eq_refl Hbk), <-Hi1.
    destruct (run_loop p1 _ es) as [[[p2 naps1] b2]|] eqn:E2; cbn [outcome_bind]; [|discriminate].
    intros [= <- <- <-]. destruct (IH p1 _ naps1 ltac:(lia) Hinv1 E2) as (k & [Hk Hh Hnp Hend Hret]).
    exists (S k). rewrite Hs1, Hc1, Hi1 in *. split; rewrite ?polls_cons; fold x.
    + simpl. lia.
    + cbn [take]. by rewrite Hh, Hb1, Hh1, omap_cons_list, lastn_app_lastn, <-app_assoc.
    + cbn [nap_lengths]. rewrite Hd. by apply prefix_cons.
    + destruct b2 as [d'|].
      * destruct Hend as (-> & Hl & -> & ->). cbn [fold_left length]. rewrite Hst. by rewrite Hl.
      * destruct Hend as (e' & He' & Hc'). exists e'. split; [|done].
        cbn [take]. destruct (take k es); [done|]. by rewrite last_cons_cons.
    + intros Hb. by apply returned_cons, Hret.
Qed.

(** *** A run does not panic *)
Lemma run_loop_runs p backoff es :
  holds_inv (store p) -> observed p -> exists p' naps b, run_loop p backoff es = Ok (p', naps, b).
Proof.
  revert p backoff. induction es as [|e es IH]; intros p backoff Hinv Ho; cbn [run_loop]; [by do 3 eexists|].
  destruct (iteration_runs p backoff e Hinv Ho) as (p1 & d & nxt & E1 & Ho1). rewrite E1. cbn [outcome_bind].
  destruct (iteration_result _ _ _ _ _ _ Hinv E1) as (Hinv1 & _).
  destruct nxt as [|b1]; [by do 3 eexists|].
  destruct (IH p1 b1 Hinv1 Ho1) as (p' & naps & b & ->). by do 3 eexists.
Qed.
(** ** Status and delay in closed form *)

(** Success times, newest last. *)
Definition successes (rs : list (Env * Result Snapshot)) : list Time :=
  omap (fun x => match x.2 with Val _ => Some (now_ok x.1) | Err _ => None end) rs.

Definition error_text (r : Result Snapshot) : string :=
  match r with Val _ => "" | Err err => err end.

Lemma status_fold st rs :
  fold_left status_after rs st =
  match last rs with
  | None => st
  | Some x => mkStatus (status_Cluster st) (negb (is_err x.2))
                (default (LastPoll st) (last (successes rs))) (error_text x.2)
  end.
Proof.
  induction rs as [|x rs IH] using rev_ind; [done|].
  rewrite fold_left_app, last_snoc, IH. unfold successes. rewrite omap_app, last_app.
  cbn [fold_left]. unfold status_after. destruct x as [e [s|err]]; simpl.
  - by destruct (last rs).
  - destruct (last rs) eqn:E; [by destruct (last (omap _ rs))|].
    apply last_None in E as ->. done.
Qed.

(** The failures at the end of a list of polls. *)
Fixpoint leading_failures (rs : list (Env * Result Snapshot)) : nat :=
  match rs with
  | (_, Err _) :: rs => S (leading_failures rs)
  | _ => 0%nat
  end.

Lemma failures_fold rs : fold_left failures_after rs 0%nat = leading_failures (reverse rs).
Proof.
  induction rs as [|[e [s|err]] rs IH] using rev_ind; [done| |];
    rewrite fold_left_app, reverse_snoc; simpl; [done|]. by rewrite IH.
Qed.

Lemma delay_bounds iv n : 0 < iv -> iv <= delay iv n <= Z.max iv maxBackoff.
Proof.
  intros Hiv. unfold delay.
  assert (1 <= 2 ^ Z.of_nat n) by (pose proof (Z.pow_pos_nonneg 2 (Z.of_nat n)); lia).
  destruct (Z.ltb_spec iv maxBackoff); nia.
Qed.

Lemma Run_result p es p' naps b :
  0 < interval p -> holds_inv (store p) -> Run p es = Ok (p', naps, b) ->
  exists k, ran p 0 k es p' naps b.
Proof. intros Hiv Hinv Hrun. apply run_loop_result; [done..|]. by rewrite delay_0. Qed.

(** The status served to the UI is truthful: while the loop is running it
    says connected exactly when the last poll succeeded, carries that poll's
    error otherwise, and the time of the last success. *)
Lemma status_of_run (p p' : Poller) rs :
  status p' = fold_left status_after rs (status p) ->
  status_Cluster (status p') = status_Cluster (status p) /\
  LastPoll (status p') = default (LastPoll (status p)) (last (successes rs)) /\
  forall x, last rs = Some x ->
    Connected (status p') = negb (is_err x.2) /\ LastError (status p') = error_text x.2.
Proof.
  intros ->. rewrite status_fold. destruct (last rs) as [x|] eqn:Hl.
  - simpl. split; [done|]. split; [done|]. by intros y [= ->].
  - by apply last_None in Hl as ->.
Qed.

(** C14: the poll loop publishes every success and nothing else: over a store
    whose puts succeed (that of [Store.v] with nothing interrupting a put; what a
    subscriber leaving in between does is in [StoreConc.v]) and an observer that
    takes the cluster's name, however the source, the clock and the sleeps turn
    out, the loop does not panic, and the store holds the newest of what it held
    followed by the forests of the successful polls made so far, in order; it
    returns only after a poll at which the context was done or whose sleep was
    cut short. *)
Theorem Run_publishes (p : Poller) (es : list Env)
    (Hiv : 0 < interval p) (Hinv : holds_inv (store p)) (Hobs : observed p) :
  exists p' naps b k, Run p es = Ok (p', naps, b) /\ (k <= length es)%nat /\
    held (store p') = lastn (held_bound (store p))
      (held (store p) ++ omap snapshot_of (take k (polls (src p) (cluster p) es))) /\
    (is_Some b -> k = length es) /\
    (b = None -> exists e, last (take k es) = Some e /\ ctx_done e || sleep_cancelled e = true).
Proof.
  destruct (run_loop_runs p (interval p) es Hinv Hobs) as (p' & naps & b & E).
  destruct (Run_result p es p' naps b Hiv Hinv E) as (k & [Hk Hh _ Hb _]). exists p', naps, b, k.
  split; [exact E|]. split; [done|]. split; [done|].
  destruct b; (split; [|done]); [by destruct Hb|by intros [? [=]]].
Qed.

(** C29: the loop is truthful and recovers: while it is running, the status
    served to the UI says connected exactly when the last poll succeeded,
    carries that poll's error otherwise, and the time of the last success.  The
    loop sleeps after every poll; it returns when a sleep is cut short, or without
    sleeping after a poll that failed with the context done.  It sleeps after a success, for what is left of the interval since the poll
    began; after a failure, for the interval doubled once per failure that
    immediately precedes it, up to thirty seconds, or for the interval itself
    when that is thirty seconds or more. *)
Theorem Run_status_and_backoff (p : Poller) (es : list Env) (p' : Poller) (naps : list Duration)
    (b : option Duration) (Hiv : 0 < interval p) (Hinv : holds_inv (store p))
    (Hrun : Run p es = Ok (p', naps, b)) :
  let rs := polls (src p) (cluster p) es in
  (is_Some b -> length naps = length es /\
   status_Cluster (status p') = status_Cluster (status p) /\
   LastPoll (status p') = default (LastPoll (status p)) (last (successes rs)) /\
   forall x, last rs = Some x ->
     Connected (status p') = negb (is_err x.2) /\ LastError (status p') = error_text x.2) /\
  (b = None -> returned rs naps) /\
  forall i d, naps !! i = Some d -> exists e r, rs !! i = Some (e, r) /\
    match r with
    | Val _ => d = Z.max 0 (int64 (interval p - Sub (now_wait e) (now_start e)))
    | Err _ =>
        let n := leading_failures (reverse (take i rs)) in
        d = (if interval p <? maxBackoff then Z.min (interval p * 2 ^ Z.of_nat n) maxBackoff
             else interval p) /\
        interval p <= d <= Z.max (interval p) maxBackoff
    end.
Proof.
  intros rs. destruct (Run_result p es p' naps b Hiv Hinv Hrun) as (k & [_ _ Hnaps Hend Hret]). fold rs in Hnaps, Hend, Hret.
  split; [|split; [done|]].
  - intros [d ->]. destruct Hend as (_ & Hl & _ & Hst). split; [done|]. by apply status_of_run.
  - intros i d Hd. eapply prefix_lookup_Some in Hnaps; [|exact Hd].
    rewrite nap_lengths_lookup, failures_fold in Hnaps.
    destruct (rs !! i) as [[e r]|]; [|discriminate]. cbn in Hnaps. exists e, r. split; [done|].
    unfold nap_length in Hnaps. cbn [fst snd] in Hnaps. destruct r; injection Hnaps as <-; [done|].
    split; [done|]. by apply delay_bounds.
Qed.
End poller.
Arguments Poller : clear implicits.

(** ** The store keeps the promise *)
Section store_instance.
Context `{Go : GoRuntime} {P : Type} `{!Persister P}.

#[export] Instance snapshot_store : SnapshotStore (Store P) := Put.

#[export] Program Instance snapshot_store_laws : SnapshotStoreLaws (Store P) := {|
  holds_inv := store_wf;
  held := contents;
  held_bound st := Z.to_nat (st_cap st)
|}.
Next Obligation. intros st Hwf. apply contents_bounded, Hwf. Qed.
Next Obligation.
  intros st s Hwf. destruct (Put_ok st s Hwf) as (st' & HP & Hwf' & Hc & Hcap & _).
  exists st'. split; [exact HP|]. by rewrite Hcap.
Qed.
End store_instance.

(** A source that fails on its second and third poll, with three snapshots of
    two sessions around it. *)
#[export] Instance demo_source : Source nat := fun n =>
  (S n, if (n =? 1)%nat || (n =? 2)%nat then Err "connection refused"%string
        else Val (demo_sessions, ∅)).
#[export] Instance demo_poll_observer : PollObserver (list bool) :=
  fun o _ _ err => Ok (o ++ [bool_decide (err = None)]).
#[export] Program Instance demo_poll_observer_laws : PollObserverLaws (list bool) := {|
  observer_ok _ _ := True
|}.
Next Obligation. intros o c d err _. by eexists. Qed.

Definition env_at (t : Time) : Env := mkEnv t t t t t false false.
Definition demo_poller : Poller nat (Store unit) (list bool) :=
  SetMetrics (New "c1"%string 0%nat (fresh 5) (2 * Second)) (Some []).
Definition demo_envs : list Env := [env_at 10; env_at 20; env_at 30].

(** The concrete instances of the demonstration. *)
#[local] Instance demo_runtime : GoRuntime := canonical.
#[local] Instance demo_persister : Persister unit := failing_persister.

Lemma demo_inv : holds_inv (store demo_poller).
Proof. apply fresh_store_wf. Qed.

(** Success at 10, failures at 20 and 30: one snapshot; it sleeps the rest of the
    interval, the interval, and twice the interval. *)
Definition demo_final : Outcome (Poller nat (Store unit) (list bool) * list Duration * option Duration) :=
  Run demo_poller demo_envs.

Lemma Run_publishes_witness : exists p' naps b,
  demo_final = Ok (p', naps, b) /\
  (b = None -> exists e, last demo_envs = Some e /\ ctx_done e || sleep_cancelled e = true) /\
  held (store p') = [Build "c1"%string 10 demo_sessions ∅].
Proof.
  destruct (Run_publishes demo_poller demo_envs ltac:(vm_compute; reflexivity) demo_inv ltac:(intros ? ?; exact Logic.I))
    as (p' & naps & b & k & HR & Hk & Hh & Hb & Hn).
  assert (is_Some b) as Hs by (unfold Run in HR; vm_compute in HR; injection HR as _ _ <-; eauto).
  specialize (Hb Hs). subst k. exists p', naps, b. split; [exact HR|]. split; [exact Hn|].
  rewrite Hh. vm_compute. reflexivity.
Defined.

Lemma Run_status_and_backoff_witness : exists p' naps b d,
  demo_final = Ok (p', naps, b) /\ Connected (status p') = false /\
  LastError (status p') = "connection refused"%string /\ LastPoll (status p') = 10 /\
  naps !! 2%nat = Some d /\ d = 4 * Second.
Proof.
  assert (exists p' naps d w, demo_final = Ok (p', naps, Some d) /\ naps !! 2%nat = Some w)
    as (p' & naps & d & w & HR & Hw) by (vm_compute; eauto 10).
  destruct (Run_status_and_backoff demo_poller demo_envs p' naps (Some d) ltac:(vm_compute; reflexivity) demo_inv HR)
    as (Hst & _ & Hnaps).
  destruct (Hst ltac:(by eexists)) as (_ & _ & Hl & Hx).
  destruct (Hx (env_at 30, Err "connection refused"%string)) as [Hc He]; [vm_compute; reflexivity|].
  destruct (Hnaps 2%nat w Hw) as (e & r & Hr & Hd).
  assert (polls (src demo_poller) (cluster demo_poller) demo_envs !! 2%nat =
    Some (env_at 30, Err "connection refused"%string)) as Hr' by (vm_compute; reflexivity).
  rewrite Hr in Hr'. injection Hr' as -> ->. destruct Hd as [Hd _].
  exists p', naps, (Some d), w. split; [exact HR|]. split; [exact Hc|]. split; [exact He|].
  split; [rewrite Hl; vm_compute; reflexivity|]. split; [exact Hw|]. rewrite Hd. vm_compute. reflexivity.
Defined.
