(* ===== verification/Pg.v ===== *)
(** * internal/pg: the PostgreSQL client

    The version-aware statements of queries.go, and what client.go, inspect.go,
    signal.go and preflight.go do with their rows.  The driver (pgx) is a class:
    each operation sends a statement under a timeout and yields rows scanned
    into the code's variables; a row whose scan fails is an error in the list.
    The client is a [Source] for the poller and a [Signaler] for the actions. *)
From S2P Require Import Prelude GoRuntime Utf8 GoStrings Graph Poller Signal.
Local Open Scope Z_scope.

(** ** queries.go *)
Definition snapshotSQL : string := "
SELECT
    a.pid,
    a.usename,
    a.application_name,
    a.client_addr,
    a.state,
    a.wait_event_type,
    a.wait_event,
    a.backend_type,
    a.xact_start,
    a.query_start,
    (SELECT min(l.waitstart) FROM pg_locks l WHERE l.pid = a.pid AND NOT l.granted) AS wait_start,
    a.query,
    pg_blocking_pids(a.pid) AS blocked_by
FROM pg_stat_activity a
WHERE a.backend_type = 'client backend'
  AND a.pid <> pg_backend_pid()".

Definition snapshotSQLNoWaitstart : string := "
SELECT
    a.pid,
    a.usename,
    a.application_name,
    a.client_addr,
    a.state,
    a.wait_event_type,
    a.wait_event,
    a.backend_type,
    a.xact_start,
    a.query_start,
    NULL::timestamptz AS wait_start,
    a.query,
    pg_blocking_pids(a.pid) AS blocked_by
FROM pg_stat_activity a
WHERE a.backend_type = 'client backend'
  AND a.pid <> pg_backend_pid()".

Definition edgeLabelsSQL : string := "
SELECT
    w.pid                       AS waiter_pid,
    b.pid                       AS blocker_pid,
    w.locktype,
    w.mode                      AS waiter_mode,
    b.mode                      AS blocker_mode,
    w.relation::regclass::text  AS relation
FROM pg_locks w
JOIN pg_locks b
  ON  w.locktype      = b.locktype
  AND w.database      IS NOT DISTINCT FROM b.database
  AND w.relation      IS NOT DISTINCT FROM b.relation
  AND w.page          IS NOT DISTINCT FROM b.page
  AND w.tuple         IS NOT DISTINCT FROM b.tuple
  AND w.virtualxid    IS NOT DISTINCT FROM b.virtualxid
  AND w.transactionid IS NOT DISTINCT FROM b.transactionid
  AND w.classid       IS NOT DISTINCT FROM b.classid
  AND w.objid         IS NOT DISTINCT FROM b.objid
  AND w.objsubid      IS NOT DISTINCT FROM b.objsubid
  AND w.pid <> b.pid
WHERE NOT w.granted
  AND b.granted".

Definition versionNumSQL : string := "SHOW server_version_num".

Definition locksSQL : string := "
SELECT
    l.locktype,
    COALESCE(l.relation::regclass::text, l.locktype) AS object,
    l.mode,
    l.granted,
    l.pid
FROM pg_locks l
WHERE l.pid IS NOT NULL
  AND l.pid <> pg_backend_pid()
ORDER BY object, l.granted DESC, l.mode".

Definition hotObjectsSQL : string := "
SELECT
    l.relation::regclass::text AS object,
    count(*) FILTER (WHERE NOT l.granted) AS waiters,
    count(*) FILTER (WHERE l.granted)     AS holders
FROM pg_locks l
WHERE l.relation IS NOT NULL
GROUP BY object
HAVING count(*) FILTER (WHERE NOT l.granted) > 0
ORDER BY waiters DESC, holders DESC".

(** The statement of [Capabilities]. *)
Definition capabilitiesSQL : string := "
SELECT
    current_user,
    r.rolsuper,
    pg_has_role(current_user, 'pg_read_all_stats', 'MEMBER'),
    pg_has_role(current_user, 'pg_signal_backend', 'MEMBER')
FROM pg_roles r
WHERE r.rolname = current_user".

(** ** What the statements yield

    A [*string] is an option; an IP address the list of its bytes. *)
Record SessionRow := mkSessionRow {
  sr_pid : Z;
  sr_usename : option string;
  sr_appName : option string;
  sr_clientAddr : option (list Z);
  sr_state : option string;
  sr_wet : option string;
  sr_we : option string;
  sr_backend : option string;
  sr_xactStart : option Time;
  sr_queryStart : option Time;
  sr_waitStart : option Time;
  sr_query : option string;
  sr_blockedBy : list Z
}.

Record LabelRow := mkLabelRow {
  la_waiter : Z;
  la_blocker : Z;
  la_lockType : string;
  la_wMode : string;
  la_bMode : string;
  la_relation : option string
}.

(** inspect.go *)
Record LockRow := mkLockRow {
  lr_LockType : string;
  lr_Object : string;
  lr_Mode : string;
  lr_Granted : bool;
  lr_PID : Z
}.
Record HotObject := mkHotObject { ho_Object : string; ho_Waiters : Z; ho_Holders : Z }.

(** preflight.go *)
Record Capabilities := mkCapabilities {
  caps_Role : string;
  caps_IsSuperuser : bool;
  caps_CanReadStats : bool;
  caps_CanSignal : bool
}.

(** [pgx.Rows]: the scan of each row and the error after the last. *)
Record Rows (R : Type) := mkRows { scans : list (Prelude.Result R); rows_Err : option string }.
Arguments mkRows {R}.
Arguments scans {R}.
Arguments rows_Err {R}.

(** The connection pool: statements under a timeout, none while connecting. *)
Class Pool (C : Type) := {
  query_sessions : C -> Duration -> string -> C * Prelude.Result (Rows SessionRow);
  query_labels : C -> Duration -> string -> C * Prelude.Result (Rows LabelRow);
  query_locks : C -> Duration -> string -> C * Prelude.Result (Rows LockRow);
  query_hot : C -> Duration -> string -> C * Prelude.Result (Rows HotObject);
  row_string : C -> string -> C * Prelude.Result string;
  row_caps : C -> Duration -> string -> C * Prelude.Result (string * bool * bool * bool);
  row_bool : C -> Duration -> string -> Z -> C * Prelude.Result bool
}.

(** Opening it: the configuration, its settings and the pool. *)
Class Driver (Cfg C : Type) := {
  ParseConfig : string -> Prelude.Result Cfg;
  set_MaxConns : Z -> Cfg -> Cfg;
  set_RuntimeParam : string -> string -> Cfg -> Cfg;
  NewWithConfig : Cfg -> Prelude.Result C;
  pool_Close : C -> C
}.

(** ** Conversions *)
Definition deref (s : option string) : string :=
  match s with None => "" | Some s => s end.

Definition derefTime (t : option Time) : Time :=
  match t with None => zeroTime | Some t => t end.

Definition toIntSlice (l : list Z) : list Z :=
  if (length l =? 0)%nat then [] else (fun v => v) <$> l.

(** The assignments to [s] after a scan. *)
Definition session_of_row (r : SessionRow) : Session :=
  mkSession (sr_pid r) (deref (sr_usename r)) (deref (sr_appName r))
    (match sr_clientAddr r with Some ip => IP_String ip | None => "" end)
    (deref (sr_state r)) (deref (sr_wet r)) (deref (sr_we r)) (deref (sr_backend r))
    (derefTime (sr_xactStart r)) (derefTime (sr_queryStart r)) (derefTime (sr_waitStart r))
    (deref (sr_query r)) (toIntSlice (sr_blockedBy r)) false.

Definition label_of_row (r : LabelRow) : LockLabel :=
  mkLockLabel (la_lockType r) (deref (la_relation r)) (la_wMode r) (la_bMode r).

Definition key_of_row (r : LabelRow) : EdgeKey := mkEdgeKey (la_waiter r) (la_blocker r).

(** The bodies of the two loops, after the scan. *)
Definition add_session (m : gmap Z Session) (r : SessionRow) : gmap Z Session :=
  <[sr_pid r := session_of_row r]> m.
Definition add_label (m : gmap EdgeKey LockLabel) (r : LabelRow) : gmap EdgeKey LockLabel :=
  <[key_of_row r := label_of_row r]> m.

(** [for rows.Next() { if err := rows.Scan(...); err != nil { return nil, err } ... }] *)
Fixpoint each_row {R A} (f : A -> R -> A) (rs : list (Prelude.Result R)) (acc : A) : Prelude.Result A :=
  match rs with
  | [] => Val acc
  | Err err :: _ => Err err
  | Val r :: rs => each_row f rs (f acc r)
  end.

(** The loop and the final [return acc, rows.Err()], whose callers drop the
    value when there is an error. *)
Definition read_rows {R A} (f : A -> R -> A) (acc : A) (q : Prelude.Result (Rows R)) : Prelude.Result A :=
  match q with
  | Err err => Err err
  | Val rows =>
      match each_row f (scans rows) acc with
      | Err err => Err err
      | Val acc => match rows_Err rows with Some err => Err err | None => Val acc end
      end
  end.

(** ** client.go *)
Section client.
Context {C : Type} `{!Pool C}.

Record Client := mkClient {
  pool : C;
  statementTimeout : Duration;
  versionNum : Z
}.

Definition set_pool (c : Client) (p : C) : Client := mkClient p (statementTimeout c) (versionNum c).

Definition detectVersion (c : Client) : Client * option string :=
  match row_string (pool c) versionNumSQL with
  | (p, Err err) => (set_pool c p, Some ("detect version: " +:+ err))
  | (p, Val s) =>
      match Atoi s with
      | None => (set_pool c p, Some ("parse server_version_num " +:+ Quote s +:+ ": " +:+ Atoi_error s))
      | Some n => (mkClient p (statementTimeout c) n, None)
      end
  end.

(** A failed detection closes the pool, which is the first component. *)
Definition Connect `{!Driver Cfg C} (dsn : string) (statementTimeout : Duration)
    : option C * Prelude.Result Client :=
  match ParseConfig dsn with
  | Err err => (None, Err ("parse dsn: " +:+ err))
  | Val cfg =>
      let cfg := set_RuntimeParam "application_name" "pglockr" (set_MaxConns 4 cfg) in
      match NewWithConfig cfg with
      | Err err => (None, Err ("connect pool: " +:+ err))
      | Val p =>
          match detectVersion (mkClient p statementTimeout 0) with
          | (c, Some err) => (Some (pool_Close (pool c)), Err err)
          | (c, None) => (None, Val c)
          end
      end
  end.

(** [Close]: the pool takes no more statements once those under way have ended. *)
Definition client_Close `{!Driver Cfg C} (c : Client) : Client := set_pool c (pool_Close (pool c)).

Definition hasWaitstart (c : Client) : bool := 140000 <=? versionNum c.

Definition sessions_query (c : Client) : string :=
  if negb (hasWaitstart c) then snapshotSQLNoWaitstart else snapshotSQL.

Definition querySessions (c : Client) : Client * Prelude.Result (gmap Z Session) :=
  let '(p, q) := query_sessions (pool c) (statementTimeout c) (sessions_query c) in
  (set_pool c p, read_rows add_session ∅ q).

Definition queryEdgeLabels (c : Client) : Client * Prelude.Result (gmap EdgeKey LockLabel) :=
  let '(p, q) := query_labels (pool c) (statementTimeout c) edgeLabelsSQL in
  (set_pool c p, read_rows add_label ∅ q).

Definition client_Snapshot (c : Client)
    : Client * Prelude.Result (gmap Z Session * gmap EdgeKey LockLabel) :=
  match querySessions c with
  | (c, Err err) => (c, Err ("query sessions: " +:+ err))
  | (c, Val sessions) =>
      match queryEdgeLabels c with
      | (c, Err err) => (c, Err ("query edge labels: " +:+ err))
      | (c, Val labels) => (c, Val (sessions, labels))
      end
  end.

(** ** inspect.go *)
Definition client_Locks (c : Client) : Client * Prelude.Result (list LockRow) :=
  let '(p, q) := query_locks (pool c) (statementTimeout c) locksSQL in
  (set_pool c p, match q with
    | Err err => Err ("query locks: " +:+ err)
    | Val _ => read_rows (fun out r => out ++ [r]) [] q
    end).

Definition client_HotObjects (c : Client) : Client * Prelude.Result (list HotObject) :=
  let '(p, q) := query_hot (pool c) (statementTimeout c) hotObjectsSQL in
  (set_pool c p, match q with
    | Err err => Err ("query hot objects: " +:+ err)
    | Val _ => read_rows (fun out r => out ++ [r]) [] q
    end).

(** ** signal.go *)
Definition client_signal (c : Client) (fn : string) (pid : Z) : Client * (bool * option string) :=
  match row_bool (pool c) (statementTimeout c) ("SELECT " +:+ fn +:+ "($1)") pid with
  | (p, Err err) => (set_pool c p, (false, Some (fn +:+ "(" +:+ Itoa pid +:+ "): " +:+ err)))
  | (p, Val ok) => (set_pool c p, (ok, None))
  end.

Definition client_Cancel (c : Client) (pid : Z) : Client * (bool * option string) :=
  client_signal c "pg_cancel_backend" pid.
Definition client_Terminate (c : Client) (pid : Z) : Client * (bool * option string) :=
  client_signal c "pg_terminate_backend" pid.

(** ** preflight.go *)
Definition client_Capabilities (c : Client) : Client * Prelude.Result Capabilities :=
  match row_caps (pool c) (statementTimeout c) capabilitiesSQL with
  | (p, Err err) => (set_pool c p, Err ("inspect role capabilities: " +:+ err))
  | (p, Val (role, super, hasStats, hasSig)) =>
      (set_pool c p, Val (mkCapabilities role super (super || hasStats) (super || hasSig)))
  end.

(** ** The interfaces it implements *)
#[export] Instance client_source : Source Client := client_Snapshot.
#[export] Instance client_signaler : Signaler Client := {|
  Cancel := client_Cancel;
  Terminate := client_Terminate
|}.

(** ** Reading rows *)
Lemma each_row_all {R A} (f : A -> R -> A) rs acc :
  each_row f (Val <$> rs) acc = Val (fold_left f rs acc).
Proof. revert acc. induction rs as [|r rs IH]; intros acc; simpl; [done|]. apply IH. Qed.

Lemma each_row_Val {R A} (f : A -> R -> A) l acc a :
  each_row f l acc = Val a -> exists rs, l = Val <$> rs.
Proof.
  revert acc. induction l as [|[r|e] l IH]; intros acc; simpl; [by exists []| |discriminate].
  intros [rs ->]%IH. by exists (r :: rs).
Qed.

(** A result that arrived in full: every row scanned, no error at the end. *)
Definition complete {R} (q : Prelude.Result (Rows R)) (rs : list R) : Prop :=
  q = Val (mkRows (Val <$> rs) None).

Lemma complete_inj {R} (q : Prelude.Result (Rows R)) rs rs' : complete q rs -> complete q rs' -> rs = rs'.
Proof.
  unfold complete. intros -> [= H]. revert rs' H.
  induction rs as [|r rs IH]; intros [|r' rs'] H; try discriminate; [done|].
  injection H as <- H. f_equal. by apply IH.
Qed.

Lemma read_rows_complete {R A} (f : A -> R -> A) acc q :
  match read_rows f acc q with
  | Val a => exists rs, complete q rs /\ a = fold_left f rs acc
  | Err _ => forall rs, ~ complete q rs
  end.
Proof.
  unfold complete, read_rows. destruct q as [[l e]|e]; simpl; [|done].
  destruct (each_row f l acc) as [a|err] eqn:Ha.
  - destruct (each_row_Val f l acc a Ha) as [rs ->]. rewrite each_row_all in Ha. injection Ha as <-.
    destruct e; [intros rs' [=]|by exists rs].
  - intros rs [= -> ->]. by rewrite each_row_all in Ha.
Qed.

(** A map filled row by row keeps the last row of each key. *)
Lemma fold_insert_last {R V} `{Countable K} (key : R -> K) (val : R -> V) rs (m : gmap K V) k :
  fold_left (fun m r => <[key r := val r]> m) rs m !! k =
  match last (filter (fun r => key r = k) rs) with Some r => Some (val r) | None => m !! k end.
Proof.
  induction rs as [|r rs IH] using rev_ind; [done|].
  rewrite fold_left_app, filter_app, filter_cons, filter_nil. simpl. case_decide as E.
  - rewrite last_snoc, <-E. by rewrite lookup_insert_eq.
  - rewrite app_nil_r, lookup_insert_ne by done. exact IH.
Qed.

(** ** Properties *)

(** What a session says of its row: NULLs are zero values. *)
Definition describes (r : SessionRow) (s : Session) : Prop :=
  s = mkSession (sr_pid r) (default ""%string (sr_usename r)) (default ""%string (sr_appName r))
    (default ""%string (IP_String <$> sr_clientAddr r)) (default ""%string (sr_state r))
    (default ""%string (sr_wet r)) (default ""%string (sr_we r)) (default ""%string (sr_backend r))
    (default zeroTime (sr_xactStart r)) (default zeroTime (sr_queryStart r))
    (default zeroTime (sr_waitStart r)) (default ""%string (sr_query r)) (sr_blockedBy r) false.

Lemma session_of_row_describes r : describes r (session_of_row r).
Proof.
  unfold describes, session_of_row, toIntSlice. rewrite list_fmap_id. f_equal.
  - by destruct (sr_clientAddr r).
  - by destruct (sr_blockedBy r).
Qed.

(** The answers to the two statements of a snapshot. *)
Definition sessions_answer (c : Client) : C * Prelude.Result (Rows SessionRow) :=
  query_sessions (pool c) (statementTimeout c)
    (if decide (14 * 10000 <= versionNum c) then snapshotSQL else snapshotSQLNoWaitstart).
Definition labels_answer (c : Client) : C * Prelude.Result (Rows LabelRow) :=
  query_labels (sessions_answer c).1 (statementTimeout c) edgeLabelsSQL.

Lemma client_Snapshot_answers c :
  match (client_Snapshot c).2 with
  | Val (ss, ls) => exists rs lrs,
      complete (sessions_answer c).2 rs /\ complete (labels_answer c).2 lrs /\
      ss = fold_left add_session rs ∅ /\
      ls = fold_left add_label lrs ∅
  | Err _ => (forall rs, ~ complete (sessions_answer c).2 rs) \/
             (forall lrs, ~ complete (labels_answer c).2 lrs)
  end.
Proof.
  unfold client_Snapshot, querySessions.
  assert (query_sessions (pool c) (statementTimeout c) (sessions_query c) = sessions_answer c) as ->.
  { unfold sessions_answer, sessions_query, hasWaitstart.
    destruct (Z.leb_spec 140000 (versionNum c)); case_decide; (done || lia). }
  destruct (sessions_answer c) as [p1 q1] eqn:E1.
  pose proof (read_rows_complete add_session ∅ q1) as H1.
  destruct (read_rows _ _ q1) as [ss|]; [|by left].
  unfold queryEdgeLabels, labels_answer. rewrite E1. simpl.
  destruct (query_labels p1 (statementTimeout c) edgeLabelsSQL) as [p2 q2].
  pose proof (read_rows_complete add_label ∅ q2) as H2.
  destruct (read_rows _ _ q2) as [ls|]; [|by right].
  destruct H1 as (rs & ? & ->), H2 as (lrs & ? & ->). by exists rs, lrs.
Qed.

(** A poll takes over exactly what PostgreSQL answered, or fails: it
    succeeds only when both statements deliver all their rows; then each process
    id has the session its last row describes, each pair the label of its last
    row, and nothing else is present.  The column added in PostgreSQL 14 is asked
    for from version 14 on, and does not occur in the other statement. *)
Lemma Snapshot_faithful (c : Client) :
  match (client_Snapshot c).2 with
  | Val (ss, ls) => exists rs lrs,
      complete (sessions_answer c).2 rs /\ complete (labels_answer c).2 lrs /\
      (forall p, option_Forall2 describes (last (filter (fun r => sr_pid r = p) rs)) (ss !! p)) /\
      (forall w b, option_Forall2 (fun r l => l = mkLockLabel (la_lockType r)
         (default ""%string (la_relation r)) (la_wMode r) (la_bMode r))
        (last (filter (fun r => la_waiter r = w /\ la_blocker r = b) lrs)) (ls !! mkEdgeKey w b))
  | Err _ => (forall rs, ~ complete (sessions_answer c).2 rs) \/
             (forall lrs, ~ complete (labels_answer c).2 lrs)
  end /\
  Index (bytes_of_string snapshotSQLNoWaitstart) (bytes_of_string "waitstart") = None.
Proof.
  split; [|vm_compute; reflexivity].
  pose proof (client_Snapshot_answers c) as H. destruct (client_Snapshot c).2 as [[ss ls]|]; [|exact H].
  destruct H as (rs & lrs & Hr & Hl & -> & ->). exists rs, lrs. do 2 (split; [done|]). split.
  - intros p. unfold add_session. rewrite fold_insert_last. destruct (last _); [|constructor].
    constructor. apply session_of_row_describes.
  - intros w b. unfold add_label. rewrite fold_insert_last.
    rewrite (list_filter_iff (fun r => key_of_row r = mkEdgeKey w b)
      (fun r => la_waiter r = w /\ la_blocker r = b)).
    + destruct (last _) as [r|]; [|constructor]. by constructor.
    + intros r. unfold key_of_row. split; [by intros [= -> ->]|by intros [-> ->]].
Qed.

(** When no process id occurs twice, the sessions are the rows. *)
Lemma sessions_of_rows rs :
  NoDup (sr_pid <$> rs) ->
  map_to_list (fold_left add_session rs (∅ : gmap Z Session)) ≡ₚ
  (fun r => (sr_pid r, session_of_row r)) <$> rs.
Proof.
  intros Hnd.
  assert (fold_left add_session rs (∅ : gmap Z Session) =
    list_to_map ((fun r => (sr_pid r, session_of_row r)) <$> rs)) as ->.
  { unfold add_session. apply map_eq. intros p. unfold add_session. rewrite fold_insert_last. symmetry.
    destruct (last (filter (fun r => sr_pid r = p) rs)) as [r|] eqn:E.
    - apply last_Some_elem_of in E. apply list_elem_of_filter in E as [<- Hr].
      apply elem_of_list_to_map; [by rewrite <-list_fmap_compose|].
      apply list_elem_of_fmap. by exists r.
    - rewrite lookup_empty. apply not_elem_of_list_to_map. rewrite <-list_fmap_compose.
      intros (r & -> & Hr)%list_elem_of_fmap. apply last_None in E.
      exact (filter_nil_not_elem_of _ _ r E eq_refl Hr). }
  apply map_to_list_to_map. by rewrite <-list_fmap_compose.
Qed.

(** The forest of a poll is the wait-for relation PostgreSQL reported: when
    no process id occurs in two rows, there is one edge for every blocker in
    every row's [blocked_by], and the roots are the processes that occur in some
    row's list while their own list is empty. *)
Lemma forest_of_rows `{Go : GoRuntime} (c : Client) (cluster : string) (takenAt : Time)
    (ss : gmap Z Session) (ls : gmap EdgeKey LockLabel) (rs : list SessionRow)
    (Hpoll : (client_Snapshot c).2 = Val (ss, ls)) (Hrows : complete (sessions_answer c).2 rs)
    (Hnd : NoDup (sr_pid <$> rs)) :
  let snap := Build cluster takenAt ss ls in
  ((fun e => (WaiterPID e, BlockerPID e)) <$> Edges snap) ≡ₚ
    rs ≫= (fun r => pair (sr_pid r) <$> sr_blockedBy r) /\
  forall p, p ∈ Roots snap <->
    (exists r, r ∈ rs /\ p ∈ sr_blockedBy r) /\ (exists r, r ∈ rs /\ sr_pid r = p /\ sr_blockedBy r = []).
Proof.
  pose proof (client_Snapshot_answers c) as H. rewrite Hpoll in H.
  destruct H as (rs' & lrs & Hr & _ & -> & ->). pose proof (complete_inj _ _ _ Hr Hrows) as ->.
  pose proof (sessions_of_rows rs Hnd) as Hss. set (ss := fold_left add_session rs ∅) in *.
  assert (forall p s, ss !! p = Some s <-> exists r, r ∈ rs /\ sr_pid r = p /\ s = session_of_row r) as Hl.
  { intros p s. rewrite <-elem_of_map_to_list, Hss, list_elem_of_fmap. naive_solver. }
  assert (forall r, BlockedBy (session_of_row r) = sr_blockedBy r) as Hb.
  { intros r. pose proof (session_of_row_describes r) as Hd. unfold describes in Hd. by rewrite Hd. }
  intros snap. split.
  - unfold snap. rewrite Build_Edges_perm, all_edges_pairs. unfold confirmed_pairs. rewrite Hss.
    clear -Hb. induction rs as [|r rs IH]; [done|].
    rewrite fmap_cons, !bind_cons, IH. cbn [fst snd]. by rewrite Hb.
  - intros p. unfold snap. rewrite Build_Roots_iff. unfold head_blocker, waits_for.
    setoid_rewrite Hl. split.
    + intros [(w & s & (r & Hr1 & _ & ->) & Hp) (s' & (r' & Hr2 & <- & ->) & He)].
      rewrite Hb in Hp, He. split; [by exists r|by exists r'].
    + intros [(r & Hr1 & Hp) (r' & Hr2 & <- & He)]. split.
      * exists (sr_pid r), (session_of_row r). rewrite Hb. split; [by exists r|done].
      * exists (session_of_row r'). rewrite Hb. split; [by exists r'|done].
Qed.

(** C37: a poll takes over exactly what PostgreSQL answered, or fails: it
    succeeds only when both statements deliver all their rows; then each process
    id has the session its last row describes, each pair the label of its last
    row, and nothing else is present; and when no process id occurs in two rows,
    the forest built from it has one edge for every blocker in every row's
    [blocked_by], and its roots are the processes that occur in some row's list
    while their own list is empty.  The column added in PostgreSQL 14 does not
    occur in the statement for older versions. *)
Theorem poll_forest `{Go : GoRuntime} (c : Client) :
  match (client_Snapshot c).2 with
  | Val (ss, ls) => exists rs lrs,
      complete (sessions_answer c).2 rs /\ complete (labels_answer c).2 lrs /\
      (forall p, option_Forall2 describes (last (filter (fun r => sr_pid r = p) rs)) (ss !! p)) /\
      (forall w b, option_Forall2 (fun r l => l = mkLockLabel (la_lockType r)
         (default ""%string (la_relation r)) (la_wMode r) (la_bMode r))
        (last (filter (fun r => la_waiter r = w /\ la_blocker r = b) lrs)) (ls !! mkEdgeKey w b)) /\
      (NoDup (sr_pid <$> rs) -> forall cluster takenAt, let snap := Build cluster takenAt ss ls in
        ((fun e => (WaiterPID e, BlockerPID e)) <$> Edges snap) ≡ₚ
          rs ≫= (fun r => pair (sr_pid r) <$> sr_blockedBy r) /\
        forall p, p ∈ Roots snap <->
          (exists r, r ∈ rs /\ p ∈ sr_blockedBy r) /\
          (exists r, r ∈ rs /\ sr_pid r = p /\ sr_blockedBy r = []))
  | Err _ => (forall rs, ~ complete (sessions_answer c).2 rs) \/
             (forall lrs, ~ complete (labels_answer c).2 lrs)
  end /\
  Index (bytes_of_string snapshotSQLNoWaitstart) (bytes_of_string "waitstart") = None.
Proof.
  destruct (Snapshot_faithful c) as [H Hcol]. split; [|exact Hcol].
  destruct (client_Snapshot c).2 as [[ss ls]|] eqn:Hpoll; [|exact H].
  destruct H as (rs & lrs & Hr & Hl & Hss & Hls). exists rs, lrs. do 4 (split; [done|]).
  intros Hnd cluster takenAt. by apply (forest_of_rows c cluster takenAt ss ls rs).
Qed.
End client.

(** ** A cluster that always answers the same *)
Record Canned := mkCanned { canned_sessions : list SessionRow; canned_labels : list LabelRow }.

#[export] Instance canned_pool : Pool Canned := {|
  query_sessions c _ _ := (c, Val (mkRows (Val <$> canned_sessions c) None));
  query_labels c _ _ := (c, Val (mkRows (Val <$> canned_labels c) None));
  query_locks c _ _ := (c, Val (mkRows [] None));
  query_hot c _ _ := (c, Val (mkRows [] None));
  row_string c _ := (c, Val "160004"%string);
  row_caps c _ _ := (c, Val ("pglockr_ro"%string, false, true, false));
  row_bool c _ _ _ := (c, Val true)
|}.

Definition row (pid : Z) (blockedBy : list Z) : SessionRow :=
  mkSessionRow pid None None (Some [127; 0; 0; 1]) None None None None None None None None blockedBy.

Definition canned : Client := (detectVersion (mkClient
  (mkCanned [row 7 []; row 8 [7]] [mkLabelRow 8 7 "relation" "m" "n" None]) Second 0)).1.

Lemma poll_forest_witness : exists ss ls, (client_Snapshot canned).2 = Val (ss, ls) /\
  let snap := @Build canonical "c" 0 ss ls in
  ((fun e => (WaiterPID e, BlockerPID e)) <$> Edges snap) ≡ₚ
    [row 7 []; row 8 [7]] ≫= (fun r => pair (sr_pid r) <$> sr_blockedBy r) /\
  forall p, p ∈ Roots snap <->
    (exists r, r ∈ [row 7 []; row 8 [7]] /\ p ∈ sr_blockedBy r) /\
    (exists r, r ∈ [row 7 []; row 8 [7]] /\ sr_pid r = p /\ sr_blockedBy r = []).
Proof.
  destruct (@poll_forest Canned canned_pool canonical canned) as [H _].
  assert (exists ss ls, (client_Snapshot canned).2 = Val (ss, ls)) as (ss & ls & E) by (eexists _, _; reflexivity).
  exists ss, ls. split; [exact E|]. rewrite E in H. destruct H as (rs & lrs & Hr & _ & _ & _ & Hforest).
  assert (complete (sessions_answer canned).2 [row 7 []; row 8 [7]]) as Hrows by reflexivity.
  rewrite (complete_inj _ _ _ Hr Hrows) in Hforest. apply Hforest.
  apply (bool_decide_unpack _). vm_compute. exact I.
Defined.
