(* ===== verification/Metrics.v ===== *)
(** * internal/metrics: what pglockr counts about itself

    The instruments and the registry belong to the Prometheus client; counters
    are a class whose law says what [Inc] does, a histogram is known by the
    observations it was given.  The client checks label values and panics on some,
    in [WithLabelValues] as in [MustNewConstMetric].  [Metrics] is the observer of the poll loop and
    of the signal service; [Collect] is the scrape-time collector. *)
From S2P Require Import Prelude GoRuntime Utf8 Graph Store AuditTrail Signal Poller.
Local Open Scope Z_scope.
Local Open Scope pglockr_scope.

(** [prometheus.CounterVec] and [prometheus.HistogramVec]. *)
Class Prometheus (V H : Type) := {
  NewCounterVec : string -> list string -> V;
  Inc : V -> list string -> V;
  NewHistogramVec : string -> list string -> H;
  Observe : H -> list string -> Duration -> H;   (* the duration in seconds *)
  accepts_values : list string -> bool   (* the check of label values *)
}.

(** Each combination of label values has a counter, which starts at zero and
    which [Inc] increments by one; label values may be any UTF-8. *)
Class PrometheusLaws (V H : Type) `{!Prometheus V H} := {
  value : V -> list string -> Z;
  new_value name labels l : value (NewCounterVec name labels) l = 0;
  inc_value v l l' : value (Inc v l) l' = value v l' + (if decide (l = l') then 1 else 0);
  accepts_utf8 l : forallb ValidString l = true -> accepts_values l = true
}.

Definition invalid_label : string := "label value is not valid UTF-8".

Section metrics.
Context {V H : Type} `{!Prometheus V H}.

Record Metrics := mkMetrics {
  pollsTotal : V;
  pollErrors : V;
  pollDuration : H;
  actions : V
}.

(** [New]; the registry only serves what is registered. *)
Definition New : Metrics :=
  mkMetrics (NewCounterVec "pglockr_polls_total" ["cluster"])
    (NewCounterVec "pglockr_poll_errors_total" ["cluster"])
    (NewHistogramVec "pglockr_poll_duration_seconds" ["cluster"])
    (NewCounterVec "pglockr_actions_total" ["action"; "delivered"]).

(** An instrument's method after [WithLabelValues]. *)
Definition with_values {X} (labels : list string) (x : X) : Outcome X :=
  if accepts_values labels then Ok x else Panic invalid_label.

Definition ObservePoll (m : Metrics) (cluster : string) (d : Duration) (err : option string) : Outcome Metrics :=
  let* total := with_values [cluster] (Inc (pollsTotal m) [cluster]) in
  let* errors := match err with
    | Some _ => with_values [cluster] (Inc (pollErrors m) [cluster])
    | None => Ok (pollErrors m)
    end in
  let* duration := with_values [cluster] (Observe (pollDuration m) [cluster] d) in
  Ok (mkMetrics total errors duration (actions m)).

Definition boolLabel (b : bool) : string := if b then "true" else "false".

(** Its label values are constants of the program, all ASCII. *)
Definition ObserveAction (m : Metrics) (action : string) (delivered : bool) : Metrics :=
  mkMetrics (pollsTotal m) (pollErrors m) (pollDuration m)
    (Inc (actions m) [action; boolLabel delivered]).

#[export] Instance metrics_poll_observer : PollObserver Metrics := ObservePoll.

(** What [ObservePoll] does where the cluster's name is accepted. *)
Definition observed_poll (m : Metrics) (cluster : string) (d : Duration) (err : option string) : Metrics :=
  mkMetrics (Inc (pollsTotal m) [cluster])
    (match err with Some _ => Inc (pollErrors m) [cluster] | None => pollErrors m end)
    (Observe (pollDuration m) [cluster] d) (actions m).

Lemma ObservePoll_cases m cluster d err :
  ObservePoll m cluster d err =
  if accepts_values [cluster] then Ok (observed_poll m cluster d err) else Panic invalid_label.
Proof. unfold ObservePoll, with_values. destruct (accepts_values [cluster]); [|done]. by destruct err. Qed.

#[export] Program Instance metrics_observer_laws : PollObserverLaws Metrics := {|
  observer_ok _ cluster := accepts_values [cluster] = true
|}.
Next Obligation.
  intros m cluster d err Hcl. unfold Poller.ObservePoll, metrics_poll_observer.
  rewrite ObservePoll_cases, Hcl. by eexists.
Qed.

#[export] Instance metrics_action_observer : Observer Metrics := ObserveAction.

(** ** The collector *)
Record Desc := mkDesc { desc_name : string; desc_help : string; desc_labels : list string }.

Definition descConnected := mkDesc "pglockr_connected" "1 if the poller is connected to the target." ["cluster"].
Definition descSessions := mkDesc "pglockr_sessions" "Client backends in the latest snapshot." ["cluster"].
Definition descRoots := mkDesc "pglockr_root_blockers" "Head blockers in the latest snapshot." ["cluster"].
Definition descEdges := mkDesc "pglockr_blocked_edges" "Blocking edges in the latest snapshot." ["cluster"].

Definition Describe : list Desc := [descConnected; descSessions; descRoots; descEdges].

(** A constant metric: its description, its value and those of its labels. *)
Record Gauge := mkGauge { gauge_desc : Desc; gauge_value : Z; gauge_labels : list string }.

Definition b2f (b : bool) : Z := if b then 1 else 0.

Definition MustNewConstMetric (desc : Desc) (v : Z) (labels : list string) : Outcome Gauge :=
  with_values labels (mkGauge desc v labels).

(** The metrics [Collect] sends, in order, from the answers of its functions. *)
Definition Collect (statusFn : string * bool) (snapFn : Snapshot * bool) : Outcome (list Gauge) :=
  let '(cluster, connected) := statusFn in
  let* g := MustNewConstMetric descConnected (b2f connected) [cluster] in
  if snapFn.2 then
    let* sessions := MustNewConstMetric descSessions (Z.of_nat (size (Sessions snapFn.1))) [cluster] in
    let* roots := MustNewConstMetric descRoots (Z.of_nat (length (Roots snapFn.1))) [cluster] in
    let* edges := MustNewConstMetric descEdges (Z.of_nat (length (Edges snapFn.1))) [cluster] in
    Ok [g; sessions; roots; edges]
  else Ok [g].

(** What a registry checks: every metric is described, once, and has a value for
    each of its labels. *)
Lemma Collect_described st snap gs :
  Collect st snap = Ok gs ->
  (gauge_desc <$> gs) `sublist_of` Describe /\
  Forall (fun g => length (gauge_labels g) = length (desc_labels (gauge_desc g))) gs.
Proof.
  destruct st as [cluster connected]. unfold Collect, Describe, MustNewConstMetric, with_values.
  destruct (accepts_values [cluster]); [|discriminate]. destruct snap.2; cbn; intros [= <-]; cbn.
  - split; [done|]. by repeat constructor.
  - split; [apply sublist_skip, sublist_nil_l|]. by repeat constructor.
Qed.

(** ** What the counters count *)
Context `{!PrometheusLaws V H}.

Definition failed {Src} (x : Env * Prelude.Result Src) : Prop :=
  match x.2 with Val _ => False | Err _ => True end.
#[export] Instance failed_dec {Src} (x : Env * Prelude.Result Src) : Decision (failed x).
Proof. unfold failed. destruct x.2; apply _. Defined.

(** [m'] has counted [polls] more polls of a cluster, [errors] of them failed. *)
Definition counted (m m' : Metrics) (cluster : string) (polls errors : nat) : Prop :=
  (forall l, value (pollsTotal m') l = value (pollsTotal m) l + (if decide (l = [cluster]) then Z.of_nat polls else 0)) /\
  (forall l, value (pollErrors m') l = value (pollErrors m) l + (if decide (l = [cluster]) then Z.of_nat errors else 0)) /\
  actions m' = actions m.

Lemma counted_nothing m cluster : counted m m cluster 0 0.
Proof. repeat split; intros l; case_decide; lia. Qed.

Lemma observed_counted m cluster d err m' k n :
  counted (observed_poll m cluster d err) m' cluster k n ->
  counted m m' cluster (S k) (match err with Some _ => S n | None => n end).
Proof.
  intros (Hp & He & Ha). unfold observed_poll in *. simpl in *. repeat split.
  - intros l. rewrite Hp, inc_value. repeat case_decide; (congruence || lia).
  - intros l. rewrite He. destruct err; rewrite ?inc_value; repeat case_decide; (congruence || lia).
  - done.
Qed.

Context {Src T : Type} `{Go : GoRuntime} `{!Source Src} `{!SnapshotStore T} `{!SnapshotStoreLaws T}.
Implicit Types p : Poller Src T Metrics.

Lemma observe_obs p e err p' m :
  observe p e err = Ok p' -> obs p = Some m ->
  obs p' = Some (observed_poll m (cluster p) (Sub (now_observe e) (now_start e)) err).
Proof.
  unfold observe. intros E Hm. rewrite Hm in E. unfold Poller.ObservePoll, metrics_poll_observer in E.
  rewrite ObservePoll_cases in E. destruct (accepts_values [cluster p]); [|discriminate]. by injection E as <-.
Qed.

Lemma iteration_obs p backoff e p' d nxt m :
  iteration p backoff e = Ok (p', d, nxt) -> obs p = Some m ->
  obs p' = Some (observed_poll m (cluster p) (Sub (now_observe e) (now_start e))
    (match (poll_result p e).2 with Val _ => None | Err err => Some err end)).
Proof.
  unfold iteration, after_poll, pollOnce, poll_result. intros E Hm.
  destruct (SourceSnapshot (src p)) as [s [[ss ls]|err]]; cbn [outcome_bind fst snd] in *.
  - destruct (store_Put _ _) as [t|]; cbn [outcome_bind] in E; [|discriminate].
    destruct (observe _ e None) as [q|] eqn:Eo; [|discriminate].
    apply (observe_obs _ _ _ _ m) in Eo; [|exact Hm]. cbn [outcome_bind] in E.
    destruct (sleep_cancelled e); by injection E as <- _ _.
  - destruct (observe _ e (Some err)) as [q|] eqn:Eo; [|discriminate].
    apply (observe_obs _ _ _ _ m) in Eo; [|exact Hm]. cbn [outcome_bind] in E.
    destruct (ctx_done e), (sleep_cancelled e); by injection E as <- _ _.
Qed.

Lemma run_loop_counted p backoff es m p' naps b :
  holds_inv (store p) -> obs p = Some m -> run_loop p backoff es = Ok (p', naps, b) ->
  exists k m', obs p' = Some m' /\ (k <= length es)%nat /\ (b <> None -> k = length es) /\
    counted m m' (cluster p) k (length (filter failed (take k (polls (src p) (cluster p) es)))).
Proof.
  revert p backoff m naps. induction es as [|e es IH]; intros p backoff m naps Hinv Hm; cbn [run_loop].
  { intros [= <- _ <-]. exists 0%nat, m. repeat (split; [done|]). apply counted_nothing. }
  rewrite polls_cons.
  destruct (iteration p backoff e) as [[[p1 d] nxt]|] eqn:Hit; cbn [outcome_bind]; [|discriminate].
  destruct (iteration_result _ _ _ _ _ _ Hinv Hit) as (Hinv1 & _ & _ & Hs1 & Hc1 & _).
  pose proof (iteration_obs _ _ _ _ _ _ _ Hit Hm) as Ho.
  destruct nxt as [|b1].
  - intros [= <- _ <-]. eexists 1%nat, _. split; [exact Ho|]. split; [simpl; lia|]. split; [done|].
    cbn [take]. rewrite take_0, filter_cons, filter_nil. unfold failed at 1. cbn [snd].
    pose proof (observed_counted m (cluster p) (Sub (now_observe e) (now_start e))
      (match (poll_result p e).2 with Val _ => None | Err err => Some err end) _ 0 0 (counted_nothing _ _)) as Hc.
    destruct (poll_result p e).2; case_decide; done.
  - destruct (run_loop p1 b1 es) as [[[p2 naps1] b2]|] eqn:Hrun; cbn [outcome_bind]; [|discriminate].
    intros [= <- _ <-]. destruct (IH p1 b1 _ _ Hinv1 Ho Hrun) as (k & m' & Hm' & Hk & Hb & Hc).
    exists (S k), m'. split; [done|]. split; [simpl; lia|]. split; [intros Hn; simpl; by rewrite Hb|].
    rewrite Hs1, Hc1 in Hc. apply observed_counted in Hc. cbn [take]. rewrite filter_cons.
    unfold failed at 1. cbn [snd]. destruct (poll_result p e).2; case_decide; done.
Qed.

(** *** Actions *)
Context {G S : Type} `{!Signaler G} `{!Sink S}.
Implicit Types svc : Service G S Metrics.

Lemma Do_obs svc c :
  Signal.obs (do_call svc c).1 =
  (fun m => ObserveAction m (call_action c) (res_Delivered (do_call svc c).2.1)) <$> Signal.obs svc.
Proof.
  unfold do_call, Do, entry_of. destruct (send _ _ _) as (g & delivered & err).
  destruct (record_entry _ _ _). destruct err; simpl; by rewrite ?andb_true_r, ?andb_false_r.
Qed.

(** The calls of an action that were answered with [delivered]. *)
Definition answered_as (a : string) (delivered : bool) (x : Call * (Signal.Result * option string)) : Prop :=
  call_action x.1 = a /\ res_Delivered x.2.1 = delivered.
#[export] Instance answered_as_dec a b x : Decision (answered_as a b x).
Proof. unfold answered_as. apply _. Defined.

Lemma action_label a b a' b' : [a; boolLabel b] = [a'; boolLabel b'] <-> a = a' /\ b = b'.
Proof. destruct b, b'; naive_solver. Qed.

Lemma do_all_actions svc cs m :
  Signal.obs svc = Some m ->
  exists m', Signal.obs (do_all svc cs).1 = Some m' /\ forall a b,
    value (actions m') [a; boolLabel b] = value (actions m) [a; boolLabel b] +
      Z.of_nat (length (filter (answered_as a b) (zip cs (do_all svc cs).2))).
Proof.
  revert svc m. induction cs as [|c cs IH]; intros svc m Hm.
  { exists m. split; [done|]. intros a b. simpl. lia. }
  pose proof (Do_obs svc c) as Ho. rewrite Hm in Ho. simpl.
  destruct (do_call svc c) as [svc1 ans]. simpl in Ho.
  destruct (IH svc1 _ Ho) as (m' & Hm' & Hc). destruct (do_all svc1 cs) as [svc2 rest].
  exists m'. split; [exact Hm'|]. intros a b. rewrite Hc. simpl. rewrite inc_value, filter_cons.
  unfold answered_as at 2. simpl. pose proof (action_label (call_action c) (res_Delivered ans.1) a b).
  do 2 case_decide; simpl; try tauto; lia.
Qed.

(** C38: the counters tell the truth: with the metrics attached and a cluster
    name that is valid UTF-8, a run of the poll loop adds one poll per poll made
    and one error per poll that failed to its cluster's counters and nothing to
    others; any sequence of actions adds to each action and outcome the number of
    calls answered that way. *)
Theorem metrics_count :
  (forall p es m, holds_inv (store p) -> obs p = Some m -> ValidString (cluster p) = true ->
    exists p' naps b k m', Run p es = Ok (p', naps, b) /\ obs p' = Some m' /\
      (k <= length es)%nat /\ (b <> None -> k = length es) /\
      counted m m' (cluster p) k (length (filter failed (take k (polls (src p) (cluster p) es))))) /\
  (forall svc cs m, Signal.obs svc = Some m ->
    exists m', Signal.obs (do_all svc cs).1 = Some m' /\ forall a (b : bool),
      value (actions m') [a; if b then "true" else "false"] = value (actions m) [a; if b then "true" else "false"] +
        Z.of_nat (length (filter (answered_as a b) (zip cs (answers_from (sig svc) cs))))).
Proof.
  split.
  - intros p es m Hinv Hm Hcl.
    destruct (run_loop_runs p (interval p) es Hinv) as (p' & naps & b & E).
    { intros o [= ->]%(eq_trans (eq_sym Hm)). apply accepts_utf8. cbn. by rewrite Hcl. }
    destruct (run_loop_counted p (interval p) es m p' naps b Hinv Hm E) as (k & m' & Hm1). by exists p', naps, b, k, m'.
  - intros svc cs m Hm. rewrite <-(proj1 (do_all_answers svc cs)). by apply do_all_actions.
Qed.
End metrics.

(** ** Counters as the list of their increments *)
#[export] Instance list_prometheus : Prometheus (list (list string)) (list Duration) := {|
  NewCounterVec _ _ := [];
  Inc v l := v ++ [l];
  NewHistogramVec _ _ := [];
  Observe h _ d := h ++ [d];
  accepts_values l := forallb ValidString l
|}.

#[export] Program Instance list_prometheus_laws : PrometheusLaws (list (list string)) (list Duration) := {|
  value v l := Z.of_nat (length (filter (eq l) v))
|}.
Next Obligation. done. Qed.
Next Obligation.
  intros v l l'. simpl. rewrite filter_app, filter_cons, filter_nil, length_app.
  repeat case_decide; simpl; (congruence || lia).
Qed.
Next Obligation. done. Qed.

#[local] Instance counting_runtime : GoRuntime := canonical.
#[local] Instance counting_persister : Persister unit := failing_persister.

Definition no_counts : Metrics (V:=list (list string)) (H:=list Duration) := New.

Definition counting_poller : Poller nat (Store unit) Metrics :=
  SetMetrics (Poller.New "c1"%string 0%nat (fresh 5) (2 * Second)) (Some no_counts).
Definition counting_service : Service (list (string * Z)) AuditTrail.Memory Metrics :=
  mkService [] [] None (Some no_counts).

(** One success, two failures; three calls, of which one was delivered. *)
Lemma metrics_count_witness :
  (exists p' naps b m', Run counting_poller demo_envs = Ok (p', naps, b) /\ obs p' = Some m' /\
    value (pollsTotal m') ["c1"%string] = 3 /\ value (pollErrors m') ["c1"%string] = 2) /\
  (exists m', Signal.obs (do_all counting_service demo_calls).1 = Some m' /\
    value (actions m') ["cancel"%string; "true"%string] = 1).
Proof.
  split.
  - destruct (proj1 (metrics_count (G:=list (string * Z)) (S:=AuditTrail.Memory)) counting_poller demo_envs
      no_counts demo_inv eq_refl eq_refl) as (p' & naps & b & k & m' & HR & Hm & _ & Hb & Hp & He & _).
    exists p', naps, b, m'. split; [exact HR|]. split; [exact Hm|].
    assert (b <> None) as Hn by (unfold Run in HR; vm_compute in HR; injection HR as _ _ <-; discriminate).
    rewrite (Hb Hn) in *. rewrite Hp, He. split; vm_compute; reflexivity.
  - destruct (proj2 (metrics_count (Src:=nat) (T:=Store unit)) counting_service demo_calls
      no_counts eq_refl) as (m' & Hm & Hc).
    exists m'. split; [exact Hm|]. rewrite (Hc "cancel"%string true). vm_compute. reflexivity.
Defined.
