(* ===== verification/RedactSource.v ===== *)
(** * internal/redact/source.go: masking at ingestion

    [RedactedSource] wraps a poller source; its [Snapshot] masks every query in
    the map it got.  The theorem follows the texts through [Build], the poll
    loop and the store. *)
From S2P Require Import Prelude GoRuntime Graph Store Redact Poller.
Local Open Scope Z_scope.
Local Open Scope pglockr_scope.

Record RedactedSource (Src : Type) := NewSource { inner : Src }.
Arguments NewSource {Src}.
Arguments inner {Src}.

(** [sess.Query = Mask(sess.Query); sessions[pid] = sess] *)
Definition mask_entry (sessions : gmap Z Session) (entry : Z * Session) : gmap Z Session :=
  <[entry.1 := set_Query (Mask (Query entry.2)) entry.2]> sessions.

Definition mask_sessions `{GoRuntime} (sessions : gmap Z Session) : gmap Z Session :=
  fold_left mask_entry (range_map sessions) sessions.

Section source.
Context `{Go : GoRuntime} {Src : Type} `{!Source Src}.

Definition RedactedSnapshot (s : RedactedSource Src)
    : RedactedSource Src * Result (gmap Z Session * gmap EdgeKey LockLabel) :=
  match SourceSnapshot (inner s) with
  | (i, Err err) => (NewSource i, Err err)
  | (i, Val (sessions, labels)) => (NewSource i, Val (mask_sessions sessions, labels))
  end.

#[export] Instance redacted_source : Source (RedactedSource Src) := RedactedSnapshot.

(** ** What the wrapped source delivers *)
Definition mask_session (s : Session) : Session := set_Query (Mask (Query s)) s.

Lemma mask_fold (sessions : gmap Z Session) l (acc : gmap Z Session) q :
  (forall p s, (p, s) ∈ l -> sessions !! p = Some s) ->
  fold_left mask_entry l acc !! q =
  if decide (q ∈ l.*1) then mask_session <$> sessions !! q else acc !! q.
Proof.
  revert acc. induction l as [|[p s] l IH]; intros acc Hl; cbn [fold_left].
  { destruct (decide _) as [H|]; [by apply elem_of_nil in H|done]. }
  rewrite IH by (intros; apply Hl; by right). unfold mask_entry. cbn [fst snd fmap list_fmap].
  specialize (Hl p s (list_elem_of_here _ _)).
  destruct (decide (q ∈ l.*1)), (decide (q ∈ p :: l.*1)) as [Hq|Hq]; try set_solver.
  - apply elem_of_cons in Hq as [->|]; [|done]. by rewrite lookup_insert_eq, Hl.
  - rewrite lookup_insert_ne; [done|set_solver].
Qed.

Lemma mask_sessions_spec (sessions : gmap Z Session) : mask_sessions sessions = mask_session <$> sessions.
Proof.
  apply map_eq. intros q. unfold mask_sessions. rewrite (mask_fold sessions), lookup_fmap.
  2:{ intros p s. apply elem_of_range_map. }
  destruct (decide _) as [|Hq]; [done|].
  destruct (sessions !! q) as [s|] eqn:Hs; [|done]. exfalso. apply Hq.
  apply list_elem_of_fmap. exists (q, s). split; [done|]. by apply elem_of_range_map.
Qed.

(** Every query of a snapshot is a masked one. *)
Definition masked (snap : Snapshot) : Prop :=
  forall pid s, Sessions snap !! pid = Some s -> exists raw, Query s = Mask raw.

Lemma Build_masked cl now sessions labels :
  masked (Build cl now (mask_session <$> sessions) labels).
Proof.
  intros pid s. rewrite Build_unfold. simpl. rewrite flag_roots_lookup, lookup_fmap.
  destruct (sessions !! pid) as [s0|]; [|done]. simpl. intros [= <-].
  exists (Query s0). by case_bool_decide.
Qed.

Lemma polls_masked (s : RedactedSource Src) cl es snap :
  snap ∈ omap snapshot_of (polls s cl es) -> masked snap.
Proof.
  revert s. induction es as [|e es IH]; intros s; simpl; [by intros ?%elem_of_nil|].
  unfold SourceSnapshot, redacted_source, RedactedSnapshot.
  destruct (SourceSnapshot (inner s)) as [i [[sessions labels]|err]]; simpl; [|apply IH].
  rewrite mask_sessions_spec. intros [->|H]%elem_of_cons; [apply Build_masked|by eapply IH].
Qed.

Context {T O : Type} `{!SnapshotStore T} `{!SnapshotStoreLaws T} `{!PollObserver O}.

(** Raw texts never reach the store: with the redacting source, whatever
    the wrapped source returns and however long the loop runs, every snapshot
    the store holds afterwards was held before the run or has only masked
    queries. *)
Lemma Run_redacts (p : Poller (RedactedSource Src) T O) (es : list Env)
    (p' : Poller (RedactedSource Src) T O) (naps : list Duration) (b : option Duration)
    (Hiv : 0 < interval p) (Hinv : holds_inv (store p)) (Hrun : Run p es = Ok (p', naps, b)) :
  forall snap, snap ∈ held (store p') -> snap ∈ held (store p) \/ masked snap.
Proof.
  intros snap Hin. destruct (Run_result p es p' naps b Hiv Hinv Hrun) as (k & [_ Hh _ _ _]). rewrite Hh in Hin.
  apply elem_of_lastn, elem_of_app in Hin as [Hi|Hi]; [by left|right].
  apply (polls_masked (src p) (cluster p) es).
  apply list_elem_of_omap in Hi as (x & Hx & Hs). apply list_elem_of_omap. exists x. split; [|done].
  apply list_elem_of_lookup in Hx as [j Hj]. apply lookup_take_Some in Hj as [Hj _].
  by eapply list_elem_of_lookup_2.
Qed.

(** The sessions handed on are the wrapped source's with masked queries and
    nothing else changed, and its errors pass through. *)
Lemma RedactedSnapshot_spec (s : RedactedSource Src) :
  RedactedSnapshot s =
  match SourceSnapshot (inner s) with
  | (i, Err err) => (NewSource i, Err err)
  | (i, Val (sessions, labels)) => (NewSource i, Val (mask_session <$> sessions, labels))
  end.
Proof.
  unfold RedactedSnapshot. destruct (SourceSnapshot (inner s)) as [i [[ss ls]|err]]; [|done].
  by rewrite mask_sessions_spec.
Qed.
End source.

(** A source whose one session runs a query with a literal. *)
Definition secret_session : Session := set_Query "SELECT * FROM t WHERE k = 'secret'" (session_of 9 []).
#[local] Instance secret_source : Source unit := fun u => (u, Val ({[9 := secret_session]}, ∅)).
#[local] Instance demo_runtime : GoRuntime := canonical.
#[local] Instance demo_persister : Persister unit := failing_persister.

Definition redacting_poller : Poller (RedactedSource unit) (Store unit) (list bool) :=
  New "c1" (NewSource tt) (fresh 3) Second.

(** One poll, executed. *)
Lemma Run_redacts_example : exists p',
  Run redacting_poller [env_at 10] = Ok (p', [Second], Some Second) /\
  (forall snap, snap ∈ held (store p') -> snap ∈ held (store redacting_poller) \/ masked snap) /\
  (Query <$> (Sessions <$> head (held (store p'))) ≫= (.!! 9)) = Some "SELECT * FROM t WHERE k = ?"%string.
Proof.
  eexists. split; [vm_compute; reflexivity|]. split; [|vm_compute; reflexivity].
  apply (Run_redacts redacting_poller [env_at 10] _ [Second] (Some Second));
    [vm_compute; reflexivity|apply fresh_store_wf|vm_compute; reflexivity].
Defined.
