(* ===== verification/Persist.v ===== *)
(** * internal/persist: the durable history and audit trail

    [Open], [Save], [At], [History] and the pruning of sqlite.go and the audit sink of
    audit.go.  SQLite is not modelled: the statements the code sends are the
    operations of a class, whose laws say what the statements mean on the list
    of rows in insertion order; any of them may fail.  The packages behind the
    blob codec (gzip of JSON) are a class too. *)
From S2P Require Import Prelude GoRuntime Utf8 GoStrings Graph Store AuditTrail.
Local Open Scope Z_scope.

(** ** The snapshot table *)
Record Row (Blob : Type) := mkRow {
  row_cluster : string;
  row_taken_at : Z;
  row_roots : Z;
  row_edges : Z;
  row_sessions : Z;
  row_data : Blob
}.
Arguments mkRow {Blob}.
Arguments row_cluster {Blob}.
Arguments row_taken_at {Blob}.
Arguments row_roots {Blob}.
Arguments row_edges {Blob}.
Arguments row_sessions {Blob}.
Arguments row_data {Blob}.

(** One operation per SQL statement of the file; [None] is [sql.ErrNoRows]. *)
Class SnapshotTable (D Blob : Type) := {
  tbl_insert : D -> Row Blob -> D * option string;
  tbl_floor : D -> Z -> Result (option (Row Blob));
  tbl_ceiling : D -> Z -> Result (option (Row Blob));
  tbl_between : D -> Z -> Z -> Result (list (Row Blob));
  tbl_delete_before : D -> Z -> D * option string
}.

Definition earlier_row {Blob} (a b : Row Blob) : Prop := row_taken_at a <= row_taken_at b.

(** What the statements mean: an INSERT adds a row, a failed statement changes
    nothing; floor and ceiling are the ends of an index search; BETWEEN with
    ORDER BY lists the rows of the range by time; DELETE keeps the rest. *)
Class SnapshotTableLaws (D Blob : Type) `{!SnapshotTable D Blob} := {
  rows : D -> list (Row Blob);
  insert_rows d r : match tbl_insert d r with
    | (d', None) => rows d' = rows d ++ [r]
    | (d', Some _) => rows d' = rows d
    end;
  floor_rows d t o : tbl_floor d t = Val o -> match o with
    | None => forall r, r ∈ rows d -> t < row_taken_at r
    | Some b => b ∈ rows d /\ row_taken_at b <= t /\
        forall r, r ∈ rows d -> row_taken_at r <= t -> row_taken_at r <= row_taken_at b
    end;
  ceiling_rows d t o : tbl_ceiling d t = Val o -> match o with
    | None => forall r, r ∈ rows d -> row_taken_at r < t
    | Some b => b ∈ rows d /\ t <= row_taken_at b /\
        forall r, r ∈ rows d -> t <= row_taken_at r -> row_taken_at b <= row_taken_at r
    end;
  between_rows d lo hi l : tbl_between d lo hi = Val l ->
    l ≡ₚ filter (fun r => lo <= row_taken_at r <= hi) (rows d) /\
    Sorted earlier_row l;
  delete_rows d cutoff : match tbl_delete_before d cutoff with
    | (d', None) => rows d' = filter (fun r => cutoff <= row_taken_at r) (rows d)
    | (d', Some _) => rows d' = rows d
    end
}.

(** The two packages behind the blobs: encoding/json on snapshots, and the
    streams of compress/gzip over a buffer. *)
Class Codec (Raw Blob : Type) := {
  json_Marshal : Snapshot -> Result Raw;
  json_Unmarshal : Raw -> Result Snapshot;
  gzip_writer : Type;
  gzip_NewWriter : gzip_writer;
  gzip_Write : gzip_writer -> Raw -> Result gzip_writer;
  gzip_Close : gzip_writer -> Result Blob;
  gzip_reader : Type;
  gzip_NewReader : Blob -> Result gzip_reader;
  gzip_ReadAll : gzip_reader -> Result Raw
}.

(** What is written and closed can be read back. *)
Class CodecLaws (Raw Blob : Type) `{!Codec Raw Blob} := {
  gzip_roundtrip raw w blob :
    gzip_Write gzip_NewWriter raw = Val w -> gzip_Close w = Val blob ->
    exists r, gzip_NewReader blob = Val r /\ gzip_ReadAll r = Val raw
}.

Section codec.
Context {Raw Blob : Type} `{!Codec Raw Blob}.

Definition encode (snap : Snapshot) : Result Blob :=
  match json_Marshal snap with
  | Err err => Err err
  | Val raw =>
      match gzip_Write gzip_NewWriter raw with
      | Err err => Err err
      | Val zw => gzip_Close zw
      end
  end.

Definition decode (blob : Blob) : Result Snapshot :=
  match gzip_NewReader blob with
  | Err err => Err err
  | Val zr =>
      match gzip_ReadAll zr with
      | Err err => Err err
      | Val raw => json_Unmarshal raw
      end
  end.

Lemma decode_encode `{!CodecLaws Raw Blob} snap blob :
  (forall raw, json_Marshal snap = Val raw -> json_Unmarshal raw = Val snap) ->
  encode snap = Val blob -> decode blob = Val snap.
Proof.
  intros Hjson. unfold encode, decode. destruct (json_Marshal snap) as [raw|]; [|discriminate].
  destruct (gzip_Write _ raw) as [w|] eqn:Hw; [|discriminate]. intros Hc.
  destruct (gzip_roundtrip raw w blob Hw Hc) as (r & -> & ->). by apply Hjson.
Qed.
End codec.

Section sqlite.
Context {D Raw Blob : Type} `{!SnapshotTable D Blob} `{!Codec Raw Blob}.

Record SQLite := mkSQLite {
  db : D;
  retention : Duration;
  lastPrune : Time;
  prune_log : option (list string)   (* None: a nil logger *)
}.

Definition set_db (s : SQLite) (d : D) : SQLite := mkSQLite d (retention s) (lastPrune s) (prune_log s).

(** [&SQLite{db: db, retention: retention, log: log}] *)
Definition newSQLite (d : D) (retention : Duration) (log : option (list string)) : SQLite :=
  mkSQLite d retention zeroTime log.

(** [now] stands for the clock readings of one call. *)
Definition maybePrune (s : SQLite) (now : Time) : SQLite :=
  if retention s <=? 0 then s
  else if Sub now (lastPrune s) <? Minute then s
  else
    let cutoff := UnixNano (Add now (- retention s)) in
    let '(d, err) := tbl_delete_before (db s) cutoff in
    mkSQLite d (retention s) now
      (match err with
       | Some _ => warn (prune_log s) "history prune failed"
       | None => prune_log s
       end).

Definition row_of (snap : Snapshot) (blob : Blob) : Row Blob :=
  mkRow (Cluster snap) (UnixNano (TakenAt snap)) (Z.of_nat (length (Roots snap)))
    (Z.of_nat (length (Edges snap))) (Z.of_nat (size (Sessions snap))) blob.

Definition sqlite_Save (s : SQLite) (snap : Snapshot) (now : Time) : SQLite * option string :=
  match encode snap with
  | Err err => (s, Some ("encode snapshot: " +:+ err))
  | Val blob =>
      match tbl_insert (db s) (row_of snap blob) with
      | (d, Some err) => (set_db s d, Some ("insert snapshot: " +:+ err))
      | (d, None) => (maybePrune (set_db s d) now, None)
      end
  end.

(** The accumulator of [At]: the best blob so far and its distance. *)
Definition consider (target : Z) (found : option (Row Blob)) (best : option (Row Blob) * Z)
    : option (Row Blob) * Z :=
  match found with
  | None => best
  | Some r =>
      let diff := int64 (row_taken_at r - target) in
      let diff := if diff <? 0 then int64 (- diff) else diff in
      if diff <? best.2 then (Some r, diff) else best
  end.

Definition sqlite_At (s : SQLite) (t : Time) : Result (Snapshot * bool) :=
  let target := UnixNano t in
  match tbl_floor (db s) target with
  | Err err => Err err
  | Val below =>
      match tbl_ceiling (db s) target with
      | Err err => Err err
      | Val above =>
          match (consider target above (consider target below (None, MaxInt64))).1 with
          | None => Val (emptySnapshot, false)
          | Some r =>
              match decode (row_data r) with
              | Err err => Err err
              | Val snap => Val (snap, true)
              end
          end
      end
  end.

Definition meta_of_row (r : Row Blob) : Meta :=
  mkMeta (Unix0 (row_taken_at r)) (row_roots r) (row_edges r) (row_sessions r).

Definition sqlite_History (s : SQLite) (from to : Time) : Result (list Meta) :=
  let lo := if IsZero from then MinInt64 else UnixNano from in
  let hi := if IsZero to then MaxInt64 else UnixNano to in
  match tbl_between (db s) lo hi with
  | Err err => Err err
  | Val rs => Val (meta_of_row <$> rs)
  end.

(** The store's contract, with the clock as an argument. *)
Definition sqlite_persister (now : Time) : Persister SQLite := {|
  Save s snap := sqlite_Save s snap now;
  PersistAt := sqlite_At;
  PersistHistory := sqlite_History
|}.
(** ** Against the laws of the table *)
Context `{!SnapshotTableLaws D Blob} `{!CodecLaws Raw Blob}.

(** Distances that fit a 64-bit difference. *)
Definition within_reach (target : Z) (r : Row Blob) : Prop :=
  Z.abs (row_taken_at r - target) < MaxInt64.

Lemma consider_in_reach target r best :
  within_reach target r ->
  consider target (Some r) best =
  if Z.abs (row_taken_at r - target) <? best.2
  then (Some r, Z.abs (row_taken_at r - target)) else best.
Proof.
  unfold within_reach, consider. intros Hr.
  assert (forall x, Z.abs x < MaxInt64 -> int64 x = x) as H64.
  { intros x Hx. apply int64_id. unfold in_int64, MinInt64, MaxInt64 in *. lia. }
  rewrite H64 by done. destruct (Z.ltb_spec (row_taken_at r - target) 0).
  - rewrite H64 by (rewrite Z.abs_opp; done).
    by rewrite (Z.abs_neq (row_taken_at r - target)) by lia.
  - by rewrite (Z.abs_eq (row_taken_at r - target)) by lia.
Qed.

(** The row the two index searches choose. *)
Lemma nearest_row (d : D) target below above :
  Forall (within_reach target) (rows d) ->
  tbl_floor d target = Val below -> tbl_ceiling d target = Val above ->
  match (consider target above (consider target below (None, MaxInt64))).1 with
  | None => rows d = []
  | Some r => r ∈ rows d /\ forall r', r' ∈ rows d ->
      Z.abs (row_taken_at r - target) <= Z.abs (row_taken_at r' - target)
  end.
Proof.
  intros Hreach Hf%floor_rows Hc%ceiling_rows. rewrite Forall_forall in Hreach.
  assert (match consider target below (None, MaxInt64) with
    | (None, diff) => diff = MaxInt64 /\ forall r', r' ∈ rows d -> target < row_taken_at r'
    | (Some b, diff) => b ∈ rows d /\ diff = Z.abs (row_taken_at b - target) /\
        forall r', r' ∈ rows d -> row_taken_at r' <= target -> diff <= Z.abs (row_taken_at r' - target)
    end) as Hb.
  { destruct below as [b|]; [|done]. destruct Hf as (Hin & Hle & Hmax).
    rewrite consider_in_reach by auto. pose proof (Hreach b Hin) as Hr. unfold within_reach in Hr. simpl.
    destruct (Z.ltb_spec (Z.abs (row_taken_at b - target)) MaxInt64); [|lia].
    split; [done|]. split; [done|]. intros r' Hr' Hle'. specialize (Hmax r' Hr' Hle'). lia. }
  destruct (consider target below (None, MaxInt64)) as [best diff].
  destruct above as [c|].
  - destruct Hc as (Hin & Hge & Hmin). rewrite consider_in_reach by auto. simpl.
    pose proof (Hreach c Hin) as Hrc. unfold within_reach in Hrc.
    destruct (Z.ltb_spec (Z.abs (row_taken_at c - target)) diff); simpl.
    + split; [done|]. intros r' Hr'. destruct (Z.le_gt_cases target (row_taken_at r')) as [Hle|Hlt].
      * specialize (Hmin r' Hr' Hle). lia.
      * destruct best as [b|]; [destruct Hb as (_ & -> & Hb); specialize (Hb r' Hr'); lia|].
        destruct Hb as [_ Hb]. specialize (Hb r' Hr'). lia.
    + destruct best as [b|]; [|destruct Hb; lia]. destruct Hb as (Hinb & -> & Hb). split; [done|].
      intros r' Hr'. destruct (Z.le_gt_cases (row_taken_at r') target) as [Hle|Hlt]; [by apply Hb|].
      specialize (Hmin r' Hr' ltac:(lia)). lia.
  - simpl. destruct best as [b|].
    + destruct Hb as (Hinb & -> & Hb). split; [done|]. intros r' Hr'. apply Hb; [done|].
      specialize (Hc r' Hr'). lia.
    + destruct Hb as [_ Hb]. destruct (rows d) as [|r' l]; [done|].
      specialize (Hb r' ltac:(by left)). specialize (Hc r' ltac:(by left)). lia.
Qed.

(** C33: the durable history answers a request for a moment with a snapshot
    nearest to it: for a moment a 64-bit nanosecond count can express, when the two
    index searches succeed and no stored time is 292 years away from it, [At] finds nothing only in an empty history and otherwise
    decodes a row at the least distance. *)
Theorem persist_At_nearest (s : SQLite) (t : Time) (res : Snapshot * bool)
    (Ht : in_int64 t) (Hreach : Forall (within_reach t) (rows (db s))) (Hat : sqlite_At s t = Val res) :
  (rows (db s) = [] /\ res = (emptySnapshot, false)) \/
  exists r, r ∈ rows (db s) /\ decode (row_data r) = Val res.1 /\ res.2 = true /\
    forall r', r' ∈ rows (db s) -> Z.abs (row_taken_at r - t) <= Z.abs (row_taken_at r' - t).
Proof.
  unfold sqlite_At in Hat. rewrite (UnixNano_id t) in Hat by done.
  destruct (tbl_floor (db s) t) as [below|] eqn:Hf; [|discriminate].
  destruct (tbl_ceiling (db s) t) as [above|] eqn:Hc; [|discriminate].
  pose proof (nearest_row (db s) t below above Hreach Hf Hc) as Hn.
  destruct (consider _ _ _).1 as [r|]; [|left; split; [done|by injection Hat as <-]].
  destruct (decode (row_data r)) as [snap|] eqn:Hd; [|discriminate]. injection Hat as <-.
  right. destruct Hn as [Hin Hmin]. by exists r.
Qed.

(** The rows after a save. *)
Lemma Save_rows s snap now s' :
  sqlite_Save s snap now = (s', None) -> exists blob, encode snap = Val blob /\
    retention s' = retention s /\
    (rows (db s') = rows (db s) ++ [row_of snap blob] \/
     (0 < retention s /\ Minute <= Sub now (lastPrune s) /\ lastPrune s' = now /\
      rows (db s') = filter (fun r => UnixNano (Add now (- retention s)) <= row_taken_at r)
        (rows (db s) ++ [row_of snap blob]))).
Proof.
  unfold sqlite_Save. destruct (encode snap) as [blob|]; [|discriminate].
  pose proof (insert_rows (db s) (row_of snap blob)) as Hi.
  destruct (tbl_insert _ _) as [d [e|]]; [discriminate|]. intros [= <-]. exists blob. split; [done|].
  unfold maybePrune. simpl. destruct (Z.leb_spec (retention s) 0); [simpl; auto|].
  destruct (Z.ltb_spec (Sub now (lastPrune s)) Minute); [simpl; auto|].
  pose proof (delete_rows d (UnixNano (Add now (- retention s)))) as Hd.
  destruct (tbl_delete_before _ _) as [d' [e|]]; simpl; rewrite Hd, Hi; auto.
  split; [done|]. right. auto.
Qed.

Lemma Save_failed s snap now s' err :
  sqlite_Save s snap now = (s', Some err) -> rows (db s') = rows (db s) /\ lastPrune s' = lastPrune s.
Proof.
  unfold sqlite_Save. destruct (encode snap) as [blob|]; [|by intros [= <- _]].
  pose proof (insert_rows (db s) (row_of snap blob)) as Hi.
  destruct (tbl_insert _ _) as [d [e|]]; [|discriminate]. by intros [= <- _].
Qed.


(** ** Refinement: the table holds a list of snapshots *)
Definition holds (d : D) (snaps : list Snapshot) : Prop :=
  Forall2 (fun r s => exists blob, encode s = Val blob /\ r = row_of s blob) (rows d) snaps.

(** A save appends, unless it fails; the expired snapshots may go. *)
Lemma Save_holds s snap now s' err snaps :
  holds (db s) snaps -> sqlite_Save s snap now = (s', err) ->
  let all := match err with None => snaps ++ [snap] | Some _ => snaps end in
  holds (db s') all \/
  (err = None /\ 0 < retention s /\
   holds (db s') (filter (fun x => UnixNano (Add now (- retention s)) <= UnixNano (TakenAt x)) all)).
Proof.
  intros Hh Hs. destruct err as [err|]; cbv zeta.
  - left. destruct (Save_failed _ _ _ _ _ Hs) as [Hr _]. unfold holds. by rewrite Hr.
  - destruct (Save_rows _ _ _ _ Hs) as (blob & He & _ & Hrows).
    assert (Forall2 (fun r s => exists blob, encode s = Val blob /\ r = row_of s blob)
      (rows (db s) ++ [row_of snap blob]) (snaps ++ [snap])) as Hall.
    { apply Forall2_app; [done|]. constructor; [by exists blob|constructor]. }
    destruct Hrows as [Hr|(Hpos & _ & _ & Hr)]; unfold holds; rewrite Hr; [by left|right].
    do 2 (split; [done|]). clear Hr. induction Hall as [|r x l k (b & Hb & ->) _ IH]; [constructor|].
    rewrite !filter_cons. simpl. case_decide; [constructor; [by exists b|done]|done].
Qed.

(** The rows BETWEEN selects are those in the window. *)
Lemma bounds_within from to s :
  in_int64 (TakenAt s) -> (from = zeroTime \/ in_int64 from) -> (to = zeroTime \/ in_int64 to) ->
  (if IsZero from then MinInt64 else UnixNano from) <= UnixNano (TakenAt s) <=
    (if IsZero to then MaxInt64 else UnixNano to) <-> within from to s.
Proof.
  intros Hs Hf Ht. rewrite (UnixNano_id (TakenAt s)) by done. unfold within, IsZero.
  destruct (Z.eqb_spec from zeroTime), (Z.eqb_spec to zeroTime);
    rewrite ?(UnixNano_id from), ?(UnixNano_id to) by tauto;
    unfold in_int64, MinInt64, MaxInt64 in *; lia.
Qed.

Lemma timeline_rows from to rs snaps :
  Forall2 (fun r s => exists blob, encode s = Val blob /\ r = row_of s blob) rs snaps ->
  Forall (fun s => in_int64 (TakenAt s)) snaps ->
  (from = zeroTime \/ in_int64 from) -> (to = zeroTime \/ in_int64 to) ->
  meta_of_row <$> filter (fun r => (if IsZero from then MinInt64 else UnixNano from) <=
    row_taken_at r <= (if IsZero to then MaxInt64 else UnixNano to)) rs = timeline from to snaps.
Proof.
  intros H2 Hi Hf Ht. unfold timeline. induction H2 as [|r s rs snaps (b & _ & ->) _ IH]; [done|].
  apply Forall_cons in Hi as [Hs Hi]. specialize (IH Hi). rewrite !filter_cons.
  pose proof (bounds_within from to s Hs Hf Ht) as Hb. change (row_taken_at (row_of s b)) with (UnixNano (TakenAt s)).
  do 2 case_decide; try tauto. rewrite !fmap_cons, IH. f_equal.
  unfold meta_of_row. simpl. by rewrite Unix0_UnixNano.
Qed.

(** C35: the durable timeline is the timeline of what was saved: over a table
    that holds a list of snapshots, with times a 64-bit nanosecond count can
    express and a window whose bounds are such times or absent, [History] returns
    the summaries of exactly the snapshots in the window, each as often as it was
    saved, oldest first; snapshots of the same time in any order. *)
Theorem persist_History_timeline (s : SQLite) (snaps : list Snapshot) (from to : Time) (metas : list Meta)
    (Hh : holds (db s) snaps) (Hi : Forall (fun x => in_int64 (TakenAt x)) snaps)
    (Hf : from = zeroTime \/ in_int64 from) (Ht : to = zeroTime \/ in_int64 to)
    (HH : sqlite_History s from to = Val metas) :
  metas ≡ₚ timeline from to snaps /\ Sorted (fun a b => meta_TakenAt a <= meta_TakenAt b) metas.
Proof.
  unfold sqlite_History in HH. destruct (tbl_between _ _ _) as [rs|] eqn:Hb; [|discriminate].
  injection HH as <-. destruct (between_rows _ _ _ _ Hb) as [Hp Hs].
  rewrite <-(timeline_rows from to _ _ Hh Hi Hf Ht). split; [by rewrite Hp|].
  eapply Sorted_fmap; [|exact Hs]. done.
Qed.
End sqlite.
Arguments SQLite : clear implicits.

(** ** A table kept as a list

    The laws can hold: rows in insertion order, every statement succeeds. *)
Section list_table.
Context {Blob : Type}.

Fixpoint argmin {A} (f : A -> Z) (l : list A) : option A :=
  match l with
  | [] => None
  | x :: l =>
      match argmin f l with
      | None => Some x
      | Some y => if f y <? f x then Some y else Some x
      end
  end.

Lemma argmin_spec {A} (f : A -> Z) l :
  match argmin f l with
  | None => l = []
  | Some x => x ∈ l /\ forall y, y ∈ l -> f x <= f y
  end.
Proof.
  induction l as [|x l IH]; simpl; [done|].
  destruct (argmin f l) as [y|].
  - destruct IH as [Hin Hmin]. destruct (Z.ltb_spec (f y) (f x)).
    + split; [by right|]. intros z [->|Hz]%elem_of_cons; [lia|by apply Hmin].
    + split; [by left|]. intros z [->|Hz]%elem_of_cons; [lia|]. specialize (Hmin z Hz). lia.
  - subst l. split; [by left|]. intros z [->|Hz]%elem_of_cons; [lia|by apply elem_of_nil in Hz].
Qed.

#[export] Instance earlier_row_dec : RelDecision (@earlier_row Blob).
Proof. intros a b. unfold earlier_row. apply _. Defined.

#[export] Instance list_table : SnapshotTable (list (Row Blob)) Blob := {|
  tbl_insert d r := (d ++ [r], None);
  tbl_floor d t := Val (argmin (fun r => - row_taken_at r) (filter (fun r => row_taken_at r <= t) d));
  tbl_ceiling d t := Val (argmin row_taken_at (filter (fun r => t <= row_taken_at r) d));
  tbl_between d lo hi := Val (merge_sort earlier_row (filter (fun r => lo <= row_taken_at r <= hi) d));
  tbl_delete_before d cutoff := (filter (fun r => cutoff <= row_taken_at r) d, None)
|}.

#[export] Program Instance list_table_laws : SnapshotTableLaws (list (Row Blob)) Blob := {|
  rows d := d
|}.
Next Obligation. done. Qed.
Next Obligation.
  intros d t o [= <-]. pose proof (argmin_spec (fun r => - row_taken_at r)
    (filter (fun r : Row Blob => row_taken_at r <= t) d)) as H.
  destruct (argmin _ _) as [b|].
  - destruct H as [Hin%list_elem_of_filter Hmin]. do 2 (split; [tauto|]). intros r Hr Hle.
    specialize (Hmin r). rewrite list_elem_of_filter in Hmin. specialize (Hmin ltac:(done)). lia.
  - intros r Hr. apply Z.nle_gt. intros Hle.
    eapply filter_nil_not_elem_of; [exact H|exact Hle|exact Hr].
Qed.
Next Obligation.
  intros d t o [= <-]. pose proof (argmin_spec row_taken_at
    (filter (fun r : Row Blob => t <= row_taken_at r) d)) as H.
  destruct (argmin _ _) as [b|].
  - destruct H as [Hin%list_elem_of_filter Hmin]. do 2 (split; [tauto|]). intros r Hr Hle.
    apply Hmin. by apply list_elem_of_filter.
  - intros r Hr. apply Z.nle_gt. intros Hle.
    eapply filter_nil_not_elem_of; [exact H|exact Hle|exact Hr].
Qed.
Next Obligation.
  intros d lo hi l [= <-]. split; [apply merge_sort_Permutation|].
  apply Sorted_merge_sort. intros a b. unfold earlier_row. lia.
Qed.
Next Obligation. done. Qed.
End list_table.

(** A codec that cannot fail, for the witnesses. *)
#[export] Instance plain_codec : Codec Snapshot Snapshot := {|
  json_Marshal := Val;
  json_Unmarshal := Val;
  gzip_writer := option Snapshot;
  gzip_NewWriter := None;
  gzip_Write _ raw := Val (Some raw);
  gzip_Close w := Val (default emptySnapshot w);
  gzip_reader := Snapshot;
  gzip_NewReader := Val;
  gzip_ReadAll := Val
|}.

#[export] Instance plain_codec_laws : CodecLaws Snapshot Snapshot.
Proof. split. intros raw w blob [= <-] [= <-]. by exists raw. Defined.

Definition snap_at (t : Time) : Snapshot := mkSnapshot "c" t ∅ [] [].
Definition saved : SQLite (list (Row Snapshot)) :=
  (sqlite_Save (sqlite_Save (newSQLite [] Minute None) (snap_at 50) 60).1 (snap_at 10) 60).1.

Lemma persist_At_nearest_witness : exists res, sqlite_At saved 20 = Val res /\
  ((rows (db saved) = [] /\ res = (emptySnapshot, false)) \/
   exists r, r ∈ rows (db saved) /\ decode (row_data r) = Val res.1 /\ res.2 = true /\
    forall r', r' ∈ rows (db saved) -> Z.abs (row_taken_at r - 20) <= Z.abs (row_taken_at r' - 20)).
Proof.
  exists (snap_at 10, true). split; [vm_compute; reflexivity|]. apply persist_At_nearest.
  - vm_compute. split; discriminate.
  - repeat constructor.
  - vm_compute. reflexivity.
Defined.


Lemma persist_History_timeline_witness : exists metas,
  sqlite_History saved zeroTime 40 = Val metas /\
  metas ≡ₚ timeline zeroTime 40 [snap_at 50; snap_at 10] /\
  Sorted (fun a b => meta_TakenAt a <= meta_TakenAt b) metas.
Proof.
  eexists. split; [vm_compute; reflexivity|].
  apply (persist_History_timeline saved [snap_at 50; snap_at 10] zeroTime 40).
  - repeat constructor; eexists; split; reflexivity.
  - repeat constructor; vm_compute; discriminate.
  - left. reflexivity.
  - right. vm_compute. split; discriminate.
  - vm_compute. reflexivity.
Defined.

(** ** The audit table *)
Record AuditRow := mkAuditRow {
  au_at : Z;
  au_actor : string;
  au_action : string;
  au_pid : Z;
  au_victim_query : string;
  au_delivered : Z;
  au_error : string
}.

(** The two statements of audit.go. *)
Class AuditTable (A : Type) := {
  audit_insert : A -> AuditRow -> A * option string;
  audit_select : A -> Z -> Result (list AuditRow)
}.

(** ORDER BY at DESC, id DESC; the id of a row is its position. *)
Definition newer_row (a b : nat * AuditRow) : Prop :=
  au_at b.2 < au_at a.2 \/ (au_at b.2 = au_at a.2 /\ (b.1 <= a.1)%nat).

Class AuditTableLaws (A : Type) `{!AuditTable A} := {
  audit_rows : A -> list AuditRow;
  audit_insert_rows d r : match audit_insert d r with
    | (d', None) => audit_rows d' = audit_rows d ++ [r]
    | (d', Some _) => audit_rows d' = audit_rows d
    end;
  audit_select_rows d limit l : audit_select d limit = Val l ->
    exists ordered, ordered ≡ₚ imap pair (audit_rows d) /\ Sorted newer_row ordered /\
      l = take (Z.to_nat limit) ordered.*2
}.

Section audit.
Context {A : Type} `{!AuditTable A}.

Definition boolToInt (b : bool) : Z := if b then 1 else 0.

Definition audit_row_of (e : Entry) : AuditRow :=
  mkAuditRow (UnixNano (AuditTrail.At e)) (Actor e) (Action e) (PID e) (VictimQuery e)
    (boolToInt (Delivered e)) (Error e).

Definition sqlite_Record (d : A) (e : Entry) : A * option string := audit_insert d (audit_row_of e).

Definition entry_of_row (r : AuditRow) : Entry :=
  mkEntry (Unix0 (au_at r)) (au_actor r) (au_action r) (au_pid r) (au_victim_query r)
    (negb (au_delivered r =? 0)) (au_error r).

Definition sqlite_Recent (d : A) (limit : Z) : Result (list Entry) :=
  let limit := if (limit <=? 0) || (1000 <? limit) then 1000 else limit in
  match audit_select d limit with
  | Err err => Err err
  | Val rs => Val (entry_of_row <$> rs)
  end.

#[export] Instance sqlite_sink : Sink A := {|
  RecordEntry := sqlite_Record;
  AuditTrail.Recent d limit := Ok (sqlite_Recent d limit)
|}.

(** A sequence of records, each of which succeeds. *)
Fixpoint record_all (d : A) (es : list Entry) : option A :=
  match es with
  | [] => Some d
  | e :: es => match RecordEntry d e with (d', None) => record_all d' es | _ => None end
  end.

Context `{!AuditTableLaws A}.

Lemma entry_roundtrip e : in_int64 (AuditTrail.At e) -> entry_of_row (audit_row_of e) = e.
Proof.
  intros Ht. destruct e as [t ac an p q dl er]. unfold entry_of_row, audit_row_of. simpl in *.
  rewrite Unix0_UnixNano by done. by destruct dl.
Qed.

Lemma record_all_rows d es d' :
  record_all d es = Some d' -> audit_rows d' = audit_rows d ++ (audit_row_of <$> es).
Proof.
  revert d. induction es as [|e es IH]; intros d; simpl; [intros [= <-]; by rewrite app_nil_r|].
  unfold sqlite_Record. pose proof (audit_insert_rows d (audit_row_of e)) as Hi.
  destruct (audit_insert _ _) as [d1 [err|]]; [discriminate|].
  intros H. by rewrite (IH _ H), Hi, <-app_assoc.
Qed.

#[local] Instance newer_row_trans : Transitive newer_row.
Proof. intros a b c. unfold newer_row. lia. Qed.

Lemma numbered_sorted n (l : list AuditRow) :
  Sorted (fun a b => au_at a <= au_at b) l ->
  Sorted (flip newer_row) (imap (fun i r => ((n + i)%nat, r)) l).
Proof.
  intros Hs. revert n. induction Hs as [|r l Hs IH Hr]; intros n; [constructor|].
  rewrite imap_cons. constructor.
  - specialize (IH (S n)). erewrite imap_ext; [exact IH|]. intros i x _. simpl. f_equal. lia.
  - destruct Hr as [|r' l Hr]; rewrite ?imap_nil, ?imap_cons; constructor.
    unfold flip, newer_row. simpl. lia.
Qed.

(** When the clock does not go back, the newest rows are the last ones. *)
Lemma select_newest d limit l :
  Sorted (fun a b => au_at a <= au_at b) (audit_rows d) ->
  audit_select d limit = Val l -> l = take (Z.to_nat limit) (reverse (audit_rows d)).
Proof.
  intros Hs (ordered & Hp & Ho & ->)%audit_select_rows. f_equal.
  assert (ordered = reverse (imap pair (audit_rows d))) as ->.
  { eapply (Sorted_unique_strong newer_row); [|exact Ho| |by rewrite Hp, reverse_Permutation].
    - intros x y Hx Hy. rewrite Hp in Hx. rewrite elem_of_reverse in Hy.
      apply elem_of_lookup_imap in Hx as (i & r & -> & Hr), Hy as (j & r' & -> & Hr').
      unfold newer_row. simpl. intros H1 H2. assert (i = j) as -> by lia. congruence.
    - apply (Sorted_reverse (flip newer_row)). by apply (numbered_sorted 0). }
  rewrite fmap_reverse. f_equal. apply list_eq. intros i.
  rewrite list_lookup_fmap, list_lookup_imap. by destruct (audit_rows d !! i).
Qed.

(** C36: the durable audit trail is complete and in order: when every record
    succeeded and the clock did not go back, [Recent] returns the entries
    themselves, newest first, at most 1000 and at most the limit if that is
    between 1 and 1000. *)
Theorem sqlite_Recent_newest (d d' : A) (es : list Entry) (limit : Z) (l : list Entry)
    (Hnew : audit_rows d = []) (Hrec : record_all d es = Some d')
    (Ht : Forall (fun e => in_int64 (AuditTrail.At e)) es)
    (Hclock : Sorted (fun a b => AuditTrail.At a <= AuditTrail.At b) es)
    (HR : sqlite_Recent d' limit = Val l) :
  l = take (if decide (1 <= limit <= 1000) then Z.to_nat limit else 1000%nat) (reverse es).
Proof.
  pose proof (record_all_rows _ _ _ Hrec) as Hrows. rewrite Hnew in Hrows. simpl in Hrows.
  unfold sqlite_Recent in HR. destruct (audit_select _ _) as [rs|] eqn:Hsel; [|discriminate].
  injection HR as <-. apply select_newest in Hsel as ->.
  - rewrite Hrows, fmap_take, fmap_reverse, <-list_fmap_compose. f_equal; [|f_equal].
    + destruct (Z.leb_spec limit 0), (Z.ltb_spec 1000 limit); simpl; case_decide; (done || lia).
    + rewrite <-(list_fmap_id es) at 2. apply list_fmap_ext. intros i e He. simpl.
      apply entry_roundtrip. rewrite Forall_lookup in Ht. by eapply Ht.
  - rewrite Hrows. clear -Hclock Ht. induction Hclock as [|e es Hs IH He]; [constructor|].
    apply Forall_cons in Ht as [He64 Ht]. rewrite fmap_cons. constructor; [by apply IH|].
    destruct He as [|e' es He]; constructor. apply Forall_cons in Ht as [He' _].
    simpl. by rewrite !UnixNano_id.
Qed.
End audit.

(** ** Open *)
Definition schema : string := "
CREATE TABLE IF NOT EXISTS snapshots (
    id       INTEGER PRIMARY KEY AUTOINCREMENT,
    cluster  TEXT    NOT NULL,
    taken_at INTEGER NOT NULL,   -- unix nanoseconds
    roots    INTEGER NOT NULL,
    edges    INTEGER NOT NULL,
    sessions INTEGER NOT NULL,
    data     BLOB    NOT NULL    -- gzip(JSON(snapshot))
);
CREATE INDEX IF NOT EXISTS idx_snapshots_taken_at ON snapshots(taken_at);".

Definition auditSchema : string := "
CREATE TABLE IF NOT EXISTS audit (
    id           INTEGER PRIMARY KEY AUTOINCREMENT,
    at           INTEGER NOT NULL,   -- unix nanoseconds
    actor        TEXT    NOT NULL,
    action       TEXT    NOT NULL,
    pid          INTEGER NOT NULL,
    victim_query TEXT    NOT NULL,
    delivered    INTEGER NOT NULL,
    error        TEXT    NOT NULL DEFAULT ''
);
CREATE INDEX IF NOT EXISTS idx_audit_at ON audit(at);".

(** database/sql on a file: opening it, executing a statement, and the two
    tables of a database whose schema is in place. *)
Class Database (B D A : Type) := {
  sql_Open : string -> Result B;
  sql_Exec : B -> string -> B * option string;
  snapshots_of : B -> D;
  audit_of : B -> A
}.

Section open.
Context {B D A : Type} `{!Database B D A}.

Definition initAudit (b : B) : B * option string := sql_Exec b auditSchema.

(** [Open]; the handle gives access to both tables. *)
Definition Open (path : string) (retention : Duration) (log : option (list string))
    : Result (SQLite D * A) :=
  match sql_Open ("file:" +:+ path +:+
      "?_pragma=journal_mode(WAL)&_pragma=busy_timeout(5000)&_pragma=synchronous(NORMAL)") with
  | Err err => Err ("open sqlite " +:+ Quote path +:+ ": " +:+ err)
  | Val b =>
      match sql_Exec b schema with
      | (_, Some err) => Err ("init schema: " +:+ err)
      | (b, None) =>
          match initAudit b with
          | (_, Some err) => Err ("init audit schema: " +:+ err)
          | (b, None) => Val (newSQLite (snapshots_of b) retention log, audit_of b)
          end
      end
  end.
End open.

(** The audit table as a list. *)
#[export] Instance newer_row_dec : RelDecision newer_row.
Proof. intros a b. unfold newer_row. apply _. Defined.

#[export] Instance list_audit : AuditTable (list AuditRow) := {|
  audit_insert d r := (d ++ [r], None);
  audit_select d limit := Val (take (Z.to_nat limit) (merge_sort newer_row (imap pair d)).*2)
|}.

#[export] Program Instance list_audit_laws : AuditTableLaws (list AuditRow) := {|
  audit_rows d := d
|}.
Next Obligation. done. Qed.
Next Obligation.
  intros d limit l [= <-]. exists (merge_sort newer_row (imap pair d)).
  split; [apply merge_sort_Permutation|]. split; [|done].
  apply Sorted_merge_sort. intros a b. unfold newer_row. lia.
Qed.

Definition audit_trail : list Entry :=
  [mkEntry 10 "alice" "cancel" 7 "q" true ""; mkEntry 10 "bob" "terminate" 8 "" false "failed"].

Lemma sqlite_Recent_newest_witness : exists d l,
  record_all ([] : list AuditRow) audit_trail = Some d /\ sqlite_Recent d 1 = Val l /\
  l = take (if decide (1 <= 1 <= 1000) then Z.to_nat 1 else 1000%nat) (reverse audit_trail).
Proof.
  eexists. eexists. split; [vm_compute; reflexivity|]. split; [vm_compute; reflexivity|].
  eapply (sqlite_Recent_newest [] _ audit_trail 1).
  - reflexivity.
  - vm_compute. reflexivity.
  - repeat constructor; vm_compute; discriminate.
  - repeat constructor; vm_compute; discriminate.
  - vm_compute. reflexivity.
Defined.
