(* ===== verification/SqlDB.v ===== *)
(** * database/sql: the handle of the history file, which can be closed

    A [*sql.DB] of package database/sql gives access to a database until it is
    closed; after [Close] every statement fails with the same error and none
    reaches the database.  The two tables of [Persist.v] share one handle, which
    [SQLite.Close] closes for both. *)
From S2P Require Import Prelude GoRuntime Graph AuditTrail Persist.
Local Open Scope Z_scope.

Record DB (X : Type) := mkDB { h_conn : X; h_closed : bool }.
Arguments mkDB {X}.
Arguments h_conn {X}.
Arguments h_closed {X}.

Definition errDBClosed : string := "sql: database is closed".

Definition handle_Close {X} (h : DB X) : DB X := mkDB (h_conn h) true.

Section handle.
Context {X : Type}.

(** A statement that writes, and one that reads. *)
Definition exec (h : DB X) (stmt : X -> X * option string) : DB X * option string :=
  if h_closed h then (h, Some errDBClosed)
  else let '(x, err) := stmt (h_conn h) in (mkDB x false, err).

Definition query {T} (h : DB X) (stmt : X -> Result T) : Result T :=
  if h_closed h then Err errDBClosed else stmt (h_conn h).

(** Either the statement was run or nothing happened. *)
Lemma exec_cases h stmt :
  (h_closed h = true /\ exec h stmt = (h, Some errDBClosed)) \/
  (h_closed h = false /\ exec h stmt = (mkDB (stmt (h_conn h)).1 false, (stmt (h_conn h)).2)).
Proof. unfold exec. destruct (h_closed h); [by left|right]. by destruct (stmt (h_conn h)). Qed.

Lemma query_open {T} h (stmt : X -> Result T) v : query h stmt = Val v -> stmt (h_conn h) = Val v.
Proof. unfold query. by destruct (h_closed h). Qed.
End handle.

(** ** The tables behind a handle *)
Section tables.
Context {D Raw Blob A : Type} `{!SnapshotTable D Blob} `{!Codec Raw Blob} `{!AuditTable A}.

#[export] Instance handle_table : SnapshotTable (DB D) Blob := {|
  tbl_insert h r := exec h (fun d => tbl_insert d r);
  tbl_floor h t := query h (fun d => tbl_floor d t);
  tbl_ceiling h t := query h (fun d => tbl_ceiling d t);
  tbl_between h lo hi := query h (fun d => tbl_between d lo hi);
  tbl_delete_before h cutoff := exec h (fun d => tbl_delete_before d cutoff)
|}.

#[export] Instance handle_audit : AuditTable (DB A) := {|
  audit_insert h r := exec h (fun a => audit_insert a r);
  audit_select h limit := query h (fun a => audit_select a limit)
|}.

(** Closing loses no row: the laws are those of the database. *)
#[export] Program Instance handle_table_laws `{!SnapshotTableLaws D Blob} : SnapshotTableLaws (DB D) Blob := {|
  rows h := rows (h_conn h)
|}.
Next Obligation.
  intros HL h r. cbn. destruct (exec_cases h (fun d => tbl_insert d r)) as [[_ ->]|[_ ->]]; [done|].
  pose proof (insert_rows (h_conn h) r) as Hi. by destruct (tbl_insert (h_conn h) r) as [d [err|]].
Qed.
Next Obligation. intros HL h t o Ho%query_open. exact (floor_rows (h_conn h) t o Ho). Qed.
Next Obligation. intros HL h t o Ho%query_open. exact (ceiling_rows (h_conn h) t o Ho). Qed.
Next Obligation. intros HL h lo hi l Hl%query_open. exact (between_rows (h_conn h) lo hi l Hl). Qed.
Next Obligation.
  intros HL h cutoff. cbn. destruct (exec_cases h (fun d => tbl_delete_before d cutoff)) as [[_ ->]|[_ ->]]; [done|].
  pose proof (delete_rows (h_conn h) cutoff) as Hd. by destruct (tbl_delete_before (h_conn h) cutoff) as [d [err|]].
Qed.

#[export] Program Instance handle_audit_laws `{!AuditTableLaws A} : AuditTableLaws (DB A) := {|
  audit_rows h := audit_rows (h_conn h)
|}.
Next Obligation.
  intros HL h r. cbn. destruct (exec_cases h (fun a => audit_insert a r)) as [[_ ->]|[_ ->]]; [done|].
  pose proof (audit_insert_rows (h_conn h) r) as Hi. by destruct (audit_insert (h_conn h) r) as [a [err|]].
Qed.
Next Obligation. intros HL h limit l Hl%query_open. exact (audit_select_rows (h_conn h) limit l Hl). Qed.

(** [s.db.Close()]: the history and the audit trail go together. *)
Definition sqlite_Close (s : SQLite (DB D)) (a : DB A) : SQLite (DB D) * DB A :=
  (set_db s (handle_Close (db s)), handle_Close a).

(** *** What a closed file still does *)
Lemma closed_Save (s : SQLite (DB D)) snap now :
  h_closed (db s) = true -> exists err, sqlite_Save s snap now = (s, Some err).
Proof.
  intros Hc. unfold sqlite_Save. destruct (encode snap) as [blob|]; [|by eexists].
  cbn. unfold exec. rewrite Hc. eexists. by destruct s.
Qed.

Lemma closed_At (s : SQLite (DB D)) t : h_closed (db s) = true -> sqlite_At s t = Err errDBClosed.
Proof. intros Hc. unfold sqlite_At. cbn. unfold query. by rewrite Hc. Qed.

Lemma closed_History (s : SQLite (DB D)) from to :
  h_closed (db s) = true -> sqlite_History s from to = Err errDBClosed.
Proof. intros Hc. unfold sqlite_History. cbn. unfold query. by rewrite Hc. Qed.

Lemma closed_Record (a : DB A) e : h_closed a = true -> sqlite_Record a e = (a, Some errDBClosed).
Proof. intros Hc. unfold sqlite_Record. cbn. unfold exec. by rewrite Hc. Qed.
End tables.

(** [sql.Open] hands out an open handle. *)
#[export] Instance handle_database {B D A} `{!Database B D A} : Database B (DB D) (DB A) := {|
  sql_Open := sql_Open;
  sql_Exec := sql_Exec;
  snapshots_of b := mkDB (snapshots_of b) false;
  audit_of b := mkDB (audit_of b) false
|}.
