(* ===== verification/Setup.v ===== *)
(** * internal/setup: the provisioning script

    [Script] and [Remediation] paste an operator's role name and password into
    SQL.  The specification is a lexer for the part of SQL they use, as a state
    machine over bytes: whatever the texts contain, the script has exactly the
    intended tokens. *)
From S2P Require Import Prelude GoRuntime Utf8 GoStrings.
From Stdlib Require Import Ascii.
Local Open Scope Z_scope.

Record GrantOptions := mkGrantOptions { Role : string; Password : string; Signal : bool }.

Definition dquote : string := String (ascii_of_nat 34) EmptyString.
Definition nl : string := String (ascii_of_nat 10) EmptyString.

(** [strings.ReplaceAll(s, c, c+c)] for a one-byte [c]. *)
Fixpoint doubled (c : Z) (b : list Z) : list Z :=
  match b with
  | [] => []
  | x :: b => (if x =? c then [c; c] else [x]) ++ doubled c b
  end.

Definition double_byte (c : Z) (s : string) : string := on_bytes (doubled c) s.

Definition quoteIdent (s : string) : string := dquote +:+ double_byte 34 s +:+ dquote.
Definition quoteLiteral (s : string) : string := "'" +:+ double_byte 39 s +:+ "'".

Definition Script (o : GrantOptions) : string :=
  let role := quoteIdent (Role o) in
  "-- pglockr access role, generated by `pglockr grants`. Review before applying." +:+ nl +:+
  "-- pg_monitor lets pglockr read other backends' query texts;" +:+ nl +:+
  "-- pg_signal_backend lets it cancel/terminate them." +:+ nl +:+ nl +:+
  "CREATE ROLE " +:+ role +:+ " LOGIN PASSWORD " +:+ quoteLiteral (Password o) +:+ ";" +:+ nl +:+
  "GRANT pg_monitor TO " +:+ role +:+ ";" +:+ nl +:+
  (if Signal o
   then "GRANT pg_signal_backend TO " +:+ role +:+ ";" +:+ nl
   else "-- (read-only viewer: pg_signal_backend omitted; cancel/terminate disabled)" +:+ nl).

Definition remediation_lines (role : string) (needStats needSignal : bool) : list string :=
  let r := quoteIdent role in
  (if needStats then ["GRANT pg_monitor TO " +:+ r +:+ ";"] else []) ++
  (if needSignal then ["GRANT pg_signal_backend TO " +:+ r +:+ ";"] else []).

Definition Remediation (role : string) (needStats needSignal : bool) : string :=
  Join (remediation_lines role needStats needSignal) nl.

(** [base64.RawURLEncoding]: no padding. *)
Definition base64_digit (d : Z) : Z :=
  if d <? 26 then 65 + d else if d <? 52 then 71 + d else if d <? 62 then d - 4
  else if d =? 62 then 45 else 95.

Fixpoint base64_encode (bs : list Z) : list Z :=
  match bs with
  | [] => []
  | [a] => [base64_digit (a / 4); base64_digit (a mod 4 * 16)]
  | [a; b] => [base64_digit (a / 4); base64_digit (a mod 4 * 16 + b / 16); base64_digit (b mod 16 * 4)]
  | a :: b :: c :: bs =>
      base64_digit (a / 4) :: base64_digit (a mod 4 * 16 + b / 16) ::
      base64_digit (b mod 16 * 4 + c / 64) :: base64_digit (c mod 64) :: base64_encode bs
  end.

(** [rand] is the outcome of filling the 18-byte buffer. *)
Definition RandomPassword (rand : Result (list Z)) : Result string :=
  match rand with
  | Err err => Err err
  | Val buf => Val (string_of_bytes (base64_encode buf))
  end.

(** ** A lexer for the statements *)
Inductive Token :=
| TWord (w : list Z)      (* keywords and unquoted names *)
| TIdent (s : list Z)     (* "..." *)
| TLiteral (s : list Z)   (* '...' *)
| TSymbol (c : Z).

Inductive Mode :=
| Between
| InWord (w : list Z)
| Dash                      (* one dash seen *)
| InComment
| InQuoted (q : Z) (s : list Z)
| QuoteSeen (q : Z) (s : list Z).  (* a closing quote, or half of a doubled one *)

Definition is_word_byte (c : Z) : bool :=
  (c =? 95) || in_range 97 122 c || in_range 65 90 c || in_range 48 57 c.

Definition quoted_token (q : Z) (s : list Z) : Token :=
  if q =? 34 then TIdent s else TLiteral s.

(** A byte between tokens: the mode it starts and the tokens it completes. *)
Definition lex_between (c : Z) : Mode * list Token :=
  if (c =? 32) || (c =? 10) then (Between, [])
  else if (c =? 34) || (c =? 39) then (InQuoted c [], [])
  else if c =? 45 then (Dash, [])
  else if is_word_byte c then (InWord [c], [])
  else (Between, [TSymbol c]).

Definition lex_step (m : Mode) (c : Z) : Mode * list Token :=
  match m with
  | Between => lex_between c
  | InWord w =>
      if is_word_byte c then (InWord (w ++ [c]), [])
      else let '(m, ts) := lex_between c in (m, TWord w :: ts)
  | Dash =>
      if c =? 45 then (InComment, [])
      else let '(m, ts) := lex_between c in (m, TSymbol 45 :: ts)
  | InComment => if c =? 10 then (Between, []) else (InComment, [])
  | InQuoted q s => if c =? q then (QuoteSeen q s, []) else (InQuoted q (s ++ [c]), [])
  | QuoteSeen q s =>
      if c =? q then (InQuoted q (s ++ [q]), [])
      else let '(m, ts) := lex_between c in (m, quoted_token q s :: ts)
  end.

Fixpoint lex_bytes (m : Mode) (bs : list Z) : Mode * list Token :=
  match bs with
  | [] => (m, [])
  | c :: bs => let '(m1, ts) := lex_step m c in let '(m2, us) := lex_bytes m1 bs in (m2, ts ++ us)
  end.

(** The end of the input completes a token, unless a quote is open. *)
Definition lex_end (m : Mode) : option (list Token) :=
  match m with
  | Between | InComment => Some []
  | InWord w => Some [TWord w]
  | Dash => Some [TSymbol 45]
  | InQuoted _ _ => None
  | QuoteSeen q s => Some [quoted_token q s]
  end.

Definition tokens (sql : string) : option (list Token) :=
  let '(m, ts) := lex_bytes Between (bytes_of_string sql) in
  (fun us => ts ++ us) <$> lex_end m.

Lemma lex_bytes_app m a b :
  lex_bytes m (a ++ b) =
  let '(m1, ts) := lex_bytes m a in let '(m2, us) := lex_bytes m1 b in (m2, ts ++ us).
Proof.
  revert m. induction a as [|c a IH]; intros m; simpl; [by destruct (lex_bytes m b)|].
  destruct (lex_step m c) as [m1 ts]. rewrite IH. destruct (lex_bytes m1 a) as [m2 us].
  destruct (lex_bytes m2 b) as [m3 vs]. by rewrite app_assoc.
Qed.

(** A doubled text inside quotes is read back as it was. *)
Lemma lex_doubled q s acc :
  lex_bytes (InQuoted q acc) (doubled q s) = (InQuoted q (acc ++ s), []).
Proof.
  revert acc. induction s as [|c s IH]; intros acc; [by rewrite app_nil_r|].
  cbn [doubled]. rewrite lex_bytes_app. destruct (Z.eqb_spec c q) as [->|Hc].
  - cbn. rewrite Z.eqb_refl. cbn. rewrite Z.eqb_refl. cbn. rewrite IH. by rewrite <-app_assoc.
  - simpl. destruct (Z.eqb_spec c q); [done|]. simpl. rewrite IH. by rewrite <-app_assoc.
Qed.

Lemma doubled_bytes c b :
  0 <= c < 256 -> Forall (fun x => 0 <= x < 256) b -> Forall (fun x => 0 <= x < 256) (doubled c b).
Proof.
  intros Hc. induction 1 as [|x b Hx Hb IH]; [constructor|]. simpl. apply Forall_app_2; [|done].
  case_match; repeat constructor; lia.
Qed.

Lemma bytes_quoteIdent s : bytes_of_string (quoteIdent s) = 34 :: doubled 34 (bytes_of_string s) ++ [34].
Proof.
  unfold quoteIdent, double_byte, on_bytes. rewrite !bytes_of_string_app, bytes_of_string_of_bytes; [done|].
  apply doubled_bytes; [lia|apply bytes_of_string_bytes].
Qed.

Lemma bytes_quoteLiteral s : bytes_of_string (quoteLiteral s) = 39 :: doubled 39 (bytes_of_string s) ++ [39].
Proof.
  unfold quoteLiteral, double_byte, on_bytes. rewrite !bytes_of_string_app, bytes_of_string_of_bytes; [done|].
  apply doubled_bytes; [lia|apply bytes_of_string_bytes].
Qed.

(** A quoted text, followed by anything but its own quote. *)
Lemma lex_quoted q s rest c :
  c <> q -> (q = 34 \/ q = 39) ->
  lex_bytes Between ((q :: doubled q s ++ [q]) ++ c :: rest) =
  let '(m, ts) := lex_bytes Between (c :: rest) in (m, quoted_token q s :: ts).
Proof.
  intros Hc Hq.
  assert (lex_bytes Between (q :: doubled q s ++ [q]) = (QuoteSeen q s, [])) as Hs.
  { rewrite app_comm_cons. change (q :: doubled q s) with ([q] ++ doubled q s).
    rewrite lex_bytes_app, lex_bytes_app.
    assert (lex_bytes Between [q] = (InQuoted q [], [])) as -> by (destruct Hq as [->| ->]; reflexivity).
    rewrite lex_doubled. simpl. by rewrite Z.eqb_refl. }
  rewrite lex_bytes_app, Hs. simpl. destruct (Z.eqb_spec c q); [done|].
  destruct (lex_between c) as [m ts]. by destruct (lex_bytes m rest).
Qed.

(** ** Composing statements *)
Definition lexes (s : string) (ts : list Token) : Prop :=
  lex_bytes Between (bytes_of_string s) = (Between, ts).

Lemma lexes_app a b ts us : lexes a ts -> lexes b us -> lexes (a +:+ b) (ts ++ us).
Proof. unfold lexes. intros Ha Hb. by rewrite bytes_of_string_app, lex_bytes_app, Ha, Hb. Qed.

Lemma lexes_quoted qs q s k c k' ts :
  bytes_of_string qs = q :: doubled q (bytes_of_string s) ++ [q] -> q = 34 \/ q = 39 ->
  bytes_of_string k = c :: k' -> c <> q -> lexes k ts ->
  lexes (qs +:+ k) (quoted_token q (bytes_of_string s) :: ts).
Proof.
  unfold lexes. intros Hqs Hq Hk Hc Ht.
  by rewrite bytes_of_string_app, Hqs, Hk, lex_quoted, <-Hk, Ht by done.
Qed.

Lemma lexes_ident s k c k' ts :
  bytes_of_string k = c :: k' -> c <> 34 -> lexes k ts ->
  lexes (quoteIdent s +:+ k) (TIdent (bytes_of_string s) :: ts).
Proof.
  intros Hk Hc Ht. eapply (lexes_quoted _ 34); eauto using bytes_quoteIdent.
Qed.

Lemma lexes_literal s k c k' ts :
  bytes_of_string k = c :: k' -> c <> 39 -> lexes k ts ->
  lexes (quoteLiteral s +:+ k) (TLiteral (bytes_of_string s) :: ts).
Proof.
  intros Hk Hc Ht. eapply (lexes_quoted _ 39); eauto using bytes_quoteLiteral.
Qed.

Lemma lexes_tokens s ts : lexes s ts -> tokens s = Some ts.
Proof. unfold lexes, tokens. intros ->. simpl. by rewrite app_nil_r. Qed.

Definition word (w : string) : Token := TWord (bytes_of_string w).
Definition semicolon : Token := TSymbol 59.

(** [GRANT privilege TO "role";] *)
Definition grant_tokens (privilege role : string) : list Token :=
  [word "GRANT"; word privilege; word "TO"; TIdent (bytes_of_string role); semicolon].

Definition grant_line (privilege role rest : string) : string :=
  ("GRANT " +:+ privilege +:+ " TO ") +:+ (quoteIdent role +:+ (";" +:+ rest)).

Lemma lexes_grant privilege role rest ts :
  lexes ("GRANT " +:+ privilege +:+ " TO ") [word "GRANT"; word privilege; word "TO"] ->
  lexes (";" +:+ rest) (semicolon :: ts) ->
  lexes (grant_line privilege role rest) (grant_tokens privilege role ++ ts).
Proof.
  intros Hg Hr. unfold grant_line, grant_tokens.
  apply (lexes_app _ _ [_; _; _]); [done|]. eapply (lexes_ident role _ 59); [reflexivity|done|done].
Qed.

Definition script_tokens (o : GrantOptions) : list Token :=
  [word "CREATE"; word "ROLE"; TIdent (bytes_of_string (Role o)); word "LOGIN"; word "PASSWORD";
   TLiteral (bytes_of_string (Password o)); semicolon] ++
  grant_tokens "pg_monitor" (Role o) ++
  (if Signal o then grant_tokens "pg_signal_backend" (Role o) else []).

Definition script_header : string :=
  "-- pglockr access role, generated by `pglockr grants`. Review before applying." +:+ nl +:+
  "-- pg_monitor lets pglockr read other backends' query texts;" +:+ nl +:+
  "-- pg_signal_backend lets it cancel/terminate them." +:+ nl +:+ nl +:+ "CREATE ROLE ".

Definition script_tail (o : GrantOptions) : string :=
  if Signal o then grant_line "pg_signal_backend" (Role o) nl
  else "-- (read-only viewer: pg_signal_backend omitted; cancel/terminate disabled)" +:+ nl.

Lemma Script_pieces o :
  Script o = script_header +:+ (quoteIdent (Role o) +:+ " LOGIN PASSWORD ") +:+
    (quoteLiteral (Password o) +:+ (";" +:+ nl)) +:+
    grant_line "pg_monitor" (Role o) nl +:+ script_tail o.
Proof.
  apply bytes_of_string_inj. unfold Script, script_header, script_tail, grant_line.
  destruct (Signal o); rewrite !bytes_of_string_app; rewrite <-!app_assoc; reflexivity.
Qed.

Lemma bytes_Join l sep : bytes_of_string (Join l sep) = join_bytes (bytes_of_string <$> l) (bytes_of_string sep).
Proof.
  unfold Join. apply bytes_of_string_of_bytes. induction l as [|x [|y l] IH]; [constructor| |].
  - apply bytes_of_string_bytes.
  - cbn [fmap list_fmap join_bytes]. repeat apply Forall_app_2; try apply bytes_of_string_bytes. exact IH.
Qed.

Lemma Remediation_pieces role needStats needSignal :
  Remediation role needStats needSignal =
  (if needStats then grant_line "pg_monitor" role (if needSignal then nl else "") else "") +:+
  (if needSignal then grant_line "pg_signal_backend" role "" else "").
Proof.
  apply bytes_of_string_inj. unfold Remediation, remediation_lines, grant_line. rewrite bytes_Join.
  destruct needStats, needSignal; cbn [app fmap list_fmap join_bytes];
    rewrite ?bytes_of_string_app; rewrite <-?app_assoc; rewrite ?app_nil_r; reflexivity.
Qed.

(** The generated SQL says what it should, whatever the texts contain:
    read by the lexer, the provisioning script consists of the role creation
    with exactly the given name and password, the monitoring grant, and the
    signalling grant when asked for; the remediation consists of the missing
    grants. *)
Lemma Script_tokens (o : GrantOptions) :
  tokens (Script o) = Some (script_tokens o) /\
  forall needStats needSignal, tokens (Remediation (Role o) needStats needSignal) =
    Some ((if needStats then grant_tokens "pg_monitor" (Role o) else []) ++
          (if needSignal then grant_tokens "pg_signal_backend" (Role o) else [])).
Proof.
  assert (forall rest ts, lexes (";" +:+ rest) (semicolon :: ts) ->
    lexes (grant_line "pg_monitor" (Role o) rest) (grant_tokens "pg_monitor" (Role o) ++ ts) /\
    lexes (grant_line "pg_signal_backend" (Role o) rest) (grant_tokens "pg_signal_backend" (Role o) ++ ts))
    as Hgrant by (intros rest ts H; split; apply lexes_grant; done).
  destruct (Hgrant nl []) as [Hmon Hsig]; [done|]. rewrite !app_nil_r in Hmon, Hsig. split.
  - apply lexes_tokens. rewrite Script_pieces. unfold script_tokens.
    apply (lexes_app _ _ [word "CREATE"; word "ROLE"]); [reflexivity|].
    apply (lexes_app _ _ [TIdent _; _; _]); [by eapply (lexes_ident _ _ 32)|].
    apply (lexes_app _ _ [TLiteral _; _]); [by eapply (lexes_literal _ _ 59)|].
    apply lexes_app; [done|]. unfold script_tail. by destruct (Signal o).
  - intros needStats needSignal. apply lexes_tokens.
    destruct (Hgrant "" []) as [Hmon' Hsig']; [done|]. rewrite !app_nil_r in Hmon', Hsig'.
    rewrite Remediation_pieces. apply lexes_app; destruct needStats, needSignal; done.
Qed.

Example Script_hostile :
  tokens (Script (mkGrantOptions ("ro" +:+ dquote +:+ "; DROP TABLE x;--") "p'w" false)) =
  Some ([word "CREATE"; word "ROLE"; TIdent (bytes_of_string ("ro" +:+ dquote +:+ "; DROP TABLE x;--"));
         word "LOGIN"; word "PASSWORD"; TLiteral (bytes_of_string "p'w"); semicolon] ++
        grant_tokens "pg_monitor" ("ro" +:+ dquote +:+ "; DROP TABLE x;--")).
Proof. vm_compute. reflexivity. Qed.

(** ** The random password *)
Lemma base64_safe bs :
  Forall (fun b => 0 <= b < 256) bs ->
  Forall (fun c => is_word_byte c = true \/ c = 45) (base64_encode bs).
Proof.
  assert (forall d, 0 <= d < 64 -> is_word_byte (base64_digit d) = true \/ base64_digit d = 45) as Hd.
  { intros d Hd. unfold base64_digit, is_word_byte, in_range.
    destruct (Z.ltb_spec d 26); [left; lia|]. destruct (Z.ltb_spec d 52); [left; lia|].
    destruct (Z.ltb_spec d 62); [left; lia|]. destruct (Z.eqb_spec d 62); [by right|left; lia]. }
  assert (forall n bs, (List.length bs <= n)%nat -> Forall (fun b => 0 <= b < 256) bs ->
    Forall (fun c => is_word_byte c = true \/ c = 45) (base64_encode bs)) as H.
  { induction n as [|n IH]; intros l Hl Hb; [destruct l; [constructor|simpl in Hl; lia]|].
    destruct l as [|a [|b [|c l]]]; cbn [base64_encode]; [constructor| | |];
      repeat (apply Forall_cons in Hb as [? Hb]);
      repeat (apply Forall_cons; split); try (apply Hd; zify_div; lia); try constructor.
    apply IH; [simpl in Hl; lia|done]. }
  by apply (H (List.length bs)).
Qed.

(** The password needs no quoting: no quote or backslash, 24 characters. *)
Lemma RandomPassword_safe buf pw :
  List.length buf = 18%nat -> Forall (fun b => 0 <= b < 256) buf -> RandomPassword (Val buf) = Val pw ->
  Forall (fun c => is_word_byte c = true \/ c = 45) (bytes_of_string pw) /\
  List.length (bytes_of_string pw) = 24%nat.
Proof.
  intros Hl Hb [= <-]. pose proof (base64_safe buf Hb) as Hs.
  rewrite bytes_of_string_of_bytes.
  - split; [done|]. do 18 (destruct buf as [|? buf]; [done|]). by destruct buf.
  - eapply Forall_impl; [exact Hs|]. intros c. unfold is_word_byte, in_range. simpl. lia.
Qed.
