(* ===== verification/Config.v ===== *)
(** * internal/config: loading and validating the configuration

    [Load] with its inputs as arguments: the environment, the outcome of
    reading the file, and the YAML decoder (a library: a parameter that fills
    the fields it finds into the configuration it is given). *)
From S2P Require Import Prelude GoRuntime Utf8 GoStrings.
Local Open Scope Z_scope.

Record RedactionConfig := mkRedactionConfig { RedactionEnabled : bool }.
Record PersistConfig := mkPersistConfig { PersistEnabled : bool; PersistPath : string; Retention : Duration }.
Record ClusterConfig := mkClusterConfig { ClusterName : string; DSN : string }.
Record PollConfig := mkPollConfig {
  Interval : Duration; RingSize : Z; StatementTimeout : Duration; WaitersOnly : bool
}.
Record HTTPConfig := mkHTTPConfig { Addr : string }.
Record PrincipalConfig := mkPrincipalConfig {
  pc_Name : string; pc_Role : string; TokenEnv : string; pc_Token : string
}.
Record RoleMappingConfig := mkRoleMappingConfig { rm_Group : string; rm_Role : string }.
Record ProxyAuthConfig := mkProxyAuthConfig {
  UserHeader : string;
  GroupsHeader : string;
  GroupsSep : string;
  TrustMode : string;
  SecretHeader : string;
  SecretEnv : string;
  Secret : string;
  DefaultRole : string;
  RoleMappings : list RoleMappingConfig
}.
Record AuthConfig := mkAuthConfig {
  Mode : string;
  Token : string;
  Principals : list PrincipalConfig;
  Proxy : ProxyAuthConfig
}.
Record Config := mkConfig {
  Cluster : ClusterConfig;
  Poll : PollConfig;
  HTTP : HTTPConfig;
  Auth : AuthConfig;
  Persist : PersistConfig;
  Redaction : RedactionConfig
}.

Definition noProxy : ProxyAuthConfig := mkProxyAuthConfig "" "" "" "" "" "" "" "" [].

Definition Defaults : Config :=
  mkConfig (mkClusterConfig "default" "")
    (mkPollConfig Second 300 (3 * Second) false)
    (mkHTTPConfig ":8080")
    (mkAuthConfig "" "" [] noProxy)
    (mkPersistConfig false "" (24 * Hour))
    (mkRedactionConfig false).

(** [v] unless it is empty. *)
Definition orElse (v dflt : string) : string := if bool_decide (v = "") then dflt else v.

(** [strings.EqualFold(v, t)] for an ASCII [t] whose letters have no other
    case variants in Unicode. *)
Definition EqualFoldASCII (v t : string) : bool :=
  bool_decide (lower_byte <$> bytes_of_string v = lower_byte <$> bytes_of_string t).

(** ** Environment overrides *)
Definition EnvDSN := "PGLOCKR_DSN".
Definition EnvToken := "PGLOCKR_TOKEN".
Definition EnvHTTPAddr := "PGLOCKR_HTTP_ADDR".
Definition EnvCluster := "PGLOCKR_CLUSTER".
Definition EnvDBPath := "PGLOCKR_DB_PATH".
Definition EnvRedact := "PGLOCKR_REDACT".

Definition resolve_principal (Getenv : string -> string) (p : PrincipalConfig) : PrincipalConfig :=
  if bool_decide (TokenEnv p = "") then p
  else mkPrincipalConfig (pc_Name p) (pc_Role p) (TokenEnv p) (Getenv (TokenEnv p)).

Definition resolve_proxy (Getenv : string -> string) (px : ProxyAuthConfig) : ProxyAuthConfig :=
  if bool_decide (SecretEnv px = "") then px
  else mkProxyAuthConfig (UserHeader px) (GroupsHeader px) (GroupsSep px) (TrustMode px)
         (SecretHeader px) (SecretEnv px) (Getenv (SecretEnv px)) (DefaultRole px) (RoleMappings px).

Definition apply_env (Getenv : string -> string) (cfg : Config) : Config :=
  let db := Getenv EnvDBPath in
  let redact := Getenv EnvRedact in
  mkConfig
    (mkClusterConfig (orElse (Getenv EnvCluster) (ClusterName (Cluster cfg))) (Getenv EnvDSN))
    (Poll cfg)
    (mkHTTPConfig (orElse (Getenv EnvHTTPAddr) (Addr (HTTP cfg))))
    (mkAuthConfig (Mode (Auth cfg)) (Getenv EnvToken)
       (resolve_principal Getenv <$> Principals (Auth cfg)) (resolve_proxy Getenv (Proxy (Auth cfg))))
    (if bool_decide (db = "") then Persist cfg
     else mkPersistConfig true db (Retention (Persist cfg)))
    (if bool_decide (redact = "1"%string) || EqualFoldASCII redact "true"
     then mkRedactionConfig true else Redaction cfg).

(** ** Defaults *)
Definition proxy_defaults (px : ProxyAuthConfig) : ProxyAuthConfig :=
  mkProxyAuthConfig (orElse (UserHeader px) "X-Auth-Request-Email")
    (orElse (GroupsHeader px) "X-Auth-Request-Groups")
    (orElse (GroupsSep px) ",")
    (orElse (TrustMode px) "secret")
    (orElse (SecretHeader px) "X-Pglockr-Proxy-Secret")
    (SecretEnv px) (Secret px) (DefaultRole px) (RoleMappings px).

Definition auth_defaults (a : AuthConfig) : AuthConfig :=
  let mode := orElse (Mode a) "token" in
  mkAuthConfig mode (Token a) (Principals a)
    (if bool_decide (mode = "proxy"%string) then proxy_defaults (Proxy a) else Proxy a).

Definition positive_or (x dflt : Z) : Z := if x <=? 0 then dflt else x.

Definition apply_defaults (cfg : Config) : Config :=
  let d := Defaults in
  mkConfig
    (mkClusterConfig (orElse (ClusterName (Cluster cfg)) (ClusterName (Cluster d))) (DSN (Cluster cfg)))
    (mkPollConfig (positive_or (Interval (Poll cfg)) (Interval (Poll d)))
       (positive_or (RingSize (Poll cfg)) (RingSize (Poll d)))
       (positive_or (StatementTimeout (Poll cfg)) (StatementTimeout (Poll d)))
       (WaitersOnly (Poll cfg)))
    (mkHTTPConfig (orElse (Addr (HTTP cfg)) (Addr (HTTP d))))
    (auth_defaults (Auth cfg))
    (mkPersistConfig (PersistEnabled (Persist cfg)) (PersistPath (Persist cfg))
       (positive_or (Retention (Persist cfg)) (Retention (Persist d))))
    (Redaction cfg).

(** ** Validation *)
Definition validRoles (r : string) : bool :=
  bool_decide (r ∈ ["viewer"; "operator"; "admin"]%string).

Definition check_principal (i : nat) (p : PrincipalConfig) : option string :=
  let at_ := "auth.principals[" +:+ Itoa (Z.of_nat i) +:+ "]" in
  if bool_decide (pc_Name p = "") then Some (at_ +:+ ": name is required") else
  let at_ := at_ +:+ " (" +:+ pc_Name p +:+ ")" in
  if negb (validRoles (pc_Role p))
  then Some (at_ +:+ ": invalid role " +:+ Quote (pc_Role p) +:+ " (want viewer|operator|admin)") else
  if bool_decide (TokenEnv p = "") then Some (at_ +:+ ": tokenEnv is required") else
  if bool_decide (pc_Token p = "") then Some (at_ +:+ ": env " +:+ TokenEnv p +:+ " is empty") else
  None.

Definition check_mapping (i : nat) (m : RoleMappingConfig) : option string :=
  if bool_decide (rm_Group m = "") || negb (validRoles (rm_Role m))
  then Some ("auth.proxy.roleMappings[" +:+ Itoa (Z.of_nat i) +:+ "]: need group and a valid role, got group=" +:+
             Quote (rm_Group m) +:+ " role=" +:+ Quote (rm_Role m))
  else None.

(** The first error of a loop over a slice. *)
Fixpoint first_error {A} (check : nat -> A -> option string) (i : nat) (l : list A) : option string :=
  match l with
  | [] => None
  | x :: l => match check i x with Some e => Some e | None => first_error check (S i) l end
  end.

Definition validateTokenAuth (c : Config) : option string :=
  if bool_decide (Token (Auth c) = "") && (length (Principals (Auth c)) =? 0)%nat
  then Some "no auth configured: set PGLOCKR_TOKEN or define auth.principals"%string
  else first_error check_principal 0 (Principals (Auth c)).

Definition check_trust (px : ProxyAuthConfig) : option string :=
  if bool_decide (TrustMode px = "secret"%string) then
    if bool_decide (SecretEnv px = "") then Some "auth.proxy: trustMode 'secret' requires secretEnv"%string
    else if bool_decide (Secret px = "")
    then Some ("auth.proxy: env " +:+ SecretEnv px +:+ " (secret) is empty") else None
  else if bool_decide (TrustMode px = "network"%string) then None
  else Some ("auth.proxy.trustMode " +:+ Quote (TrustMode px) +:+ " invalid (want secret|network)").

Definition validateProxyAuth (c : Config) : option string :=
  let px := Proxy (Auth c) in
  match check_trust px with
  | Some e => Some e
  | None =>
      if (length (RoleMappings px) =? 0)%nat && bool_decide (DefaultRole px = "")
      then Some "auth.proxy: define roleMappings or a defaultRole"%string
      else match first_error check_mapping 0 (RoleMappings px) with
           | Some e => Some e
           | None =>
               if negb (bool_decide (DefaultRole px = "")) && negb (validRoles (DefaultRole px))
               then Some ("auth.proxy.defaultRole " +:+ Quote (DefaultRole px) +:+ " invalid")
               else None
           end
  end.

Definition validate_auth (c : Config) : option string :=
  if bool_decide (Mode (Auth c) = "token"%string) then validateTokenAuth c
  else if bool_decide (Mode (Auth c) = "proxy"%string) then validateProxyAuth c
  else Some ("auth.mode " +:+ Quote (Mode (Auth c)) +:+ " invalid (want token|proxy)").

Definition validate (c : Config) : option string :=
  if bool_decide (DSN (Cluster c) = "") then Some "PGLOCKR_DSN must be set (target database DSN)"%string else
  match validate_auth c with
  | Some e => Some e
  | None =>
      if PersistEnabled (Persist c) && bool_decide (PersistPath (Persist c) = "")
      then Some "persistence enabled but no path set (PGLOCKR_DB_PATH)"%string else None
  end.

(** ** Load *)
Section load.
Context (Getenv : string -> string) (ReadFile : string -> Result string).
Context (Unmarshal : string -> Config -> Result Config).

Definition read_config (path : string) : Result Config :=
  if bool_decide (path = "") then Val Defaults else
  match ReadFile path with
  | Err err => Err ("read config " +:+ Quote path +:+ ": " +:+ err)
  | Val raw =>
      match Unmarshal raw Defaults with
      | Err err => Err ("parse config " +:+ Quote path +:+ ": " +:+ err)
      | Val cfg => Val cfg
      end
  end.

Definition Load (path : string) : Result Config :=
  match read_config path with
  | Err err => Err err
  | Val cfg =>
      let cfg := apply_defaults (apply_env Getenv cfg) in
      match validate cfg with
      | Some err => Err err
      | None => Val cfg
      end
  end.
End load.
