(* ===== verification/Main.v ===== *)
(** * cmd/pglockr: from the configuration to the identity source

    [buildIdentity] and [buildProxyIdentity] of [main.go], and what startup
    relies on: a configuration that loads always builds, and builds an identity
    source that hands out valid roles only. *)
From S2P Require Import Prelude GoRuntime Utf8 GoStrings Auth Config.
Local Open Scope Z_scope.

Inductive AnyIdentity := IdToken (t : TokenIdentity) | IdProxy (p : Auth.ProxyConfig).

#[export] Instance any_identity : Identity AnyIdentity := fun i r =>
  match i with
  | IdToken t => Authenticate t r
  | IdProxy p => Authenticate p r
  end.

#[export] Instance any_identity_laws : IdentityLaws AnyIdentity.
Proof.
  intros [t|p] r r' Hh Hc; [exact (token_identity_laws t r r' Hh Hc)|exact (proxy_identity_laws p r r' Hh Hc)].
Qed.

(** The loop over the named principals. *)
Fixpoint token_entries (ps : list PrincipalConfig) : Result (list TokenPrincipal) :=
  match ps with
  | [] => Val []
  | p :: ps =>
      match ParseRole (pc_Role p) with
      | Err err => Err ("principal " +:+ Quote (pc_Name p) +:+ ": " +:+ err)
      | Val role =>
          match token_entries ps with
          | Err err => Err err
          | Val es => Val (mkTokenPrincipal (pc_Name p) role (pc_Token p) :: es)
          end
      end
  end.

(** The loop over the role mappings. *)
Fixpoint group_roles (ms : list RoleMappingConfig) (m : gmap string Role) : Result (gmap string Role) :=
  match ms with
  | [] => Val m
  | x :: ms =>
      match ParseRole (rm_Role x) with
      | Err err => Err ("proxy roleMapping " +:+ Quote (rm_Group x) +:+ ": " +:+ err)
      | Val role => group_roles ms (<[rm_Group x := role]> m)
      end
  end.

Definition default_role (r : string) : Result Role :=
  if bool_decide (r = "") then Val "" else
  match ParseRole r with
  | Err err => Err ("proxy defaultRole: " +:+ err)
  | Val role => Val role
  end.

Definition buildProxyIdentity (p : ProxyAuthConfig) : Result AnyIdentity :=
  match group_roles (RoleMappings p) ∅ with
  | Err err => Err err
  | Val groupToRole =>
      match default_role (DefaultRole p) with
      | Err err => Err err
      | Val defaultRole =>
          match NewProxyIdentity (mkProxyConfig (UserHeader p) (GroupsHeader p) (GroupsSep p)
                  (TrustMode p) (SecretHeader p) (Secret p) defaultRole groupToRole) with
          | Err err => Err err
          | Val id => Val (IdProxy id)
          end
      end
  end.

Definition buildIdentity (cfg : AuthConfig) : Result AnyIdentity :=
  if bool_decide (Mode cfg = "proxy"%string) then buildProxyIdentity (Proxy cfg) else
  let entries :=
    if bool_decide (Token cfg = "") then []
    else [mkTokenPrincipal "default" RoleAdmin (Token cfg)] in
  match token_entries (Principals cfg) with
  | Err err => Err err
  | Val es => Val (IdToken (NewTokenIdentity (entries ++ es)))
  end.

(** ** Valid roles *)
Definition valid_role (r : Role) : Prop := 1 <= rank r.

Lemma validRoles_ParseRole r : validRoles r = true -> ParseRole r = Val r /\ valid_role r.
Proof.
  unfold validRoles. rewrite bool_decide_eq_true, !elem_of_cons, elem_of_nil.
  intros [->|[->|[->|[]]]]; (split; [reflexivity|vm_compute; discriminate]).
Qed.

Lemma first_error_None {A} (check : nat -> A -> option string) i l x :
  first_error check i l = None -> x ∈ l -> exists j, check j x = None.
Proof.
  revert i. induction l as [|y l IH]; intros i; simpl; [by intros _ ?%elem_of_nil|].
  destruct (check i y) eqn:E; [done|]. intros H [->|Hx]%elem_of_cons; eauto.
Qed.

Lemma check_principal_None i p :
  check_principal i p = None -> validRoles (pc_Role p) = true /\ pc_Token p <> "".
Proof.
  unfold check_principal. case_bool_decide; [discriminate|].
  destruct (validRoles (pc_Role p)); [|discriminate]. cbn [negb].
  case_bool_decide; [discriminate|]. by case_bool_decide.
Qed.

Lemma check_mapping_None i m : check_mapping i m = None -> validRoles (rm_Role m) = true.
Proof.
  unfold check_mapping. destruct (bool_decide (rm_Group m = "")); simpl; [done|].
  by destruct (validRoles (rm_Role m)).
Qed.

Lemma token_entries_valid ps :
  (forall p, p ∈ ps -> validRoles (pc_Role p) = true) ->
  exists es, token_entries ps = Val es /\ Forall (fun e => valid_role (tp_Role e)) es.
Proof.
  induction ps as [|p ps IH]; intros Hp; [by exists []|]. simpl.
  destruct (validRoles_ParseRole (pc_Role p)) as [-> Hv]; [apply Hp; by left|].
  destruct IH as (es & -> & He); [intros; apply Hp; by right|].
  eexists. split; [done|]. by constructor.
Qed.

Lemma group_roles_valid ms m :
  (forall x, x ∈ ms -> validRoles (rm_Role x) = true) -> map_Forall (fun _ r => valid_role r) m ->
  exists m', group_roles ms m = Val m' /\ map_Forall (fun _ r => valid_role r) m' /\
    (size m' = 0%nat -> ms = []).
Proof.
  revert m. induction ms as [|x ms IH]; intros m Hx Hm; simpl; [by exists m|].
  destruct (validRoles_ParseRole (rm_Role x)) as [-> Hv]; [apply Hx; by left|].
  destruct (IH (<[rm_Group x := rm_Role x]> m)) as (m' & E & Hm' & Hs).
  { intros; apply Hx; by right. }
  { by apply map_Forall_insert_2. }
  exists m'. split; [done|]. split; [done|]. intros H0. specialize (Hs H0). subst ms.
  simpl in E. injection E as <-. apply map_size_empty_iff in H0.
  exfalso. by apply (insert_non_empty m (rm_Group x) (rm_Role x)).
Qed.

(** What validation guarantees of the identity configuration. *)
Lemma validate_token c :
  validateTokenAuth c = None ->
  forall p, p ∈ Principals (Auth c) -> validRoles (pc_Role p) = true /\ pc_Token p <> "".
Proof.
  unfold validateTokenAuth. destruct (_ && _); [discriminate|]. intros H p Hp.
  destruct (first_error_None _ _ _ _ H Hp) as [j Hj]. by eapply check_principal_None.
Qed.

Lemma validate_proxy c :
  validateProxyAuth c = None ->
  let px := Proxy (Auth c) in
  check_trust px = None /\
  (forall m, m ∈ RoleMappings px -> validRoles (rm_Role m) = true) /\
  (DefaultRole px = "" \/ validRoles (DefaultRole px) = true) /\
  (RoleMappings px = [] -> DefaultRole px <> "").
Proof.
  intros H px. unfold validateProxyAuth in H. fold px in H. cbv zeta in H.
  destruct (check_trust px); [discriminate|].
  split; [done|].
  destruct ((length (RoleMappings px) =? 0)%nat && bool_decide (DefaultRole px = "")) eqn:Hn; [discriminate|].
  destruct (first_error check_mapping 0 (RoleMappings px)) eqn:Hm; [discriminate|].
  split; [|split].
  - intros m Hin. destruct (first_error_None _ _ _ _ Hm Hin) as [j Hj]. by eapply check_mapping_None.
  - case_bool_decide; [by left|]. right. by destruct (validRoles (DefaultRole px)).
  - intros Hr Hd. rewrite Hr, Hd in Hn. done.
Qed.

Lemma token_identity_valid es r who :
  Forall (fun e => valid_role (tp_Role e)) es ->
  TokenAuthenticate (NewTokenIdentity es) r = (who, true) -> valid_role (PrincipalRole who).
Proof.
  intros He. unfold TokenAuthenticate. case_bool_decide; [discriminate|].
  unfold NewTokenIdentity. simpl. rewrite index_tokens_lookup, lookup_empty.
  destruct (last _) as [e|] eqn:Hl; [|discriminate]. intros [= <-]. simpl.
  apply last_Some_elem_of, list_elem_of_filter in Hl as [_ Hl].
  rewrite Forall_forall in He. by apply He.
Qed.

Lemma proxy_identity_valid p r who :
  map_Forall (fun _ role => valid_role role) (GroupToRole p) ->
  (Auth.DefaultRole p = "" \/ valid_role (Auth.DefaultRole p)) ->
  ProxyAuthenticate p r = (who, true) -> valid_role (PrincipalRole who).
Proof.
  intros Hg Hd. unfold ProxyAuthenticate. destruct (_ && _); [discriminate|].
  intros (_ & _ & [[(g & _ & _ & Hrole) _]|(_ & Hne & ->)])%proxy_identity_of_sound.
  - by apply Hg in Hrole.
  - by destruct Hd.
Qed.

Lemma NewProxyIdentity_ok cfg :
  Auth.UserHeader cfg <> "" ->
  (Auth.TrustMode cfg = "network"%string \/
   (Auth.TrustMode cfg = "secret"%string /\ Auth.SecretHeader cfg <> "" /\ Auth.Secret cfg <> "")) ->
  ((size (GroupToRole cfg) =? 0)%nat && bool_decide (Auth.DefaultRole cfg = "")) = false ->
  exists p, NewProxyIdentity cfg = Val p /\ GroupToRole p = GroupToRole cfg /\
    Auth.DefaultRole p = Auth.DefaultRole cfg.
Proof.
  intros Hu Ht Hg. unfold NewProxyIdentity. rewrite bool_decide_eq_false_2 by done.
  rewrite Hg. destruct Ht as [->|(-> & Hs & Hsec)].
  - eexists. split; [reflexivity|]. by destruct (bool_decide (Auth.GroupsSep cfg = "")). 
  - rewrite (bool_decide_eq_false_2 _ Hs), (bool_decide_eq_false_2 _ Hsec). eexists. split; [reflexivity|].
    by destruct (bool_decide (Auth.GroupsSep cfg = "")). 
Qed.

Lemma check_trust_ok px :
  check_trust px = None ->
  TrustMode px = "network"%string \/ (TrustMode px = "secret"%string /\ Secret px <> "").
Proof.
  unfold check_trust. case_bool_decide; [|case_bool_decide; [by left|discriminate]].
  case_bool_decide; [discriminate|]. case_bool_decide; [discriminate|]. by right.
Qed.

Lemma orElse_nonempty v d : d <> "" -> orElse v d <> "".
Proof. unfold orElse. by case_bool_decide. Qed.

Lemma buildProxyIdentity_ok px :
  check_trust px = None -> (forall m, m ∈ RoleMappings px -> validRoles (rm_Role m) = true) ->
  (DefaultRole px = "" \/ validRoles (DefaultRole px) = true) ->
  (RoleMappings px = [] -> DefaultRole px <> "") ->
  UserHeader px <> "" -> SecretHeader px <> "" ->
  exists p, buildProxyIdentity px = Val (IdProxy p) /\
    map_Forall (fun _ role => valid_role role) (GroupToRole p) /\
    (Auth.DefaultRole p = "" \/ valid_role (Auth.DefaultRole p)).
Proof.
  intros Ht Hm Hd Hne Hu Hs. unfold buildProxyIdentity.
  destruct (group_roles_valid (RoleMappings px) ∅ Hm (map_Forall_empty _)) as (m & -> & Hv & Hsz).
  assert (exists d, default_role (DefaultRole px) = Val d /\ (d = "" \/ valid_role d) /\ d = DefaultRole px)
    as (d & -> & Hdv & ->).
  { unfold default_role. case_bool_decide as He; [eexists; eauto|].
    destruct Hd as [|Hd]; [done|]. destruct (validRoles_ParseRole _ Hd) as [-> ?]. eauto. }
  destruct (NewProxyIdentity_ok (mkProxyConfig (UserHeader px) (GroupsHeader px) (GroupsSep px)
    (TrustMode px) (SecretHeader px) (Secret px) (DefaultRole px) m)) as (p & E & Hg & Hdd); simpl.
  - done.
  - destruct (check_trust_ok px Ht) as [|[? ?]]; [by left|by right].
  - destruct (Nat.eqb_spec (size m) 0); [|done]. simpl. rewrite bool_decide_eq_false_2; auto.
  - exists p. rewrite E, Hg, Hdd. done.
Qed.

(** A configuration that [Load] returns has passed [validate]. *)
Lemma Load_validated Getenv ReadFile Unmarshal path cfg :
  Load Getenv ReadFile Unmarshal path = Val cfg ->
  exists c, cfg = apply_defaults c /\ validate (apply_defaults c) = None.
Proof.
  unfold Load. destruct (read_config _ _ _) as [c0|]; [|discriminate].
  destruct (validate _) eqn:Hv; [discriminate|]. intros [= <-]. by eexists.
Qed.

(** Whatever was read, the numbers are positive once the defaults are applied. *)
Lemma defaults_positive c :
  let cfg := apply_defaults c in
  0 < Interval (Poll cfg) /\ 0 < RingSize (Poll cfg) /\ 0 < StatementTimeout (Poll cfg).
Proof.
  assert (forall x d, 0 < d -> 0 < positive_or x d) as Hpos
    by (intros x d; unfold positive_or; destruct (Z.leb_spec x 0); lia).
  split_and!; apply Hpos; reflexivity.
Qed.

(** A retention that is not positive is replaced as well: no configuration that
    loads keeps its history forever. *)
Lemma retention_never_zero Getenv ReadFile Unmarshal path cfg :
  Load Getenv ReadFile Unmarshal path = Val cfg ->
  0 < Retention (Persist cfg) /\
  forall c, Retention (Persist c) <= 0 -> Retention (Persist (apply_defaults c)) = 24 * Hour.
Proof.
  intros (c & -> & _)%Load_validated. unfold apply_defaults, positive_or. cbn. split.
  - by destruct (Z.leb_spec (Retention (Persist c)) 0).
  - intros c' Hc. by destruct (Z.leb_spec (Retention (Persist c')) 0); [|lia].
Qed.

(** A validated configuration builds its identity source. *)
Lemma buildIdentity_valid c :
  validate (apply_defaults c) = None ->
  exists id, buildIdentity (Auth (apply_defaults c)) = Val id /\
    forall r who, Authenticate id r = (who, true) -> AtLeast (PrincipalRole who) RoleViewer = true.
Proof.
  unfold validate. case_bool_decide; [discriminate|].
  destruct (validate_auth (apply_defaults c)) eqn:Hauth; [discriminate|]. intros _.
  assert (forall role, valid_role role -> AtLeast role RoleViewer = true) as Hviewer.
  { intros role Hr. apply AtLeast_spec. split; [done|exact Hr]. }
  unfold validate_auth in Hauth. unfold buildIdentity.
  destruct (bool_decide_reflect (Mode (Auth (apply_defaults c)) = "token"%string)) as [Hmode|Hmode].
  - rewrite bool_decide_eq_false_2 by (by rewrite Hmode).
    destruct (token_entries_valid (Principals (Auth (apply_defaults c)))) as (es & -> & Hes).
    { intros p Hp. by apply (validate_token _ Hauth). }
    eexists. split; [reflexivity|]. intros r who Hr. apply Hviewer.
    eapply token_identity_valid; [|exact Hr]. apply Forall_app_2; [|done].
    case_bool_decide; repeat constructor; vm_compute; discriminate.
  - destruct (bool_decide_reflect (Mode (Auth (apply_defaults c)) = "proxy"%string)) as [Hproxy|];
      [|discriminate].
    destruct (validate_proxy _ Hauth) as (Ht & Hm & Hd & Hne).
    destruct (buildProxyIdentity_ok (Proxy (Auth (apply_defaults c))) Ht Hm Hd Hne) as (p & -> & Hg & Hdr).
    1, 2: unfold apply_defaults, auth_defaults in *; simpl in Hproxy |- *;
      rewrite Hproxy; by apply orElse_nonempty.
    eexists. split; [reflexivity|]. intros r who Hr. apply Hviewer. by eapply proxy_identity_valid.
Qed.

(** C17: startup never fails after the configuration has loaded, and every
    authenticated principal is at least a viewer: a loaded configuration has a
    DSN, a positive interval, ring size and statement timeout, and a path when
    persistence is on; the identity source it selects is built without an
    error and returns principals with valid roles only. *)
Theorem Load_builds_identity (Getenv : string -> string) (ReadFile : string -> Result string)
    (Unmarshal : string -> Config -> Result Config) (path : string) (cfg : Config)
    (Hload : Load Getenv ReadFile Unmarshal path = Val cfg) :
  DSN (Cluster cfg) <> "" /\ 0 < Interval (Poll cfg) /\ 0 < RingSize (Poll cfg) /\
  0 < StatementTimeout (Poll cfg) /\
  (PersistEnabled (Persist cfg) = true -> PersistPath (Persist cfg) <> "") /\
  exists id, buildIdentity (Auth cfg) = Val id /\
    forall r who, Authenticate id r = (who, true) -> AtLeast (PrincipalRole who) RoleViewer = true.
Proof.
  apply Load_validated in Hload as (c & -> & Hv). pose proof (buildIdentity_valid c Hv) as Hid.
  unfold validate in Hv. case_bool_decide as Hdsn; [discriminate|].
  destruct (validate_auth (apply_defaults c)); [discriminate|].
  destruct (defaults_positive c) as (? & ? & ?). split; [done|]. do 3 (split; [done|]). split; [|exact Hid].
  intros He Hp. rewrite He, (bool_decide_eq_true_2 _ Hp) in Hv. discriminate.
Qed.

Definition demo_env (name : string) : string :=
  if bool_decide (name = "PGLOCKR_DSN"%string) then "postgres://db"
  else if bool_decide (name = "PGLOCKR_TOKEN"%string) then "s3cret" else "".

Lemma Load_builds_identity_witness : exists cfg,
  Load demo_env (fun _ => Err "no such file"%string) (fun _ c => Val c) "" = Val cfg /\
  Interval (Poll cfg) = Second /\
  exists id, buildIdentity (Auth cfg) = Val id /\
    forall r who, Authenticate id r = (who, true) -> AtLeast (PrincipalRole who) RoleViewer = true.
Proof.
  assert (exists cfg, Load demo_env (fun _ => Err "no such file"%string) (fun _ c => Val c) "" = Val cfg /\
    Interval (Poll cfg) = Second) as (cfg & Hl & Hi).
  { eexists. split; vm_compute; reflexivity. }
  exists cfg. split; [exact Hl|]. split; [exact Hi|].
  apply (Load_builds_identity demo_env (fun _ => Err "no such file"%string) (fun _ c => Val c) "" cfg Hl).
Defined.
