(* ===== verification/Preflight.v ===== *)
(** * cmd/pglockr: the privilege check

    [preflight] of main.go.  What it prints is a value: the log lines and the
    text for standard error. *)
From S2P Require Import Prelude GoRuntime Utf8 GoStrings Setup Signal Pg.
Local Open Scope Z_scope.

Section preflight.
Context {C : Type} `{!Pool C}.

(** A level and a message per line, with the role and the flags. *)
Definition capability_line (caps : Capabilities) : LogLine :=
  mkLogLine "INFO" "role capabilities"
    [("role"%string, AttrString (caps_Role caps)); ("superuser"%string, AttrBool (caps_IsSuperuser caps));
     ("can_read_stats"%string, AttrBool (caps_CanReadStats caps));
     ("can_signal"%string, AttrBool (caps_CanSignal caps))].

Definition warn_line (msg : string) (role : string) : LogLine :=
  mkLogLine "WARN" msg [("role"%string, AttrString role)].

(** The client afterwards, the lines logged and what is printed to stderr. *)
Definition preflight (c : Client) : Client * list LogLine * string :=
  match client_Capabilities c with
  | (c, Err err) =>
      (c, [mkLogLine "WARN" "could not determine role capabilities" [("err"%string, AttrString err)]], "")
  | (c, Val caps) =>
      let needStats := negb (caps_CanReadStats caps) in
      let needSignal := negb (caps_CanSignal caps) in
      if negb needStats && negb needSignal then (c, [capability_line caps], "") else
      (c, [capability_line caps] ++
        (if needStats then [warn_line "missing pg_monitor — query texts of other backends will be hidden" (caps_Role caps)] else []) ++
        (if needSignal then [warn_line "missing pg_signal_backend — cancel/terminate will not work for other backends" (caps_Role caps)] else []),
       nl +:+ "# pglockr: role " +:+ Quote (caps_Role caps) +:+
       " is missing privileges. Apply these as a superuser:" +:+ nl +:+
       Remediation (caps_Role caps) needStats needSignal +:+ nl +:+ nl)
  end.

(** What PostgreSQL says about the role: its name, superuser, and membership. *)
Definition role_answer (c : Client) : Prelude.Result (string * bool * bool * bool) :=
  (row_caps (pool c) (statementTimeout c) capabilitiesSQL).2.

(** The preflight prints the grants the role lacks, and nothing when it lacks
    none: a superuser never gets a hint, and the text pasted into the message is
    the remediation for exactly the missing memberships. *)
Lemma preflight_prints c :
  (preflight c).2 =
  match role_answer c with
  | Err _ => ""%string
  | Val (role, super, stats, sig) =>
      if super || (stats && sig) then ""%string
      else (nl +:+ "# pglockr: role " +:+ Quote role +:+
            " is missing privileges. Apply these as a superuser:" +:+ nl +:+
            Remediation role (negb stats) (negb sig) +:+ nl +:+ nl)%string
  end.
Proof.
  unfold preflight, client_Capabilities, role_answer.
  destruct (row_caps _ _ _) as [p [[[[role super] stats] sig]|err]]; [|done].
  by destruct super, stats, sig.
Qed.
End preflight.
