(* ===== verification/Stream.v ===== *)
(** * internal/api/stream.go: the life of one WebSocket

    [handleStream] after the upgrade: subscribe, send the latest snapshot, then
    loop over a [select] until something ends the connection; the deferred
    unsubscribe runs on every way out.  The websocket library is not modelled:
    whether it accepted the upgrade, and whether each write or ping went
    through, are inputs.  Between two events other goroutines may change the
    store; that is the event [Meanwhile]. *)
From S2P Require Import Prelude GoRuntime Graph Auth Store.
Local Open Scope Z_scope.
Local Open Scope pglockr_scope.

Section stream.
Context {P : Type}.

(** The cases of the [select], with the outcome of the write or ping. *)
Inductive StreamEvent :=
| CtxDone
| Frame (written : bool)
| Ping (answered : bool)
| Meanwhile (st : Store P).

(** What the library decides for a connection: [Some code] when the upgrade
    is refused, the outcome of the first write, and the events. *)
Record Connection := mkConnection {
  refused : option Z;
  first_written : bool;
  events : list StreamEvent
}.

(** The store, the frames sent, and whether the handler is still running. *)
Record StreamState := mkStream { ss_store : Store P; ss_sent : list Snapshot; ss_running : bool }.

(** The deferred unsubscribe, on the way out. *)
Definition leave (st : Store P) (id : Z) (sent : list Snapshot) : Outcome StreamState :=
  let* st' := Unsubscribe st id in Ok (mkStream st' sent false).

(** The loop, subscribed as [id] on channel [sub].  A frame event on an empty
    open channel cannot occur (the receive blocks): it is skipped. *)
Fixpoint stream_loop (id sub : Z) (es : list StreamEvent) (st : Store P) (sent : list Snapshot)
    : Outcome StreamState :=
  match es with
  | [] => Ok (mkStream st sent true)
  | CtxDone :: _ => leave st id sent
  | Frame written :: es =>
      match Receive st sub with
      | None => stream_loop id sub es st sent
      | Some (st, None) => leave st id sent
      | Some (st, Some snap) =>
          if written then stream_loop id sub es st (sent ++ [snap]) else leave st id sent
      end
  | Ping answered :: es =>
      if answered then stream_loop id sub es st sent else leave st id sent
  | Meanwhile st :: es => stream_loop id sub es st sent
  end.

(** Once subscribed: the latest snapshot first, then the loop. *)
Definition greet (id sub : Z) (conn : Connection) (st : Store P) : Outcome StreamState :=
  let* latest := Latest st in
  if latest.2 then
    if first_written conn then stream_loop id sub (events conn) st [latest.1]
    else leave st id []
  else stream_loop id sub (events conn) st [].

(** The handler from the origin check on. *)
Definition stream (r : Request) (conn : Connection) (st : Store P) : Outcome StreamState :=
  match refused conn with
  | Some _ => Ok (mkStream st [] false)
  | None =>
      if negb (CheckOrigin r) then Ok (mkStream st [] false) else
      let '(st, (id, sub)) := Subscribe st in
      greet id sub conn st
  end.

(** ** Interference

    Other goroutines keep the store well formed and leave this subscription
    alone: only its own handler holds the unsubscribe function. *)
Definition keeps_subscription (id : Z) (e : StreamEvent) : Prop :=
  match e with
  | Meanwhile st => store_wf st /\ st_subs st !! id = Some id
  | _ => True
  end.

(** The frames the connection may carry: the snapshots in its channel at the
    time of a receive. *)
Fixpoint received (sub : Z) (es : list StreamEvent) (st : Store P) : list Snapshot :=
  match es with
  | [] => []
  | Frame _ :: es =>
      match Receive st sub with
      | Some (st, Some snap) => snap :: received sub es st
      | _ => received sub es st
      end
  | Meanwhile st :: es => received sub es st
  | _ :: es => received sub es st
  end.

Lemma leave_ok st id sent :
  store_wf st -> exists st', leave st id sent = Ok (mkStream st' sent false) /\
    store_wf st' /\ st_subs st' = delete id (st_subs st).
Proof.
  intros Hwf. unfold leave. destruct (Unsubscribe_wf st id Hwf) as (st' & -> & Hwf' & Hs).
  by exists st'.
Qed.

Lemma Receive_subs (st st' : Store P) c o : Receive st c = Some (st', o) -> st_subs st' = st_subs st.
Proof.
  unfold Receive. intros H. repeat case_match; simplify_eq; done.
Qed.

Lemma stream_loop_ok id es st sent :
  store_wf st -> st_subs st !! id = Some id -> Forall (keeps_subscription id) es ->
  exists s k, stream_loop id id es st sent = Ok s /\ store_wf (ss_store s) /\
    ss_sent s = sent ++ take k (received id es st) /\
    (ss_running s = false -> st_subs (ss_store s) !! id = None) /\
    (ss_running s = true -> st_subs (ss_store s) !! id = Some id).
Proof.
  revert st sent. induction es as [|e es IH]; intros st sent Hwf Hid Hes.
  { exists (mkStream st sent true), 0%nat. simpl. by rewrite app_nil_r. }
  apply Forall_cons in Hes as [He Hes].
  assert (forall st1, store_wf st1 -> exists s k, leave st1 id sent = Ok s /\ store_wf (ss_store s) /\
    ss_sent s = sent ++ take k (received id (e :: es) st) /\
    (ss_running s = false -> st_subs (ss_store s) !! id = None) /\
    (ss_running s = true -> st_subs (ss_store s) !! id = Some id)) as Hleave.
  { intros st1 Hwf1. destruct (leave_ok st1 id sent Hwf1) as (st' & -> & Hwf' & Hs).
    exists (mkStream st' sent false), 0%nat. simpl. rewrite app_nil_r, Hs, lookup_delete_eq. done. }
  destruct e as [|written|answered|st1]; cbn [stream_loop].
  - by apply Hleave.
  - cbn [received] in *. destruct (Receive st id) as [[st1 [snap|]]|] eqn:HR; [| |by apply IH].
    + pose proof (Receive_wf _ _ _ _ Hwf HR) as Hwf1. pose proof (Receive_subs _ _ _ _ HR) as Hs1.
      destruct written; [|by apply Hleave].
      destruct (IH st1 (sent ++ [snap]) Hwf1 ltac:(by rewrite Hs1) Hes) as (s & k & E & Hw & Hsent & Hrest).
      exists s, (S k). split; [done|]. split; [done|]. split; [|done].
      by rewrite Hsent, <-app_assoc.
    + apply Hleave. by eapply Receive_wf.
  - destruct answered; [by apply IH|by apply Hleave].
  - destruct He as [Hwf1 Hid1]. by apply IH.
Qed.
(** C30: a connection costs nothing once it ends and carries only real
    snapshots: on a well-formed store, whatever other goroutines do meanwhile,
    the handler never panics; a refused or cross-origin upgrade leaves the
    store alone and sends nothing; otherwise the frames sent are an initial
    part of the latest snapshot followed by those received from the
    connection's own channel, and once the handler has returned its
    subscription is gone. *)
Theorem stream_correct (r : Request) (conn : Connection) (st : Store P)
    (Hwf : store_wf st) (Hes : Forall (keeps_subscription (st_nextID st)) (events conn)) :
  exists s, stream r conn st = Ok s /\ store_wf (ss_store s) /\
    (is_Some (refused conn) \/ CheckOrigin r = false ->
       ss_store s = st /\ ss_sent s = [] /\ ss_running s = false) /\
    (refused conn = None -> CheckOrigin r = true ->
       (ss_running s = false -> st_subs (ss_store s) !! st_nextID st = None) /\
       (ss_running s = true -> st_subs (ss_store s) !! st_nextID st = Some (st_nextID st)) /\
       ss_sent s `prefix_of`
         option_list (last (contents st)) ++
         received (st_nextID st) (events conn) (Subscribe st).1).
Proof.
  unfold stream, greet. destruct (refused conn) as [code|].
  { eexists. split; [done|]. simpl. split; [done|]. split; [done|]. done. }
  destruct (CheckOrigin r) eqn:Ho; cbn [negb].
  2:{ eexists. split; [done|]. simpl. split; [done|]. done. }
  pose proof (Subscribe_wf st Hwf) as Hwf1. set (id := st_nextID st).
  assert (st_subs (Subscribe st).1 !! id = Some id) as Hid by (simpl; apply lookup_insert_eq).
  assert (contents (Subscribe st).1 = contents st) as Hc by done.
  change (Subscribe st) with ((Subscribe st).1, (id, id)). cbv iota.
  rewrite (Latest_contents (Subscribe st).1) by apply Hwf1. rewrite Hc.
  assert (forall sent, sent = option_list (last (contents st)) ->
    exists s, stream_loop id id (events conn) (Subscribe st).1 sent = Ok s /\ store_wf (ss_store s) /\
    (is_Some (None : option Z) \/ true = false -> ss_store s = st /\ ss_sent s = [] /\ ss_running s = false) /\
    ((None : option Z) = None -> true = true ->
       (ss_running s = false -> st_subs (ss_store s) !! id = None) /\
       (ss_running s = true -> st_subs (ss_store s) !! id = Some id) /\
       ss_sent s `prefix_of` option_list (last (contents st)) ++ received id (events conn) (Subscribe st).1))
    as Hloop.
  { intros sent ->. destruct (stream_loop_ok id (events conn) (Subscribe st).1
      (option_list (last (contents st))) Hwf1 Hid Hes) as (s & k & E & Hw & Hs & Hn & Hr).
    exists s. split; [done|]. split; [done|]. split; [intros [[? [=]]|[=]]|]. intros _ _.
    split; [done|]. split; [done|]. rewrite Hs. apply prefix_app. apply prefix_take. }
  destruct (last (contents st)) as [snap|]; cbn [outcome_bind snd fst]; [|by apply Hloop].
  destruct (first_written conn); [by apply Hloop|].
  destruct (leave_ok (Subscribe st).1 id [] Hwf1) as (st' & -> & Hw' & Hs').
  eexists. split; [done|]. split; [done|]. split; [intros [[? [=]]|[=]]|]. intros _ _. simpl.
  rewrite Hs', lookup_delete_eq. split; [done|]. split; [done|]. apply prefix_nil.
Qed.
End stream.
Arguments StreamEvent : clear implicits.
Arguments Connection : clear implicits.
Arguments StreamState : clear implicits.

(** The store with one more snapshot put while the connection [2] is open. *)
Definition demo_stream_store : Store unit :=
  let st := (Subscribe demo_store).1 in
  mkStore (<[1%nat := snap_at (4 * Second)]> (st_buf st)) 2 3 3 (st_subs st) 3 None None
    (<[2 := mkChan [snap_at (4 * Second)] false]> (st_chans st)).

Lemma demo_stream_store_wf : store_wf demo_stream_store.
Proof.
  destruct (Subscribe_wf demo_store demo_store_wf) as [_ [Hs Hf Hc]]. split.
  - split; vm_compute; done.
  - split.
    + intros id c H. destruct (Hs id c H) as (-> & ch & Hch & Hcl). split; [done|].
      change (st_chans demo_stream_store) with
        (<[2 := mkChan [snap_at (4 * Second)] false]> (st_chans (Subscribe demo_store).1)).
      rewrite lookup_insert. case_decide; eauto.
    + intros c H. change (st_chans demo_stream_store) with
        (<[2 := mkChan [snap_at (4 * Second)] false]> (st_chans (Subscribe demo_store).1)) in H.
      rewrite lookup_insert_is_Some' in H. change (st_nextID demo_stream_store) with 3.
      destruct H as [<-|H]; [lia|]. apply Hf in H. exact H.
    + intros c ch H. change (st_chans demo_stream_store) with
        (<[2 := mkChan [snap_at (4 * Second)] false]> (st_chans (Subscribe demo_store).1)) in H.
      apply lookup_insert_Some in H as [[_ <-]|[_ H]]; [unfold chan_cap; simpl; lia|by eapply Hc].
Qed.

Definition demo_request : Request := mkRequest "GET" "/api/stream" "app.local" ∅ [] ∅ ∅ None.
Definition demo_connection : Connection unit :=
  mkConnection None true [Meanwhile demo_stream_store; Frame true; Ping true; CtxDone].

Lemma stream_correct_witness : exists s,
  stream demo_request demo_connection demo_store = Ok s /\
  ss_sent s = [snap_at (3 * Second); snap_at (4 * Second)] /\
  st_subs (ss_store s) !! 2 = None.
Proof.
  destruct (stream_correct demo_request demo_connection demo_store demo_store_wf)
    as (s & E & _ & _ & Hs).
  { unfold demo_connection. cbn [events]. constructor; [|repeat constructor].
    split; [apply demo_stream_store_wf|reflexivity]. }
  destruct (Hs eq_refl ltac:(vm_compute; reflexivity)) as (Hn & _ & _).
  assert (ss_running s = false /\ ss_sent s = [snap_at (3 * Second); snap_at (4 * Second)]) as [Hr Hsent]
    by (vm_compute in E; injection E as <-; split; reflexivity).
  exists s. split; [exact E|]. split; [exact Hsent|]. exact (Hn Hr).
Defined.
