(* ===== verification/Api.v ===== *)
(** * internal/api: the HTTP surface

    The handlers of [handlers.go] and the route table of [server.go] on the
    state a server shares with the poller ([World]).  What chi, the file server
    and the database views decide is a parameter: [dispatch] chooses an entry
    of a route table and the URL parameters, the inspector answers from the
    target cluster, [fs_Stat] and [file_status] stand for the embedded UI. *)
From S2P Require Import Prelude GoRuntime Utf8 GoStrings GoTime Graph Pg Auth Store AuditTrail Signal Poller Stream.
Local Open Scope Z_scope.
Local Open Scope pglockr_scope.

(** ** What the handlers need from outside *)

(** chi's choice for a request among the entries of a table. *)
Class Router := dispatch :
  list (string * string) -> Request -> option (nat * gmap string string).

(** The [Inspector] interface, on the state of the target cluster. *)
Class Inspector (G : Type) := {
  Locks : G -> Prelude.Result (list LockRow);
  HotObjects : G -> Prelude.Result (list HotObject)
}.

(** The client inspects: a handler sees the rows, not the pool. *)
#[export] Instance client_inspector `{!Pg.Pool C} : Inspector (Pg.Client (C:=C)) := {|
  Locks c := (Pg.client_Locks c).2;
  HotObjects c := (Pg.client_HotObjects c).2
|}.

(** An error of [fs.Stat]: the file is missing, or another, such as that of a
    path [fs.ValidPath] refuses. *)
Inductive StatError := ErrNotExist | OtherStatError (err : string).

(** The embedded UI: what [fs.Stat] finds out about a path, the status the file
    server answers with. *)
Class UI := { fs_Stat : string -> option StatError; file_status : Request -> Z }.

(** [errors.Is(err, fs.ErrNotExist)] *)
Definition is_not_exist (err : option StatError) : bool :=
  match err with Some ErrNotExist => true | _ => false end.

(** What the websocket library decides about a connection. *)
Class WebSocket (P : Type) := websocket_accept : Request -> Connection P.

(** ** Payloads *)
Inductive Payload :=
| PHealth (status : string) (connected : bool) (lastPoll : Time)
| PPrincipal (p : Principal)
| PClusters (l : list Status)
| PSnapshot (s : Snapshot)
| PFrames (l : list Snapshot)   (* the messages of a WebSocket *)
| PHistory (l : list Meta)
| PAudit (l : list AuditTrail.Entry)
| PLocks (l : list LockRow)
| PHotObjects (l : list HotObject)
| PResult (r : Signal.Result)
| PSignalError (err : string) (r : Signal.Result).

Definition writeJSON (status : Z) (v : Payload) : Response Payload :=
  mkResponse status [("Content-Type", "application/json")] (JSONBody v).

(** Runs a handler through its cases. *)
Ltac run_handler :=
  intros; unfold outcome_bind, writeJSON, http_Error in *;
  repeat case_match; simplify_eq/=; eauto.

Section api.
Context `{Go : GoRuntime} {P G S O I : Type}.
Context `{!Persister P} `{!Signaler G} `{!AuditTrail.Sink S} `{!Observer O} `{!Identity I}.
Context `{!Inspector G} `{!Router} `{!UI} `{!WebSocket P}.

(** The state behind the server: the store, the poller's status, and the
    signal service with the target cluster and the audit sink, which is the one
    the server reads ([main.go] passes the same sink to both). *)
Record World := mkWorld {
  w_store : Store P;
  w_status : Status;
  w_signal : Service G S O
}.

Definition set_w_store (w : World) (st : Store P) : World := mkWorld st (w_status w) (w_signal w).
Definition set_w_signal (w : World) (svc : Service G S O) : World :=
  mkWorld (w_store w) (w_status w) svc.

Notation handler := (Handler World Payload).

(** ** Handlers *)
Definition handleHealthz : handler := fun _ w =>
  let st := w_status w in
  let code := if negb (Connected st) then StatusServiceUnavailable else StatusOK in
  Ok (w, writeJSON code (PHealth (if Connected st then "ok" else "degraded") (Connected st) (LastPoll st))).

Definition handleMe : handler := fun r w =>
  match PrincipalFrom r with
  | None => Ok (w, http_Error [] "unauthorized" StatusUnauthorized)
  | Some p => Ok (w, writeJSON StatusOK (PPrincipal p))
  end.

Definition handleClusters : handler := fun _ w =>
  Ok (w, writeJSON StatusOK (PClusters [w_status w])).

Definition handleSnapshot : handler := fun r w =>
  let at_ := query_Get (Query r) "at" in
  if negb (bool_decide (at_ = "")) then
    match ParseRFC3339 at_ with
    | None => Ok (w, http_Error [] "invalid 'at' timestamp (want RFC3339)" StatusBadRequest)
    | Some t =>
        let '(st, res) := Store.At (w_store w) t in
        let* sb := res in
        if negb sb.2 then Ok (set_w_store w st, http_Error [] "no snapshot available" StatusNotFound)
        else Ok (set_w_store w st, writeJSON StatusOK (PSnapshot sb.1))
    end
  else
    let* sb := Latest (w_store w) in
    if negb sb.2
    then Ok (w, http_Error [] "no snapshot available yet" StatusServiceUnavailable)
    else Ok (w, writeJSON StatusOK (PSnapshot sb.1)).

Definition parseOptTime (v : string) : option Time :=
  if bool_decide (v = "") then Some zeroTime else ParseRFC3339 v.

Definition handleHistory : handler := fun r w =>
  match parseOptTime (query_Get (Query r) "from") with
  | None => Ok (w, http_Error [] "invalid 'from' timestamp (want RFC3339)" StatusBadRequest)
  | Some from =>
      match parseOptTime (query_Get (Query r) "to") with
      | None => Ok (w, http_Error [] "invalid 'to' timestamp (want RFC3339)" StatusBadRequest)
      | Some to =>
          let '(st, res) := History (w_store w) from to in
          let* metas := res in Ok (set_w_store w st, writeJSON StatusOK (PHistory metas))
      end
  end.

(** The limit of [handleAudit]: an invalid or non-positive one is refused. *)
Definition audit_limit (v : string) : option Z :=
  if bool_decide (v = "") then Some 100 else
  match Atoi v with
  | None => None
  | Some n => if n <? 1 then None else Some n
  end.

Definition handleAudit : handler := fun r w =>
  match audit_limit (query_Get (Query r) "limit") with
  | None => Ok (w, http_Error [] "invalid 'limit'" StatusBadRequest)
  | Some limit =>
      match sink (w_signal w) with
      | None => Panic "nil audit sink"
      | Some s =>
          let* res := AuditTrail.Recent s limit in
          match res with
          | Err err => Ok (w, http_Error [] err StatusInternalServerError)
          | Val es => Ok (w, writeJSON StatusOK (PAudit es))
          end
      end
  end.

Definition handleLocks : handler := fun _ w =>
  match Locks (sig (w_signal w)) with
  | Err err => Ok (w, http_Error [] err StatusBadGateway)
  | Val rows => Ok (w, writeJSON StatusOK (PLocks rows))
  end.

Definition handleHotObjects : handler := fun _ w =>
  match HotObjects (sig (w_signal w)) with
  | Err err => Ok (w, http_Error [] err StatusBadGateway)
  | Val objs => Ok (w, writeJSON StatusOK (PHotObjects objs))
  end.

(** The audit lookup of [main.go]: the process's query in the latest
    snapshot. *)
Definition victim_lookup (latest : Snapshot * bool) (pid : Z) : string * bool :=
  if negb latest.2 then (""%string, false)
  else match Sessions latest.1 !! pid with
       | Some sess => (Graph.Query sess, true)
       | None => (""%string, false)
       end.

(** What the server answers to an action. *)
Definition signal_answer (a : Signal.Result * option string) : Response Payload :=
  match a.2 with
  | Some e => writeJSON StatusBadGateway (PSignalError e a.1)
  | None => writeJSON StatusOK (PResult a.1)
  end.

(** [now] is the clock at the call. *)
Definition doSignal (now : Time) (action : Signal.Action) : handler := fun r w =>
  match Atoi (default ""%string (URLParams r !! "pid")) with
  | None => Ok (w, http_Error [] "invalid pid" StatusBadRequest)
  | Some pid =>
      let actor := match PrincipalFrom r with Some p => Name p | None => "unknown"%string end in
      let* latest := Latest (w_store w) in
      let '(svc, answer) := Do (w_signal w) (Some (victim_lookup latest)) now action pid actor in
      Ok (set_w_signal w svc, signal_answer answer)
  end.

Definition handleCancel (now : Time) : handler := doSignal now ActionCancel.
Definition handleTerminate (now : Time) : handler := doSignal now ActionTerminate.

(** The upgraded connection, up to its end or to the last event given; the
    frames written are the body. *)
Definition handleStream : handler := fun r w =>
  let conn := websocket_accept r in
  let* s := stream r conn (w_store w) in
  Ok (set_w_store w (ss_store s), mkResponse (default 101 (refused conn)) [] (JSONBody (PFrames (ss_sent s)))).

Definition trimLeadingSlash (p : string) : string :=
  match bytes_of_string p with
  | 47 :: rest => string_of_bytes rest
  | _ => p
  end.

Definition with_path (r : Request) (p : string) : Request :=
  mkRequest (Method r) p (Host r) (Header r) (Cookies r) (Auth.Query r) (URLParams r) (ctx_principal r).

Definition spaHandler : handler := fun r w =>
  let served :=
    if negb (bool_decide (Path r = "/")) && is_not_exist (fs_Stat (trimLeadingSlash (Path r)))
    then with_path r "/" else r in
  Ok (w, mkResponse (file_status served) [] OtherBody).

Definition requireSameOrigin (next : handler) : handler := fun r w =>
  if negb (CheckOrigin r)
  then Ok (w, http_Error [] "cross-origin request rejected" StatusForbidden)
  else next r w.
(** ** The route table *)
Definition Route : Type := (string * string) * handler.

Definition Get (pattern : string) (h : handler) : Route := (("GET", pattern), h).
Definition Post (pattern : string) (h : handler) : Route := (("POST", pattern), h).
(** [Handle]: any method. *)
Definition Handle (pattern : string) (h : handler) : Route := (("", pattern), h).

(** A group: its middleware wraps the endpoints. *)
Definition Group (mw : handler -> handler) (rs : list Route) : list Route :=
  (fun rt => (rt.1, mw rt.2)) <$> rs.

Definition with_params (r : Request) (ps : gmap string string) : Request :=
  mkRequest (Method r) (Path r) (Host r) (Header r) (Cookies r) (Auth.Query r) ps (ctx_principal r).

(** Serving a table: no entry is chi's 404 or 405, without a payload. *)
Definition serve_routes (rs : list Route) (no_route : Request -> Z) : handler := fun r w =>
  match dispatch rs.*1 r with
  | None => Ok (w, mkResponse (no_route r) [] OtherBody)
  | Some (i, ps) =>
      match (rs !! i : option Route) with
      | None => Ok (w, mkResponse (no_route r) [] OtherBody)
      | Some rt => rt.2 (with_params r ps) w
      end
  end.

Context (id : I) (no_route : Request -> Z) (metrics : option (Request -> Z)) (now : Time).

(** The table under [/api]. *)
Definition api_routes : list Route :=
  [Get "/me" handleMe;
   Get "/clusters" handleClusters;
   Get "/snapshot" handleSnapshot;
   Get "/history" handleHistory;
   Get "/stream" handleStream;
   Get "/locks" handleLocks;
   Get "/hot-objects" handleHotObjects] ++
  Group (fun next => RequireRole RoleOperator (requireSameOrigin next))
    [Post "/sessions/{pid}/cancel" (handleCancel now);
     Post "/sessions/{pid}/terminate" (handleTerminate now)] ++
  Group (RequireRole RoleAdmin)
    [Get "/audit" handleAudit].

(** [r.Route("/api", ...)]: the subrouter's middleware runs before its
    routing. *)
Definition api_router : handler := AuthenticateMW id (serve_routes api_routes no_route).

Definition root_routes : list Route :=
  [Get "/healthz" handleHealthz] ++
  match metrics with
  | Some m => [Handle "/metrics" (fun r w => Ok (w, mkResponse (m r) [] OtherBody))]
  | None => []
  end ++
  [Handle "/api/*" api_router;
   Handle "/*" spaHandler].

(** [Handler()] *)
Definition ServeHTTP : handler := serve_routes root_routes no_route.

(** ** Who may do what *)

(** A payload a principal may see. *)
Definition may_see (who : option Principal) (b : Payload) : Prop :=
  match b with
  | PHealth _ _ _ => True
  | PAudit _ => exists p, who = Some p /\ AtLeast (PrincipalRole p) RoleAdmin = true
  | PResult _ | PSignalError _ _ => exists p, who = Some p /\ AtLeast (PrincipalRole p) RoleOperator = true
  | _ => is_Some who
  end.

(** What a request by [who] may do to the signal service: nothing, or one
    audited action in the name of an operator whose request passes the origin
    check. *)
Definition may_signal (who : option Principal) (r : Request) (w w' : World) : Prop :=
  w_signal w' = w_signal w \/
  exists p action pid latest,
    who = Some p /\ AtLeast (PrincipalRole p) RoleOperator = true /\ CheckOrigin r = true /\
    Latest (w_store w) = Ok latest /\ (action = ActionCancel \/ action = ActionTerminate) /\
    w_signal w' = (Do (w_signal w) (Some (victim_lookup latest)) now action pid (Name p)).1.

Definition lawful (who : option Principal) (r : Request) (w w' : World) (resp : Response Payload) : Prop :=
  may_signal who r w w' /\ forall b, resp_Body resp = JSONBody b -> may_see who b.

Definition lawful_handler (who : Request -> option Principal) (pre : Request -> Prop)
    (h : handler) : Prop :=
  forall r w w' resp, pre r -> h r w = Ok (w', resp) -> lawful (who r) r w w' resp.

Definition authenticated (r : Request) : Prop := is_Some (ctx_principal r).
Definition has_role (min : Role) (r : Request) : Prop :=
  exists p, ctx_principal r = Some p /\ AtLeast (PrincipalRole p) min = true.

(** A handler that answers without touching the signal service. *)
Lemma quiet_lawful who (pre : Request -> Prop) (h : handler) :
  (forall r w w' resp, h r w = Ok (w', resp) -> w_signal w' = w_signal w) ->
  (forall r w w' resp b, pre r -> h r w = Ok (w', resp) -> resp_Body resp = JSONBody b ->
     may_see (who r) b) ->
  lawful_handler who pre h.
Proof. intros Hq Hs r w w' resp Hp E. split; [left; by eapply Hq|]. intros b. by eapply Hs. Qed.

Lemma me_lawful : lawful_handler ctx_principal authenticated handleMe.
Proof. apply quiet_lawful; unfold handleMe; run_handler. Qed.

Lemma clusters_lawful : lawful_handler ctx_principal authenticated handleClusters.
Proof. apply quiet_lawful; unfold handleClusters; run_handler. Qed.

Lemma snapshot_lawful : lawful_handler ctx_principal authenticated handleSnapshot.
Proof. apply quiet_lawful; unfold handleSnapshot; run_handler. Qed.

Lemma history_lawful : lawful_handler ctx_principal authenticated handleHistory.
Proof. apply quiet_lawful; unfold handleHistory; run_handler. Qed.

Lemma locks_lawful : lawful_handler ctx_principal authenticated handleLocks.
Proof. apply quiet_lawful; unfold handleLocks; run_handler. Qed.

Lemma hot_objects_lawful : lawful_handler ctx_principal authenticated handleHotObjects.
Proof. apply quiet_lawful; unfold handleHotObjects; run_handler. Qed.

Lemma stream_lawful : lawful_handler ctx_principal authenticated handleStream.
Proof. apply quiet_lawful; unfold handleStream; run_handler. Qed.

Lemma audit_lawful : lawful_handler ctx_principal (has_role RoleAdmin) handleAudit.
Proof. apply quiet_lawful; unfold handleAudit; run_handler. Qed.

Lemma spa_lawful who pre : lawful_handler who pre spaHandler.
Proof. apply quiet_lawful; unfold spaHandler; run_handler. Qed.

Lemma healthz_lawful who pre : lawful_handler who pre handleHealthz.
Proof. apply quiet_lawful; unfold handleHealthz; run_handler; exact Logic.I. Qed.

Lemma signal_lawful action :
  action = ActionCancel \/ action = ActionTerminate ->
  lawful_handler ctx_principal (fun r => has_role RoleOperator r /\ CheckOrigin r = true)
    (doSignal now action).
Proof.
  intros Ha r w w' resp [(p & Hp & Hrole) Ho] E. unfold doSignal, PrincipalFrom in E. rewrite Hp in E.
  destruct (Atoi _) as [pid|]; [|injection E as <- <-; split; [by left|by intros b [=]]].
  destruct (Latest (w_store w)) as [latest|] eqn:Hl; [|done]. cbn [outcome_bind] in E.
  destruct (Do _ _ _ _ _ _) as [svc [res err]] eqn:HD.
  assert (w' = set_w_signal w svc /\ exists b, resp_Body resp = JSONBody b /\
    may_see (Some p) b) as [-> (b & Hb & Hsee)].
  { injection E as <- <-. split; [done|]. unfold signal_answer.
    destruct err; eexists; (split; [reflexivity|]); by exists p. }
  rewrite Hp. split.
  - right. exists p, action, pid, latest. by rewrite HD.
  - intros b' Hb'. rewrite Hb in Hb'. by injection Hb' as <-.
Qed.

Lemma RequireRole_lawful (pre : Request -> Prop) min h :
  lawful_handler ctx_principal (fun r => pre r /\ has_role min r) h ->
  lawful_handler ctx_principal pre (RequireRole min h).
Proof.
  intros Hh r w w' resp Hp E. unfold RequireRole, PrincipalFrom in E.
  destruct (ctx_principal r) as [p|] eqn:Hc.
  - destruct (AtLeast (PrincipalRole p) min) eqn:Hr; cbn [negb] in E.
    + rewrite <-Hc. apply (Hh r w w' resp); [|done]. split; [done|]. by exists p.
    + injection E as <- <-. split; [by left|by intros b [=]].
  - injection E as <- <-. split; [by left|by intros b [=]].
Qed.

Lemma requireSameOrigin_lawful (pre : Request -> Prop) h :
  lawful_handler ctx_principal (fun r => pre r /\ CheckOrigin r = true) h ->
  lawful_handler ctx_principal pre (requireSameOrigin h).
Proof.
  intros Hh r w w' resp Hp E. unfold requireSameOrigin in E.
  destruct (CheckOrigin r) eqn:Ho; cbn [negb] in E; [by apply (Hh r w w' resp)|].
  injection E as <- <-. split; [by left|by intros b [=]].
Qed.

Lemma lawful_weaken who (pre pre' : Request -> Prop) h :
  (forall r, pre' r -> pre r) -> lawful_handler who pre h -> lawful_handler who pre' h.
Proof. intros Hw Hh r w w' resp Hp. apply Hh. by apply Hw. Qed.

Lemma action_route_lawful action :
  action = ActionCancel \/ action = ActionTerminate ->
  lawful_handler ctx_principal authenticated
    (RequireRole RoleOperator (requireSameOrigin (doSignal now action))).
Proof.
  intros Ha. apply RequireRole_lawful, requireSameOrigin_lawful.
  eapply lawful_weaken; [|by apply signal_lawful]. tauto.
Qed.

Lemma api_routes_lawful :
  Forall (fun rt => lawful_handler ctx_principal authenticated rt.2) api_routes.
Proof.
  unfold api_routes, Group. simpl.
  repeat (apply Forall_cons; split); simpl;
    eauto using me_lawful, clusters_lawful, snapshot_lawful, history_lawful, stream_lawful,
      locks_lawful, hot_objects_lawful, action_route_lawful.
  apply RequireRole_lawful. eapply lawful_weaken; [|apply audit_lawful]. tauto.
Qed.

Lemma serve_lawful who (pre : Request -> Prop) (rs : list Route) :
  (forall r ps, who (with_params r ps) = who r) ->
  (forall r ps, pre r -> pre (with_params r ps)) ->
  Forall (fun rt => lawful_handler who pre rt.2) rs ->
  lawful_handler who pre (serve_routes rs no_route).
Proof.
  intros Hw Hpre Hrs r w w' resp Hp E. unfold serve_routes in E.
  destruct (dispatch rs.*1 r) as [[i ps]|]; [destruct (rs !! i) as [rt|] eqn:Hi|].
  - rewrite Forall_lookup in Hrs. specialize (Hrs i rt Hi _ _ _ _ (Hpre r ps Hp) E).
    by rewrite Hw in Hrs.
  - injection E as <- <-. split; [by left|by intros b [=]].
  - injection E as <- <-. split; [by left|by intros b [=]].
Qed.

(** The principal behind a request, as the identity source sees it. *)
Definition principal_of (r : Request) : option Principal :=
  match Authenticate id r with (p, true) => Some p | (_, false) => None end.

Lemma api_router_lawful pre : lawful_handler principal_of pre api_router.
Proof.
  intros r w w' resp _ E. unfold api_router, AuthenticateMW in E. unfold principal_of.
  destruct (Authenticate id r) as [p [|]].
  - exact (serve_lawful ctx_principal authenticated api_routes (fun _ _ => eq_refl)
      (fun _ _ H => H) api_routes_lawful (with_principal r p) w w' resp (mk_is_Some _ _ eq_refl) E).
  - injection E as <- <-. split; [by left|by intros b [=]].
Qed.

Context `{!IdentityLaws I}.

Lemma ServeHTTP_lawful : lawful_handler principal_of (fun _ => True) ServeHTTP.
Proof.
  apply serve_lawful; [|done|].
  - intros r ps. unfold principal_of. by rewrite (authenticate_headers id (with_params r ps) r).
  - unfold root_routes. apply Forall_app. split.
    { apply Forall_cons. split; [apply healthz_lawful|done]. }
    apply Forall_app. split.
    + destruct metrics; [|done]. apply Forall_cons. split; [|done].
      apply quiet_lawful; simpl; run_handler.
    + apply Forall_cons. split; [apply api_router_lawful|]. apply Forall_cons. split; [apply spa_lawful|done].
Qed.
(** ** Properties *)

(** C10: signals are sent for operators only: whatever request comes in and
    wherever it is routed, the signal service, the cluster behind it and the
    audit trail stay as they are, or the request authenticates as a principal of
    at least the operator role, passes the origin check, and exactly one cancel
    or terminate was done in that principal's name.  And data is served to whom
    it is meant for: apart from the health document, every JSON document needs
    an authenticated principal; the audit trail needs an admin, the answer to a
    signal an operator. *)
Theorem signal_requires_operator (r : Request) (w w' : World) (resp : Response Payload)
    (Hserve : ServeHTTP r w = Ok (w', resp)) :
  may_signal (principal_of r) r w w' /\
  forall b, resp_Body resp = JSONBody b -> may_see (principal_of r) b.
Proof. by apply (ServeHTTP_lawful r w w' resp Logic.I Hserve). Qed.

(** A request of a principal that the router takes to an entry of the table
    under [/api] reaches that entry's handler. *)
Lemma ServeHTTP_api r w p i j ps0 ps (rt : Route) :
  Authenticate id r = (p, true) -> dispatch (root_routes.*1) r = Some (i, ps0) ->
  root_routes !! i = Some (Handle "/api/*" api_router) ->
  dispatch (api_routes.*1) (with_principal (with_params r ps0) p) = Some (j, ps) ->
  api_routes !! j = Some rt ->
  ServeHTTP r w = rt.2 (with_params (with_principal (with_params r ps0) p) ps) w.
Proof.
  intros Hid Hroot Hi Hapi Hj. unfold ServeHTTP, serve_routes. rewrite Hroot, Hi. cbn [snd Handle].
  unfold api_router, AuthenticateMW. rewrite (authenticate_headers id (with_params r ps0) r), Hid by done.
  unfold serve_routes. by rewrite Hapi, Hj.
Qed.

(** The entry of [api_routes] behind an action. *)
Definition action_route (action : Signal.Action) (j : nat) : Prop :=
  (action = ActionCancel /\ j = 7%nat) \/ (action = ActionTerminate /\ j = 8%nat).

(** C31: an operator's action is carried out: a request of an
    operator that passes the origin check and that the router takes to an action's
    route, with a valid process id, sends exactly that signal to that process, records one entry in the
    principal's name with the cluster's answer, and reports it: 200 with the
    result, or 502 with the error. *)
Theorem authorised_action_served (r : Request) (w : World) (p : Principal)
    (action : Signal.Action) (i j : nat) (ps0 ps : gmap string string) (v : string) (pid : Z) (s : S)
    (Hid : Authenticate id r = (p, true)) (Hrole : AtLeast (PrincipalRole p) RoleOperator = true)
    (Horigin : CheckOrigin r = true) (Hring : ring_wf (w_store w)) (Hsink : sink (w_signal w) = Some s)
    (Hroot : dispatch (root_routes.*1) r = Some (i, ps0))
    (Hi : root_routes !! i = Some (Handle "/api/*" api_router))
    (Hapi : dispatch (api_routes.*1) (with_principal (with_params r ps0) p) = Some (j, ps))
    (Hj : action_route action j) (Hv : ps !! "pid" = Some v) (Hpid : Atoi v = Some pid) :
  let '(g, (delivered, err)) := send (sig (w_signal w)) action pid in
  exists svc resp entry, ServeHTTP r w = Ok (set_w_signal w svc, resp) /\
    sig svc = g /\ sink svc = Some (AuditTrail.RecordEntry s entry).1 /\
    AuditTrail.Actor entry = Name p /\ AuditTrail.Action entry = action /\ AuditTrail.PID entry = pid /\
    AuditTrail.Delivered entry = delivered && bool_decide (err = None) /\
    resp_Status resp = (match err with None => StatusOK | Some _ => StatusBadGateway end) /\
    resp_Body resp = JSONBody (match err with
      | None => PResult (mkResult action pid delivered now)
      | Some e => PSignalError e (mkResult action pid false now)
      end).
Proof.
  destruct (send (sig (w_signal w)) action pid) as [g [delivered err]] eqn:Hsend.
  set (r1 := with_params (with_principal (with_params r ps0) p) ps).
  assert (ServeHTTP r w = doSignal now action r1 w) as ->.
  { rewrite (ServeHTTP_api r w p i j ps0 ps (Post (if bool_decide (action = ActionCancel)
        then "/sessions/{pid}/cancel" else "/sessions/{pid}/terminate")
        (RequireRole RoleOperator (requireSameOrigin (doSignal now action)))) Hid Hroot Hi Hapi)
      by (destruct Hj as [[-> ->]|[-> ->]]; reflexivity).
    cbn [snd Post]. fold r1. unfold RequireRole, PrincipalFrom. simpl. rewrite Hrole. cbn [negb].
    unfold requireSameOrigin. change (CheckOrigin r1) with (CheckOrigin r). by rewrite Horigin. }
  unfold doSignal. simpl. rewrite Hv. simpl. rewrite Hpid, (Latest_contents _ Hring). cbn [outcome_bind].
  set (latest := match last _ with Some _ => _ | None => _ end).
  set (c := mkCall (Some (victim_lookup latest)) now action pid (Name p)).
  pose proof (Do_effects (w_signal w) c) as He. pose proof (Do_answer (w_signal w) c) as Ha.
  unfold do_call, answer_of in He, Ha. cbn in He, Ha. rewrite Hsend in Ha.
  destruct (Do _ _ _ _ _ _) as [svc [res err']] eqn:HD. cbn in Ha. injection Ha as -> ->.
  destruct He as (Hg & _ & _ & Hs). rewrite Hsend, Hsink in *. cbn in Hg, Hs.
  destruct err as [e|]; [rewrite (bool_decide_eq_false_2 (Some e = None)), andb_false_r in * by done|
    rewrite (bool_decide_eq_true_2 ((None : option string) = None)), andb_true_r in * by done];
    (eexists svc, _, _; split; [reflexivity|]; split; [exact Hg|]; split; [exact Hs|]; done).
Qed.

(** *** Reading the history *)

(** A timestamp parameter: absent, or printed by the server in some zone. *)
Definition spells (v : string) (t : Time) : Prop :=
  (v = "" /\ t = zeroTime) \/ exists off, printable t off /\ v = FormatRFC3339Nano t off.

Lemma parseOptTime_spells v t : spells v t -> parseOptTime v = Some t.
Proof.
  intros [[-> ->]|(off & Hp & ->)]; unfold parseOptTime; [by case_bool_decide|].
  rewrite bool_decide_eq_false_2 by (by apply Format_nonempty). by apply ParseRFC3339_Format.
Qed.

(** C19: the scrubber gets what it asks for: without a persister, a snapshot
    request without a time is answered with the newest retained snapshot, or
    with 503 before the first poll; one with the time of a retained snapshot, as
    the server prints it in any zone, with a retained snapshot taken at exactly
    that time; and one with a text that is no RFC 3339 timestamp with 400.  The
    state does not change. *)
Theorem snapshot_request_served (r : Request) (w : World)
    (Hwf : ring_wf (w_store w)) (Hp : st_persist (w_store w) = None) :
  let v := query_Get (Query r) "at" in
  (v = "" -> handleSnapshot r w = Ok (w,
     match last (contents (w_store w)) with
     | Some s => writeJSON StatusOK (PSnapshot s)
     | None => http_Error [] "no snapshot available yet" StatusServiceUnavailable
     end)) /\
  (forall s off, s ∈ contents (w_store w) -> printable (TakenAt s) off ->
     (forall x, x ∈ contents (w_store w) -> distance (TakenAt s) x < MaxInt64) ->
     v = FormatRFC3339Nano (TakenAt s) off ->
     exists s', s' ∈ contents (w_store w) /\ TakenAt s' = TakenAt s /\
       handleSnapshot r w = Ok (w, writeJSON StatusOK (PSnapshot s'))) /\
  (v <> "" -> ParseRFC3339 v = None -> exists msg,
     handleSnapshot r w = Ok (w, http_Error [] msg StatusBadRequest)).
Proof.
  intros v. unfold handleSnapshot. fold v. cbv zeta. split; [|split].
  - intros ->. rewrite bool_decide_eq_true_2 by done. cbn [negb]. rewrite Latest_contents by done.
    by destruct (last _).
  - intros s off Hs Hpr Hnear ->. rewrite bool_decide_eq_false_2 by (by apply Format_nonempty).
    cbn [negb]. rewrite ParseRFC3339_Format by done.
    destruct (ring_nearest (w_store w) (TakenAt s) Hwf Hp) as (l1 & s' & l2 & Hc & -> & Hold & Hnew).
    { intros E. by rewrite E in Hs; apply elem_of_nil in Hs. }
    { done. }
    cbn [outcome_bind snd fst negb].
    exists s'. split; [rewrite Hc; apply elem_of_app; right; by left|]. split.
    + assert (distance (TakenAt s) s' <= distance (TakenAt s) s) as Hd.
      { rewrite Hc in Hs. apply elem_of_app in Hs as [?|[->|?]%elem_of_cons]; [auto|lia|].
        specialize (Hnew s ltac:(done)). lia. }
      unfold distance in Hd. lia.
    + by destruct w.
  - intros Hv Hn. rewrite bool_decide_eq_false_2 by done. cbn [negb]. rewrite Hn. by eexists.
Qed.

(** C20: the timeline request is the window of the retained history: with
    bounds the server printed itself, or absent ones, the answer lists the
    summaries of exactly the retained snapshots in the window, oldest first; a
    bound that is no RFC 3339 timestamp is refused with 400 (what other bounds
    that are timestamps select is not stated). *)
Theorem history_request_served (r : Request) (w : World)
    (Hwf : ring_wf (w_store w)) (Hp : st_persist (w_store w) = None) :
  let vf := query_Get (Query r) "from" in let vt := query_Get (Query r) "to" in
  (forall from to, spells vf from -> spells vt to ->
     handleHistory r w = Ok (w, writeJSON StatusOK (PHistory (timeline from to (contents (w_store w)))))) /\
  ((vf <> "" /\ ParseRFC3339 vf = None) \/ (vt <> "" /\ ParseRFC3339 vt = None) ->
     exists msg, handleHistory r w = Ok (w, http_Error [] msg StatusBadRequest)).
Proof.
  intros vf vt. unfold handleHistory. fold vf vt. split.
  - intros from to Hf Ht. rewrite (parseOptTime_spells _ _ Hf), (parseOptTime_spells _ _ Ht).
    unfold History. rewrite Hp, history_ring_contents, timeline_eq by done. by destruct w.
  - assert (forall v, v <> "" -> ParseRFC3339 v = None -> parseOptTime v = None) as Hnone
      by (intros v Hv Hn; unfold parseOptTime; by rewrite bool_decide_eq_false_2).
    intros [[Hv Hn]|[Hv Hn]].
    + rewrite (Hnone vf Hv Hn). by eexists.
    + rewrite (Hnone vt Hv Hn). destruct (parseOptTime vf); by eexists.
Qed.
End api.
Arguments World : clear implicits.

(** ** A concrete server

    A router that compares path segments, as chi does for these patterns; the
    table under [/api] is matched against the rest of the path. *)
Fixpoint match_segments (pat path : list string) (ps : gmap string string) : option (gmap string string) :=
  match pat, path with
  | [], [] => Some ps
  | p :: pat, x :: path =>
      if bool_decide (p = "*") then Some ps
      else if bool_decide (p = "{pid}") then match_segments pat path (<["pid" := x]> ps)
      else if bool_decide (p = x) then match_segments pat path ps else None
  | _, _ => None
  end.

Fixpoint first_match (table : list (string * string)) (meth : string) (path : list string) (i : nat)
    : option (nat * gmap string string) :=
  match table with
  | [] => None
  | (m, pattern) :: table =>
      if bool_decide (m = "") || bool_decide (m = meth) then
        match match_segments (Split pattern "/") path ∅ with
        | Some ps => Some (i, ps)
        | None => first_match table meth path (S i)
        end
      else first_match table meth path (S i)
  end.

#[local] Instance demo_router : Router := fun table r =>
  let path := Split (Path r) "/" in
  first_match table (Method r)
    (match table with
     | (_, pattern) :: _ => if bool_decide (pattern = "/healthz") then path else "" :: drop 2 path
     | [] => path
     end) 0.
#[local] Instance demo_ui : UI := {| fs_Stat _ := Some ErrNotExist; file_status _ := 200 |}.
#[local] Instance demo_websocket : WebSocket unit := fun _ => mkConnection (Some 426) true [].
#[local] Instance demo_inspector : Inspector (list (string * Z)) :=
  {| Locks _ := Val []; HotObjects _ := Val [] |}.
#[local] Instance demo_runtime : GoRuntime := canonical.
#[local] Instance demo_persister : Persister unit := failing_persister.

Definition demo_world : World unit (list (string * Z)) AuditTrail.Memory (list bool) :=
  mkWorld demo_store (mkStatus "c1" true 0 "") demo_service.

Definition demo_identity : TokenIdentity := NewTokenIdentity demo_entries.

Definition action_request (path token : string) : Request :=
  mkRequest "POST" path "app.local" {["Authorization" := ["Bearer " +:+ token]]} [] ∅ ∅ None.

Definition demo_serve : Request -> World unit (list (string * Z)) AuditTrail.Memory (list bool) ->
    Outcome (World unit (list (string * Z)) AuditTrail.Memory (list bool) * Response Payload) :=
  ServeHTTP demo_identity (fun _ => 404) None 5.

(** The operator's token cancels; the viewer's does not. *)
Lemma signal_requires_operator_witness : exists w' resp w2 resp2 res,
  demo_serve (action_request "/api/sessions/7/cancel" "t1") demo_world = Ok (w', resp) /\
  resp_Status resp = StatusForbidden /\
  may_signal 5 (principal_of demo_identity (action_request "/api/sessions/7/cancel" "t1"))
    (action_request "/api/sessions/7/cancel" "t1") demo_world w' /\
  demo_serve (action_request "/api/sessions/7/cancel" "t2") demo_world = Ok (w2, resp2) /\
  resp_Body resp2 = JSONBody (PResult res) /\ sig (w_signal w2) = [("cancel"%string, 7)] /\
  exists p, principal_of demo_identity (action_request "/api/sessions/7/cancel" "t2") = Some p /\
    AtLeast (PrincipalRole p) RoleOperator = true.
Proof.
  eexists _, _, _, _, _. split; [vm_compute; reflexivity|]. split; [reflexivity|]. split.
  { eapply (signal_requires_operator demo_identity (fun _ => 404) None 5
      (action_request "/api/sessions/7/cancel" "t1") demo_world). vm_compute. reflexivity. }
  split; [vm_compute; reflexivity|]. split; [reflexivity|]. split; [reflexivity|].
  eapply (signal_requires_operator demo_identity (fun _ => 404) None 5
    (action_request "/api/sessions/7/cancel" "t2") demo_world) with (b := PResult (mkResult "cancel" 7 false 5));
    [vm_compute; reflexivity|reflexivity].
Defined.

Lemma authorised_action_served_witness : exists svc resp entry,
  demo_serve (action_request "/api/sessions/4/terminate" "t2") demo_world =
    Ok (set_w_signal demo_world svc, resp) /\
  sig svc = [("terminate"%string, 4)] /\ resp_Status resp = StatusBadGateway /\
  AuditTrail.Actor entry = "bob"%string /\ AuditTrail.Recent (AuditTrail.RecordEntry (AuditTrail.NewMemory 10) entry).1 5 =
    Ok (Val [entry]).
Proof.
  destruct (authorised_action_served demo_identity (fun _ => 404) None 5
    (action_request "/api/sessions/4/terminate" "t2") demo_world (mkPrincipal "bob" RoleOperator)
    ActionTerminate 1 8 ∅ {["pid" := "4"]} "4" 4 (AuditTrail.NewMemory 10))
    as (svc & resp & entry & E & Hg & _ & Ha & _ & _ & _ & Hst & _).
  - vm_compute. reflexivity.
  - vm_compute. reflexivity.
  - vm_compute. reflexivity.
  - apply demo_ring_wf.
  - reflexivity.
  - vm_compute. reflexivity.
  - reflexivity.
  - vm_compute. reflexivity.
  - right. split; reflexivity.
  - reflexivity.
  - vm_compute. reflexivity.
  - exists svc, resp, entry. do 4 (split; [assumption|]). vm_compute. reflexivity.
Defined.

Definition history_request (query : list (string * string)) : Request :=
  mkRequest "GET" "/api/history" "app.local" ∅ []
    (list_to_map ((fun kv => (kv.1, [kv.2])) <$> query)) ∅ None.

(** The snapshot of second 2, asked for in Indian time. *)
Lemma snapshot_request_served_witness : exists s',
  s' ∈ contents demo_store /\ TakenAt s' = 2 * Second /\
  handleSnapshot (history_request [("at", "1970-01-01T05:30:02+05:30")]%string) demo_world =
    Ok (demo_world, writeJSON StatusOK (PSnapshot s')).
Proof.
  apply (snapshot_request_served (history_request [("at", "1970-01-01T05:30:02+05:30")]%string) demo_world
    demo_ring_wf eq_refl) with (s := snap_at (2 * Second)) (off := 330).
  - change (snap_at (2 * Second) ∈ contents demo_store). rewrite demo_contents. right. left.
  - apply printable_years; vm_compute; split; (discriminate || reflexivity).
  - intros s. change (s ∈ contents demo_store -> distance (2 * Second) s < MaxInt64).
    rewrite demo_contents, !elem_of_cons, elem_of_nil. intros [->|[->|[->|[]]]]; vm_compute; reflexivity.
  - vm_compute. reflexivity.
Defined.

Lemma history_request_served_witness :
  handleHistory (history_request [("from", "1970-01-01T00:00:02Z")]%string) demo_world =
    Ok (demo_world, writeJSON StatusOK
      (PHistory [mkMeta (2 * Second) 0 0 0; mkMeta (3 * Second) 0 0 0])).
Proof.
  apply (history_request_served (history_request [("from", "1970-01-01T00:00:02Z")]%string) demo_world
    demo_ring_wf eq_refl) with (from := 2 * Second) (to := zeroTime).
  - right. exists 0. split; [|vm_compute; reflexivity].
    apply printable_years; vm_compute; split; (discriminate || reflexivity).
  - left. split; reflexivity.
Defined.
