(* ===== verification/Flow.v ===== *)
(** * The flow of query texts through the components

    A snapshot taken from the source travels through the poll loop, the ring,
    the durable history, the subscribers' channels, the handlers and the audit
    trail.  For any property [Q] of texts, this file shows that each component
    holds and passes on texts with [Q] only, if that is what it gets, and that
    none of them panics on the way.  What a backend or a sink must promise for
    it is a class. *)
From S2P Require Import Prelude GoRuntime Graph Store StoreConc Auth AuditTrail Signal Poller Stream GoTime Api.
Local Open Scope Z_scope.
Local Open Scope pglockr_scope.

(** ** Promises *)

(** The texts in a snapshot. *)
Definition snapshot_texts (Q : string -> Prop) (s : Snapshot) : Prop :=
  forall pid sess, Sessions s !! pid = Some sess -> Q (Graph.Query sess).

Lemma emptySnapshot_texts Q : snapshot_texts Q emptySnapshot.
Proof. intros pid sess. simpl. by rewrite lookup_empty. Qed.

(** A backend keeps the property: it gives back what it was given. *)
Class PersisterTexts (Q : string -> Prop) (P : Type) `{!Persister P} := {
  pers_texts : P -> Prop;
  save_texts p s : pers_texts p -> snapshot_texts Q s -> pers_texts (Save p s).1;
  at_texts p t s b : pers_texts p -> PersistAt p t = Val (s, b) -> snapshot_texts Q s
}.

(** So does a sink, and its queries do not panic. *)
Class SinkTexts (Q : string -> Prop) (S : Type) `{!Sink S} := {
  sink_texts : S -> Prop;
  record_texts s e : sink_texts s -> Q (VictimQuery e) -> sink_texts (RecordEntry s e).1;
  recent_texts s limit : sink_texts s -> exists r, AuditTrail.Recent s limit = Ok r /\
    forall es, r = Val es -> Forall (fun e => Q (VictimQuery e)) es
}.

Section store_texts.
Context (Q : string -> Prop) `{Go : GoRuntime} {P : Type} `{!Persister P} `{!PersisterTexts Q P}.
Implicit Types st : Store P.

Record store_texts st : Prop := {
  tx_wf : store_wf st;
  tx_contents : Forall (snapshot_texts Q) (contents st);
  tx_chans : map_Forall (fun _ ch => Forall (snapshot_texts Q) (ch_buf ch)) (st_chans st);
  tx_persist : forall p, st_persist st = Some p -> pers_texts p
}.

Lemma fresh_texts n : store_texts (fresh n).
Proof.
  split; [apply fresh_store_wf|by rewrite fresh_contents|apply map_Forall_empty|done].
Qed.

Lemma SetPersister_texts st p log :
  store_texts st -> pers_texts p -> store_texts (SetPersister st (Some p) log).
Proof.
  intros [[[] []] Hc Hch _] Hp. split; [by split; split|exact Hc|exact Hch|].
  simpl. by intros ? [= <-].
Qed.

(** *** Put *)
Lemma deliver_texts snap ch :
  snapshot_texts Q snap -> Forall (snapshot_texts Q) (ch_buf ch) ->
  Forall (snapshot_texts Q) (ch_buf (deliver snap ch)).
Proof.
  intros Hs Hc. unfold deliver. case_match; [|done]. simpl. apply Forall_app. by split; [|constructor].
Qed.

(** The three phases of a put. *)
Lemma put_locked_texts st snap :
  store_texts st -> snapshot_texts Q snap ->
  exists st', put_locked st snap = Ok (st', (range_map (st_subs st)).*2) /\ store_texts st'.
Proof.
  intros [[Hr Hcw] Hc Hch Hp] Hs.
  destruct (put_locked_ok st snap Hr) as (st' & HP & Hr' & Hc' & _ & Hsub & Hchans & Hid & Hpers & _).
  exists st'. split; [done|]. split; [split; [done|]| | |].
  - destruct Hcw. split; by rewrite ?Hsub, ?Hchans, ?Hid.
  - rewrite Hc'. apply Forall_forall. intros s Hin%elem_of_lastn.
    rewrite Forall_forall in Hc. apply elem_of_app in Hin as [?|Hin%list_elem_of_singleton]; [by apply Hc|by subst].
  - by rewrite Hchans.
  - by rewrite Hpers.
Qed.

Lemma put_save_texts st snap : store_texts st -> snapshot_texts Q snap -> store_texts (put_save st snap).
Proof.
  intros [[Hr Hcw] Hc Hch Hp] Hs.
  destruct (put_save_same st snap) as (_ & _ & _ & _ & Esub & Ech & Eid).
  split; [split; [by apply put_save_ring_wf|]| | |].
  - destruct Hcw. split; by rewrite ?Esub, ?Ech, ?Eid.
  - by rewrite put_save_contents.
  - by rewrite Ech.
  - intros p. unfold put_save. destruct (st_persist st) as [p0|] eqn:E; [|by rewrite E].
    pose proof (save_texts p0 snap (Hp p0 eq_refl) Hs) as Hsave. destruct (Save p0 snap). simpl. by intros [= <-].
Qed.

Lemma send_texts st snap ch st' :
  store_texts st -> snapshot_texts Q snap -> send_nonblocking st snap ch = Ok st' -> store_texts st'.
Proof.
  intros Ht Hs HS. destruct (st_chans st !! ch) as [x|] eqn:Hx.
  2:{ unfold send_nonblocking in HS. rewrite Hx in HS. by injection HS as <-. }
  destruct (ch_closed x) eqn:Hcl; [by rewrite (send_closed _ _ _ _ Hx Hcl) in HS|].
  rewrite (send_open _ _ _ _ Hx Hcl) in HS. injection HS as <-.
  destruct Ht as [[[] Hcw] Hc Hch Hp]. split; [split; [done|by apply deliver_chans_wf]|exact Hc| |exact Hp].
  intros c y. cbn [st_chans set_chans]. rewrite deliver_to_lookup.
  destruct (st_chans st !! c) as [y0|] eqn:E; simpl; [|done]. intros [= <-].
  specialize (Hch c y0 E). case_bool_decide; [by apply deliver_texts|done].
Qed.

Lemma put_sends_texts st snap chs st' :
  store_texts st -> snapshot_texts Q snap -> put_sends st snap chs = Ok st' -> store_texts st'.
Proof.
  revert st. induction chs as [|ch chs IH]; intros st Ht Hs; cbn [put_sends]; [by intros [= <-]|].
  destruct (send_nonblocking st snap ch) as [st1|] eqn:E; simpl; [|discriminate].
  apply IH; [|done]. by eapply send_texts.
Qed.

Lemma Put_texts st snap :
  store_texts st -> snapshot_texts Q snap -> exists st', Put st snap = Ok st' /\ store_texts st'.
Proof.
  intros Ht Hs. destruct (Put_ok st snap (tx_wf _ Ht)) as (st' & HP & _). exists st'. split; [done|].
  destruct (put_locked_texts st snap Ht Hs) as (st1 & HL & Ht1). unfold Put in HP. rewrite HL in HP.
  eapply put_sends_texts; [|exact Hs|exact HP]. by apply put_save_texts.
Qed.

(** *** Queries *)
Lemma Latest_texts st :
  store_texts st -> exists r, Latest st = Ok r /\ snapshot_texts Q r.1.
Proof.
  intros [[Hr _] Hc _ _]. eexists. split; [by apply Latest_contents|].
  destruct (last (contents st)) as [s|] eqn:E; [|apply emptySnapshot_texts].
  rewrite Forall_forall in Hc. by apply Hc, last_Some_elem_of.
Qed.

Lemma nearest_texts t l best d found :
  Forall (snapshot_texts Q) l -> snapshot_texts Q best -> snapshot_texts Q (nearest t l best d found).1.
Proof.
  revert best d found. induction l as [|s l IH]; intros best d found Hl Hb; simpl; [done|].
  apply Forall_cons in Hl as [Hs Hl]. case_match; by apply IH.
Qed.

Lemma set_log_texts st log : store_texts st -> store_texts (set_log st log).
Proof. intros [[[] []] Hc Hch Hp]. by split; [by split; split| | |]. Qed.

Lemma At_texts st t :
  store_texts st -> exists r, (Store.At st t).2 = Ok r /\ snapshot_texts Q r.1 /\
    store_texts (Store.At st t).1 /\ readers st (Store.At st t).1.
Proof.
  intros Ht. pose proof Ht as [[Hr _] Hc _ Hp]. unfold Store.At.
  assert (exists r, at_ring st t = Ok r /\ snapshot_texts Q r.1) as (r & Hat & Hrt).
  { rewrite at_ring_contents by done. eexists. split; [done|].
    apply nearest_texts; [by apply Forall_reverse|apply emptySnapshot_texts]. }
  destruct (st_persist st) as [p|]; [|by exists r].
  destruct (PersistAt p t) as [[s b]|] eqn:E; simpl.
  - eexists. split; [done|]. split; [|done]. eapply at_texts; [by apply Hp|done].
  - exists r. split; [done|]. split; [done|]. split; [by apply set_log_texts|apply rtc_once, move_log].
Qed.

Lemma History_texts st from to :
  store_texts st -> exists r, (History st from to).2 = Ok r /\ store_texts (History st from to).1 /\
    readers st (History st from to).1.
Proof.
  intros Ht. pose proof Ht as [[Hr _] _ _ _]. unfold History.
  pose proof (history_ring_contents st from to Hr) as Hh.
  destruct (st_persist st) as [p|]; [|by eexists].
  destruct (PersistHistory p from to); simpl; [by eexists|].
  eexists. split; [exact Hh|]. split; [by apply set_log_texts|apply rtc_once, move_log].
Qed.

(** *** Subscribers *)
Lemma Subscribe_texts st : store_texts st -> store_texts (Subscribe st).1.
Proof.
  intros [Hwf Hc Hch Hp]. split; [by apply Subscribe_wf|exact Hc| |exact Hp].
  simpl. by apply map_Forall_insert_2.
Qed.

Lemma Unsubscribe_texts st id :
  store_texts st -> exists st', Unsubscribe st id = Ok st' /\ store_texts st' /\
    st_subs st' = delete id (st_subs st) /\ readers st st'.
Proof.
  intros [Hwf Hc Hch Hp]. destruct (Unsubscribe_wf st id Hwf) as (st' & HU & Hwf' & Hsub).
  exists st'. split; [done|].
  cut (store_texts st'); [intros; split_and!; [done|done|apply rtc_once; by eapply move_unsubscribe]|].
  unfold Unsubscribe in HU. destruct (st_subs st !! id) as [c|]; [|injection HU as <-; by split].
  destruct (st_chans st !! c) as [ch|] eqn:E; [|done]. destruct (ch_closed ch); [done|].
  injection HU as <-. split; [done|exact Hc| |exact Hp]. simpl.
  apply map_Forall_insert_2; [|done]. exact (Hch c ch E).
Qed.

Lemma Receive_texts st c st' o :
  store_texts st -> Receive st c = Some (st', o) ->
  store_texts st' /\ readers st st' /\ forall s, o = Some s -> snapshot_texts Q s.
Proof.
  intros [Hwf Hc Hch Hp] HR. pose proof (Receive_wf _ _ _ _ Hwf HR) as Hwf'.
  pose proof (rtc_once _ _ (move_receive _ _ _ _ HR)) as Hmove. unfold Receive in HR.
  destruct (st_chans st !! c) as [ch|] eqn:E; [|done]. pose proof (Hch c ch E) as Hb.
  cbv beta in Hb. destruct (ch_buf ch) as [|s rest].
  - destruct (ch_closed ch); [|done]. injection HR as <- <-. split; [by split|]. split; [apply rtc_refl|by intros s [=]].
  - injection HR as <- <-. cbv beta in Hb; apply Forall_cons in Hb as [Hs0 Hrest]. split; [|split; [done|by intros ? [= <-]]].
    split; [done|exact Hc| |exact Hp]. simpl. by apply map_Forall_insert_2.
Qed.

(** *** A WebSocket, between two moments of interference *)
Definition undisturbed {P} (e : StreamEvent P) : Prop :=
  match e with Meanwhile _ => False | _ => True end.

(** A handler's stay: no panic, reader moves only, frames with the property. *)
Definition streamed st (o : Outcome (StreamState P)) : Prop :=
  exists s, o = Ok s /\ store_texts (ss_store s) /\ readers st (ss_store s) /\
    Forall (snapshot_texts Q) (ss_sent s).

Lemma streamed_after st st1 o : readers st st1 -> streamed st1 o -> streamed st o.
Proof.
  intros Hr (s & ? & ? & Hm & ?). exists s. split_and!; try done. unfold readers in *. by etrans.
Qed.

Lemma leave_streamed st id sent :
  store_texts st -> Forall (snapshot_texts Q) sent -> streamed st (leave st id sent).
Proof.
  intros Ht Hsent. unfold leave. destruct (Unsubscribe_texts st id Ht) as (st' & -> & Ht' & _ & Hc).
  by eexists.
Qed.

Lemma stream_loop_texts id sub es st sent :
  store_texts st -> Forall undisturbed es -> Forall (snapshot_texts Q) sent ->
  streamed st (stream_loop id sub es st sent).
Proof.
  revert st sent. induction es as [|e es IH]; intros st sent Ht Hes Hsent.
  { eexists. split_and!; [done..|apply rtc_refl|done]. }
  apply Forall_cons in Hes as [He Hes].
  destruct e as [|written|answered|st1]; cbn [stream_loop]; [by apply leave_streamed| | |done].
  - destruct (Receive st sub) as [[st1 [snap|]]|] eqn:HR; [| |by apply IH];
      destruct (Receive_texts _ _ _ _ Ht HR) as (Ht1 & Hm & Hsnap); apply (streamed_after _ _ _ Hm).
    + destruct written; [|by apply leave_streamed]. apply IH; [done|done|].
      apply Forall_app. split; [done|]. constructor; [by apply Hsnap|constructor].
    + by apply leave_streamed.
  - destruct answered; [by apply IH|by apply leave_streamed].
Qed.

Lemma greet_texts id sub conn st :
  store_texts st -> Forall undisturbed (events conn) -> streamed st (greet id sub conn st).
Proof.
  intros Ht Hes. unfold greet. destruct (Latest_texts st Ht) as ([s b] & -> & Hs).
  cbn [outcome_bind snd fst] in *. destruct b; [|by apply stream_loop_texts].
  destruct (first_written conn); [apply stream_loop_texts; auto|by apply leave_streamed].
Qed.

Lemma stream_texts r conn st :
  store_texts st -> Forall undisturbed (events conn) -> streamed st (stream r conn st).
Proof.
  intros Ht Hes. unfold stream.
  assert (streamed st (Ok (mkStream st [] false))) as Hstay
    by (eexists; split_and!; [done..|apply rtc_refl|constructor]).
  destruct (refused conn); [exact Hstay|]. destruct (CheckOrigin r); cbn [negb]; [|exact Hstay].
  pose proof (Subscribe_texts st Ht) as Ht1. pose proof (rtc_once _ _ (move_subscribe st)) as Hm.
  destruct (Subscribe st) as [st1 [id sub]]. apply (streamed_after _ _ _ Hm). by apply greet_texts.
Qed.
End store_texts.

(** ** The handlers *)
Section handlers.
Context (Q : string -> Prop) (Q_empty : Q "").
Context `{Go : GoRuntime} {P G S O I : Type}.
Context `{!Persister P} `{!Signaler G} `{!Sink S} `{!Observer O} `{!Identity I}.
Context `{!Inspector G} `{!Router} `{!UI} `{!WebSocket P}.
Context `{!PersisterTexts Q P} `{!SinkTexts Q S}.
Notation handler := (Handler (World P G S O) Payload).

(** The server has a sink, and its texts have the property. *)
Definition world_texts (w : World P G S O) : Prop :=
  store_texts Q (w_store w) /\ exists s, sink (w_signal w) = Some s /\ sink_texts s.

(** The texts of a document. *)
Definition payload_texts (b : Payload) : Prop :=
  match b with
  | PSnapshot s => snapshot_texts Q s
  | PFrames l => Forall (snapshot_texts Q) l
  | PAudit es => Forall (fun e => Q (VictimQuery e)) es
  | _ => True
  end.

(** What requests leave alone: the status, and of the store all but the
    subscriptions, their channels and the log. *)
Definition quiet (w w' : World P G S O) : Prop :=
  w_status w' = w_status w /\ readers (w_store w) (w_store w').

(** A handler that answers every request, keeps the property of the world, is
    quiet, and shows texts with the property only. *)
Definition safe_handler (h : handler) : Prop :=
  forall r w, world_texts w -> exists w' resp, h r w = Ok (w', resp) /\ world_texts w' /\
    quiet w w' /\ forall b, resp_Body resp = JSONBody b -> payload_texts b.

(** An answer that leaves the world alone. *)
Lemma safe_answer w (resp : Response Payload) :
  world_texts w -> (forall b, resp_Body resp = JSONBody b -> payload_texts b) ->
  exists w' resp', @Ok (World P G S O * Response Payload) (w, resp) = Ok (w', resp') /\
    world_texts w' /\ quiet w w' /\ forall b, resp_Body resp' = JSONBody b -> payload_texts b.
Proof. intros. by exists w, resp. Qed.

(** The same with a store that has changed. *)
Lemma safe_store_answer w st (resp : Response Payload) :
  world_texts w -> store_texts Q st -> readers (w_store w) st -> (forall b, resp_Body resp = JSONBody b -> payload_texts b) ->
  exists w' resp', @Ok (World P G S O * Response Payload) (set_w_store w st, resp) = Ok (w', resp') /\
    world_texts w' /\ quiet w w' /\ forall b, resp_Body resp' = JSONBody b -> payload_texts b.
Proof. intros [_ Hs] Hst Hc Hb. exists (set_w_store w st), resp. split; [done|]. by split. Qed.

Ltac answer := apply safe_answer || apply safe_store_answer; try done; try (by intros ? [= <-]); try (by intros ? [=]).

Lemma healthz_safe : safe_handler handleHealthz.
Proof. intros r w Hw. unfold handleHealthz. answer. Qed.

Lemma me_safe : safe_handler handleMe.
Proof. intros r w Hw. unfold handleMe. case_match; answer. Qed.

Lemma clusters_safe : safe_handler handleClusters.
Proof. intros r w Hw. unfold handleClusters. answer. Qed.

Lemma locks_safe : safe_handler handleLocks.
Proof. intros r w Hw. unfold handleLocks. case_match; answer. Qed.

Lemma hot_objects_safe : safe_handler handleHotObjects.
Proof. intros r w Hw. unfold handleHotObjects. case_match; answer. Qed.

Lemma spa_safe : safe_handler spaHandler.
Proof. intros r w Hw. unfold spaHandler. answer. Qed.

Lemma snapshot_safe : safe_handler handleSnapshot.
Proof.
  intros r w Hw. unfold handleSnapshot. case_match.
  - case_match; [|answer]. destruct (At_texts Q (w_store w) t (proj1 Hw)) as ([s b] & Hr & Hs & Hst & Hcont).
    destruct (Store.At (w_store w) t) as [st res]. cbn [fst snd] in *. subst res. cbn [outcome_bind snd].
    destruct b; cbn [negb]; answer.
  - destruct (Latest_texts Q (w_store w) (proj1 Hw)) as ([s b] & -> & Hs). cbn [outcome_bind snd].
    destruct b; cbn [negb]; answer.
Qed.

Lemma history_safe : safe_handler handleHistory.
Proof.
  intros r w Hw. unfold handleHistory. do 2 (case_match; [|answer]).
  destruct (History_texts Q (w_store w) t t0 (proj1 Hw)) as (metas & Hr & Hst & Hcont).
  destruct (History (w_store w) t t0) as [st res]. cbn [fst snd] in *. subst res. cbn [outcome_bind]. answer.
Qed.

Lemma audit_safe : safe_handler handleAudit.
Proof.
  intros r w Hw. unfold handleAudit. case_match; [|answer].
  pose proof Hw as [_ (s & -> & Hs)]. destruct (recent_texts s z Hs) as (res & -> & Hes).
  cbn [outcome_bind]. destruct res as [es|]; [|answer]. specialize (Hes es eq_refl). answer.
Qed.

Lemma stream_safe :
  (forall r, Forall undisturbed (events (websocket_accept r))) -> safe_handler handleStream.
Proof.
  intros He r w Hw. unfold handleStream.
  destruct (stream_texts Q r (websocket_accept r) (w_store w) (proj1 Hw) (He r)) as (s & -> & Hst & Hcont & Hsent).
  cbn [outcome_bind]. answer.
Qed.

(** The query recorded with an action comes from the latest snapshot. *)
Lemma victim_texts latest pid : snapshot_texts Q latest.1 -> Q (victim_lookup latest pid).1.
Proof.
  intros Hs. unfold victim_lookup. destruct latest.2; cbn [negb]; [|done].
  destruct (Sessions latest.1 !! pid) eqn:E; [|done]. by apply (Hs pid).
Qed.

Lemma signal_safe now action : safe_handler (doSignal now action).
Proof.
  intros r w Hw. unfold doSignal. case_match; [|answer].
  destruct (Latest_texts Q (w_store w) (proj1 Hw)) as (latest & -> & Hl). cbn [outcome_bind].
  pose proof Hw as [Hst (s & Hs & Hst')].
  set (c := mkCall (Some (victim_lookup latest)) now action z
    (match PrincipalFrom r with Some p => Name p | None => "unknown"%string end)).
  pose proof (Do_effects (w_signal w) c) as He. unfold do_call in He. cbn in He.
  destruct (Do _ _ _ _ _ _) as [svc [res err]]. destruct He as (_ & _ & _ & Hsink).
  rewrite Hs in Hsink. cbn in Hsink.
  assert (world_texts (set_w_signal w svc)) as Hw'.
  { split; [done|]. eexists. split; [exact Hsink|]. apply record_texts; [done|]. by apply victim_texts. }
  destruct err; (eexists _, _; split; [reflexivity|]); (split; [done|]); (split; [done|]); by intros b [= <-].
Qed.

Lemma RequireRole_safe min h : safe_handler h -> safe_handler (RequireRole min h).
Proof.
  intros Hh r w Hw. unfold RequireRole. case_match; [|answer]. case_match; [answer|by apply Hh].
Qed.

Lemma requireSameOrigin_safe h : safe_handler h -> safe_handler (requireSameOrigin h).
Proof. intros Hh r w Hw. unfold requireSameOrigin. case_match; [answer|by apply Hh]. Qed.

Lemma serve_safe (rs : list Route) no_route :
  Forall (fun rt => safe_handler rt.2) rs -> safe_handler (serve_routes rs no_route).
Proof.
  intros Hrs r w Hw. unfold serve_routes. case_match; [|answer]. case_match.
  destruct (rs !! n) as [rt|] eqn:E; [|answer].
  rewrite Forall_lookup in Hrs. exact (Hrs n rt E _ w Hw).
Qed.

(** Every request is answered, without a panic. *)
Lemma ServeHTTP_safe id no_route metrics now :
  (forall r, Forall undisturbed (events (websocket_accept r))) ->
  safe_handler (ServeHTTP id no_route metrics now).
Proof.
  intros He. apply serve_safe. unfold root_routes. apply Forall_app. split.
  { constructor; [apply healthz_safe|constructor]. }
  apply Forall_app. split.
  { destruct metrics; [|constructor]. constructor; [|constructor]. intros r w Hw. simpl. answer. }
  constructor; [|constructor; [apply spa_safe|constructor]].
  intros r w Hw. cbn [snd Handle]. unfold api_router, AuthenticateMW.
  case_match. case_match; [|answer]. apply serve_safe; [|done].
  unfold api_routes, Group. simpl. pose proof (stream_safe He).
  repeat (apply Forall_cons; split); [..|constructor]; simpl;
    auto using me_safe, clusters_safe, snapshot_safe, history_safe, locks_safe, hot_objects_safe.
  - apply RequireRole_safe, requireSameOrigin_safe, signal_safe.
  - apply RequireRole_safe, requireSameOrigin_safe, signal_safe.
  - apply RequireRole_safe, audit_safe.
Qed.
End handlers.
