(* ===== verification/System.v ===== *)
(** * cmd/pglockr: the running program

    [run] of main.go wires the components together: one client behind the
    source, the signals and the inspector; one store behind the poller and the
    server; one history file behind the store and the audit trail; one set of
    metrics.  [App] holds each of them once; a poll, a request and a WebSocket
    event are steps on it, in any order.  A poll is one step here;
    [Process.v] takes it apart. *)
From S2P Require Import Prelude GoRuntime Utf8 Graph Redact Auth Store AuditTrail Signal Poller RedactSource Pg Metrics Persist Config Main Preflight Stream GoTime Api Flow.
Local Open Scope Z_scope.
Local Open Scope pglockr_scope.

(** ** The choices [run] makes *)

(** [var source poller.Source]: the client, or the client behind redaction. *)
Inductive AnySource (C : Type) := SrcClient (c : C) | SrcRedacted (s : RedactedSource C).
Arguments SrcClient {C}.
Arguments SrcRedacted {C}.

#[export] Instance any_source `{GoRuntime} `{!Source C} : Source (AnySource C) := fun s =>
  match s with
  | SrcClient c => let '(c, r) := SourceSnapshot c in (SrcClient c, r)
  | SrcRedacted s => let '(s, r) := SourceSnapshot s in (SrcRedacted s, r)
  end.

Definition source_client {C} (s : AnySource C) : C :=
  match s with SrcClient c => c | SrcRedacted s => inner s end.

(** [var auditSink audit.Sink]: in memory, or the history file. *)
Inductive AnySink (A : Type) := SinkMemory (m : Memory) | SinkSQLite (a : A).
Arguments SinkMemory {A}.
Arguments SinkSQLite {A}.

#[export] Instance any_sink `{!AuditTable A} : Sink (AnySink A) := {|
  RecordEntry s e :=
    match s with
    | SinkMemory m => let '(m, err) := RecordEntry m e in (SinkMemory m, err)
    | SinkSQLite a => let '(a, err) := RecordEntry a e in (SinkSQLite a, err)
    end;
  AuditTrail.Recent s limit :=
    match s with
    | SinkMemory m => AuditTrail.Recent m limit
    | SinkSQLite a => AuditTrail.Recent a limit
    end
|}.

(** The history file with the clock its methods read. *)
Record Durable (D : Type) := mkDurable { dur_now : Time; dur_file : SQLite D }.
Arguments mkDurable {D}.
Arguments dur_now {D}.
Arguments dur_file {D}.

#[export] Instance durable_persister {D Raw Blob} `{!SnapshotTable D Blob} `{!Codec Raw Blob}
    : Persister (Durable D) := {|
  Save p snap :=
    let '(s, err) := sqlite_Save (dur_file p) snap (dur_now p) in (mkDurable (dur_now p) s, err);
  PersistAt p t := sqlite_At (dur_file p) t;
  PersistHistory p from to := sqlite_History (dur_file p) from to
|}.

(** ** The state of the process *)
Section system.
Context `{Go : GoRuntime} {Cfg C B D Raw Blob A V H : Type}.
Context `{!Pool C} `{!Driver Cfg C} `{!SnapshotTable D Blob} `{!Codec Raw Blob} `{!AuditTable A}.
Context `{!Prometheus V H} `{!Router} `{!UI} `{!Database B D A}.

Notation Client := (Pg.Client (C:=C)).
Notation Metrics := (Metrics.Metrics (V:=V) (H:=H)).
Notation History := (Durable D).

Record App := mkApp {
  a_client : Client;
  a_redact : bool;
  a_store : Store History;
  a_sink : AnySink A;
  a_metrics : Metrics;
  (* the poller *)
  a_cluster : string;
  a_interval : Duration;
  a_status : Status;
  a_plog : list (string * Duration);
  a_backoff : Duration;
  a_running : bool;
  (* the signal service and the server *)
  a_slog : list LogLine;
  a_identity : AnyIdentity
}.

(** What [run] finds outside: the embedded UI, chi's answer
    where no route matches, the status of the metrics page, and what the
    websocket library decides about an upgrade and its first write. *)
Class Outside := {
  DistFS : Prelude.Result unit;
  no_route : Request -> Z;
  metrics_page : Request -> Z;
  upgrade_refused : Request -> option Z;
  first_write : Request -> bool
}.
Context `{!Outside}.

(** A connection after the upgrade; its events are steps of their own. *)
#[export] Instance app_websocket : WebSocket History := fun r =>
  mkConnection (upgrade_refused r) (first_write r) [].

(** ** Startup *)
Record Started := mkStarted { st_app : App; st_lines : list LogLine; st_stderr : string }.

(** The optional durable history. *)
Definition open_history (cfg : PersistConfig) : Prelude.Result (option (SQLite D * A)) :=
  if negb (PersistEnabled cfg) then Val None else
  match Open (PersistPath cfg) (Retention cfg) (Some []) with
  | Err err => Err err
  | Val (hist, a) => Val (Some (hist, a))
  end.

(** The result of [run], or the panic of a ring longer than a slice can be. *)
Definition run_start (cfg : Config.Config) : Outcome (Prelude.Result Started) :=
  match Connect (DSN (Config.Cluster cfg)) (StatementTimeout (Config.Poll cfg)) with
  | (_, Err err) => Ok (Err err)
  | (_, Val client) =>
      let connected := mkLogLine "INFO" "connected to target"
        [("cluster"%string, AttrString (ClusterName (Config.Cluster cfg)));
         ("server_version_num"%string, AttrInt (versionNum client))] in
      let '(client, checked, printed) := preflight client in
      let* storage := Store.New (RingSize (Config.Poll cfg)) in
      match open_history (Config.Persist cfg) with
      | Err err => Ok (Err err)
      | Val hist =>
          let '(storage, auditSink, persisted) :=
            match hist with
            | Some (h, a) =>
                (SetPersister storage (Some (mkDurable zeroTime h)) (Some []), SinkSQLite a,
                 [mkLogLine "INFO" "history persistence enabled"
                    [("path"%string, AttrString (PersistPath (Config.Persist cfg)));
                     ("retention"%string, AttrInt (Retention (Config.Persist cfg)))]])
            | None => (storage, SinkMemory (NewMemory 1000), [])
            end in
          let '(source, redacting) :=
            if RedactionEnabled (Config.Redaction cfg)
            then (SrcRedacted (NewSource client), [mkLogLine "INFO" "query-text redaction enabled" []])
            else (SrcClient client, []) in
          let p := SetMetrics (Poller.New (ClusterName (Config.Cluster cfg)) source storage
                                 (Interval (Config.Poll cfg))) (Some (Metrics.New : Metrics)) in
          match DistFS with
          | Err err => Ok (Err err)
          | Val _ =>
              match buildIdentity (Config.Auth cfg) with
              | Err err => Ok (Err err)
              | Val identity =>
                  Ok (Val (mkStarted
                    (mkApp client (RedactionEnabled (Config.Redaction cfg)) (store p) auditSink
                       Metrics.New (cluster p) (interval p) (status p) (Poller.log p)
                       (interval p) true [] identity)
                    ([connected] ++ checked ++ persisted ++ redacting ++
                     [mkLogLine "INFO" "listening" [("addr"%string, AttrString (Addr (HTTP cfg)))]])
                    printed))
              end
          end
      end
  end.

(** Up to the point where the goroutines and the listener run. *)
Definition run (Getenv : string -> string) (ReadFile : string -> Prelude.Result string)
    (Unmarshal : string -> Config.Config -> Prelude.Result Config.Config) (configPath : string)
    : Outcome (Prelude.Result Started) :=
  match Load Getenv ReadFile Unmarshal configPath with
  | Err err => Ok (Err err)
  | Val cfg => run_start cfg
  end.

(** ** Steps *)

(** The clock the history file reads during a step. *)
Definition at_time (st : Store History) (now : Time) : Store History :=
  match st_persist st with
  | Some p => SetPersister st (Some (mkDurable now (dur_file p))) (st_log st)
  | None => st
  end.

(** The poller's view of the process, on the store [st]. *)
Definition poller_with (a : App) (st : Store History) : Poller (AnySource Client) (Store History) Metrics :=
  mkPoller (a_cluster a)
    (if a_redact a then SrcRedacted (NewSource (a_client a)) else SrcClient (a_client a))
    st (a_interval a) (a_plog a) (Some (a_metrics a)) (a_status a).

Definition poller_of (a : App) (now : Time) := poller_with a (at_time (a_store a) now).

(** The process after an iteration that ends with [nxt]. *)
Definition of_poller (a : App) (p : Poller (AnySource Client) (Store History) Metrics) (nxt : Next) : App :=
  mkApp (source_client (src p)) (a_redact a) (store p) (a_sink a)
    (default (a_metrics a) (obs p)) (a_cluster a) (a_interval a) (status p) (Poller.log p)
    (match nxt with Return => a_backoff a | Again b => b end)
    (match nxt with Return => false | Again _ => true end)
    (a_slog a) (a_identity a).

(** One iteration of the poll goroutine, while it runs. *)
Definition poll_step (a : App) (e : Env) : Outcome App :=
  if negb (a_running a) then Ok a else
  let* r := iteration (poller_of a (now_build e)) (a_backoff a) e in
  let '(p, _, nxt) := r in Ok (of_poller a p nxt).

(** The server's view. *)
Definition world_of (a : App) : World History Client (AnySink A) Metrics :=
  mkWorld (a_store a) (a_status a)
    (mkService (a_client a) (a_slog a) (Some (a_sink a)) (Some (a_metrics a))).

Definition of_world (a : App) (w : World History Client (AnySink A) Metrics) : App :=
  mkApp (sig (w_signal w)) (a_redact a) (w_store w) (default (a_sink a) (sink (w_signal w)))
    (default (a_metrics a) (Signal.obs (w_signal w))) (a_cluster a) (a_interval a) (a_status a)
    (a_plog a) (a_backoff a) (a_running a) (Signal.log (w_signal w)) (a_identity a).

(** The document of a response. *)
Definition document (resp : Response Payload) : list Payload :=
  match resp_Body resp with JSONBody b => [b] | _ => [] end.

Definition request_step (a : App) (r : Request) (now : Time) : Outcome (App * list Payload) :=
  let* wr := ServeHTTP (a_identity a) no_route (Some metrics_page) now r (world_of a) in
  Ok (of_world a wr.1, document wr.2).

(** What a scrape of /metrics gathers from the live collector, through the two
    functions main.go gives it. *)
Definition scrape (a : App) : Outcome (list Gauge) :=
  let* latest := Latest (a_store a) in
  Collect (status_Cluster (a_status a), Connected (a_status a)) latest.

(** What can happen to an open connection. *)
Inductive SocketEvent := SockDone | SockFrame (written : bool) | SockPing (answered : bool).

Definition stream_event (e : SocketEvent) : StreamEvent History :=
  match e with
  | SockDone => CtxDone
  | SockFrame written => Frame written
  | SockPing answered => Ping answered
  end.

(** A connection is its subscription; without one its handler has returned. *)
Definition socket_step (a : App) (id : Z) (e : SocketEvent) : Outcome (App * list Payload) :=
  match st_subs (a_store a) !! id with
  | None => Ok (a, [])
  | Some sub =>
      let* s := stream_loop id sub [stream_event e] (a_store a) [] in
      Ok (of_world a (set_w_store (world_of a) (ss_store s)), [PFrames (ss_sent s)])
  end.

Inductive Event :=
| EvPoll (e : Env)
| EvRequest (r : Request) (now : Time)
| EvSocket (id : Z) (e : SocketEvent).

(** A step, with the documents it sends out. *)
Definition step (a : App) (ev : Event) : Outcome (App * list Payload) :=
  match ev with
  | EvPoll e => let* a := poll_step a e in Ok (a, [])
  | EvRequest r now => request_step a r now
  | EvSocket id e => socket_step a id e
  end.

Fixpoint run_events (a : App) (evs : list Event) : Outcome (App * list Payload) :=
  match evs with
  | [] => Ok (a, [])
  | ev :: evs =>
      let* r := step a ev in
      let* r' := run_events r.1 evs in
      Ok (r'.1, r.2 ++ r'.2)
  end.
End system.
