(* ===== verification/CommandLine.v ===== *)
(** * cmd/pglockr: the command line

    [main] and [runGrants] of main.go: the choice of command, the flags, what is
    printed and the exit status. *)
From S2P Require Import Prelude GoRuntime Utf8 GoStrings GoFlag Graph Auth Store AuditTrail Setup Signal Poller RedactSource Pg Metrics Persist Config Main Preflight Stream Api System.
Local Open Scope Z_scope.
Local Open Scope pglockr_scope.

(** ** pglockr grants *)
Definition grants_flags : FlagSet :=
  {["role" := StringValue "pglockr_ro"; "password" := StringValue ""; "no-signal" := BoolValue false]}.

(** How a command ends: [flag.ExitOnError] has printed the error, if any, and
    the usage; or the command has run, with what it has written. *)
Record Printed := mkPrinted { stdout : string; stderr : string }.
Inductive Ending :=
| Usage (status : Z) (err : option string)
| Exits (status : Z) (printed : Printed).

(** The lines on standard error; with the password when it was generated. *)
Definition guidance (role : string) (generated : option string) : string :=
  nl +:+ "# Review the SQL above, then apply it as a superuser, e.g.:" +:+ nl +:+
  "#   pglockr grants --role " +:+ role +:+ " | psql " +:+ dquote +:+
  "postgres://postgres@HOST:5432/DBNAME" +:+ dquote +:+ nl +:+
  (match generated with
   | Some pw =>
       "#" +:+ nl +:+ "# Generated password for " +:+ Quote role +:+
       " (save it — shown once):" +:+ nl +:+ "#   " +:+ pw +:+ nl
   | None => ""
   end) +:+
  "#" +:+ nl +:+ "# Then point pglockr at it:" +:+ nl +:+
  "#   PGLOCKR_DSN=" +:+ dquote +:+ "postgres://" +:+ role +:+
  ":PASSWORD@HOST:5432/DBNAME" +:+ dquote +:+ nl.

(** The printing half, on the values of the flags. *)
Definition printGrants (role password : string) (noSignal : bool) (rand : Prelude.Result (list Z))
    : Prelude.Result Printed :=
  if bool_decide (password = ""%string) then
    match RandomPassword rand with
    | Err err => Err err
    | Val pw => Val (mkPrinted (Script (mkGrantOptions role pw (negb noSignal))) (guidance role (Some pw)))
    end
  else Val (mkPrinted (Script (mkGrantOptions role password (negb noSignal))) (guidance role None)).

(** [runGrants], and what [main] makes of its error. *)
Definition runGrants (args : list string) (rand : Prelude.Result (list Z)) : Ending :=
  match Parse grants_flags args with
  | ErrHelp => Usage 0 None
  | Failed err => Usage 2 (Some err)
  | Done fs _ =>
      match printGrants (get_string fs "role") (get_string fs "password") (get_bool fs "no-signal") rand with
      | Err err => Exits 1 (mkPrinted "" ("error: " +:+ err +:+ nl))
      | Val printed => Exits 0 printed
      end
  end.

(** ** main *)
Inductive Command := CmdGrants (args : list string) | CmdVersion | CmdServe.

(** [Args] is os.Args, the program's name first. *)
Definition command (Args : list string) : Command :=
  match Args with
  | _ :: arg :: rest =>
      if bool_decide (arg = "grants"%string) then CmdGrants rest
      else if bool_decide (arg = "version"%string) || bool_decide (arg = "--version"%string) then CmdVersion
      else CmdServe
  | _ => CmdServe
  end.

Definition serve_flags : FlagSet := {["config" := StringValue ""]}.

Section main.
Context `{Go : GoRuntime} {Cfg C B D Raw Blob A V H : Type}.
Context `{!Pool C} `{!Driver Cfg C} `{!SnapshotTable D Blob} `{!Codec Raw Blob} `{!AuditTable A}.
Context `{!Prometheus V H} `{!Router} `{!UI} `{!Database B D A} `{!Outside}.

(** What becomes of the process: it ends, dies with an error in its log, panics
    at startup, or serves. *)
Inductive Fate :=
| Ends (e : Ending)
| Fatal (err : string)
| Crashes (why : string)
| Serving (started : @Started C D A V H).

Definition main (version : string) (Getenv : string -> string) (ReadFile : string -> Prelude.Result string)
    (Unmarshal : string -> Config.Config -> Prelude.Result Config.Config) (rand : Prelude.Result (list Z))
    (Args : list string) : Fate :=
  match command Args with
  | CmdGrants args => Ends (runGrants args rand)
  | CmdVersion => Ends (Exits 0 (mkPrinted ("pglockr " +:+ version +:+ nl) ""))
  | CmdServe =>
      match Parse serve_flags (drop 1 Args) with
      | ErrHelp => Ends (Usage 0 None)
      | Failed err => Ends (Usage 2 (Some err))
      | Done fs _ =>
          match run Getenv ReadFile Unmarshal (get_string fs "config") with
          | Ok (Err err) => Fatal err
          | Ok (Val started) => Serving started
          | Panic why => Crashes why
          end
      end
  end.

Lemma main_config version Getenv ReadFile Unmarshal rand prog path started :
  main version Getenv ReadFile Unmarshal rand [prog; "--config"; path]%string = Serving started <->
  run Getenv ReadFile Unmarshal path = Ok (Val started).
Proof.
  unfold main. cbn [command drop]. rewrite !bool_decide_eq_false_2 by done. cbn [orb].
  change ["--config"; path]%string with (written (mkWritten true false "config" (StringValue path)) ++ []).
  rewrite Parse_written by done. cbn [Parse]. unfold get_string, assign. cbn [wr_name wr_value].
  rewrite lookup_insert_eq. destruct (run Getenv ReadFile Unmarshal path) as [[]|]; split; congruence.
Qed.
End main.

(** ** The grants command *)

(** The options a command line asks for, the last of a kind counting. *)
Definition override (o : GrantOptions) (w : Written) : GrantOptions :=
  match wr_value w with
  | StringValue v =>
      if bool_decide (wr_name w = "role"%string) then mkGrantOptions v (Password o) (Setup.Signal o)
      else if bool_decide (wr_name w = "password"%string) then mkGrantOptions (Setup.Role o) v (Setup.Signal o)
      else o
  | BoolValue b =>
      if bool_decide (wr_name w = "no-signal"%string) then mkGrantOptions (Setup.Role o) (Password o) (negb b)
      else o
  end.

(** The flags of [runGrants] with the values of some options. *)
Definition flags_of (o : GrantOptions) : FlagSet :=
  <["role" := StringValue (Setup.Role o)]> (<["password" := StringValue (Password o)]>
    (<["no-signal" := BoolValue (negb (Setup.Signal o))]> ∅)).

Definition default_grants : GrantOptions := mkGrantOptions "pglockr_ro" "" true.

Lemma flags_of_fits o w : fits (flags_of o) w ->
  (exists v, wr_name w = "role" /\ wr_value w = StringValue v \/
             wr_name w = "password" /\ wr_value w = StringValue v)%string \/
  (exists b, wr_name w = "no-signal" /\ wr_value w = BoolValue b)%string.
Proof.
  unfold fits, flags_of. intros [_ Hf]. destruct w as [two joined name value]. cbn [wr_name wr_value] in *.
  destruct (decide (name = "role"%string)) as [->|Hr];
    [rewrite lookup_insert_eq in Hf|rewrite lookup_insert_ne in Hf by done].
  { destruct value; [|done]. left. eexists. by left. }
  destruct (decide (name = "password"%string)) as [->|Hp];
    [rewrite lookup_insert_eq in Hf|rewrite lookup_insert_ne in Hf by done].
  { destruct value; [|done]. left. eexists. by right. }
  destruct (decide (name = "no-signal"%string)) as [->|Hn];
    [rewrite lookup_insert_eq in Hf|rewrite lookup_insert_ne in Hf by done].
  { destruct value; [done|]. right. by eexists. }
  by rewrite lookup_empty in Hf.
Qed.

Lemma assign_override o w : fits (flags_of o) w -> assign (flags_of o) w = flags_of (override o w).
Proof.
  intros Hw. pose proof (flags_of_fits o w Hw) as Hcases. destruct w as [two joined name value].
  unfold assign, override, flags_of. cbn [wr_name wr_value] in *.
  destruct Hcases as [(v & [[-> ->]|[-> ->]])|(b & -> & ->)]; cbn.
  - by rewrite insert_insert_eq.
  - rewrite insert_insert_ne by done. by rewrite insert_insert_eq.
  - rewrite bool_decide_eq_true_2 by done. cbn. rewrite negb_involutive, !(insert_insert_ne _ "no-signal"%string) by done. by rewrite insert_insert_eq.
Qed.

Lemma assign_all o ws :
  Forall (fits (flags_of o)) ws -> fold_left assign ws (flags_of o) = flags_of (fold_left override ws o).
Proof.
  revert o. induction ws as [|w ws IH]; intros o; [done|]. intros [Hw Hws]%Forall_cons. cbn [fold_left].
  rewrite assign_override by done. apply IH. eapply Forall_impl; [exact Hws|].
  intros w' Hw'. rewrite <-assign_override by done. by apply fits_assign.
Qed.

Lemma printGrants_script role password noSignal rand printed :
  printGrants role password noSignal rand = Val printed -> exists o, stdout printed = Script o.
Proof.
  unfold printGrants. case_bool_decide; [destruct (RandomPassword rand); [|discriminate]|];
    intros [= <-]; by eexists.
Qed.

(** C32: [pglockr grants] does what its options say: with any of its flags in any
    order, style and number, the last one of a name counting, and whatever role
    name and password they carry, it exits with status 0 and prints exactly
    these SQL tokens: the role with the password, the monitoring grant, and the
    signalling grant unless it was declined.  Without a password a random one is
    taken, or, when there is no randomness, the command fails with status 1 and
    prints no SQL.  Standard error names the password only when it was generated.
    On any other arguments too, what goes to standard output is a whole script
    or nothing. *)
Theorem grants_command (ws : list Written) (args : list string) (rand : Prelude.Result (list Z))
    (Hws : Forall (fits grants_flags) ws) (Hargs : stops args = true) :
  let o := fold_left override ws default_grants in
  let password := if bool_decide (Password o = ""%string) then RandomPassword rand else Val (Password o) in
  match password with
  | Err err =>
      runGrants ((ws ≫= written) ++ args) rand = Exits 1 (mkPrinted "" ("error: " +:+ err +:+ nl))
  | Val pw =>
      exists sql, runGrants ((ws ≫= written) ++ args) rand =
        Exits 0 (mkPrinted sql (guidance (Setup.Role o)
          (if bool_decide (Password o = ""%string) then Some pw else None))) /\
      tokens sql = Some (script_tokens (mkGrantOptions (Setup.Role o) pw (Setup.Signal o)))
  end /\
  forall args status printed, runGrants args rand = Exits status printed ->
    stdout printed = ""%string /\ status = 1 \/ (exists o, stdout printed = Script o) /\ status = 0.
Proof.
  cbv zeta. set (o := fold_left override ws default_grants). split.
  - unfold runGrants. destruct (Parse_all grants_flags ws args Hws Hargs) as [rest ->].
    change grants_flags with (flags_of default_grants) in *. rewrite assign_all by done. fold o.
    unfold get_string, get_bool, flags_of. rewrite lookup_insert_eq, lookup_insert_ne, lookup_insert_eq by done.
    rewrite !lookup_insert_ne, lookup_insert_eq by done. unfold printGrants. rewrite negb_involutive.
    case_bool_decide as Hp.
    + destruct (RandomPassword rand) as [pw|err]; [|done]. eexists. split; [done|]. apply Script_tokens.
    + eexists. split; [done|]. apply Script_tokens.
  - intros args' status printed. unfold runGrants. destruct (Parse grants_flags args') as [fs rest| |]; [|done..].
    destruct (printGrants _ _ _ _) as [p|err] eqn:E; intros [= <- <-]; [|by left].
    right. split; [|done]. by eapply printGrants_script.
Qed.

(** A hostile role name, an overridden password. *)
Lemma grants_command_witness : exists sql,
  runGrants ["-role=ro;--"; "--password"; "x"; "--no-signal"; "--password=p'w"; "rest"]%string (Err "unused"%string) =
    Exits 0 (mkPrinted sql (guidance "ro;--" None)) /\
  tokens sql = Some (script_tokens (mkGrantOptions "ro;--" "p'w" false)).
Proof.
  destruct (grants_command
    [mkWritten false true "role" (StringValue "ro;--"); mkWritten true false "password" (StringValue "x");
     mkWritten true false "no-signal" (BoolValue true); mkWritten true true "password" (StringValue "p'w")]%string
    ["rest"%string] (Err "unused"%string)) as [H _]; [|reflexivity|exact H].
  repeat constructor.
Defined.
