(* ===== verification/SystemProofs.v ===== *)
(** * The running program: what holds in every state it can reach

    The promises of [Flow.v] for the history file and the sinks, the invariant
    of [App], and the properties of whole runs. *)
From S2P Require Import Prelude GoRuntime Utf8 Graph Redact Store StoreConc Auth AuditTrail Signal Poller RedactSource Pg Metrics Persist Config Main Preflight Stream GoTime Api Flow System.
Local Open Scope Z_scope.
Local Open Scope pglockr_scope.

(** ** The promises are kept *)

(** What encoding/json documents: the string of a field is decoded as it was,
    except that invalid UTF-8 has become the replacement character. *)
Definition ToValidUTF8 (s : string) : string := text (runes (bytes_of_string s)).

Class JsonLaws (Raw Blob : Type) `{!Codec Raw Blob} :=
  json_queries s raw s' pid sess' : json_Marshal s = Val raw -> json_Unmarshal raw = Val s' ->
    Sessions s' !! pid = Some sess' ->
    exists sess, Sessions s !! pid = Some sess /\ Graph.Query sess' = ToValidUTF8 (Graph.Query sess).

Class Utf8Closed (Q : string -> Prop) := Q_utf8 q : Q q -> Q (ToValidUTF8 q).

Section promises.
Context (Q : string -> Prop) `{!Utf8Closed Q}.

Lemma memory_texts (m : Memory) e :
  Forall (fun e => Q (VictimQuery e)) (entries m) -> Q (VictimQuery e) ->
  Forall (fun e => Q (VictimQuery e)) (entries (memory_Record m e).1).
Proof.
  intros Hm He. unfold memory_Record. cbn [fst entries].
  assert (Forall (fun e => Q (VictimQuery e)) (entries m ++ [e])) as Hall
    by (apply Forall_app; by split; [|constructor]).
  case_match; [by apply Forall_drop|done].
Qed.

Context {A : Type} `{!AuditTable A} `{!AuditTableLaws A}.

Definition any_sink_texts (s : AnySink A) : Prop :=
  match s with
  | SinkMemory m => Forall (fun e => Q (VictimQuery e)) (entries m)
  | SinkSQLite a => Forall (fun r => Q (au_victim_query r)) (audit_rows a)
  end.

Lemma any_record_texts s e :
  any_sink_texts s -> Q (VictimQuery e) -> any_sink_texts (RecordEntry s e).1.
Proof.
  destruct s as [m|a]; intros Hs He.
  - pose proof (memory_texts m e Hs He). exact H.
  - cbn. unfold sqlite_Record. pose proof (audit_insert_rows a (audit_row_of e)) as Hi.
    destruct (audit_insert a (audit_row_of e)) as [a' [err|]]; cbn in *; rewrite Hi; [done|].
    apply Forall_app. by split; [|constructor].
Qed.

Lemma any_recent_texts s limit :
  any_sink_texts s -> exists r, AuditTrail.Recent s limit = Ok r /\
    forall es, r = Val es -> Forall (fun e => Q (VictimQuery e)) es.
Proof.
  destruct s as [m|a]; intros Hs.
  - cbn. rewrite memory_Recent_newest. eexists. split; [done|]. intros es [= <-].
    case_match; [|apply Forall_take]; by apply Forall_reverse.
  - cbn. eexists. split; [done|]. unfold sqlite_Recent. intros es Hes.
    destruct (audit_select a _) as [rs|] eqn:E; [|discriminate]. injection Hes as <-.
    apply audit_select_rows in E as (ordered & Hp & _ & ->).
    apply Forall_fmap, Forall_take, Forall_fmap. rewrite Hp. apply Forall_forall. intros [i r] Hr.
    apply elem_of_lookup_imap in Hr as (j & r' & [= -> ->] & Hr). cbn in Hs. rewrite Forall_lookup in Hs.
    exact (Hs j r' Hr).
Qed.

#[export] Instance any_sink_promise : SinkTexts Q (AnySink A) := {|
  sink_texts := any_sink_texts;
  record_texts := any_record_texts;
  recent_texts := any_recent_texts
|}.

Context {D Raw Blob : Type} `{!SnapshotTable D Blob} `{!SnapshotTableLaws D Blob}
  `{!Codec Raw Blob} `{!CodecLaws Raw Blob} `{!JsonLaws Raw Blob}.

(** Every row decodes, if at all, to a snapshot with the property. *)
Definition rows_texts (d : D) : Prop :=
  Forall (fun r => forall s, decode (row_data r) = Val s -> snapshot_texts Q s) (rows d).

Lemma encode_decode_texts s blob s' :
  encode s = Val blob -> decode blob = Val s' -> snapshot_texts Q s -> snapshot_texts Q s'.
Proof.
  unfold encode, decode. destruct (json_Marshal s) as [raw|] eqn:Hm; [|discriminate].
  destruct (gzip_Write _ raw) as [w|] eqn:Hw; [|discriminate]. intros Hc.
  destruct (gzip_roundtrip raw w blob Hw Hc) as (r & -> & ->). intros Hu Hs pid sess' Hp.
  destruct (json_queries s raw s' pid sess' Hm Hu Hp) as (sess & Hl & ->). apply Q_utf8. by apply (Hs pid).
Qed.

Lemma durable_save_texts (p : Durable D) s :
  rows_texts (db (dur_file p)) -> snapshot_texts Q s -> rows_texts (db (dur_file (Save p s).1)).
Proof.
  unfold rows_texts. cbn. intros Hr Hs.
  destruct (sqlite_Save (dur_file p) s (dur_now p)) as [f [err|]] eqn:E; cbn.
  - destruct (Save_failed _ _ _ _ _ E) as [-> _]. done.
  - destruct (Save_rows _ _ _ _ E) as (blob & He & _ & Hrows).
    assert (Forall (fun r => forall s, decode (row_data r) = Val s -> snapshot_texts Q s)
      (rows (db (dur_file p)) ++ [row_of s blob])) as Hall.
    { apply Forall_app. split; [done|]. constructor; [|constructor]. intros s'. cbn.
      intros Hd. by apply (encode_decode_texts s blob). }
    destruct Hrows as [->|(_ & _ & _ & ->)]; [done|].
    apply Forall_forall. intros r [_ Hin]%list_elem_of_filter. rewrite Forall_forall in Hall. by apply Hall.
Qed.

(** [consider] keeps one of the rows it has seen. *)
Lemma consider_found target (found : option (Row Blob)) best r :
  (consider target found best).1 = Some r -> found = Some r \/ best.1 = Some r.
Proof. unfold consider. destruct found; [|by right]. case_match; [by left|by right]. Qed.

Lemma durable_at_texts (p : Durable D) t s b :
  rows_texts (db (dur_file p)) -> PersistAt p t = Val (s, b) -> snapshot_texts Q s.
Proof.
  cbn. unfold rows_texts, sqlite_At. intros Hr. rewrite Forall_forall in Hr.
  destruct (tbl_floor _ _) as [below|] eqn:Hf; [|discriminate].
  destruct (tbl_ceiling _ _) as [above|] eqn:Hc; [|discriminate].
  apply floor_rows in Hf. apply ceiling_rows in Hc.
  destruct (consider _ above _).1 as [r|] eqn:E; [|intros [= <- <-]; apply emptySnapshot_texts].
  assert (r ∈ rows (db (dur_file p))) as Hin.
  { apply consider_found in E as [->|E]; [apply Hc|]. apply consider_found in E as [->|[=]]. apply Hf. }
  destruct (decode (row_data r)) eqn:Hd; [|discriminate]. intros [= <- <-]. by apply (Hr r).
Qed.

#[export] Instance durable_promise : PersisterTexts Q (Durable D) := {|
  pers_texts p := rows_texts (db (dur_file p));
  save_texts := durable_save_texts;
  at_texts := durable_at_texts
|}.
End promises.

(** ** The invariant *)
Section runs.
Context `{Go : GoRuntime} {Cfg C B D Raw Blob A V H : Type}.
Context `{!Pool C} `{!Driver Cfg C} `{!SnapshotTable D Blob} `{!Codec Raw Blob} `{!AuditTable A}.
Context `{!Prometheus V H} `{!Router} `{!UI} `{!SnapshotTableLaws D Blob} `{!CodecLaws Raw Blob}
  `{!AuditTableLaws A} `{!Database B D A} `{!Outside}.
Notation App := (@App C D A V H).
Implicit Types a : App.

Section texts.
Context (Q : string -> Prop) (Q_empty : Q "") `{!Utf8Closed Q, !JsonLaws Raw Blob}.

(** The texts the source may deliver: any, or masked ones. *)
Definition source_texts (a : App) : Prop :=
  (a_redact a = true /\ forall raw, Q (Mask raw)) \/ forall q, Q q.

Definition app_texts (a : App) : Prop := world_texts Q (world_of a) /\ source_texts a.

Lemma Build_texts cl now (ss : gmap Z Session) ls :
  (forall pid s, ss !! pid = Some s -> Q (Graph.Query s)) -> snapshot_texts Q (Build cl now ss ls).
Proof.
  intros Hss pid s. rewrite Build_unfold. simpl. rewrite flag_roots_lookup.
  destruct (ss !! pid) as [s0|] eqn:E; [|done]. simpl. intros [= <-].
  case_bool_decide; exact (Hss pid s0 E).
Qed.

(** What a poll of the process builds. *)
Lemma source_snapshot_texts a now s' ss ls cl t :
  source_texts a -> SourceSnapshot (src (poller_of a now)) = (s', Val (ss, ls)) ->
  snapshot_texts Q (Build cl t ss ls).
Proof.
  intros [[Hr HQ]|HQ] E; apply Build_texts; intros pid s Hs; [|apply HQ].
  unfold poller_of in E. cbn in E. rewrite Hr in E. cbn in E.
  destruct (SourceSnapshot (NewSource (a_client a))) as [i r] eqn:Er. injection E as <- ->.
  unfold SourceSnapshot, redacted_source in Er. rewrite RedactedSnapshot_spec in Er.
  destruct (SourceSnapshot (inner (NewSource (a_client a)))) as [i' [[ss' ls']|]]; [|discriminate].
  injection Er as <- <- <-. rewrite lookup_fmap in Hs.
  destruct (ss' !! pid) as [s0|]; [|discriminate]. injection Hs as <-. apply HQ.
Qed.

Lemma at_time_texts st now : store_texts Q st -> store_texts Q (at_time st now).
Proof.
  intros Hst. unfold at_time. destruct (st_persist st) as [p|] eqn:Hp; [|done].
  apply SetPersister_texts; [done|]. exact (tx_persist _ _ Hst p Hp).
Qed.

Lemma at_time_contents (st : Store (Durable D)) now : contents (at_time st now) = contents st.
Proof. unfold at_time. by destruct (st_persist st). Qed.

(** *** Steps *)
Lemma world_of_world a w : world_of (of_world a w) =
  mkWorld (w_store w) (a_status a) (mkService (sig (w_signal w)) (Signal.log (w_signal w))
    (Some (default (a_sink a) (sink (w_signal w))))
    (Some (default (a_metrics a) (Signal.obs (w_signal w))))).
Proof. done. Qed.

Lemma of_world_texts a w :
  source_texts a -> world_texts Q w -> app_texts (of_world a w).
Proof.
  intros Hsrc [Hst (s & Hs & Hok)]. split; [|exact Hsrc]. rewrite world_of_world.
  split; [done|]. exists s. cbn. by rewrite Hs.
Qed.

(** The name of the cluster is one the metrics take. *)
Definition named_well a : Prop := accepts_values [a_cluster a] = true.

Lemma poll_iterates a e :
  app_texts a ->
  (exists p d nxt, iteration (poller_of a (now_build e)) (a_backoff a) e = Ok (p, d, nxt)) \/
  (iteration (poller_of a (now_build e)) (a_backoff a) e = Panic invalid_label /\ ~ named_well a).
Proof.
  intros [[Hst _] _]. pose proof (at_time_texts _ (now_build e) Hst) as Hst'. unfold named_well.
  destruct (accepts_values [a_cluster a]) eqn:Hacc.
  - left. destruct (iteration_runs (poller_of a (now_build e)) (a_backoff a) e) as (p & d & nxt & E & _);
      [exact (tx_wf _ _ Hst')|by intros m [= <-]|]. by exists p, d, nxt.
  - right. split; [|congruence]. unfold iteration, pollOnce.
    assert (forall (q : Poller (AnySource (Pg.Client (C:=C))) (Store (Durable D)) (Metrics.Metrics (V:=V) (H:=H))) err,
      obs q = Some (a_metrics a) -> cluster q = a_cluster a -> observe q e err = Panic invalid_label)
      as Hobs.
    { intros q err Ho Hc. unfold observe. rewrite Ho, Hc. unfold Poller.ObservePoll, metrics_poll_observer.
      by rewrite ObservePoll_cases, Hacc. }
    destruct (SourceSnapshot _) as [s' [[ss ls]|err]]; cbn [outcome_bind].
    + destruct (Put_ok (at_time (a_store a) (now_build e)) (Build (a_cluster a) (now_build e) ss ls) (tx_wf _ _ Hst'))
        as (st1 & HP & _).
      change (store_Put _ _) with (Put (at_time (a_store a) (now_build e)) (Build (a_cluster a) (now_build e) ss ls)).
      rewrite HP. cbn [outcome_bind]. by rewrite Hobs.
    + by rewrite Hobs.
Qed.

Definition step_texts_outcome {X} a (app : X -> App) (good : X -> Prop) (o : Outcome X) : Prop :=
  match o with
  | Ok x => app_texts (app x) /\ a_cluster (app x) = a_cluster a /\ good x
  | Panic why => why = invalid_label /\ ~ named_well a
  end.

Lemma poll_step_texts a e :
  app_texts a -> step_texts_outcome a (fun a' => a') (fun _ => True) (poll_step a e).
Proof.
  intros Ha. pose proof Ha as [[Hst Hsk] Hsrc]. unfold poll_step. destruct (a_running a); cbn [negb]; [|done].
  pose proof (at_time_texts _ (now_build e) Hst) as Hst'.
  destruct (poll_iterates a e Ha) as [(p & d & nxt & Hit)|[-> Hno]]; [|done].
  destruct (iteration_store _ _ _ _ _ _ Hit) as (Hs & Hcl & _ & Hput). rewrite Hit. cbn [outcome_bind step_texts_outcome].
  split; [|by split]. split; [|exact Hsrc]. split; [|exact Hsk]. cbn [a_store world_of w_store of_poller].
  destruct (SourceSnapshot (src (poller_of a (now_build e)))) as [s' [[ss ls]|err]] eqn:E; cbn [snd] in Hput.
  - destruct (Put_texts Q (at_time (a_store a) (now_build e))
      (Build (a_cluster a) (now_build e) ss ls) Hst') as (st1 & HP & Ht).
    { by eapply source_snapshot_texts. }
    assert (Ok (store p) = Ok st1) as [= ->] by (rewrite <-HP, <-Hput; reflexivity). exact Ht.
  - rewrite Hput. exact Hst'.
Qed.

(** What requests and connections leave alone. *)
Definition poll_side a :=
  (a_redact a, a_cluster a, a_interval a, a_status a, a_plog a, a_backoff a, a_running a, a_identity a).

(** A sink that has only been written to. *)
Definition recorded (s s' : AnySink A) : Prop :=
  exists es, s' = fold_left (fun s e => (RecordEntry s e).1) es s.

Lemma recorded_same s : recorded s s.
Proof. by exists []. Qed.

Definition unmoved a a' : Prop :=
  readers (a_store a) (a_store a') /\ recorded (a_sink a) (a_sink a') /\ poll_side a' = poll_side a.

Lemma request_recorded a r now a' out :
  request_step a r now = Ok (a', out) -> recorded (a_sink a) (a_sink a').
Proof.
  unfold request_step.
  destruct (ServeHTTP (a_identity a) no_route (Some metrics_page) now r (world_of a)) as [[w' resp]|] eqn:E;
    [|discriminate]. intros [= <- _].
  destruct (ServeHTTP_lawful _ _ _ _ r (world_of a) w' resp Logic.I E) as [[Hsame|Hdo] _]; cbn.
  - rewrite Hsame. apply recorded_same.
  - destruct Hdo as (p & action & pid & latest & _ & _ & _ & _ & _ & ->).
    pose proof (Do_effects (w_signal (world_of a)) (mkCall (Some (victim_lookup latest)) now action pid (Name p))) as He.
    unfold do_call in He. cbn in He. destruct (Do _ _ _ _ _ _) as [svc [res err]].
    destruct He as (_ & _ & _ & Hsink). cbn [fst]. rewrite Hsink. by eexists [_].
Qed.

Lemma request_step_texts a r now :
  app_texts a -> exists a' out, request_step a r now = Ok (a', out) /\ app_texts a' /\
    unmoved a a' /\ Forall (payload_texts Q) out.
Proof.
  intros [Hw Hsrc]. unfold request_step.
  assert (forall r, Forall undisturbed (events (app_websocket r : Connection (Durable D)))) as He by constructor.
  pose proof (request_recorded a r now) as Hrec. unfold request_step in Hrec.
  destruct (ServeHTTP_safe Q Q_empty (a_identity a) no_route (Some metrics_page) now He r
    (world_of a) Hw) as (w' & resp & E & Hw' & Hq & Hb).
  rewrite E in *.
  cbn [outcome_bind fst snd] in *. eexists _, _. split; [done|]. split; [by apply of_world_texts|].
  split; [destruct Hq; split; [done|]; split; [|done]; by eapply Hrec|]. unfold document. destruct (resp_Body resp) as [|b|]; repeat constructor. by apply Hb.
Qed.

Lemma socket_step_texts a id e :
  app_texts a -> exists a' out, socket_step a id e = Ok (a', out) /\ app_texts a' /\
    unmoved a a' /\ Forall (payload_texts Q) out.
Proof.
  intros Ha. pose proof Ha as [[Hst Hsk] Hsrc]. unfold socket_step.
  destruct (st_subs (a_store a) !! id) as [sub|]; [|exists a, []; by split_and!; try done; split; [|split; [apply recorded_same|]]].
  destruct (stream_loop_texts Q id sub [stream_event e] (a_store a) [] Hst) as (s & -> & Hs & Hc & Hsent).
  - constructor; [by destruct e|constructor].
  - constructor.
  - cbn [outcome_bind]. eexists _, _. split; [done|]. split; [|split; [split; [done|]; split; [apply recorded_same|done]|by repeat constructor]].
    apply of_world_texts; [done|]. by split.
Qed.

Lemma unmoved_cluster a a' : unmoved a a' -> a_cluster a' = a_cluster a.
Proof. intros (_ & _ & Hs). by injection Hs. Qed.

Lemma step_texts a ev :
  app_texts a -> step_texts_outcome a fst (fun x => Forall (payload_texts Q) x.2) (step a ev).
Proof.
  intros Ha. destruct ev as [e|r now|id e]; cbn [step].
  - pose proof (poll_step_texts a e Ha) as Hs. by destruct (poll_step a e) as [a'|]; cbn in *; [destruct Hs as (? & ? & _)|].
  - destruct (request_step_texts a r now Ha) as (a' & out & -> & Ha' & Hu%unmoved_cluster & Ho). done.
  - destruct (socket_step_texts a id e Ha) as (a' & out & -> & Ha' & Hu%unmoved_cluster & Ho). done.
Qed.

(** Rule induction over the events of a run. *)
Lemma run_events_texts a evs :
  app_texts a -> step_texts_outcome a fst (fun x => Forall (payload_texts Q) x.2) (run_events a evs).
Proof.
  revert a. induction evs as [|ev evs IH]; intros a Ha; cbn [run_events]; [done|].
  pose proof (step_texts a ev Ha) as Hs. destruct (step a ev) as [[a1 out1]|]; [|done].
  destruct Hs as (Ha1 & Hc1 & Ho1). cbn [outcome_bind fst snd] in *. specialize (IH a1 Ha1).
  unfold step_texts_outcome, named_well in *.
  destruct (run_events a1 evs) as [[a2 out2]|]; cbn [outcome_bind fst snd] in *; rewrite Hc1 in IH; [|done].
  destruct IH as (Ha2 & Hc2 & Ho2). split; [done|]. split; [done|]. by apply Forall_app.
Qed.

(** *** Startup *)

(** What is on disk already. *)
Definition history_texts (cfg : Config.Config) : Prop :=
  PersistEnabled (Config.Persist cfg) = true ->
  forall (s : SQLite D) (au : A),
    Open (PersistPath (Config.Persist cfg)) (Retention (Config.Persist cfg)) (Some []) = Val (s, au) ->
    rows_texts (Raw:=Raw) (Blob:=Blob) Q (db s) /\ Forall (fun r => Q (au_victim_query r)) (audit_rows au).

Lemma run_start_texts cfg (started : @Started C D A V H) :
  run_start cfg = Ok (Val started) -> history_texts cfg ->
  (RedactionEnabled (Config.Redaction cfg) = true /\ forall raw, Q (Mask raw)) \/ (forall q, Q q) ->
  app_texts (st_app started).
Proof.
  unfold run_start, history_texts, open_history. intros E Hdisk Hsrc.
  destruct (Connect _ _) as [closed [client|]]; [|discriminate].
  destruct (preflight client) as [[client' checked] printed].
  destruct (Store.New _) as [storage|] eqn:Hnew; cbn [outcome_bind] in E; [|discriminate].
  apply New_Ok in Hnew as [-> _].
  assert (store_texts Q (fresh (RingSize (Config.Poll cfg)) : Store (Durable D))) as Hnew by apply fresh_texts.
  destruct (PersistEnabled (Config.Persist cfg)); cbn [negb] in E.
  - specialize (Hdisk eq_refl). destruct (Open _ _ _) as [[d au]|]; [|discriminate].
    destruct (Hdisk d au eq_refl) as [Hd Ha].
    destruct (RedactionEnabled (Config.Redaction cfg)); cbn in E;
      (destruct DistFS; [|discriminate]); (destruct (buildIdentity _) as [id|]; [|discriminate]);
      injection E as <-; (split; [|exact Hsrc]); (split; [|by eexists]);
      apply SetPersister_texts; done.
  - destruct (RedactionEnabled (Config.Redaction cfg)); cbn in E;
      (destruct DistFS; [|discriminate]); (destruct (buildIdentity _) as [id|]; [|discriminate]);
      injection E as <-; (split; [|exact Hsrc]); (split; [exact Hnew|]);
      (eexists; split; [reflexivity|constructor]).
Qed.
End texts.
End runs.
