(* ===== verification/Process.v ===== *)
(** * cmd/pglockr: the process with its goroutines interleaved

    In [System.v] a poll is one step.  Here the poll goroutine of main.go stops
    wherever another goroutine can be observed: after the source has answered,
    after [Put]'s critical section, after its save, after each send, and before
    the status is set.  Requests and WebSocket events may come at any of these
    points; their own store operations are atomic, because locked. *)
From S2P Require Import Prelude GoRuntime Utf8 Graph Redact Store StoreConc Auth AuditTrail Signal Poller RedactSource Pg Metrics Persist Config Main Preflight Stream GoTime Api Flow System.
Local Open Scope Z_scope.
Local Open Scope pglockr_scope.

(** Where the poll goroutine is: between two polls, in [pollOnce] with the
    snapshot built, or inside [Put]. *)
Inductive PollPc :=
| Waiting
| Building (e : Env) (snap : Snapshot)
| Putting (e : Env) (pc : PutPc).

Section process.
Context `{Go : GoRuntime} {Cfg C B D Raw Blob A V H : Type}.
Context `{!Pool C} `{!Driver Cfg C} `{!SnapshotTable D Blob} `{!Codec Raw Blob} `{!AuditTable A}.
Context `{!Prometheus V H} `{!Router} `{!UI} `{!Database B D A} `{!Outside}.
Notation Client := (Pg.Client (C:=C)).
Notation Metrics := (Metrics.Metrics (V:=V) (H:=H)).
Notation App := (@App C D A V H).

Record Process := mkProcess { p_app : App; p_pc : PollPc }.

Definition set_a_store (a : App) (st : Store (Durable D)) : App :=
  of_world a (set_w_store (world_of a) st).

Definition set_a_client (a : App) (c : Client) : App :=
  mkApp c (a_redact a) (a_store a) (a_sink a) (a_metrics a) (a_cluster a) (a_interval a) (a_status a)
    (a_plog a) (a_backoff a) (a_running a) (a_slog a) (a_identity a).

(** The end of an iteration: the observer, the status of a failure, the sleep. *)
Definition poll_finish (a : App) (p : Poller (AnySource Client) (Store (Durable D)) Metrics)
    (err : option string) (e : Env) : Outcome App :=
  let* p := observe p e err in
  let '(p, _, nxt) := after_poll p err (a_backoff a) e in Ok (of_poller a p nxt).

(** The source answers.  An error ends the iteration; otherwise [pollOnce] has
    built its snapshot. *)
Definition poll_begin (a : App) (e : Env) : Outcome Process :=
  let p := poller_of a (now_build e) in
  match SourceSnapshot (src p) with
  | (s, Err err) => let* a := poll_finish a (set_src p s) (Some err) e in Ok (mkProcess a Waiting)
  | (s, Val (sessions, labels)) =>
      Ok (mkProcess (set_a_client a (source_client s))
        (Building e (Build (cluster p) (now_build e) sessions labels)))
  end.

(** The next step of the goroutine; [now] is the clock the history file reads
    in the save. *)
Definition poll_advance (a : App) (pc : PollPc) (now : Time) : Outcome Process :=
  match pc with
  | Waiting | Putting _ Idle => Ok (mkProcess a Waiting)
  | Building e snap =>
      let* r := put_locked (a_store a) snap in
      Ok (mkProcess (set_a_store a r.1) (Putting e (Saving snap r.2)))
  | Putting e (Saving snap subs) =>
      Ok (mkProcess (set_a_store a (put_save (at_time (a_store a) now) snap)) (Putting e (Sending snap subs)))
  | Putting e (Sending snap (ch :: subs)) =>
      let* st := send_nonblocking (a_store a) snap ch in
      Ok (mkProcess (set_a_store a st) (Putting e (Sending snap subs)))
  | Putting e (Sending snap []) =>
      let* a := poll_finish a (setOK (poller_with a (a_store a)) (now_ok e)) None e in Ok (mkProcess a Waiting)
  end.

Inductive ProcessEvent :=
| PeBegin (e : Env)
| PeAdvance (now : Time)
| PeRequest (r : Request) (now : Time)
| PeSocket (id : Z) (e : SocketEvent).

(** A step, with the documents it sends out; a poll begins when the goroutine
    waits and runs. *)
Definition process_step (p : Process) (ev : ProcessEvent) : Outcome (Process * list Payload) :=
  match ev with
  | PeBegin e =>
      match p_pc p with
      | Waiting =>
          if a_running (p_app p) then let* p := poll_begin (p_app p) e in Ok (p, []) else Ok (p, [])
      | _ => Ok (p, [])
      end
  | PeAdvance now => let* p := poll_advance (p_app p) (p_pc p) now in Ok (p, [])
  | PeRequest r now => let* x := request_step (p_app p) r now in Ok (mkProcess x.1 (p_pc p), x.2)
  | PeSocket id e => let* x := socket_step (p_app p) id e in Ok (mkProcess x.1 (p_pc p), x.2)
  end.

Fixpoint run_process (p : Process) (evs : list ProcessEvent) : Outcome (Process * list Payload) :=
  match evs with
  | [] => Ok (p, [])
  | ev :: evs =>
      let* x := process_step p ev in
      let* y := run_process x.1 evs in
      Ok (y.1, x.2 ++ y.2)
  end.

(** The process as [run] leaves it: the goroutine is about to poll. *)
Definition process_of (started : @Started C D A V H) : Process := mkProcess (st_app started) Waiting.
End process.
