(* ===== verification/ProcessProofs.v ===== *)
(** * The process with its goroutines interleaved: invariants

    In every interleaving the store is the one of [StoreConc.v], all texts keep
    their property, and only a send to a subscriber that has left can panic, or the
    metrics client at a name it does not take as a label.
    A run of [System.v], where each poll is one step, is one interleaving. *)
From S2P Require Import Prelude GoRuntime Utf8 Graph Redact Store StoreConc Auth AuditTrail Signal Poller RedactSource Pg Metrics Persist Config Main Preflight Stream GoTime Api Flow System SystemProofs Process.
Local Open Scope Z_scope.
Local Open Scope pglockr_scope.

(** What the putter holds of the store. *)
Definition put_pc (pc : PollPc) : PutPc :=
  match pc with Putting _ pc => pc | _ => Idle end.

(** The snapshot the goroutine carries. *)
Definition carried (pc : PollPc) : option Snapshot :=
  match pc with
  | Building _ snap | Putting _ (Saving snap _) | Putting _ (Sending snap _) => Some snap
  | _ => None
  end.

Section invariant.
Context `{Go : GoRuntime} {Cfg C B D Raw Blob A V H : Type}.
Context `{!Pool C} `{!Driver Cfg C} `{!SnapshotTable D Blob} `{!Codec Raw Blob} `{!AuditTable A}.
Context `{!Prometheus V H} `{!Router} `{!UI} `{!SnapshotTableLaws D Blob} `{!CodecLaws Raw Blob}
  `{!AuditTableLaws A} `{!Database B D A} `{!Outside}.
Notation App := (@App C D A V H).
Notation Process := (@Process C D A V H).
Notation History := (Durable D).
Implicit Types (a : App) (p : Process).

(** ** The store between the steps of a put *)
Lemma at_time_inv n (st : Store History) pc put now :
  inv n (StoreConc.mkConfig st pc put) -> inv n (StoreConc.mkConfig (at_time st now) pc put).
Proof.
  unfold at_time. destruct (st_persist st); [|done].
  intros [[[] []] Hcap Hcont Hp Hfr Hcur]. by split; [split; split|..].
Qed.

(** Idle: any snapshot may come next. *)
Lemma inv_idle n (st : Store History) pc put :
  inv n (StoreConc.mkConfig st pc put) -> inv n (StoreConc.mkConfig st Idle put).
Proof. intros [Hwf Hcap Hcont Hp Hfr Hcur]. split; try done. by intros ch ?%elem_of_nil. Qed.

Lemma after_poll_store {Src T O} `{!PollObserver O} (p : Poller Src T O) err b e :
  store (after_poll p err b e).1.1 = store p.
Proof. unfold after_poll. destruct err; repeat case_match; done. Qed.

(** The end of an iteration once it has been observed. *)
Definition finished a (q : Poller (AnySource (Pg.Client (C:=C))) (Store History) (Metrics.Metrics (V:=V) (H:=H)))
    (err : option string) (e : Env) : App :=
  let '(q, _, nxt) := after_poll q err (a_backoff a) e in of_poller a q nxt.

Lemma finished_Ok a q err e :
  Ok (finished a q err e) = let '(q, _, nxt) := after_poll q err (a_backoff a) e in Ok (of_poller a q nxt).
Proof. unfold finished. by destruct (after_poll _ _ _ _) as [[p d] nxt]. Qed.

(** The name of the cluster is not one the metrics take, and that is noticed. *)
Definition misnamed (a : App) (why : string) : Prop :=
  why = invalid_label /\ accepts_values [a_cluster a] = false.

Lemma poll_finish_cases a q err e :
  cluster q = a_cluster a -> is_Some (obs q) ->
  match poll_finish a q err e with
  | Ok a' => exists m, a' = finished a (SetMetrics q m) err e
  | Panic why => misnamed a why
  end.
Proof.
  intros Hc [m Hm]. unfold poll_finish, observe, misnamed. rewrite Hm, Hc. unfold Poller.ObservePoll, metrics_poll_observer.
  rewrite ObservePoll_cases. destruct (accepts_values [a_cluster a]); cbn [outcome_bind]; [|done].
  rewrite <-finished_Ok. by eexists.
Qed.

(** What the source answers, and the process at the end of a failed poll, or
    with the snapshot of a successful one. *)
Lemma poll_begin_cases a e :
  match SourceSnapshot (src (poller_of a (now_build e))), poll_begin a e with
  | (s, Err err), Ok p => exists m,
      p = mkProcess (finished a (SetMetrics (set_src (poller_of a (now_build e)) s) m) (Some err) e) Waiting
  | (s, Val (ss, ls)), o =>
      o = Ok (mkProcess (set_a_client a (source_client s)) (Building e (Build (a_cluster a) (now_build e) ss ls)))
  | _, Panic why => misnamed a why
  end.
Proof.
  unfold poll_begin. destruct (SourceSnapshot _) as [s [[ss ls]|err]]; [done|].
  pose proof (poll_finish_cases a (set_src (poller_of a (now_build e)) s) (Some err) e eq_refl ltac:(by eexists)) as Hf.
  destruct (poll_finish _ _ _ _) as [a'|]; [|done]. destruct Hf as [m ->]. by exists m.
Qed.

(** The last step of a put: the status and the end of the iteration. *)
Lemma poll_advance_end a e snap now :
  match poll_advance a (Putting e (Sending snap [])) now with
  | Ok p => exists m,
      p = mkProcess (finished a (SetMetrics (setOK (poller_with a (a_store a)) (now_ok e)) m) None e) Waiting
  | Panic why => misnamed a why
  end.
Proof.
  cbn [poll_advance].
  pose proof (poll_finish_cases a (setOK (poller_with a (a_store a)) (now_ok e)) None e eq_refl ltac:(by eexists)) as Hf.
  destruct (poll_finish _ _ _ _) as [a'|]; [|done]. destruct Hf as [m ->]. by exists m.
Qed.

Lemma finished_store a q err e : a_store (finished a q err e) = store q.
Proof.
  unfold finished. pose proof (after_poll_store q err (a_backoff a) e) as E.
  by destruct (after_poll q err (a_backoff a) e) as [[p d] nxt].
Qed.

Lemma finished_sides a q err e :
  a_client (finished a q err e) = source_client (src q) /\ a_sink (finished a q err e) = a_sink a /\
  a_identity (finished a q err e) = a_identity a /\ a_slog (finished a q err e) = a_slog a /\
  a_cluster (finished a q err e) = a_cluster a /\
  status_Cluster (a_status (finished a q err e)) = status_Cluster (status q).
Proof. unfold finished, after_poll. destruct err; repeat case_match; by simplify_eq/=. Qed.

(** ** One-step polls are interleavings *)
Lemma run_process_app p evs1 evs2 :
  run_process p (evs1 ++ evs2) =
  let* x := run_process p evs1 in let* y := run_process x.1 evs2 in Ok (y.1, x.2 ++ y.2).
Proof.
  revert p. induction evs1 as [|ev evs1 IH]; intros p; cbn [app run_process outcome_bind fst snd].
  - by destruct (run_process p evs2) as [[p' out]|].
  - destruct (process_step p ev) as [[p1 out1]|]; cbn [outcome_bind fst snd]; [|done]. rewrite IH.
    destruct (run_process p1 evs1) as [[p2 out2]|]; cbn [outcome_bind fst snd]; [|done].
    destruct (run_process p2 evs2) as [[p3 out3]|]; cbn [outcome_bind fst snd]; [|done].
    by rewrite app_assoc.
Qed.

Lemma set_a_store_twice a st st' : set_a_store (set_a_store a st) st' = set_a_store a st'.
Proof. done. Qed.

(** The sends, one by one. *)
Lemma run_sends a e snap subs now st :
  put_sends (a_store a) snap subs = Ok st ->
  run_process (mkProcess a (Putting e (Sending snap subs))) (replicate (length subs) (PeAdvance now)) =
  Ok (mkProcess (set_a_store a st) (Putting e (Sending snap [])), []).
Proof.
  revert a. induction subs as [|ch subs IH]; intros a; cbn [put_sends length replicate run_process].
  - intros [= <-]. do 2 f_equal. f_equal. by destruct a.
  - cbn [process_step poll_advance p_app p_pc].
    destruct (send_nonblocking (a_store a) snap ch) as [st1|]; cbn [outcome_bind fst snd]; [|discriminate].
    intros Hs. by rewrite (IH (set_a_store a st1) Hs).
Qed.

Lemma put_locked_at_time (st : Store History) snap now :
  put_locked (at_time st now) snap = outcome_map (fun r => (at_time r.1 now, r.2)) (put_locked st snap).
Proof.
  unfold at_time, put_locked. destruct (st_persist st) as [p|] eqn:Hp; cbn;
    (destruct (slice_set _ _ _); cbn; [|done]); (destruct (st_cap st =? 0); cbn; [done|]); by rewrite ?Hp.
Qed.

(** The source stays what it is. *)
Lemma source_kept a now s r :
  SourceSnapshot (src (poller_of a now)) = (s, r) ->
  s = if a_redact a then SrcRedacted (NewSource (source_client s)) else SrcClient (source_client s).
Proof.
  unfold poller_of, poller_with. cbn. destruct (a_redact a); cbn.
  - destruct (SourceSnapshot (NewSource (a_client a))) as [i r'] eqn:E. intros [= <- _].
    unfold SourceSnapshot, redacted_source, RedactedSnapshot in E.
    destruct (SourceSnapshot (inner _)) as [i' [[ss ls]|]]; by injection E as <- _.
  - destruct (SourceSnapshot (a_client a)). by intros [= <- _].
Qed.

(** A poll in one step is a poll in small steps that nobody interrupts. *)
Definition is_advance (ev : ProcessEvent) : bool := match ev with PeAdvance _ => true | _ => false end.

Lemma poll_step_interleaved a e a' :
  a_running a = true -> poll_step a e = Ok a' ->
  exists evs, Forall (fun ev => is_advance ev = true) evs /\
    run_process (mkProcess a Waiting) (PeBegin e :: evs) = Ok (mkProcess a' Waiting, []).
Proof.
  intros Hrun. unfold poll_step. rewrite Hrun. cbn [negb].
  unfold iteration, pollOnce. destruct (SourceSnapshot (src (poller_of a (now_build e)))) as [s [[ss ls]|err]] eqn:E.
  2:{ cbn [outcome_bind]. intros Ha. exists []. split; [constructor|]. cbn [run_process process_step p_pc p_app].
      rewrite Hrun. unfold poll_begin, poll_finish. rewrite E.
      destruct (observe _ _ _) as [q|]; [|discriminate]. cbn [outcome_bind fst snd app] in *.
      destruct (after_poll _ _ _ _) as [[p d] nxt]. by injection Ha as <-. }
  set (snap := Build (cluster (poller_of a (now_build e))) (now_build e) ss ls).
  assert (store_Put (store (set_src (poller_of a (now_build e)) s))
    (Build (cluster (set_src (poller_of a (now_build e)) s)) (now_build e) ss ls) =
    Put (at_time (a_store a) (now_build e)) snap) as -> by done.
  unfold Put. rewrite put_locked_at_time.
  destruct (put_locked (a_store a) snap) as [[st1 subs]|] eqn:HL; cbn [outcome_map outcome_bind fst snd]; [|discriminate].
  destruct (put_sends (put_save (at_time st1 (now_build e)) snap) snap subs) as [st|] eqn:HS;
    cbn [outcome_bind]; [|discriminate].
  intros Ha. exists (PeAdvance 0 :: PeAdvance (now_build e) ::
    (replicate (length subs) (PeAdvance 0) ++ [PeAdvance 0])).
  split; [repeat constructor; apply Forall_app; split; [by apply Forall_replicate|by constructor]|].
  set (a2 := set_a_store (set_a_client a (source_client s)) (put_save (at_time st1 (now_build e)) snap)).
  cbn [run_process process_step p_pc p_app]. rewrite Hrun.
  unfold poll_begin. rewrite E. fold snap. cbn [outcome_bind fst snd p_pc p_app poll_advance].
  change (a_store (set_a_client a (source_client s))) with (a_store a). rewrite HL. cbn [outcome_bind fst snd p_pc p_app poll_advance].
  rewrite set_a_store_twice. change (a_store (set_a_store (set_a_client a (source_client s)) st1)) with st1. fold a2.
  cbn [p_pc p_app poll_advance outcome_bind fst snd].
  rewrite run_process_app, (run_sends a2 e snap subs 0 st HS).
  cbn [outcome_bind fst snd run_process process_step p_pc p_app poll_advance app].
  revert Ha. unfold poll_finish.
  change (a_store (set_a_store a2 st)) with st. change (a_backoff (set_a_store a2 st)) with (a_backoff a).
  replace (poller_with (set_a_store a2 st) st) with (set_store (set_src (poller_of a (now_build e)) s) st).
  - destruct (observe _ _ _) as [q|]; [|discriminate]. cbn [outcome_bind].
    destruct (after_poll _ _ _ _) as [[p d] nxt]. by intros [= <-].
  - unfold set_store, set_src, poller_with, poller_of. cbn. by rewrite (source_kept _ _ _ _ E) at 1.
Qed.

(** The event that starts what an atomic one does. *)
Definition process_event (ev : Event) : ProcessEvent :=
  match ev with
  | EvPoll e => PeBegin e
  | EvRequest r now => PeRequest r now
  | EvSocket id e => PeSocket id e
  end.

Definition interleaves (evs : list Event) (pevs : list ProcessEvent) : Prop :=
  filter (fun ev => is_advance ev = false) pevs = process_event <$> evs.

Lemma advances_interleave evs : Forall (fun ev => is_advance ev = true) evs -> interleaves [] evs.
Proof.
  unfold interleaves. induction 1 as [|ev evs Hev _ IH]; [done|].
  rewrite filter_cons_False; [done|]. by rewrite Hev.
Qed.

Lemma interleaves_app evs1 evs2 pevs1 pevs2 :
  interleaves evs1 pevs1 -> interleaves evs2 pevs2 -> interleaves (evs1 ++ evs2) (pevs1 ++ pevs2).
Proof. unfold interleaves. intros Hi1 Hi2. by rewrite filter_app, Hi1, Hi2, fmap_app. Qed.

Lemma step_interleaved a ev a' out :
  step a ev = Ok (a', out) ->
  exists pevs, interleaves [ev] pevs /\ run_process (mkProcess a Waiting) pevs = Ok (mkProcess a' Waiting, out).
Proof.
  destruct ev as [e|r now|id e]; cbn [step].
  - destruct (poll_step a e) as [a1|] eqn:E; [|discriminate]. intros [= <- <-].
    destruct (a_running a) eqn:Hrun.
    + destruct (poll_step_interleaved a e a1 Hrun E) as (pevs & Hadv & Hrp). exists (PeBegin e :: pevs).
      split; [|done]. by apply (interleaves_app [EvPoll e] [] [PeBegin e]); [|apply advances_interleave].
    + unfold poll_step in E. rewrite Hrun in E. injection E as <-. exists [PeBegin e]. split; [done|].
      cbn [run_process process_step p_app p_pc]. by rewrite Hrun.
  - intros E. exists [PeRequest r now]. split; [done|]. cbn [run_process process_step p_app p_pc]. rewrite E. cbn. by rewrite app_nil_r.
  - intros E. exists [PeSocket id e]. split; [done|]. cbn [run_process process_step p_app p_pc]. rewrite E. cbn. by rewrite app_nil_r.
Qed.

Lemma run_events_interleaved a evs a' out :
  run_events a evs = Ok (a', out) ->
  exists pevs, interleaves evs pevs /\ run_process (mkProcess a Waiting) pevs = Ok (mkProcess a' Waiting, out).
Proof.
  revert a out. induction evs as [|ev evs IH]; intros a out; cbn [run_events].
  { intros [= <- <-]. by exists []. }
  destruct (step a ev) as [[a1 out1]|] eqn:E1; cbn [outcome_bind fst snd]; [|discriminate].
  destruct (run_events a1 evs) as [[a2 out2]|] eqn:E2; cbn [outcome_bind fst snd]; [|discriminate].
  intros [= <- <-]. apply step_interleaved in E1 as (evs1 & Hi1 & E1). apply IH in E2 as (evs2 & Hi2 & E2).
  exists (evs1 ++ evs2). split; [by apply (interleaves_app [ev])|].
  rewrite run_process_app, E1. cbn [outcome_bind fst snd]. by rewrite E2.
Qed.

Section texts.
Context (Q : string -> Prop) (Q_empty : Q "") `{!Utf8Closed Q, !JsonLaws Raw Blob}.

(** *** The texts of the process *)
Lemma finished_texts a q err e :
  app_texts Q a -> store_texts Q (store q) -> app_texts Q (finished a q err e).
Proof.
  intros [[_ Hsk] Hsrc] Hst. pose proof (finished_store a q err e) as E. revert E. unfold finished.
  destruct (after_poll q err (a_backoff a) e) as [[p d] nxt]. intros E.
  split; [|exact Hsrc]. split; [|exact Hsk]. by cbn [world_of w_store]; rewrite E.
Qed.

Lemma set_a_store_texts a st : app_texts Q a -> store_texts Q st -> app_texts Q (set_a_store a st).
Proof. intros [[_ Hsk] Hsrc] Hst. split; [|exact Hsrc]. by split. Qed.

(** *** The invariant *)
Record process_inv (n : Z) (p : Process) : Prop := {
  pi_texts : app_texts Q (p_app p);
  pi_store : exists put, inv n (StoreConc.mkConfig (a_store (p_app p)) (put_pc (p_pc p)) put);
  pi_carried : forall snap, carried (p_pc p) = Some snap -> snapshot_texts Q snap
}.

(** The next step is the send to a subscriber that has left. *)
Definition left_behind (p : Process) : Prop :=
  exists e snap ch rest, p_pc p = Putting e (Sending snap (ch :: rest)) /\
    st_subs (a_store (p_app p)) !! ch = None.

(** A panic of the next step, and why. *)
Definition panics (p : Process) (why : string) : Prop :=
  (why = "send on closed channel"%string /\ left_behind p) \/ misnamed (p_app p) why.

Lemma poll_begin_inv n a e :
  process_inv n (mkProcess a Waiting) ->
  match poll_begin a e with Ok p => process_inv n p | Panic why => misnamed a why end.
Proof.
  intros [Ha [put Hi] _]. cbn [p_app p_pc put_pc] in *. pose proof Ha as [[Hst Hsk] Hsrc].
  pose proof (poll_begin_cases a e) as Hb.
  destruct (SourceSnapshot (src (poller_of a (now_build e)))) as [s [[ss ls]|err]] eqn:E.
  - rewrite Hb. split; cbn [p_app p_pc put_pc carried]; [by split|by exists put|].
    intros snap [= <-]. by eapply source_snapshot_texts.
  - destruct (poll_begin a e) as [p|]; [|done]. destruct Hb as [m ->]. split; cbn [p_app p_pc put_pc carried].
    + apply finished_texts; [done|]. by apply at_time_texts.
    + exists put. rewrite finished_store. by apply at_time_inv.
    + discriminate.
Qed.

Lemma poll_advance_inv n p now :
  process_inv n p ->
  match poll_advance (p_app p) (p_pc p) now with
  | Ok p' => process_inv n p'
  | Panic why => panics p why
  end.
Proof.
  destruct p as [a pc]. intros [Ha [put Hi] Hc]. cbn [p_app p_pc] in *. pose proof Ha as [[Hst _] _].
  change (store_texts Q (a_store a)) in Hst.
  destruct pc as [|e snap|e [|snap subs|snap [|ch subs]]]; cbn [put_pc carried] in *.
  5: { pose proof (poll_advance_end a e snap now) as Hend.
    destruct (poll_advance a _ now) as [p'|]; [|by right]. destruct Hend as [m ->].
    split; cbn [p_app p_pc put_pc carried]; [by apply finished_texts| |discriminate].
    exists put. rewrite finished_store. by eapply inv_idle. }
  all: cbn [poll_advance].
  - by split; [|exists put|].
  - destruct (put_locked_texts Q _ snap Hst (Hc snap eq_refl)) as (st' & HL & Ht). rewrite HL. cbn [outcome_bind fst snd].
    split; cbn [p_app p_pc put_pc carried]; [by apply set_a_store_texts| |done].
    exists (put ++ [snap]). eapply (inv_lock _ _ _ snap _ Hi).
    pose proof (step_lock (a_store a) put snap) as Hs. by rewrite HL in Hs.
  - by split; [|exists put|].
  - split; cbn [p_app p_pc put_pc carried]; [| |done].
    + apply set_a_store_texts; [done|]. apply put_save_texts; [by apply at_time_texts|by apply Hc].
    + exists put. exact (inv_save _ _ _ _ _ _ (at_time_inv _ _ _ _ now Hi) (step_save _ _ _ _)).
  - pose proof (step_send (a_store a) put snap ch subs) as Hs.
    destruct (send_nonblocking (a_store a) snap ch) as [st'|why] eqn:HS; cbn [outcome_bind outcome_map] in *.
    + split; cbn [p_app p_pc put_pc carried]; [| |done].
      * apply set_a_store_texts; [done|]. eapply send_texts; [exact Hst|by apply Hc|exact HS].
      * exists put. by eapply inv_send.
    + destruct (inv_pending _ _ Hi ch) as (x & Hx & Hcl); [by left|]. cbn [cf_store] in Hx, Hcl.
      unfold send_nonblocking in HS. rewrite Hx in HS. destruct (ch_closed x); [|by case_match].
      injection HS as <-. left. split; [done|]. exists e, snap, ch, subs. split; [done|]. by apply Hcl.
Qed.

(** Requests and connections at any point of a poll. *)
Lemma reader_step_inv n a a' pc :
  app_texts Q a' -> unmoved a a' -> process_inv n (mkProcess a pc) -> process_inv n (mkProcess a' pc).
Proof.
  intros Ha' [Hr _] [_ [put Hi] Hc]. split; cbn [p_app p_pc] in *; [done| |done].
  exists put. by eapply inv_readers.
Qed.

Definition outcome_inv (n : Z) (p : Process) (o : Outcome (Process * list Payload)) : Prop :=
  match o with
  | Ok (p', out) => process_inv n p' /\ Forall (payload_texts Q) out
  | Panic why => panics p why
  end.

Lemma process_step_inv n p ev : process_inv n p -> outcome_inv n p (process_step p ev).
Proof.
  intros Hp. pose proof Hp as [Ha _ _]. destruct ev as [e|now|r now|id e]; cbn [process_step].
  - destruct p as [a pc]. cbn [p_app p_pc] in *. destruct pc; [|by split..].
    destruct (a_running a); [|by split]. pose proof (poll_begin_inv n a e Hp) as Hb.
    destruct (poll_begin a e) as [p|]; cbn [outcome_bind]; [by split|by right].
  - pose proof (poll_advance_inv n p now Hp) as Hadv.
    destruct (poll_advance (p_app p) (p_pc p) now); cbn [outcome_bind]; [by split|done].
  - destruct (request_step_texts Q Q_empty (p_app p) r now Ha) as (a' & out & -> & Ha' & Hu & Ho).
    split; [|done]. destruct p. by eapply reader_step_inv.
  - destruct (socket_step_texts Q (p_app p) id e Ha) as (a' & out & -> & Ha' & Hu & Ho).
    split; [|done]. destruct p. by eapply reader_step_inv.
Qed.

(** *** One poll, from its beginning to the next *)
Lemma finished_result a q err e :
  (err <> None -> ctx_done e = false) ->
  a_status (finished a q err e) = match err with
    | None => status q
    | Some err => mkStatus (status_Cluster (status q)) false (LastPoll (status q)) err
    end /\
  a_running (finished a q err e) = negb (sleep_cancelled e) /\
  a_identity (finished a q err e) = a_identity a.
Proof.
  intros Hctx. unfold finished, after_poll. destruct err as [err|].
  - rewrite Hctx by done. by destruct (sleep_cancelled e).
  - by destruct (sleep_cancelled e).
Qed.

Lemma send_contents (st : Store History) snap ch st' :
  send_nonblocking st snap ch = Ok st' -> contents st' = contents st.
Proof. unfold send_nonblocking. repeat case_match; intros [= <-]; done. Qed.

(** How far a successful poll of [a0] with snapshot [snap] has come. *)
Definition poll_progress a0 e snap (p : Process) : Prop :=
  a_identity (p_app p) = a_identity a0 /\
  match p_pc p with
  | Building e' s => e' = e /\ s = snap /\ a_status (p_app p) = a_status a0
  | Putting e' (Saving s _) | Putting e' (Sending s _) =>
      e' = e /\ s = snap /\ a_status (p_app p) = a_status a0 /\
      last (contents (a_store (p_app p))) = Some snap
  | Waiting =>
      last (contents (a_store (p_app p))) = Some snap /\
      a_status (p_app p) = mkStatus (status_Cluster (a_status a0)) true (now_ok e) "" /\
      a_running (p_app p) = negb (sleep_cancelled e)
  | Putting _ Idle => False
  end.

Lemma progress_unmoved a0 e snap a a' pc :
  unmoved a a' -> poll_progress a0 e snap (mkProcess a pc) -> poll_progress a0 e snap (mkProcess a' pc).
Proof.
  intros (Hr & _ & Hs) [Hid Hp]. destruct (readers_contents _ _ Hr) as [Hc _].
  injection Hs as _ _ _ Hst _ _ Hrun Hident. unfold poll_progress. cbn [p_app p_pc] in *.
  rewrite Hident, Hst, Hrun, Hc. done.
Qed.

Lemma progress_advance a0 e snap n p now p' :
  process_inv n p -> poll_progress a0 e snap p -> poll_advance (p_app p) (p_pc p) now = Ok p' ->
  poll_progress a0 e snap p'.
Proof.
  destruct p as [a pc]. intros [[[Hst _] _] _ _] [Hid Hp]. cbn [p_app p_pc] in *.
  destruct pc as [|e' s|e' [|s subs|s [|ch subs]]]; [by intros [= <-]| |done|..].
  - cbn [poll_advance]. destruct Hp as (-> & -> & Hstat). destruct (put_locked_ok (a_store a) snap (sw_ring _ (tx_wf _ _ Hst))) as (st' & -> & _ & Hc & _).
    intros [= <-]. split; [done|]. split_and!; try done. cbn [p_app set_a_store of_world a_store w_store set_w_store fst].
    rewrite Hc. apply last_lastn_snoc. pose proof (wf_cap _ (sw_ring _ (tx_wf _ _ Hst))) as Hcap.
    change (1 <= st_cap (a_store a)) in Hcap. lia.
  - destruct Hp as (-> & -> & Hstat & Hl). intros [= <-]. split; [done|]. split_and!; try done.
    cbn [p_app set_a_store of_world a_store w_store set_w_store]. by rewrite put_save_contents, at_time_contents.
  - destruct Hp as (-> & -> & Hstat & Hl). pose proof (poll_advance_end a e snap now) as Hend. intros Ep. rewrite Ep in Hend.
    destruct Hend as [m ->].
    destruct (finished_result a (SetMetrics (setOK (poller_with a (a_store a)) (now_ok e)) m) None e) as (Hs & Hr & Hi); [done|].
    split; cbn [p_app p_pc]; [by rewrite Hi|]. rewrite finished_store, Hs, Hr. split_and!; try done.
    cbn [status setOK set_status poller_with SetMetrics]. by rewrite Hstat.
  - cbn [poll_advance]. destruct Hp as (-> & -> & Hstat & Hl).
    destruct (send_nonblocking (a_store a) snap ch) as [st'|] eqn:HS; [|discriminate].
    intros [= <-]. split; [done|]. split_and!; try done. cbn [p_app set_a_store of_world a_store w_store set_w_store].
    by rewrite (send_contents _ _ _ _ HS).
Qed.

Definition is_begin (ev : ProcessEvent) : bool := match ev with PeBegin _ => true | _ => false end.

(** A property of the process that the goroutine's steps keep, as far as its
    polls are admitted by [admits], and that requests and connections cannot
    touch. *)
Record kept (admits : ProcessEvent -> Prop) (R : Process -> Prop) (n : Z) : Prop := {
  kept_begin a e : admits (PeBegin e) -> a_running a = true -> R (mkProcess a Waiting) ->
    forall p, poll_begin a e = Ok p -> R p;
  kept_advance p now p' :
    process_inv n p -> R p -> poll_advance (p_app p) (p_pc p) now = Ok p' -> R p';
  kept_unmoved a a' pc : unmoved a a' -> R (mkProcess a pc) -> R (mkProcess a' pc)
}.

Lemma process_step_kept admits R n p ev p' out :
  kept admits R n -> admits ev -> process_inv n p -> R p -> process_step p ev = Ok (p', out) -> R p'.
Proof.
  intros [Hbegin Hadv Hun] Hev Hp HR. pose proof Hp as [Ha _ _].
  destruct ev as [e|now|r now|id e]; cbn [process_step].
  - destruct p as [a []]; cbn [p_pc p_app]; [|by intros [= <- _]..].
    destruct (a_running a) eqn:Hr; [|by intros [= <- _]].
    destruct (poll_begin a e) as [q|] eqn:Eq; [|discriminate]. intros [= <- _]. by apply (Hbegin a e).
  - destruct (poll_advance (p_app p) (p_pc p) now) as [q|] eqn:Eq; [|discriminate]. intros [= <- _].
    by apply (Hadv p now q).
  - destruct (request_step_texts Q Q_empty (p_app p) r now Ha) as (a' & o & -> & _ & Hu & _).
    intros [= <- _]. destruct p. by eapply Hun.
  - destruct (socket_step_texts Q (p_app p) id e Ha) as (a' & o & -> & _ & Hu & _).
    intros [= <- _]. destruct p. by eapply Hun.
Qed.

(** The delay between polls stays between the interval and thirty seconds, or
    the interval where that is more. *)
Definition paced (iv : Duration) a : Prop :=
  a_interval a = iv /\ iv <= a_backoff a <= Z.max iv maxBackoff.

Lemma next_backoff_paced iv b :
  0 < iv -> iv <= b <= Z.max iv maxBackoff -> iv <= next_backoff b <= Z.max iv maxBackoff.
Proof.
  intros Hiv Hb. unfold next_backoff. destruct (Z.ltb_spec b maxBackoff); [|done].
  rewrite int64_id by (unfold in_int64, MinInt64, MaxInt64, maxBackoff, Second in *; lia).
  destruct (Z.ltb_spec maxBackoff (b * 2)); lia.
Qed.

Lemma finished_paced iv a q err e :
  0 < iv -> paced iv a -> interval q = iv -> paced iv (finished a q err e).
Proof.
  intros Hiv [Hi Hb] Hq. unfold finished, after_poll, paced.
  pose proof (next_backoff_paced iv (a_backoff a) Hiv Hb).
  assert (iv <= interval q <= Z.max iv maxBackoff) by lia.
  destruct err; [destruct (ctx_done e)|]; try destruct (sleep_cancelled e); cbn; by split.
Qed.

(** A property of the process alone that the end of an iteration keeps and that
    depends on nothing else a poll changes. *)
Lemma app_kept (R : App -> Prop) n :
  (forall a st, R a -> R (set_a_store a st)) -> (forall a c, R a -> R (set_a_client a c)) ->
  (forall a now s m err e, R a -> R (finished a (SetMetrics (set_src (poller_of a now) s) m) (Some err) e)) ->
  (forall a m e, R a -> R (finished a (SetMetrics (setOK (poller_with a (a_store a)) (now_ok e)) m) None e)) ->
  (forall a a', unmoved a a' -> R a -> R a') ->
  kept (fun _ => True) (fun p => R (p_app p)) n.
Proof.
  intros Hst Hcl Herr Hok Hun. split.
  - intros a e _ _ Ha p Ep. pose proof (poll_begin_cases a e) as Hb. rewrite Ep in Hb.
    destruct (SourceSnapshot _) as [s [[ss ls]|err]]; [injection Hb as ->|destruct Hb as [m ->]]; cbn [p_app] in *;
      [by apply Hcl|by apply Herr].
  - intros [a pc] now q _ Ha. cbn [p_app p_pc] in *.
    destruct pc as [|e snap|e [|snap subs|snap [|ch subs]]]; cbn [poll_advance].
    1, 3: by intros [= <-].
    + destruct (put_locked _ _); [|discriminate]. intros [= <-]. by apply Hst.
    + intros [= <-]. by apply Hst.
    + intros Ep. pose proof (poll_advance_end a e snap now) as Hend. cbn [poll_advance] in Hend. rewrite Ep in Hend.
      destruct Hend as [m ->]. by apply Hok.
    + destruct (send_nonblocking _ _ _); [|discriminate]. intros [= <-]. by apply Hst.
  - intros a a' pc Hu Ha. by eapply Hun.
Qed.

Lemma paced_kept iv n : 0 < iv -> kept (fun _ => True) (fun p => paced iv (p_app p)) n.
Proof.
  intros Hiv. apply app_kept; [done|done|..].
  - intros a now s m err e Ha. apply finished_paced; [done|done|apply Ha].
  - intros a m e Ha. apply finished_paced; [done|done|apply Ha].
  - intros a a' (_ & _ & Hs) Ha. injection Hs as _ _ Hi _ _ Hb _ _. unfold paced. by rewrite Hi, Hb.
Qed.

(** The cluster keeps its name, in the status too. *)
Definition named (c : string) a : Prop := a_cluster a = c /\ status_Cluster (a_status a) = c.

Lemma named_kept c n : kept (fun _ => True) (fun p => named c (p_app p)) n.
Proof.
  apply app_kept; [done|done|..].
  - intros a now s m err e [Hc Hs].
    destruct (finished_sides a (SetMetrics (set_src (poller_of a now) s) m) (Some err) e) as (_ & _ & _ & _ & Hc' & Hs').
    unfold named. by rewrite Hc', Hs'.
  - intros a m e [Hc Hs].
    destruct (finished_sides a (SetMetrics (setOK (poller_with a (a_store a)) (now_ok e)) m) None e) as (_ & _ & _ & _ & Hc' & Hs').
    unfold named. by rewrite Hc', Hs'.
  - intros a a' (_ & _ & Hs) [Hc Hst]. injection Hs as _ Hc' _ Hst' _ _ _ _. unfold named. by rewrite Hc', Hst'.
Qed.

(** An in-memory trail stays within its capacity. *)
Definition trail_within (k : nat) (s : AnySink A) : Prop :=
  forall m, s = SinkMemory m -> sink_bound m = k /\ exists trail, sink_represents m trail.

Lemma recorded_within k (s s' : AnySink A) : recorded s s' -> trail_within k s -> trail_within k s'.
Proof.
  intros [es ->]. revert s. induction es as [|e es IH]; intros s Hs; [done|]. apply IH.
  destruct s as [m|au]; cbn [RecordEntry].
  - intros m' Hm'. destruct (Hs m eq_refl) as [Hk [trail Ht]].
    destruct (record_represents m trail e Ht) as [Hr Hb].
    assert (m' = (RecordEntry m e).1) as -> by (by injection Hm').
    split; [by rewrite Hb|by eexists].
  - intros m'. cbn. by destruct (sqlite_Record au e).
Qed.

Lemma within_kept k n : kept (fun _ => True) (fun p => trail_within k (a_sink (p_app p))) n.
Proof.
  apply (app_kept (fun a => trail_within k (a_sink a))); [done|done|..].
  - intros a now s m err e Ha. by rewrite (proj1 (proj2 (finished_sides _ _ _ _))).
  - intros a m e Ha. by rewrite (proj1 (proj2 (finished_sides _ _ _ _))).
  - intros a a' (_ & Hs & _). by apply recorded_within.
Qed.

(** *** Startup *)
Lemma fresh_inv n : inv n (StoreConc.mkConfig (fresh n : Store History) Idle []).
Proof. apply inv_initial. Qed.

Lemma process_of_inv cfg (started : @Started C D A V H) :
  run_start cfg = Ok (Val started) -> app_texts Q (st_app started) ->
  process_inv (RingSize (Config.Poll cfg)) (process_of started).
Proof.
  intros Hs Ha. split; cbn [process_of p_app p_pc put_pc carried]; [done| |discriminate].
  exists []. pose proof (fresh_inv (RingSize (Config.Poll cfg))) as Hnew. clear Ha.
  unfold run_start in Hs. destruct (Connect _ _) as [c [client|]]; [|discriminate].
  destruct (preflight client) as [[c' l] t]. destruct (Store.New _) as [st|] eqn:E; cbn [outcome_bind] in Hs; [|discriminate].
  apply New_Ok in E as [-> _]. destruct (open_history _) as [hist|]; [|discriminate].
  destruct hist as [[h au]|]; destruct (RedactionEnabled _); cbn in Hs;
    (destruct DistFS; [|discriminate]); (destruct (buildIdentity _); [|discriminate]); injection Hs as <-;
    try exact Hnew; (destruct Hnew as [[[] []] Hcap Hcont Hp Hfr Hcur]; by split; [split; split|..]).
Qed.
End texts.
End invariant.
