(* ===== verification/Overlap.v ===== *)
(** * cmd/pglockr: the process with its requests in flight

    In [Process.v] a request is one step.  Here a request that comes to
    [Service.Do] has a goroutine of its own, as net/http gives it one: it is
    admitted by the routes and their middleware, and then takes the steps of
    [SignalConc.v] between those of the poll goroutine, of the connections and of
    the other calls.  A request for a stream subscribes in one step and reads and
    writes its first snapshot in another.  Every other request stays one step: it
    meets the shared state once. *)
From S2P Require Import Prelude GoRuntime Utf8 GoStrings Graph Redact Store StoreConc Auth AuditTrail Signal SignalConc Poller RedactSource Pg Metrics Persist Config Main Preflight Stream GoTime Api Flow System Process.
Local Open Scope Z_scope.
Local Open Scope pglockr_scope.

(** ** What a request asks for *)

(** The patterns of the two routing tables, in the order of server.go. *)
Definition root_patterns : list (string * string) :=
  [("GET", "/healthz"); ("", "/metrics"); ("", "/api/*"); ("", "/*")]%string.
Definition api_patterns : list (string * string) :=
  [("GET", "/me"); ("GET", "/clusters"); ("GET", "/snapshot"); ("GET", "/history"); ("GET", "/stream");
   ("GET", "/locks"); ("GET", "/hot-objects"); ("POST", "/sessions/{pid}/cancel");
   ("POST", "/sessions/{pid}/terminate"); ("GET", "/audit")]%string.

Definition action_of_route (j : nat) : option Signal.Action :=
  match j with 7%nat => Some ActionCancel | 8%nat => Some ActionTerminate | _ => None end.

Record Asked := mkAsked { ask_action : Signal.Action; ask_pid : Z; ask_actor : string }.

Section asked.
Context {I : Type} `{!Identity I} `{!Router}.

(** The call of [Do] that a request comes to behind [Authenticate],
    [RequireRole] and [requireSameOrigin], if it comes to one. *)
Definition asked (id : I) (r : Request) : option Asked :=
  match dispatch root_patterns r with
  | Some (2%nat, ps0) =>
      match Authenticate id r with
      | (p, true) =>
          match dispatch api_patterns (with_principal (with_params r ps0) p) with
          | Some (j, ps) =>
              match action_of_route j, Atoi (default "" (ps !! "pid")) with
              | Some action, Some pid =>
                  if AtLeast (PrincipalRole p) RoleOperator && CheckOrigin r
                  then Some (mkAsked action pid (Name p)) else None
              | _, _ => None
              end
          | None => None
          end
      | (_, false) => None
      end
  | _ => None
  end.

(** The request as the WebSocket handler sees it, when it comes to subscribing. *)
Definition opens `{!Outside} (id : I) (r : Request) : option Request :=
  match dispatch root_patterns r with
  | Some (2%nat, ps0) =>
      match Authenticate id r with
      | (p, true) =>
          match dispatch api_patterns (with_principal (with_params r ps0) p) with
          | Some (4%nat, ps) =>
              let r := with_params (with_principal (with_params r ps0) p) ps in
              match upgrade_refused r with
              | None => if CheckOrigin r then Some r else None
              | Some _ => None
              end
          | _ => None
          end
      | (_, false) => None
      end
  | _ => None
  end.
End asked.

(** ** The process *)
Section overlap.
Context `{Go : GoRuntime} {Cfg C B D Raw Blob A V H : Type}.
Context `{!Pool C} `{!Driver Cfg C} `{!SnapshotTable D Blob} `{!Codec Raw Blob} `{!AuditTable A}.
Context `{!Prometheus V H} `{!Router} `{!UI} `{!Database B D A} `{!Outside}.
Notation App := (@App C D A V H).
Notation Process := (@Process C D A V H).

(** The goroutines of the admitted requests, by the number of their admission,
    and those of the streams that have subscribed and not come to their loop, by
    their subscription, with its channel. *)
Record Busy := mkBusy {
  b_process : Process;
  b_flights : gmap Z (Request * Flight);
  b_next : Z;
  b_openings : gmap Z (Request * Z)
}.

Definition start_call (b : Busy) (r : Request) (q : Asked) : Busy :=
  mkBusy (b_process b)
    (<[b_next b := (r, Calling (ask_action q) (ask_pid q) (ask_actor q))]> (b_flights b)) (b_next b + 1)
    (b_openings b).

(** [Subscribe]. *)
Definition start_stream (b : Busy) (r : Request) : Busy :=
  let a := p_app (b_process b) in
  let '(st, (id, sub)) := Subscribe (a_store a) in
  mkBusy (mkProcess (set_a_store a st) (p_pc (b_process b))) (b_flights b) (b_next b)
    (<[id := (r, sub)]> (b_openings b)).

(** The first snapshot: the process after it and what is sent. *)
Definition stream_advance (a : App) (id : Z) (r : Request) (sub : Z) : Outcome (App * list Payload) :=
  let* s := greet id sub (websocket_accept r) (a_store a) in
  Ok (set_a_store a (ss_store s), [PFrames (ss_sent s)]).

(** The lookup of main.go, at the moment the entry is built. *)
Definition lookup_now (a : App) (f : Flight) : Outcome string :=
  match f with
  | Answered x => let* latest := Latest (a_store a) in Ok (victim_lookup latest (att_pid x)).1
  | _ => Ok ""%string
  end.

(** The next step of a call: the process after it, where the call is, and the
    document its request is answered with when it returns. *)
Definition call_advance (a : App) (f : Flight) (now : Time) : Outcome (App * option Flight * list Payload) :=
  let* victim := lookup_now a f in
  let w := world_of a in
  let '(svc, f') := flight_step (w_signal w) f victim now in
  Ok (of_world a (set_w_signal w svc), f',
      match f with Observed y => document (signal_answer (final_answer y)) | _ => [] end).

Inductive BusyEvent :=
| BeEvent (ev : ProcessEvent)
| BeCall (id : Z) (now : Time)
| BeGreet (id : Z).

Definition busy_process (b : Busy) (ev : ProcessEvent) : Outcome (Busy * list Payload) :=
  let* x := process_step (b_process b) ev in Ok (mkBusy x.1 (b_flights b) (b_next b) (b_openings b), x.2).

Definition busy_step (b : Busy) (ev : BusyEvent) : Outcome (Busy * list Payload) :=
  match ev with
  | BeEvent (PeRequest r now) =>
      match asked (a_identity (p_app (b_process b))) r with
      | Some q => Ok (start_call b r q, [])
      | None =>
          match opens (a_identity (p_app (b_process b))) r with
          | Some r' => Ok (start_stream b r', [])
          | None => busy_process b (PeRequest r now)
          end
      end
  | BeEvent (PeSocket id e) =>
      match b_openings b !! id with
      | Some _ => Ok (b, [])
      | None => busy_process b (PeSocket id e)
      end
  | BeEvent ev => busy_process b ev
  | BeCall id now =>
      match b_flights b !! id with
      | None => Ok (b, [])
      | Some (r, f) =>
          let* x := call_advance (p_app (b_process b)) f now in
          let '(a, f', out) := x in
          Ok (mkBusy (mkProcess a (p_pc (b_process b)))
                (partial_alter (fun _ => pair r <$> f') id (b_flights b)) (b_next b) (b_openings b), out)
      end
  | BeGreet id =>
      match b_openings b !! id with
      | None => Ok (b, [])
      | Some (r, sub) =>
          let* x := stream_advance (p_app (b_process b)) id r sub in
          Ok (mkBusy (mkProcess x.1 (p_pc (b_process b))) (b_flights b) (b_next b) (delete id (b_openings b)), x.2)
      end
  end.

Fixpoint run_busy (b : Busy) (evs : list BusyEvent) : Outcome (Busy * list Payload) :=
  match evs with
  | [] => Ok (b, [])
  | ev :: evs =>
      let* x := busy_step b ev in
      let* y := run_busy x.1 evs in
      Ok (y.1, x.2 ++ y.2)
  end.

(** The process as [run] leaves it. *)
Definition busy_of (started : @Started C D A V H) : Busy := mkBusy (process_of started) ∅ 0 ∅.
End overlap.
