(* ===== verification/OverlapProofs.v ===== *)
(** * The process with its requests in flight: invariants

    What [asked] says is what the routes do; the steps of a call keep the
    invariant of [ProcessProofs.v]; a run of [Process.v], where a request is one
    step, is a run in which calls do not overlap. *)
From S2P Require Import Prelude GoRuntime Utf8 GoStrings Graph Redact Store StoreConc Auth AuditTrail Signal SignalConc Poller RedactSource Pg Metrics Persist Config Main Preflight Stream GoTime Api Flow System SystemProofs Process ProcessProofs Overlap.
Local Open Scope Z_scope.
Local Open Scope pglockr_scope.

(** ** Admission *)
Section admission.
Context `{Go : GoRuntime} {P G S O I : Type}.
Context `{!Persister P} `{!Signaler G} `{!AuditTrail.Sink S} `{!Observer O} `{!Identity I, !IdentityLaws I}.
Context `{!Inspector G} `{!Router} `{!UI} `{!WebSocket P}.
Context (id : I) (no_route metrics : Request -> Z) (now : Time).
Notation World := (World P G S O).
Implicit Types w : World.

(** A request that asks for an action is that call of [Do]. *)
Lemma asked_served r w q :
  asked id r = Some q ->
  ServeHTTP id no_route (Some metrics) now r w =
    let* latest := Latest (w_store w) in
    let '(svc, answer) := Do (w_signal w) (Some (victim_lookup latest)) now
      (ask_action q) (ask_pid q) (ask_actor q) in
    Ok (set_w_signal w svc, signal_answer answer).
Proof.
  unfold asked. destruct (dispatch root_patterns r) as [[[|[|[|i]]] ps0]|] eqn:Hroot; try done.
  destruct (Authenticate id r) as [p []] eqn:Hid; [|done].
  destruct (dispatch api_patterns _) as [[j ps]|] eqn:Hapi; [|done].
  destruct (action_of_route j) as [action|] eqn:Hj; [|done].
  destruct (Atoi _) as [pid|] eqn:Hpid; [|done].
  destruct (AtLeast _ _) eqn:Hrole; [|done]. destruct (CheckOrigin r) eqn:Ho; [|done]. intros [= <-].
  rewrite (ServeHTTP_api id no_route (Some metrics) now r w p 2 j ps0 ps
    (Post (if bool_decide (action = ActionCancel) then "/sessions/{pid}/cancel" else "/sessions/{pid}/terminate")
       (RequireRole RoleOperator (requireSameOrigin (doSignal now action)))) Hid Hroot eq_refl Hapi).
  2:{ destruct j as [|[|[|[|[|[|[|[|[|j]]]]]]]]]; try discriminate Hj; by injection Hj as <-. }
  cbn [snd Post]. unfold RequireRole, PrincipalFrom. cbn. rewrite Hrole. cbn [negb].
  unfold requireSameOrigin. change (CheckOrigin (with_params _ ps)) with (CheckOrigin r). rewrite Ho. cbn [negb].
  unfold doSignal. cbn. by rewrite Hpid.
Qed.

(** Any other request leaves the signal service as it is. *)
Definition leaves_signal (h : Handler World Payload) : Prop :=
  forall r w w' resp, h r w = Ok (w', resp) -> w_signal w' = w_signal w.

Lemma plain_routes_quiet j rt :
  action_of_route j = None -> (api_routes now : list (Route (P:=P) (G:=G) (S:=S) (O:=O))) !! j = Some rt -> leaves_signal rt.2.
Proof.
  intros Hj Hrt. unfold leaves_signal.
  destruct j as [|[|[|[|[|[|[|[|[|[|j]]]]]]]]]]; try discriminate Hj; try discriminate Hrt;
    injection Hrt as <-; cbn [snd Get Group fmap list_fmap].
  - unfold handleMe. run_handler.
  - unfold handleClusters. run_handler.
  - unfold handleSnapshot. run_handler.
  - unfold handleHistory. run_handler.
  - unfold handleStream. run_handler.
  - unfold handleLocks. run_handler.
  - unfold handleHotObjects. run_handler.
  - unfold RequireRole, handleAudit. run_handler.
Qed.

Lemma not_asked r w w' resp :
  asked id r = None -> ServeHTTP id no_route (Some metrics) now r w = Ok (w', resp) ->
  w_signal w' = w_signal w.
Proof.
  unfold asked, ServeHTTP, serve_routes.
  change ((root_routes id no_route (Some metrics) now).*1) with root_patterns.
  destruct (dispatch root_patterns r) as [[[|[|[|[|i]]]] ps0]|]; cbn [root_routes app lookup list_lookup snd Get Handle];
    try (unfold handleHealthz, spaHandler; by run_handler).
  unfold api_router, AuthenticateMW. rewrite (authenticate_headers id (with_params r ps0) r) by done.
  destruct (Authenticate id r) as [p []]; [|by run_handler]. unfold serve_routes.
  change ((api_routes now).*1) with api_patterns.
  destruct (dispatch api_patterns _) as [[j ps]|]; [|by run_handler]. intros Hq.
  destruct (api_routes now !! j) as [rt|] eqn:Hrt; [|by run_handler].
  destruct (action_of_route j) as [action|] eqn:Hj; [|by eapply plain_routes_quiet].
  assert (rt.2 = RequireRole RoleOperator (requireSameOrigin (doSignal now action))) as ->.
  { destruct j as [|[|[|[|[|[|[|[|[|j]]]]]]]]]; try discriminate Hj; injection Hj as <-; by injection Hrt as <-. }
  unfold RequireRole, PrincipalFrom, requireSameOrigin, doSignal. cbn. revert Hq.
  change (CheckOrigin (with_params _ ps)) with (CheckOrigin r).
  destruct (AtLeast (PrincipalRole p) RoleOperator); cbn [negb]; [|by run_handler].
  destruct (CheckOrigin r); cbn [negb]; [|by run_handler].
  destruct (Atoi (default "" (ps !! "pid"))) as [pid|]; [done|by run_handler].
Qed.
End admission.

(** A request that comes to subscribing is the WebSocket handler's. *)
Lemma opens_served {P G S O I} `{Go : GoRuntime, !Persister P, !Signaler G, !AuditTrail.Sink S, !Observer O, !Identity I,
    !IdentityLaws I, !Inspector G, !Router, !UI, !WebSocket P, !Outside}
    (id : I) (nr metrics : Request -> Z) (now : Time) r (w : World P G S O) r' :
  opens id r = Some r' ->
  ServeHTTP id nr (Some metrics) now r w = handleStream r' w /\ upgrade_refused r' = None /\ CheckOrigin r' = true.
Proof.
  unfold opens. destruct (dispatch root_patterns r) as [[[|[|[|i]]] ps0]|] eqn:Hroot; try done.
  destruct (Authenticate id r) as [p []] eqn:Hid; [|done].
  destruct (dispatch api_patterns _) as [[[|[|[|[|[|j]]]]] ps]|] eqn:Hapi; try done.
  destruct (upgrade_refused _) eqn:Hu; [done|]. destruct (CheckOrigin (with_params _ ps)) eqn:Ho; [|done]. intros [= <-].
  split; [|done]. exact (ServeHTTP_api id nr (Some metrics) now r w p 2 4 ps0 ps (Get "/stream" handleStream) Hid Hroot eq_refl Hapi eq_refl).
Qed.

Lemma asked_authorised {I} `{!Identity I, !Router} (id : I) r q :
  asked id r = Some q ->
  (ask_action q = ActionCancel \/ ask_action q = ActionTerminate) /\
  exists p, Authenticate id r = (p, true) /\ Name p = ask_actor q /\
    AtLeast (PrincipalRole p) RoleOperator = true /\ CheckOrigin r = true.
Proof.
  unfold asked. destruct (dispatch root_patterns r) as [[[|[|[|i]]] ps0]|]; try done.
  destruct (Authenticate id r) as [p []]; [|done].
  destruct (dispatch api_patterns _) as [[j ps]|]; [|done].
  destruct (action_of_route j) as [action|] eqn:Hj; [|done]. destruct (Atoi _) as [pid|]; [|done].
  destruct (AtLeast _ _) eqn:Hrole; [|done]. destruct (CheckOrigin r) eqn:Ho; [|done]. intros [= <-].
  split; [|by exists p].
  destruct j as [|[|[|[|[|[|[|[|[|j]]]]]]]]]; try discriminate Hj; injection Hj as <-; [by left|by right].
Qed.

(** ** The steps of a call *)
Section overlap.
Context `{Go : GoRuntime} {Cfg C B D Raw Blob A V H : Type}.
Context `{!Pool C} `{!Driver Cfg C} `{!SnapshotTable D Blob} `{!Codec Raw Blob} `{!AuditTable A}.
Context `{!Prometheus V H} `{!Router} `{!UI} `{!SnapshotTableLaws D Blob} `{!CodecLaws Raw Blob}
  `{!AuditTableLaws A} `{!Database B D A} `{!Outside}.
Notation App := (@App C D A V H).
Notation Process := (@Process C D A V H).
Notation Busy := (@Busy C D A V H).
Implicit Types (a : App) (p : Process) (b : Busy).

Section texts.
Context (Q : string -> Prop) (Q_empty : Q "") `{!Utf8Closed Q, !JsonLaws Raw Blob}.

(** The query a call carries. *)
Definition flight_texts (f : Flight) : Prop :=
  match f with Prepared y | Recorded y | Observed y => Q (kn_victim y) | _ => True end.

Lemma lookup_now_texts a f : app_texts Q a -> exists victim, lookup_now a f = Ok victim /\ Q victim.
Proof.
  intros [[Hst _] _]. change (store_texts Q (a_store a)) in Hst.
  destruct f as [action pid actor|x|y|y|y]; cbn [lookup_now]; try by eexists.
  destruct (Latest_texts Q (a_store a) Hst) as (latest & -> & Hl). cbn [outcome_bind].
  eexists. split; [done|]. by apply victim_texts.
Qed.

(** The service after a step: the sink has been written to at most. *)
Lemma flight_step_sink (svc : Service (Pg.Client (C:=C)) (AnySink A) (Metrics.Metrics (V:=V) (H:=H))) f victim now s :
  sink svc = Some s -> any_sink_texts Q s -> flight_texts f -> Q victim ->
  exists s', sink (flight_step svc f victim now).1 = Some s' /\ recorded s s' /\ any_sink_texts Q s' /\
    forall f', (flight_step svc f victim now).2 = Some f' -> flight_texts f'.
Proof.
  intros Hs Ht Hf Hv. destruct f as [action pid actor|x|y|y|y]; cbn [flight_step].
  - destruct (send (sig svc) action pid) as [g [delivered err]]. exists s. cbn. split_and!; try done.
    + apply recorded_same.
    + by intros f' [= <-].
  - exists s. cbn. split_and!; try done; [apply recorded_same|by intros f' [= <-]].
  - exists (RecordEntry s (known_entry y)).1. cbn [set_trail sink fst snd]. rewrite record_entry_sink, Hs.
    split_and!; [done|by exists [known_entry y]|by apply any_record_texts|by intros f' [= <-]].
  - exists s. cbn. split_and!; try done; [apply recorded_same|by intros f' [= <-]].
  - exists s. cbn. split_and!; try done. apply recorded_same.
Qed.

Lemma call_advance_texts a f now :
  app_texts Q a -> flight_texts f ->
  exists a' f' out, call_advance a f now = Ok (a', f', out) /\ app_texts Q a' /\ unmoved a a' /\
    (forall g, f' = Some g -> flight_texts g) /\ Forall (payload_texts Q) out.
Proof.
  intros Ha Hf. pose proof Ha as [[Hst (s & Hs & Hsk)] Hsrc]. unfold call_advance.
  destruct (lookup_now_texts a f Ha) as (victim & -> & Hv). cbn [outcome_bind].
  destruct (flight_step_sink (w_signal (world_of a)) f victim now s Hs Hsk Hf Hv) as (s' & Hs' & Hrec & Hsk' & Hf').
  destruct (flight_step (w_signal (world_of a)) f victim now) as [svc f'] eqn:E. cbn [fst snd] in *.
  eexists _, f', _. split; [reflexivity|]. split; [|split; [|split; [done|]]].
  - apply of_world_texts; [done|]. split; [done|]. by exists s'.
  - split; [apply rtc_refl|]. split; [|done]. cbn [of_world a_sink set_w_signal w_signal]. rewrite Hs'.
    injection Hs as <-. exact Hrec.
  - unfold signal_answer, document. destruct f; try constructor.
    destruct (final_answer y) as [res [e|]]; cbn; by repeat constructor.
Qed.

(** *** The opening of a stream *)
Lemma set_store_unmoved a st : readers (a_store a) st -> unmoved a (set_a_store a st).
Proof. intros Hr. split; [exact Hr|]. split; [apply recorded_same|done]. Qed.

Lemma start_stream_texts a :
  app_texts Q a -> app_texts Q (set_a_store a (Subscribe (a_store a)).1) /\
    unmoved a (set_a_store a (Subscribe (a_store a)).1).
Proof.
  intros Ha. pose proof Ha as [[Hst _] _]. split.
  - apply set_a_store_texts; [done|]. by apply Subscribe_texts.
  - apply set_store_unmoved, rtc_once, move_subscribe.
Qed.

Lemma stream_advance_texts a id r sub :
  app_texts Q a -> exists a' out, stream_advance a id r sub = Ok (a', out) /\ app_texts Q a' /\
    unmoved a a' /\ Forall (payload_texts Q) out.
Proof.
  intros Ha. pose proof Ha as [[Hst _] _]. unfold stream_advance.
  destruct (greet_texts Q id sub (websocket_accept r) (a_store a) Hst) as (s & -> & Hs & Hr & Hsent); [constructor|].
  cbn [outcome_bind]. eexists _, _. split; [done|]. split; [by apply set_a_store_texts|].
  split; [by apply set_store_unmoved|by repeat constructor].
Qed.

(** *** The invariant *)
Record busy_inv (n : Z) (b : Busy) : Prop := {
  bi_process : process_inv Q n (b_process b);
  bi_flights : forall id r f, b_flights b !! id = Some (r, f) -> flight_texts f
}.

Definition busy_outcome (n : Z) (b : Busy) (o : Outcome (Busy * list Payload)) : Prop :=
  match o with
  | Ok (b', out) => busy_inv n b' /\ Forall (payload_texts Q) out
  | Panic why => panics (b_process b) why
  end.

Lemma busy_process_inv n b ev : busy_inv n b -> busy_outcome n b (busy_process b ev).
Proof.
  intros [Hp Hf]. unfold busy_process. pose proof (process_step_inv Q Q_empty n (b_process b) ev Hp) as Hs.
  destruct (process_step (b_process b) ev) as [[p out]|why]; cbn [outcome_bind outcome_inv busy_outcome fst snd] in *;
    [|done]. destruct Hs as [Hp' Ho]. by split; [split|].
Qed.

(** A step of a reader of the store. *)
Lemma reader_busy_inv n b a' nx op :
  busy_inv n b -> app_texts Q a' -> unmoved (p_app (b_process b)) a' ->
  busy_inv n (mkBusy (mkProcess a' (p_pc (b_process b))) (b_flights b) nx op).
Proof.
  intros [Hp Hf] Ha Hu. split; [|exact Hf]. destruct b as [[a pc] fl k op']. by eapply reader_step_inv.
Qed.

Lemma busy_step_inv n b ev : busy_inv n b -> busy_outcome n b (busy_step b ev).
Proof.
  intros Hb. pose proof Hb as [[Ha _ _] Hf]. destruct ev as [ev|id now|id].
  - destruct ev as [e|now|r now|id e]; cbn [busy_step]; try by apply busy_process_inv.
    + destruct (asked _ r) as [q|].
      * split; [|done]. destruct Hb as [Hp _]. split; [done|]. cbn [start_call b_flights]. intros id r' f.
        destruct (decide (b_next b = id)) as [<-|Hid]; [rewrite lookup_insert_eq; by intros [= <- <-]|].
        rewrite lookup_insert_ne by done. apply Hf.
      * destruct (opens _ r) as [r'|]; [|by apply busy_process_inv]. split; [|done].
        destruct (start_stream_texts _ Ha). by apply reader_busy_inv.
    + destruct (b_openings b !! id); [by split|by apply busy_process_inv].
  - cbn [busy_step]. destruct (b_flights b !! id) as [[r f]|] eqn:E; [|by split].
    destruct (call_advance_texts (p_app (b_process b)) f now Ha (Hf id r f E))
      as (a' & f' & out & -> & Ha' & Hu & Hf' & Ho). cbn [outcome_bind].
    split; [|done]. split; cbn [b_process b_flights].
    + by apply (reader_busy_inv n b a' 0 ∅ Hb).
    + intros id' r' g. destruct (decide (id = id')) as [<-|Hid].
      * rewrite lookup_partial_alter_eq. destruct f' as [f'|]; [|done]. intros [= <- <-]. by apply Hf'.
      * rewrite lookup_partial_alter_ne by done. apply Hf.
  - cbn [busy_step]. destruct (b_openings b !! id) as [[r sub]|]; [|by split].
    destruct (stream_advance_texts (p_app (b_process b)) id r sub Ha) as (a' & out & -> & Ha' & Hu & Ho).
    cbn [outcome_bind fst snd]. split; [|done]. by apply reader_busy_inv.
Qed.

(** Rule induction over an interleaving: the invariant, or a panic. *)
Lemma run_busy_inv n b evs :
  busy_inv n b ->
  match run_busy b evs with
  | Ok (b', out) => busy_inv n b' /\ Forall (payload_texts Q) out
  | Panic why =>
      exists evs1 ev evs2 b1 out1, evs = evs1 ++ ev :: evs2 /\ run_busy b evs1 = Ok (b1, out1) /\
        panics (b_process b1) why
  end.
Proof.
  revert b. induction evs as [|ev evs IH]; intros b Hb; cbn [run_busy]; [by split|].
  pose proof (busy_step_inv n b ev Hb) as Hs.
  destruct (busy_step b ev) as [[b1 out1]|why] eqn:E; cbn [busy_outcome outcome_bind fst snd] in *.
  - destruct Hs as [Hb1 Ho1]. specialize (IH b1 Hb1).
    destruct (run_busy b1 evs) as [[b2 out2]|why]; cbn [outcome_bind fst snd].
    + destruct IH as [Hb2 Ho2]. split; [done|]. by apply Forall_app.
    + destruct IH as (evs1 & ev' & evs2 & b2 & out2 & -> & E2 & Hl).
      exists (ev :: evs1), ev', evs2, b2, (out1 ++ out2). split; [done|]. split; [|done].
      cbn [run_busy]. by rewrite E; cbn [outcome_bind fst snd]; rewrite E2.
  - by exists [], ev, evs, b, [].
Qed.

(** Rule induction for a property of the process. *)
Definition admitted (admits : ProcessEvent -> Prop) (ev : BusyEvent) : Prop :=
  match ev with BeEvent ev => admits ev | BeCall _ _ | BeGreet _ => True end.

Lemma busy_process_kept admits R n b ev b' out :
  kept Q admits R n -> admits ev -> busy_inv n b -> R (b_process b) -> busy_process b ev = Ok (b', out) ->
  R (b_process b').
Proof.
  intros Hk Hev [Hp _] HR. unfold busy_process.
  destruct (process_step (b_process b) ev) as [[p o]|] eqn:E; [|discriminate]. intros [= <- _].
  by eapply (process_step_kept Q Q_empty).
Qed.

Lemma busy_step_kept admits R n b ev b' out :
  kept Q admits R n -> admitted admits ev -> busy_inv n b -> R (b_process b) -> busy_step b ev = Ok (b', out) ->
  R (b_process b').
Proof.
  intros Hk Hev Hb HR. pose proof Hb as [[Ha _ _] Hf].
  assert (forall a', unmoved (p_app (b_process b)) a' -> R (mkProcess a' (p_pc (b_process b)))) as Hun.
  { intros a' Hu. destruct (b_process b). by eapply kept_unmoved. }
  destruct ev as [ev|id now|id].
  - destruct ev as [e|now|r now|id e]; cbn [busy_step]; try by eapply busy_process_kept.
    + destruct (asked _ r) as [q|]; [by intros [= <- _]|].
      destruct (opens _ r) as [r'|]; [|by eapply busy_process_kept]. intros [= <- _].
      apply Hun. by apply start_stream_texts.
    + destruct (b_openings b !! id); [by intros [= <- _]|by eapply busy_process_kept].
  - cbn [busy_step]. destruct (b_flights b !! id) as [[r f]|] eqn:E; [|by intros [= <- _]].
    destruct (call_advance_texts (p_app (b_process b)) f now Ha (Hf id r f E)) as (a' & f' & o & -> & _ & Hu & _).
    intros [= <- _]. by apply Hun.
  - cbn [busy_step]. destruct (b_openings b !! id) as [[r sub]|]; [|by intros [= <- _]].
    destruct (stream_advance_texts (p_app (b_process b)) id r sub Ha) as (a' & o & -> & _ & Hu & _).
    intros [= <- _]. by apply Hun.
Qed.

Lemma run_busy_kept admits R n b evs b' out :
  kept Q admits R n -> Forall (admitted admits) evs -> busy_inv n b -> R (b_process b) ->
  run_busy b evs = Ok (b', out) -> R (b_process b').
Proof.
  intros Hk Hevs. revert b out. induction Hevs as [|ev evs Hev _ IH]; intros b out Hb HR; cbn [run_busy].
  { by intros [= <- _]. }
  pose proof (busy_step_inv n b ev Hb) as Hs.
  destruct (busy_step b ev) as [[b1 out1]|] eqn:E; cbn [outcome_bind fst snd busy_outcome] in *; [|discriminate].
  destruct (run_busy b1 evs) as [[b2 out2]|] eqn:E2; cbn [outcome_bind fst snd]; [|discriminate].
  intros [= <- _]. refine (IH b1 out2 (proj1 Hs) _ E2). by eapply busy_step_kept.
Qed.

Lemma busy_of_inv cfg (started : @Started C D A V H) :
  run_start cfg = Ok (Val started) -> app_texts Q (st_app started) ->
  busy_inv (RingSize (Config.Poll cfg)) (busy_of started).
Proof.
  intros Hs Ha. split; [by apply process_of_inv|]. intros id r f. cbn. by rewrite lookup_empty.
Qed.
End texts.

(** ** Requests in one step *)
Lemma run_busy_app b evs1 evs2 :
  run_busy b (evs1 ++ evs2) =
  let* x := run_busy b evs1 in let* y := run_busy x.1 evs2 in Ok (y.1, x.2 ++ y.2).
Proof.
  revert b. induction evs1 as [|ev evs1 IH]; intros b; cbn [app run_busy outcome_bind fst snd].
  - by destruct (run_busy b evs2) as [[p' out]|].
  - destruct (busy_step b ev) as [[b1 out1]|]; cbn [outcome_bind fst snd]; [|done]. rewrite IH.
    destruct (run_busy b1 evs1) as [[b2 out2]|]; cbn [outcome_bind fst snd]; [|done].
    destruct (run_busy b2 evs2) as [[b3 out3]|]; cbn [outcome_bind fst snd]; [|done].
    by rewrite app_assoc.
Qed.

(** The process with another service; both of its parts are there. *)
Definition with_service a svc : App := of_world a (set_w_signal (world_of a) svc).

Notation AppService := (Service (Pg.Client (C:=C)) (AnySink A) (Metrics.Metrics (V:=V) (H:=H))).

Definition full (svc : AppService) : Prop :=
  is_Some (sink svc) /\ is_Some (Signal.obs svc).

Lemma with_service_same a : with_service a (w_signal (world_of a)) = a.
Proof. by destruct a. Qed.

Lemma with_service_service a svc : full svc -> w_signal (world_of (with_service a svc)) = svc.
Proof. destruct svc as [g l s o]. intros [[s' Hs] [o' Ho]]. cbn in *. by subst s o. Qed.

Lemma with_service_twice a svc svc' : full svc' -> with_service (with_service a svc) svc' = with_service a svc'.
Proof. destruct svc' as [g l s o]. intros [[s' Hs] [o' Ho]]. cbn in *. by subst s o. Qed.

Lemma flight_step_full svc f victim now : full svc -> full (flight_step svc f victim now).1.
Proof.
  intros [Hs Ho]. destruct f as [action pid actor|x|y|y|y]; cbn [flight_step]; try by split.
  - by destruct (send _ _ _) as [g []].
  - split; [|done]. cbn. rewrite record_entry_sink. by apply fmap_is_Some.
  - split; [done|]. cbn. by apply fmap_is_Some.
Qed.

Lemma flight_run_full svc f victim now n svc' f' :
  full svc -> flight_run svc f victim now n = (svc', f') -> full svc'.
Proof.
  revert svc f. induction n as [|n IH]; intros svc f Hs; cbn [flight_run]; [by intros [= <- _]|].
  pose proof (flight_step_full svc f victim now Hs) as Hf.
  destruct (flight_step svc f victim now) as [svc1 [f1|]]; [by apply IH|by intros [= <- _]].
Qed.

Lemma world_full a : full (w_signal (world_of a)).
Proof. by split; eexists. Qed.

(** A call that is about to look up or will. *)
Definition looks_up (pid : Z) (f : Flight) : Prop :=
  match f with Calling _ pid' _ => pid' = pid | Answered x => att_pid x = pid | _ => True end.

Lemma call_advance_step a f latest pid now :
  Latest (a_store a) = Ok latest -> looks_up pid f ->
  call_advance a f now =
  let '(svc, f') := flight_step (w_signal (world_of a)) f (victim_lookup latest pid).1 now in
  Ok (with_service a svc, f', match f with Observed y => document (signal_answer (final_answer y)) | _ => [] end).
Proof.
  intros Hl Hf. unfold call_advance, with_service. destruct f as [action pid' actor|x|y|y|y]; try done.
  cbn in Hf. cbn [lookup_now]. by rewrite Hl, Hf.
Qed.

Lemma flight_step_looks_up (svc : AppService) f victim now pid f' :
  looks_up pid f -> (flight_step svc f victim now).2 = Some f' -> looks_up pid f'.
Proof.
  destruct f as [action pid' actor|x|y|y|y]; cbn; try (by intros _ [= <-]).
  intros ->. destruct (send _ _ _) as [g []]. by intros [= <-].
Qed.

(** The steps of a call that nobody overtakes. *)
Lemma run_call a pc r f k nx latest pid now n svc' f' :
  Latest (a_store a) = Ok latest -> looks_up pid f ->
  flight_run (w_signal (world_of a)) f (victim_lookup latest pid).1 now n = (svc', Some f') ->
  run_busy (mkBusy (mkProcess a pc) {[k := (r, f)]} nx ∅) (replicate n (BeCall k now)) =
  Ok (mkBusy (mkProcess (with_service a svc') pc) {[k := (r, f')]} nx ∅, []) /\ looks_up pid f'.
Proof.
  revert a f. induction n as [|n IH]; intros a f Hl Hf; cbn [flight_run replicate run_busy].
  { intros [= <- <-]. by rewrite with_service_same. }
  cbn [busy_step b_flights b_process p_app p_pc b_next b_openings]. rewrite lookup_singleton_eq.
  rewrite (call_advance_step a f latest pid now Hl Hf).
  pose proof (flight_step_full (w_signal (world_of a)) f (victim_lookup latest pid).1 now (world_full a)) as Hfull.
  pose proof (flight_step_looks_up (w_signal (world_of a)) f (victim_lookup latest pid).1 now pid) as Hlook.
  destruct (flight_step _ f _ now) as [svc1 [f1|]] eqn:E; [|done]. intros Hrun. cbn [fst snd outcome_bind] in *.
  change (partial_alter (fun _ => pair r <$> Some f1) k {[k := (r, f)]})
    with (<[k := (r, f1)]> ({[k := (r, f)]} : gmap Z (Request * Flight))). rewrite insert_singleton_eq.
  destruct (IH (with_service a svc1) f1) as [-> Hlast]; [done|by apply Hlook|by rewrite with_service_service|].
  rewrite with_service_twice by (eapply flight_run_full; [exact Hfull|exact Hrun]).
  split; [|done]. by destruct f.
Qed.

(** A request that asks for an action, in one step and in six. *)
Lemma request_overlaps a pc r now a' out k q :
  asked (a_identity a) r = Some q -> request_step a r now = Ok (a', out) ->
  run_busy (mkBusy (mkProcess a pc) ∅ k ∅) (BeEvent (PeRequest r now) :: replicate 5 (BeCall k now)) =
  Ok (mkBusy (mkProcess a' pc) ∅ (k + 1) ∅, out).
Proof.
  intros Hq. unfold request_step. rewrite (asked_served _ no_route metrics_page now r (world_of a) q Hq).
  change (w_store (world_of a)) with (a_store a).
  destruct (Latest (a_store a)) as [latest|] eqn:Hl; [|discriminate]. cbn [outcome_bind].
  set (call := mkCall (Some (victim_lookup latest)) now (ask_action q) (ask_pid q) (ask_actor q)).
  destruct (flight_run_Do (w_signal (world_of a)) call) as (svc4 & y & Hrun & Hlast & Hanswer).
  unfold do_call in Hlast, Hanswer. cbn [call_lookup call_now call_action call_pid call_actor call] in *.
  destruct (Do _ _ _ _ _ _) as [svc answer] eqn:HDo. cbn [fst snd] in *. intros [= <- <-]. subst answer.
  cbn [run_busy busy_step b_process p_app]. rewrite Hq. unfold start_call. cbn [outcome_bind fst snd b_process b_flights b_next b_openings].
  rewrite insert_empty, (replicate_add 4 1), run_busy_app.
  destruct (run_call a pc r (Calling (ask_action q) (ask_pid q) (ask_actor q)) k (k + 1) latest (ask_pid q) now 4 svc4 (Observed y) Hl eq_refl Hrun) as [-> _].
  cbn [outcome_bind fst snd replicate run_busy busy_step b_flights b_process p_app p_pc b_next b_openings].
  rewrite lookup_singleton_eq.
  rewrite (call_advance_step (with_service a svc4) (Observed y) latest (ask_pid q) now Hl Logic.I).
  pose proof (flight_run_full _ _ _ _ _ _ _ (world_full a) Hrun) as Hfull.
  pose proof (flight_step_full svc4 (Observed y) (victim_lookup latest (ask_pid q)).1 now Hfull) as Hfull'.
  rewrite with_service_service, Hlast by done. rewrite Hlast in Hfull'. cbn [fst] in Hfull'.
  cbn [outcome_bind fst snd]. rewrite with_service_twice by done.
  change (partial_alter (fun _ => pair r <$> None) k {[k := (r, Observed y)]})
    with (delete k ({[k := (r, Observed y)]} : gmap Z (Request * Flight))). rewrite delete_singleton_eq.
  by rewrite !app_nil_r.
Qed.

(** A request for a stream, in one step and in two. *)
Lemma opening_overlaps a pc r now a' out k r' :
  asked (a_identity a) r = None -> opens (a_identity a) r = Some r' -> request_step a r now = Ok (a', out) ->
  exists id, run_busy (mkBusy (mkProcess a pc) ∅ k ∅) [BeEvent (PeRequest r now); BeGreet id] =
    Ok (mkBusy (mkProcess a' pc) ∅ k ∅, out).
Proof.
  intros Hq Ho E. unfold request_step in E.
  destruct (opens_served (a_identity a) no_route metrics_page now r (world_of a) r' Ho) as (Hs & Hu & Hc).
  rewrite Hs in E. unfold handleStream, stream in E.
  change (refused (websocket_accept r')) with (upgrade_refused r') in E. rewrite Hu, Hc in E. cbn [negb] in E.
  change (w_store (world_of a)) with (a_store a) in E. destruct (Subscribe (a_store a)) as [st [id sub]] eqn:Es.
  exists id. cbn [run_busy busy_step b_process p_app b_openings]. rewrite Hq, Ho. unfold start_stream.
  cbn [b_process p_app p_pc]. rewrite Es. cbn [outcome_bind fst snd busy_step b_openings b_process p_app p_pc b_flights b_next].
  rewrite lookup_insert_eq. unfold stream_advance. change (a_store (set_a_store a st)) with st.
  destruct (greet id sub (websocket_accept r') st) as [s|]; [|discriminate]. cbn [outcome_bind fst snd] in *.
  injection E as <- <-. by rewrite set_a_store_twice, insert_empty, delete_singleton_eq.
Qed.

(** The steps other than those of calls and of openings. *)
Definition own_event (ev : BusyEvent) : option ProcessEvent :=
  match ev with BeEvent ev => Some ev | BeCall _ _ | BeGreet _ => None end.

Lemma process_step_overlaps p ev p' out k :
  process_step p ev = Ok (p', out) ->
  exists bevs k', omap own_event bevs = [ev] /\
    run_busy (mkBusy p ∅ k ∅) bevs = Ok (mkBusy p' ∅ k' ∅, out).
Proof.
  intros E. assert (forall ev', ev' = ev -> busy_step (mkBusy p ∅ k ∅) (BeEvent ev') = busy_process (mkBusy p ∅ k ∅) ev' ->
    exists bevs k', omap own_event bevs = [ev'] /\ run_busy (mkBusy p ∅ k ∅) bevs = Ok (mkBusy p' ∅ k' ∅, out)) as Hplain.
  { intros ev' -> Hstep. exists [BeEvent ev], k. split; [done|]. cbn [run_busy]. rewrite Hstep.
    unfold busy_process. cbn [b_process]. rewrite E. cbn [outcome_bind fst snd]. by rewrite app_nil_r. }
  destruct ev as [e|now|r now|id e]; [by apply Hplain..| |].
  2: { apply Hplain; [done|]. cbn [busy_step b_openings]. by rewrite lookup_empty. }
  destruct p as [a pc]. destruct (asked (a_identity a) r) as [q|] eqn:Hq.
  - exists (BeEvent (PeRequest r now) :: replicate 5 (BeCall k now)), (k + 1). split; [done|].
    cbn [process_step p_app p_pc] in *.
    destruct (request_step a r now) as [[a' o]|] eqn:Er; [|discriminate]. injection E as <- <-.
    by apply (request_overlaps a pc r now a' o k q).
  - destruct (opens (a_identity a) r) as [r'|] eqn:Ho.
    + cbn [process_step p_app p_pc] in *.
      destruct (request_step a r now) as [[a' o]|] eqn:Er; [|discriminate]. injection E as <- <-.
      destruct (opening_overlaps a pc r now a' o k r' Hq Ho Er) as [id Hrun].
      exists [BeEvent (PeRequest r now); BeGreet id], k. by split.
    + apply Hplain; [done|]. cbn [busy_step b_process p_app]. by rewrite Hq, Ho.
Qed.

Lemma run_process_overlaps p evs p' out k :
  run_process p evs = Ok (p', out) ->
  exists bevs k', omap own_event bevs = evs /\ run_busy (mkBusy p ∅ k ∅) bevs = Ok (mkBusy p' ∅ k' ∅, out).
Proof.
  revert p out k. induction evs as [|ev evs IH]; intros p out k; cbn [run_process].
  { intros [= <- <-]. by exists [], k. }
  destruct (process_step p ev) as [[p1 out1]|] eqn:E1; cbn [outcome_bind fst snd]; [|discriminate].
  destruct (run_process p1 evs) as [[p2 out2]|] eqn:E2; cbn [outcome_bind fst snd]; [|discriminate].
  intros [= <- <-]. destruct (process_step_overlaps _ _ _ _ k E1) as (bevs1 & k1 & Ho1 & Hr1).
  destruct (IH p1 out2 k1 E2) as (bevs2 & k2 & Ho2 & Hr2).
  exists (bevs1 ++ bevs2), k2. split; [by rewrite omap_app, Ho1, Ho2|].
  rewrite run_busy_app, Hr1. cbn [outcome_bind fst snd]. by rewrite Hr2.
Qed.

(** A run of [System.v]: the same polls begin, the same requests and socket
    events arrive, in the same order; the steps of the poll goroutine and of the
    calls fill the gaps. *)
Lemma run_events_overlaps (a a' : App) (evs : list Event) out :
  run_events a evs = Ok (a', out) ->
  exists bevs k, interleaves evs (omap own_event bevs) /\
    run_busy (mkBusy (mkProcess a Waiting) ∅ 0 ∅) bevs = Ok (mkBusy (mkProcess a' Waiting) ∅ k ∅, out).
Proof.
  intros Hrun. destruct (run_events_interleaved a evs a' out Hrun) as (pevs & Hi & Hp).
  destruct (run_process_overlaps _ _ _ _ 0 Hp) as (bevs & k & <- & Hb). by exists bevs, k.
Qed.
End overlap.
