(* ===== verification/Lifecycle.v ===== *)
(** * cmd/pglockr: from the first poll to the exit

    [run] of main.go after startup: the goroutine that waits for the context and
    shuts the HTTP server down, [ListenAndServe], the deferred calls, and the
    exit of [main], interleaved with everything in [Overlap.v].  The context is
    done after SIGINT or SIGTERM, or after the deferred [stop]; here it is what
    the poll loop reads, and its sleep is a step of its own.

    [Shutdown] closes the listener and waits for the requests under way, but it
    is called on the goroutine; [ListenAndServe] returns as soon as it has been
    called.  A request may still arrive on a connection accepted before, and a
    poll may succeed although the context is done.  Closing the pool or the
    database waits for the statements under way, which are single steps here. *)
From S2P Require Import Prelude GoRuntime Utf8 GoStrings Graph Redact Store StoreConc Auth AuditTrail Signal SignalConc Poller RedactSource Pg Metrics Persist SqlDB Config Main Preflight Stream GoTime Api Flow System Process Overlap.
Local Open Scope Z_scope.
Local Open Scope pglockr_scope.

(** ** The end of [run] *)

(** The calls [run] defers; the last deferred is run first. *)
Inductive Deferred := CloseHistory | CloseClient | StopNotify.

(** The error of [ListenAndServe], which never returns without one. *)
Inductive ServeError := ErrServerClosed | ListenError (err : string).

(** What [run] makes of it. *)
Definition run_result (e : ServeError) : option string :=
  match e with ErrServerClosed => None | ListenError err => Some err end.

(** What [main] makes of the error of [run]. *)
Definition exit_status (err : option string) : Z := match err with Some _ => 1 | None => 0 end.

(** The main goroutine: in [ListenAndServe], returning from [run] with the
    deferred calls that are left, or gone, and the process with it. *)
Inductive MainPc :=
| Listening
| Returning (err : option string) (calls : list Deferred)
| Exited (status : Z).

(** The shutdown goroutine: waiting for the context, in [Shutdown], after it. *)
Inductive ShutdownPc := Watching | Draining | Drained.

(** ** The poll loop under the context *)

(** What an iteration reads of the context, its sleep apart. *)
Definition in_ctx (done : bool) (e : Env) : Env :=
  mkEnv (now_start e) (now_build e) (now_ok e) (now_observe e) (now_wait e) done false.

Definition pc_in_ctx (done : bool) (pc : PollPc) : PollPc :=
  match pc with
  | Waiting => Waiting
  | Building e snap => Building (in_ctx done e) snap
  | Putting e pc => Putting (in_ctx done e) pc
  end.

Definition event_in_ctx (done : bool) (ev : BusyEvent) : BusyEvent :=
  match ev with BeEvent (PeBegin e) => BeEvent (PeBegin (in_ctx done e)) | _ => ev end.

Definition begins (ev : BusyEvent) : bool := match ev with BeEvent (PeBegin _) => true | _ => false end.

Section lifecycle.
Context `{Go : GoRuntime} {Cfg C B D Raw Blob A V H : Type}.
Context `{!Pool C} `{!Driver Cfg C} `{!SnapshotTable D Blob} `{!Codec Raw Blob} `{!AuditTable A}.
Context `{!Prometheus V H} `{!Router} `{!UI} `{!Database B D A} `{!Outside}.
Notation App := (@App C (DB D) (DB A) V H).
Notation Busy := (@Busy C (DB D) (DB A) V H).

Definition app_of (b : Busy) : App := p_app (b_process b).

Definition set_app (b : Busy) (a : App) : Busy :=
  mkBusy (mkProcess a (p_pc (b_process b))) (b_flights b) (b_next b) (b_openings b).

Definition busy_in_ctx (done : bool) (b : Busy) : Busy :=
  mkBusy (mkProcess (app_of b) (pc_in_ctx done (p_pc (b_process b)))) (b_flights b) (b_next b) (b_openings b).

(** The sleep at the end of an iteration that ends like this. *)
Definition nap (a : App) (err : option string) (e : Env) : option Duration :=
  (after_poll (poller_with a (a_store a)) err (a_backoff a) e).1.2.

(** The sleep an event brings the poll goroutine to, if any. *)
Definition falls_asleep (b : Busy) (ev : BusyEvent) : option Duration :=
  let a := app_of b in
  match ev, p_pc (b_process b) with
  | BeEvent (PeBegin e), Waiting =>
      if a_running a then
        match (SourceSnapshot (src (poller_of a (now_build e)))).2 with
        | Err err => nap a (Some err) e
        | Val _ => None
        end
      else None
  | BeEvent (PeAdvance _), Putting e (Sending _ []) => nap a None e
  | _, _ => None
  end.

(** [Run] has returned. *)
Definition stop_polling (a : App) : App :=
  mkApp (a_client a) (a_redact a) (a_store a) (a_sink a) (a_metrics a) (a_cluster a) (a_interval a) (a_status a)
    (a_plog a) (a_backoff a) false (a_slog a) (a_identity a).

(** ** The deferred calls *)

(** [hist.Close()]: the store's persister and the audit sink share the file. *)
Definition close_history (a : App) : App :=
  match st_persist (a_store a), a_sink a with
  | Some p, SinkSQLite au =>
      let '(file, au) := sqlite_Close (dur_file p) au in
      mkApp (a_client a) (a_redact a)
        (SetPersister (a_store a) (Some (mkDurable (dur_now p) file)) (st_log (a_store a))) (SinkSQLite au)
        (a_metrics a) (a_cluster a) (a_interval a) (a_status a) (a_plog a) (a_backoff a) (a_running a)
        (a_slog a) (a_identity a)
  | _, _ => a
  end.

Definition close_client (a : App) : App := set_a_client a (client_Close (a_client a)).

(** What [run] has deferred by the time it serves. *)
Definition deferred_calls (a : App) : list Deferred :=
  (match st_persist (a_store a) with Some _ => [CloseHistory] | None => [] end) ++ [CloseClient; StopNotify].

(** ** The process from startup to exit *)
Record Life := mkLife {
  l_busy : Busy;
  l_sleep : option Duration;   (* the poll goroutine is in [sleep] *)
  l_done : bool;               (* the context is done *)
  l_shutdown : ShutdownPc;
  l_main : MainPc;
  l_deferred : list Deferred
}.

Definition life_of (started : @Started C (DB D) (DB A) V H) : Life :=
  mkLife (busy_of started) None false Watching Listening (deferred_calls (st_app started)).

Definition set_busy (l : Life) (b : Busy) (sl : option Duration) : Life :=
  mkLife b sl (l_done l) (l_shutdown l) (l_main l) (l_deferred l).
Definition set_done (l : Life) : Life :=
  mkLife (l_busy l) (l_sleep l) true (l_shutdown l) (l_main l) (l_deferred l).
Definition set_shutdown (l : Life) (pc : ShutdownPc) : Life :=
  mkLife (l_busy l) (l_sleep l) (l_done l) pc (l_main l) (l_deferred l).
Definition set_main (l : Life) (pc : MainPc) : Life :=
  mkLife (l_busy l) (l_sleep l) (l_done l) (l_shutdown l) pc (l_deferred l).

Definition run_deferred (l : Life) (d : Deferred) : Life :=
  match d with
  | CloseHistory => set_busy l (set_app (l_busy l) (close_history (app_of (l_busy l)))) (l_sleep l)
  | CloseClient => set_busy l (set_app (l_busy l) (close_client (app_of (l_busy l)))) (l_sleep l)
  | StopNotify => set_done l
  end.

Inductive LifeEvent :=
| LeRun (ev : BusyEvent)                    (* a poll, a connection, a request or a call *)
| LeWake (elapsed timer_first : bool)       (* the poll goroutine looks whether its sleep is over *)
| LeSignal                                  (* SIGINT or SIGTERM *)
| LeShutdown                                (* the shutdown goroutine calls [Shutdown] *)
| LeDrained (expired : bool)                (* and is back, idle or out of time *)
| LeServe (e : ServeError)                  (* [ListenAndServe] returns *)
| LeMain.                                   (* the next deferred call, or the exit *)

Definition wake (l : Life) (elapsed timer_first : bool) : Life :=
  match l_sleep l with
  | None => l
  | Some d =>
      match sleep d (l_done l) elapsed timer_first with
      | None => l
      | Some true => set_busy l (l_busy l) None
      | Some false => set_busy l (set_app (l_busy l) (stop_polling (app_of (l_busy l)))) None
      end
  end.

(** [Shutdown] waits until no request is under way, or its context expires. *)
Definition idle (b : Busy) : bool := bool_decide (b_flights b = ∅).

Definition serve_returns (l : Life) (e : ServeError) : bool :=
  match l_main l, l_shutdown l, e with
  | Listening, Watching, ListenError _ => true
  | Listening, (Draining | Drained), ErrServerClosed => true
  | _, _, _ => false
  end.

(** A step of a process that has not exited. *)
Definition live_step (l : Life) (ev : LifeEvent) : Outcome (Life * list Payload) :=
  match ev with
  | LeRun ev =>
      if begins ev && bool_decide (is_Some (l_sleep l)) then Ok (l, []) else
      let b := busy_in_ctx (l_done l) (l_busy l) in
      let ev := event_in_ctx (l_done l) ev in
      let* x := busy_step b ev in
      Ok (set_busy l x.1 (match falls_asleep b ev with Some d => Some d | None => l_sleep l end), x.2)
  | LeWake elapsed timer_first => Ok (wake l elapsed timer_first, [])
  | LeSignal => Ok (set_done l, [])
  | LeShutdown =>
      Ok (match l_shutdown l with
          | Watching => if l_done l then set_shutdown l Draining else l
          | _ => l
          end, [])
  | LeDrained expired =>
      Ok (match l_shutdown l with
          | Draining => if expired || idle (l_busy l) then set_shutdown l Drained else l
          | _ => l
          end, [])
  | LeServe e =>
      Ok (if serve_returns l e then set_main l (Returning (run_result e) (l_deferred l)) else l, [])
  | LeMain =>
      Ok (match l_main l with
          | Returning err (d :: calls) => set_main (run_deferred l d) (Returning err calls)
          | Returning err [] => set_main l (Exited (exit_status err))
          | _ => l
          end, [])
  end.

Definition exited (l : Life) : bool := match l_main l with Exited _ => true | _ => false end.

Definition life_step (l : Life) (ev : LifeEvent) : Outcome (Life * list Payload) :=
  if exited l then Ok (l, []) else live_step l ev.

Fixpoint run_life (l : Life) (evs : list LifeEvent) : Outcome (Life * list Payload) :=
  match evs with
  | [] => Ok (l, [])
  | ev :: evs =>
      let* x := life_step l ev in
      let* y := run_life x.1 evs in
      Ok (y.1, x.2 ++ y.2)
  end.
End lifecycle.
