(* ===== verification/LifecycleProofs.v ===== *)
(** * From the first poll to the exit: invariants

    Every step of [Lifecycle.v] keeps the invariant of [OverlapProofs.v], the
    deferred calls too; the goroutines of main and of the shutdown come to the
    exit by themselves; until the context is done, a run is one of [Overlap.v]. *)
From S2P Require Import Prelude GoRuntime Utf8 GoStrings Graph Redact Store StoreConc Auth AuditTrail Signal SignalConc Poller RedactSource Pg Metrics Persist SqlDB Config Main Preflight Stream GoTime Api Flow System SystemProofs Process ProcessProofs Overlap OverlapProofs Lifecycle.
Local Open Scope Z_scope.
Local Open Scope pglockr_scope.

Section lifecycle.
Context `{Go : GoRuntime} {Cfg C B D Raw Blob A V H : Type}.
Context `{!Pool C} `{!Driver Cfg C} `{!SnapshotTable D Blob} `{!Codec Raw Blob} `{!AuditTable A}.
Context `{!Prometheus V H} `{!Router} `{!UI} `{!Database B D A} `{!Outside}.
Notation App := (@App C (DB D) (DB A) V H).
Notation Process := (@Process C (DB D) (DB A) V H).
Notation Busy := (@Busy C (DB D) (DB A) V H).
Notation Life := (@Life C D A V H).
Implicit Types (a : App) (p : Process) (b : Busy) (l : Life).

(** ** Runs *)
Lemma run_life_app l evs1 evs2 :
  run_life l (evs1 ++ evs2) =
  let* x := run_life l evs1 in let* y := run_life x.1 evs2 in Ok (y.1, x.2 ++ y.2).
Proof.
  revert l. induction evs1 as [|ev evs1 IH]; intros l; cbn [app run_life outcome_bind fst snd].
  - by destruct (run_life l evs2) as [[l' out]|].
  - destruct (life_step l ev) as [[l1 out1]|]; cbn [outcome_bind fst snd]; [|done]. rewrite IH.
    destruct (run_life l1 evs1) as [[l2 out2]|]; cbn [outcome_bind fst snd]; [|done].
    destruct (run_life l2 evs2) as [[l3 out3]|]; cbn [outcome_bind fst snd]; [|done].
    by rewrite app_assoc.
Qed.

(** A process that has exited does nothing any more. *)
Lemma exited_run l evs : exited l = true -> run_life l evs = Ok (l, []).
Proof.
  intros Hx. induction evs as [|ev evs IH]; [done|]. cbn [run_life]. unfold life_step. rewrite Hx.
  cbn [outcome_bind fst snd]. by rewrite IH.
Qed.

(** What a step of the process can be: a step of [Overlap.v], or a change of
    the process alone. *)
Inductive moves l : LifeEvent -> Outcome (Life * list Payload) -> Prop :=
| mv_none ev l' : l_busy l' = l_busy l -> moves l ev (Ok (l', []))
| mv_busy ev x sl :
    busy_step (busy_in_ctx (l_done l) (l_busy l)) (event_in_ctx (l_done l) ev) = Ok x ->
    moves l (LeRun ev) (Ok (set_busy l x.1 sl, x.2))
| mv_panic ev why :
    busy_step (busy_in_ctx (l_done l) (l_busy l)) (event_in_ctx (l_done l) ev) = Panic why ->
    moves l (LeRun ev) (Panic why)
| mv_stop ev l' : l_busy l' = set_app (l_busy l) (stop_polling (app_of (l_busy l))) -> moves l ev (Ok (l', []))
| mv_history l' : l_busy l' = set_app (l_busy l) (close_history (app_of (l_busy l))) ->
    l_main l' <> Listening -> moves l LeMain (Ok (l', []))
| mv_client l' : l_busy l' = set_app (l_busy l) (close_client (app_of (l_busy l))) -> moves l LeMain (Ok (l', [])).

Lemma life_step_moves l ev : moves l ev (life_step l ev).
Proof.
  unfold life_step. destruct (exited l); [by apply mv_none|]. unfold live_step.
  destruct ev as [ev|el tf| | |ex|e|].
  - destruct (begins ev && _); [by apply mv_none|].
    destruct (busy_step _ _) as [x|why] eqn:E; cbn [outcome_bind]; [by apply mv_busy|by apply mv_panic].
  - unfold wake. destruct (l_sleep l) as [d|]; [|by apply mv_none].
    destruct (sleep _ _ _ _) as [[]|]; [by apply mv_none|by apply mv_stop|by apply mv_none].
  - by apply mv_none.
  - destruct (l_shutdown l); [destruct (l_done l)|..]; by apply mv_none.
  - destruct (l_shutdown l); [|destruct (_ || _)|]; by apply mv_none.
  - destruct (serve_returns l e); by apply mv_none.
  - destruct (l_main l) as [|err [|d calls]|s]; try by apply mv_none.
    destruct d; [by apply mv_history|by apply mv_client|by apply mv_none].
Qed.

(** ** The invariant *)
Section texts.
Context `{!SnapshotTableLaws D Blob} `{!CodecLaws Raw Blob} `{!AuditTableLaws A}.
Context (Q : string -> Prop) (Q_empty : Q "") `{!Utf8Closed Q, !JsonLaws Raw Blob}.

Lemma SetPersister_inv n (st : Store (Durable (DB D))) pc put d log :
  StoreConc.inv n (StoreConc.mkConfig st pc put) ->
  StoreConc.inv n (StoreConc.mkConfig (SetPersister st (Some d) log) pc put).
Proof. intros [[[] []] Hcap Hcont Hp Hfr Hcur]. by split; [split; split|..]. Qed.

(** A change of the process that its invariant survives. *)
Definition harmless (f : App -> App) : Prop :=
  forall n a pc, process_inv Q n (mkProcess a pc) -> process_inv Q n (mkProcess (f a) pc).

Lemma stop_polling_harmless : harmless stop_polling.
Proof. intros n a pc [[[Hst Hsk] Hsrc] Hs Hc]. split; [by split; [split|]|done..]. Qed.

Lemma close_client_harmless : harmless close_client.
Proof. intros n a pc [[[Hst Hsk] Hsrc] Hs Hc]. split; [by split; [split|]|done..]. Qed.

Lemma close_history_harmless : harmless close_history.
Proof.
  intros n a pc Hinv. unfold close_history. destruct (st_persist (a_store a)) as [p|] eqn:Hp; [|done].
  destruct (a_sink a) as [m|au] eqn:Ha; [done|]. destruct Hinv as [[[Hst (s & Hs & Hsk)] Hsrc] [put Hi] Hc].
  cbn [p_app p_pc] in *. split; cbn [p_app p_pc]; [|exists put; by apply SetPersister_inv|done].
  split; [|exact Hsrc]. split.
  - cbn. apply SetPersister_texts; [exact Hst|]. exact (tx_persist _ _ Hst p Hp).
  - cbn in *. eexists. split; [done|]. rewrite Ha in Hs. injection Hs as <-. exact Hsk.
Qed.

Lemma set_app_inv n b f : harmless f -> busy_inv Q n b -> busy_inv Q n (set_app b (f (app_of b))).
Proof. intros Hf [Hp Hfl]. split; [|done]. apply Hf. by destruct b as [[] ? ? ?]. Qed.

Lemma busy_in_ctx_inv n b done : busy_inv Q n b -> busy_inv Q n (busy_in_ctx done b).
Proof.
  destruct b as [[a pc] fl k op]. intros [[Ha Hs Hc] Hf]. cbn in Hs, Hc.
  split; [|exact Hf]. split; cbn; [exact Ha|..]; by destruct pc.
Qed.

Lemma panics_in_ctx b done why : panics (b_process (busy_in_ctx done b)) why -> panics (b_process b) why.
Proof.
  destruct b as [[a pc] fl k op]. intros [[-> Hl]|Hl]; [left; split; [done|]|by right]. destruct Hl as (e & snap & ch & rest & Hpc & Hs).
  destruct pc as [| |e' pc]; try done. injection Hpc as _ ->. by exists e', snap, ch, rest.
Qed.

Definition life_outcome (n : Z) l (o : Outcome (Life * list Payload)) : Prop :=
  match o with
  | Ok (l', out) => busy_inv Q n (l_busy l') /\ Forall (payload_texts Q) out
  | Panic why => panics (b_process (l_busy l)) why
  end.

Lemma life_step_inv n l ev : busy_inv Q n (l_busy l) -> life_outcome n l (life_step l ev).
Proof.
  intros Hb. pose proof (busy_in_ctx_inv n (l_busy l) (l_done l) Hb) as Hb'.
  destruct (life_step_moves l ev) as [ev l' Hl|ev [b out] sl E|ev why E|ev l' Hl|l' Hl _|l' Hl]; cbn [life_outcome];
    rewrite ?Hl.
  - by split.
  - pose proof (busy_step_inv Q Q_empty n _ (event_in_ctx (l_done l) ev) Hb') as Hs. by rewrite E in Hs.
  - pose proof (busy_step_inv Q Q_empty n _ (event_in_ctx (l_done l) ev) Hb') as Hs. rewrite E in Hs.
    by eapply panics_in_ctx.
  - split; [|done]. by apply set_app_inv; [apply stop_polling_harmless|].
  - split; [|done]. by apply set_app_inv; [apply close_history_harmless|].
  - split; [|done]. by apply set_app_inv; [apply close_client_harmless|].
Qed.

(** Rule induction: the invariant, or a panic. *)
Lemma run_life_inv n l evs :
  busy_inv Q n (l_busy l) ->
  match run_life l evs with
  | Ok (l', out) => busy_inv Q n (l_busy l') /\ Forall (payload_texts Q) out
  | Panic why =>
      exists evs1 ev evs2 l1 out1, evs = evs1 ++ ev :: evs2 /\ run_life l evs1 = Ok (l1, out1) /\
        panics (b_process (l_busy l1)) why
  end.
Proof.
  revert l. induction evs as [|ev evs IH]; intros l Hl; cbn [run_life]; [by split|].
  pose proof (life_step_inv n l ev Hl) as Hs.
  destruct (life_step l ev) as [[l1 out1]|why] eqn:E; cbn [life_outcome outcome_bind fst snd] in *.
  - destruct Hs as [Hl1 Ho1]. specialize (IH l1 Hl1).
    destruct (run_life l1 evs) as [[l2 out2]|why]; cbn [outcome_bind fst snd].
    + destruct IH as [Hl2 Ho2]. split; [done|]. by apply Forall_app.
    + destruct IH as (evs1 & ev' & evs2 & l2 & out2 & -> & E2 & Hlb).
      exists (ev :: evs1), ev', evs2, l2, (out1 ++ out2). split; [done|]. split; [|done].
      cbn [run_life]. by rewrite E; cbn [outcome_bind fst snd]; rewrite E2.
  - by exists [], ev, evs, l, [].
Qed.

(** A property of the process that outlives whatever happens to it. *)
Record outlives (R : Process -> Prop) : Prop := {
  out_ctx a pc done : R (mkProcess a pc) -> R (mkProcess a (pc_in_ctx done pc));
  out_stop a pc : R (mkProcess a pc) -> R (mkProcess (stop_polling a) pc);
  out_history a pc : R (mkProcess a pc) -> R (mkProcess (close_history a) pc);
  out_client a pc : R (mkProcess a pc) -> R (mkProcess (close_client a) pc)
}.

Lemma life_step_kept R n l ev l' out :
  kept Q (fun _ => True) R n -> outlives R -> busy_inv Q n (l_busy l) -> R (b_process (l_busy l)) ->
  life_step l ev = Ok (l', out) -> R (b_process (l_busy l')).
Proof.
  intros Hk [Hctx Hstop Hhist Hcl] Hl HR.
  assert (b_process (l_busy l) = mkProcess (app_of (l_busy l)) (p_pc (b_process (l_busy l)))) as Hp
    by (unfold app_of; by destruct (b_process _)).
  destruct (life_step_moves l ev) as [ev l1 Hb|ev [b o] sl E|ev why E|ev l1 Hb|l1 Hb _|l1 Hb];
    intros Heq; try discriminate Heq; injection Heq as <- _; rewrite ?Hb.
  1: done.
  2: apply Hstop. 3: apply Hhist. 4: apply Hcl. 2, 3, 4: by rewrite <-Hp.
  eapply (busy_step_kept Q Q_empty); [exact Hk| |by apply busy_in_ctx_inv| |exact E].
  - by destruct ev as [[]| |].
  - apply Hctx. by rewrite <-Hp.
Qed.

Lemma run_life_kept R n l evs l' out :
  kept Q (fun _ => True) R n -> outlives R -> busy_inv Q n (l_busy l) -> R (b_process (l_busy l)) ->
  run_life l evs = Ok (l', out) -> R (b_process (l_busy l')).
Proof.
  intros Hk Ho. revert l out. induction evs as [|ev evs IH]; intros l out Hl HR; cbn [run_life].
  { by intros [= <- _]. }
  pose proof (life_step_inv n l ev Hl) as Hs.
  destruct (life_step l ev) as [[l1 out1]|] eqn:E; cbn [outcome_bind fst snd life_outcome] in *; [|discriminate].
  destruct (run_life l1 evs) as [[l2 out2]|] eqn:E2; cbn [outcome_bind fst snd]; [|discriminate].
  intros [= <- _]. refine (IH l1 out2 (proj1 Hs) _ E2). by eapply life_step_kept.
Qed.

Lemma life_of_inv cfg (started : @Started C (DB D) (DB A) V H) :
  run_start cfg = Ok (Val started) -> app_texts Q (st_app started) ->
  busy_inv Q (RingSize (Config.Poll cfg)) (l_busy (life_of started)).
Proof. apply busy_of_inv. Qed.
End texts.

(** ** Until the context is done *)

(** No interruption is under way. *)
Definition clear b : Prop := busy_in_ctx false b = b.

Lemma in_ctx_twice d1 d2 e : in_ctx d1 (in_ctx d2 e) = in_ctx d1 e.
Proof. done. Qed.

Lemma clear_intro a pc fl k op : pc_in_ctx false pc = pc -> clear (mkBusy (mkProcess a pc) fl k op).
Proof. unfold clear, busy_in_ctx, app_of. cbn. by intros ->. Qed.

Lemma clear_pc b : clear b -> pc_in_ctx false (p_pc (b_process b)) = p_pc (b_process b).
Proof. destruct b as [[a pc] fl k op]. unfold clear, busy_in_ctx. cbn. by intros [= ->]. Qed.

Lemma poll_advance_clear a pc now p' :
  pc_in_ctx false pc = pc -> poll_advance a pc now = Ok p' -> pc_in_ctx false (p_pc p') = p_pc p'.
Proof.
  intros Hpc. destruct pc as [|e snap|e [|snap subs|snap [|ch subs]]]; cbn [poll_advance];
    try by intros [= <-].
  - injection Hpc as He. destruct (put_locked _ _); [|discriminate]. intros [= <-]. cbn. by rewrite He.
  - intros [= <-]. cbn. by injection Hpc as ->.
  - intros E. pose proof (poll_advance_end a e snap now) as Hend. cbn [poll_advance] in Hend. rewrite E in Hend.
    by destruct Hend as [m ->].
  - destruct (send_nonblocking _ _ _); [|discriminate]. intros [= <-]. cbn. by injection Hpc as ->.
Qed.

Lemma process_step_clear p ev p' out :
  pc_in_ctx false (p_pc p) = p_pc p -> process_step p ev = Ok (p', out) ->
  (forall e, ev = PeBegin e -> in_ctx false e = e) -> pc_in_ctx false (p_pc p') = p_pc p'.
Proof.
  intros Hpc. destruct ev as [e|now|r now|id e]; cbn [process_step].
  - intros Hs He. specialize (He e eq_refl). destruct (p_pc p) eqn:Ep; try by injection Hs as <- _; rewrite Ep.
    destruct (a_running (p_app p)); [|injection Hs as <- _; by rewrite Ep].
    pose proof (poll_begin_cases (p_app p) e) as Hb.
    destruct (poll_begin (p_app p) e) as [q|]; [|discriminate]. injection Hs as <- _.
    destruct (SourceSnapshot _) as [s [[ss ls]|err]]; [injection Hb as ->; cbn; by rewrite He|by destruct Hb as [m ->]].
  - destruct (poll_advance _ _ _) as [q|] eqn:E; [|discriminate]. intros [= <- _] _. by eapply poll_advance_clear.
  - destruct (request_step _ _ _); [|discriminate]. by intros [= <- _].
  - destruct (socket_step _ _ _); [|discriminate]. by intros [= <- _].
Qed.

Lemma busy_step_clear b ev b' out :
  clear b -> busy_step b (event_in_ctx false ev) = Ok (b', out) -> clear b'.
Proof.
  intros Hc%clear_pc.
  assert (forall ev', (forall e, ev' = PeBegin e -> in_ctx false e = e) -> busy_process b ev' = Ok (b', out) -> clear b')
    as Hplain.
  { intros ev' He. unfold busy_process. destruct (process_step _ _) as [[p o]|] eqn:E; [|discriminate].
    intros [= <- _]. destruct p as [a pc]. apply clear_intro. by eapply (process_step_clear _ _ (mkProcess a pc)). }
  destruct ev as [[e|now|r now|id e]|id now|id]; cbn [event_in_ctx busy_step]; try (by apply Hplain).
  - apply Hplain. by intros e' [= <-].
  - destruct (asked _ r) as [q|]; [intros [= <- _]; destruct b as [[a pc] fl k op]; by apply clear_intro|].
    destruct (opens _ r) as [r'|]; [|by apply Hplain]. intros [= <- _]. by apply clear_intro.
  - destruct (b_openings b !! id); [|by apply Hplain]. intros [= <- _].
    destruct b as [[a pc] fl k op]. by apply clear_intro.
  - destruct (b_flights b !! id) as [[r f]|].
    + destruct (call_advance _ _ _) as [[[a f'] o]|]; [|discriminate]. intros [= <- _]. by apply clear_intro.
    + intros [= <- _]. destruct b as [[a pc] fl k op]. by apply clear_intro.
  - destruct (b_openings b !! id) as [[r sub]|].
    + destruct (stream_advance _ _ _ _) as [x|]; [|discriminate]. intros [= <- _]. by apply clear_intro.
    + intros [= <- _]. destruct b as [[a pc] fl k op]. by apply clear_intro.
Qed.

(** *** A run of the process alone is a run from startup *)
Definition with_wakes (evs : list BusyEvent) : list LifeEvent :=
  evs ≫= fun ev => [LeWake true true; LeRun ev].

(** Nothing has been interrupted and the server serves. *)
Definition serving l : Prop := l_done l = false /\ l_main l = Listening /\ clear (l_busy l).

Lemma wake_up l : l_done l = false -> wake l true true = set_busy l (l_busy l) None.
Proof.
  intros Hd. unfold wake. destruct (l_sleep l) as [d|] eqn:Es; [|by destruct l; cbn in *; subst].
  unfold sleep. rewrite Hd. by destruct (d <=? 0).
Qed.

Lemma busy_run_lives l evs b' out :
  serving l -> run_busy (l_busy l) (event_in_ctx false <$> evs) = Ok (b', out) ->
  exists sl, run_life l (with_wakes evs) = Ok (set_busy l b' sl, out).
Proof.
  revert l out. induction evs as [|ev evs IH]; intros l out (Hd & Hm & Hc); cbn [fmap list_fmap run_busy].
  { intros [= <- <-]. exists (l_sleep l). by destruct l. }
  destruct (busy_step (l_busy l) (event_in_ctx false ev)) as [[b1 o1]|] eqn:E; cbn [outcome_bind fst snd]; [|discriminate].
  destruct (run_busy b1 (event_in_ctx false <$> evs)) as [[b2 o2]|] eqn:E2; cbn [outcome_bind fst snd]; [|discriminate].
  intros [= <- <-]. change (with_wakes (ev :: evs)) with (LeWake true true :: LeRun ev :: with_wakes evs).
  cbn [run_life]. unfold life_step at 1, exited. rewrite Hm. cbn [live_step outcome_bind fst snd app].
  rewrite (wake_up l Hd). unfold life_step, exited. cbn [l_main set_busy]. rewrite Hm. cbn [live_step set_busy l_sleep l_busy l_done].
  rewrite bool_decide_eq_false_2, andb_false_r by by intros []. rewrite Hd, Hc, E. cbn [outcome_bind fst snd].
  destruct (IH (set_busy l b1 (match falls_asleep (l_busy l) (event_in_ctx false ev) with Some d => Some d | None => None end)) o2)
    as (sl & Hrun); [|exact E2|].
  - split; [exact Hd|]. split; [exact Hm|]. by eapply busy_step_clear.
  - exists sl. unfold set_busy in Hrun. cbn in Hrun. unfold set_busy. cbn. by rewrite Hrun.
Qed.

(** An atomic run with polls that nobody interrupts is the same in both. *)
Definition untroubled (ev : Event) : Prop := match ev with EvPoll e => in_ctx false e = e | _ => True end.

Lemma untroubled_events evs bevs :
  Forall untroubled evs -> interleaves evs (omap own_event bevs) -> event_in_ctx false <$> bevs = bevs.
Proof.
  intros Hev Hi. assert (Forall (fun pev => forall e, pev = PeBegin e -> in_ctx false e = e)
    (filter (fun ev => is_advance ev = false) (omap own_event bevs))) as Hpe.
  { rewrite Hi. apply Forall_fmap. eapply Forall_impl; [exact Hev|]. intros [e| |] He; cbn in *; try done.
    by intros e' [= <-]. }
  clear Hi. induction bevs as [|[ev|id now|id] bevs IH]; [done| |rewrite fmap_cons; f_equal; by apply IH..].
  cbn [omap list_omap own_event] in Hpe. rewrite filter_cons in Hpe. rewrite fmap_cons.
  destruct (is_advance ev) eqn:Ead; cbn [decide] in Hpe.
  - destruct ev; try done. f_equal. apply IH. exact Hpe.
  - case_decide; [|done]. apply Forall_cons in Hpe as [He Hpe]. rewrite IH by done. f_equal.
    destruct ev as [e|now|r now|id e]; try done. cbn. by rewrite (He e eq_refl).
Qed.

(** *** And the other way round *)
Definition own_step (ev : LifeEvent) : option BusyEvent := match ev with LeRun ev => Some ev | _ => None end.

Lemma own_steps_with_wakes evs : omap own_step (with_wakes evs) = evs.
Proof. induction evs as [|ev evs IH]; [done|]. cbn in *. by f_equal. Qed.

Lemma life_step_phase l ev l1 out :
  life_step l ev = Ok (l1, out) ->
  (l_done l1 = false -> l_done l = false) /\ (l_main l1 = Listening -> l_main l = Listening).
Proof.
  unfold life_step. destruct (exited l); [by intros [= <- _]|]. unfold live_step.
  destruct ev as [ev|el tf| | |ex|e|].
  - destruct (begins ev && _); [by intros [= <- _]|].
    destruct (busy_step _ _) as [[b o]|]; [|discriminate]. by intros [= <- _].
  - intros [= <- _]. unfold wake. destruct (l_sleep l); [|done]. by destruct (sleep _ _ _ _) as [[]|].
  - by intros [= <- _].
  - intros [= <- _]. destruct (l_shutdown l); [|done..]. destruct (l_done l) eqn:Ed; cbn; by rewrite ?Ed.
  - intros [= <- _]. destruct (l_shutdown l); [done| |done]. by destruct (_ || _).
  - intros [= <- _]. by destruct (serve_returns l e).
  - intros [= <- _]. destruct (l_main l) as [|err [|[] calls]|s] eqn:Em; cbn; rewrite ?Em; done.
Qed.

Lemma run_life_phase l evs l' out :
  run_life l evs = Ok (l', out) ->
  (l_done l' = false -> l_done l = false) /\ (l_main l' = Listening -> l_main l = Listening).
Proof.
  revert l out. induction evs as [|ev evs IH]; intros l out; cbn [run_life]; [by intros [= <- _]|].
  destruct (life_step l ev) as [[l1 o1]|] eqn:E; cbn [outcome_bind fst snd]; [|discriminate].
  destruct (run_life l1 evs) as [[l2 o2]|] eqn:E2; cbn [outcome_bind fst snd]; [|discriminate].
  intros [= <- _]. apply IH in E2. apply life_step_phase in E. tauto.
Qed.

Lemma life_step_alone l ev l1 out :
  serving l -> life_step l ev = Ok (l1, out) -> l_done l1 = false -> l_main l1 = Listening ->
  clear (l_busy l1) /\
  exists evs', evs' `sublist_of` option_list (event_in_ctx false <$> own_step ev) /\
    run_busy (l_busy l) evs' = Ok (l_busy l1, out).
Proof.
  intros (Hd & Hm & Hc) E Hd1 Hm1.
  assert (forall l2, l_busy l2 = l_busy l -> Ok (l2, []) = Ok (l1, out) ->
    clear (l_busy l1) /\ exists evs', evs' `sublist_of` option_list (event_in_ctx false <$> own_step ev) /\
      run_busy (l_busy l) evs' = Ok (l_busy l1, out)) as Hquiet.
  { intros l2 Hb [= <- <-]. rewrite Hb. split; [done|]. exists []. split; [apply sublist_nil_l|done]. }
  unfold life_step, exited in E. rewrite Hm in E. destruct ev as [ev|el tf| | |ex|e|]; cbn [live_step] in E.
  - destruct (begins ev && _); [by eapply Hquiet|]. rewrite Hd, Hc in E.
    destruct (busy_step (l_busy l) (event_in_ctx false ev)) as [[b o]|] eqn:Eb; cbn [outcome_bind fst snd] in E; [|discriminate].
    injection E as <- <-. split; [by eapply busy_step_clear|]. exists [event_in_ctx false ev]. split; [done|].
    cbn [run_busy]. rewrite Eb. cbn [outcome_bind fst snd]. by rewrite app_nil_r.
  - eapply Hquiet; [|exact E]. unfold wake, sleep. rewrite Hd. destruct (l_sleep l) as [d|]; [|done].
    destruct (d <=? 0); [done|]. by destruct el.
  - injection E as <- <-. discriminate Hd1.
  - rewrite Hd in E. by destruct (l_shutdown l); eapply Hquiet; [|exact E| |exact E| |exact E].
  - eapply Hquiet; [|exact E]. destruct (l_shutdown l); try done. by destruct (_ || _).
  - destruct (serve_returns l e); [by injection E as <- <-|]. by eapply Hquiet.
  - rewrite Hm in E. by eapply Hquiet.
Qed.

Lemma life_run_alone l evs l' out :
  serving l -> run_life l evs = Ok (l', out) -> l_done l' = false -> l_main l' = Listening ->
  exists evs', evs' `sublist_of` (event_in_ctx false <$> omap own_step evs) /\
    run_busy (l_busy l) evs' = Ok (l_busy l', out).
Proof.
  revert l out. induction evs as [|ev evs IH]; intros l out Hs; cbn [run_life].
  { intros [= <- <-] _ _. by exists []. }
  destruct (life_step l ev) as [[l1 o1]|] eqn:E; cbn [outcome_bind fst snd]; [|discriminate].
  destruct (run_life l1 evs) as [[l2 o2]|] eqn:E2; cbn [outcome_bind fst snd]; [|discriminate].
  intros [= <- <-] Hd Hm. destruct (run_life_phase _ _ _ _ E2) as [Hd1 Hm1]. specialize (Hd1 Hd). specialize (Hm1 Hm).
  destruct (life_step_alone l ev l1 o1 Hs E Hd1 Hm1) as (Hc & evs1 & Hsub1 & Hr1).
  destruct (IH l1 o2 ltac:(by split) E2 Hd Hm) as (evs2 & Hsub2 & Hr2).
  exists (evs1 ++ evs2). split.
  - cbn [omap list_omap]. destruct (own_step ev) as [ev'|]; cbn in *.
    + exact (sublist_app evs1 [event_in_ctx false ev'] evs2 _ Hsub1 Hsub2).
    + exact (sublist_app evs1 [] evs2 _ Hsub1 Hsub2).
  - by rewrite run_busy_app, Hr1; cbn [outcome_bind fst snd]; rewrite Hr2.
Qed.

(** ** To the exit *)

(** How many steps of its own the process is from its exit, at most. *)
Definition left_of l : nat :=
  match l_main l with
  | Listening => 2 + length (l_deferred l) + match l_shutdown l with Watching => 1 | _ => 0 end
  | Returning _ calls => Datatypes.S (length calls)
  | Exited _ => 0
  end.

(** The next of them. *)
Definition next_own l : LifeEvent :=
  match l_main l, l_shutdown l with
  | Listening, Watching => LeShutdown
  | Listening, _ => LeServe ErrServerClosed
  | _, _ => LeMain
  end.

(** The shutdown goroutine, the server and the main goroutine, once each. *)
Definition round : list LifeEvent := [LeShutdown; LeServe ErrServerClosed; LeMain].
Definition rounds (k : nat) : list LifeEvent := mjoin (replicate k round).

Lemma next_own_in_round l : next_own l ∈ round.
Proof. unfold next_own, round. destruct (l_main l), (l_shutdown l); set_solver. Qed.

Lemma left_of_exited l : exited l = true <-> left_of l = 0%nat.
Proof. unfold exited, left_of. by destruct (l_main l). Qed.

(** A step that does not bring the exit closer leaves the next one to be made. *)
Lemma left_of_step l ev l1 out :
  life_step l ev = Ok (l1, out) ->
  (l_done l = true -> l_done l1 = true) /\
  ((left_of l1 < left_of l)%nat \/ left_of l1 = left_of l /\ next_own l1 = next_own l).
Proof.
  unfold life_step, exited. destruct (l_main l) as [|err calls|s] eqn:Em; [| |intros [= <- _]; auto];
    unfold live_step; (destruct ev as [ev|el tf| | |ex|e|];
      [destruct (begins ev && _); [by intros [= <- _]; auto|];
       destruct (busy_step _ _) as [[b o]|]; [|discriminate]; by intros [= <- _]; auto|..]);
    intros [= <- _]; unfold left_of, next_own, wake, serve_returns; rewrite ?Em.
  - split; [by destruct (l_sleep l) as [d|]; [destruct (sleep _ _ _ _) as [[]|]|]|right].
    destruct (l_sleep l) as [d|]; [destruct (sleep _ _ _ _) as [[]|]|]; cbn; by rewrite Em.
  - cbn. rewrite Em. auto.
  - destruct (l_shutdown l) eqn:Es; [destruct (l_done l) eqn:Ed; cbn; rewrite ?Ed, ?Em, ?Es|..];
      rewrite ?Em, ?Es; (split; [done|]); first [left; lia|by right].
  - destruct (l_shutdown l) eqn:Es; [|destruct (_ || _)|]; cbn; rewrite ?Em, ?Es; auto.
  - destruct (l_shutdown l) eqn:Es, e; cbn; rewrite ?Em, ?Es; (split; [done|]); first [left; lia|by right].
  - auto.
  - split; [by destruct (l_sleep l) as [d|]; [destruct (sleep _ _ _ _) as [[]|]|]|right].
    destruct (l_sleep l) as [d|]; [destruct (sleep _ _ _ _) as [[]|]|]; cbn; by rewrite Em.
  - cbn. rewrite Em. auto.
  - destruct (l_shutdown l) eqn:Es; [destruct (l_done l) eqn:Ed; cbn; rewrite ?Ed, ?Em|..]; rewrite ?Em; auto.
  - destruct (l_shutdown l) eqn:Es; [|destruct (_ || _)|]; cbn; rewrite ?Em; auto.
  - auto.
  - destruct calls as [|[] calls]; cbn; (split; [done|]); left; lia.
Qed.

(** What the exit leaves as it is. *)
Definition same_trail (s s' : AnySink (DB A)) : Prop :=
  match s, s' with
  | SinkMemory m, SinkMemory m' => m' = m
  | SinkSQLite au, SinkSQLite au' => h_conn au' = h_conn au
  | _, _ => False
  end.

Definition same_file (f f' : option (Durable (DB D))) : Prop :=
  match f, f' with
  | Some f, Some f' => h_conn (db (dur_file f')) = h_conn (db (dur_file f))
  | None, None => True
  | _, _ => False
  end.

Definition abandons l l1 : Prop :=
  b_flights (l_busy l1) = b_flights (l_busy l) /\
  p_pc (b_process (l_busy l1)) = p_pc (b_process (l_busy l)) /\
  same_trail (a_sink (app_of (l_busy l))) (a_sink (app_of (l_busy l1))) /\
  same_file (st_persist (a_store (app_of (l_busy l)))) (st_persist (a_store (app_of (l_busy l1)))).

Lemma same_trail_refl s : same_trail s s.
Proof. by destruct s. Qed.

Lemma same_file_refl f : same_file f f.
Proof. by destruct f. Qed.

Lemma abandons_refl l : abandons l l.
Proof. split_and!; try done; [apply same_trail_refl|apply same_file_refl]. Qed.

Lemma abandons_trans l1 l2 l3 : abandons l1 l2 -> abandons l2 l3 -> abandons l1 l3.
Proof.
  intros (Hf & Hp & Ht & Hd) (Hf' & Hp' & Ht' & Hd'). split; [congruence|]. split; [congruence|].
  unfold same_trail, same_file in *. split.
  - destruct (a_sink (app_of (l_busy l1))), (a_sink (app_of (l_busy l2))), (a_sink (app_of (l_busy l3)));
      naive_solver congruence.
  - destruct (st_persist (a_store (app_of (l_busy l1)))), (st_persist (a_store (app_of (l_busy l2)))),
      (st_persist (a_store (app_of (l_busy l3)))); naive_solver congruence.
Qed.

Lemma close_history_trail a : same_trail (a_sink a) (a_sink (close_history a)).
Proof.
  unfold close_history. destruct (st_persist (a_store a)); [|apply same_trail_refl].
  destruct (a_sink a) eqn:Ha; [rewrite Ha|]; done.
Qed.

Lemma close_history_file a : same_file (st_persist (a_store a)) (st_persist (a_store (close_history a))).
Proof.
  unfold close_history. destruct (st_persist (a_store a)) as [p|] eqn:Hp; [|by rewrite Hp].
  destruct (a_sink a); [rewrite Hp|]; done.
Qed.

(** Once the context is done, the next step can be made. *)
Lemma own_progress l :
  l_done l = true -> exited l = false ->
  exists l1, life_step l (next_own l) = Ok (l1, []) /\ (left_of l1 < left_of l)%nat /\ abandons l l1 /\
    (l_main l = Listening -> l_main l1 = Listening \/ exists calls, l_main l1 = Returning None calls) /\
    (forall err calls, l_main l = Returning err calls ->
       (exists calls', l_main l1 = Returning err calls') \/ l_main l1 = Exited (exit_status err)).
Proof.
  intros Hd Hx. pose proof (abandons_refl l) as Hsame.
  unfold life_step. rewrite Hx. unfold exited in Hx. unfold next_own, left_of.
  destruct (l_main l) as [|err [|d calls]|s] eqn:Em; [| | |discriminate].
  - destruct (l_shutdown l) eqn:Es; cbn [live_step]; rewrite ?Es, ?Hd; unfold serve_returns; rewrite ?Em, ?Es;
      (eexists; split; [reflexivity|]); cbn; rewrite ?Em; split_and!; try done; try lia; auto; by right; eexists.
  - cbn [live_step]. rewrite Em. eexists. split; [reflexivity|]. cbn. split_and!; try done; [lia|].
    intros ? ? [= -> <-]. by right.
  - cbn [live_step]. rewrite Em. eexists. split; [reflexivity|]. cbn. split; [lia|]. split.
    + destruct d; [|done..]. split_and!; [done..| |]; [apply close_history_trail|apply close_history_file].
    + split; [done|]. intros ? ? [= -> <-]. left. by eexists.
Qed.

Lemma left_of_run l evs l' out :
  run_life l evs = Ok (l', out) -> (left_of l' <= left_of l)%nat /\ (l_done l = true -> l_done l' = true).
Proof.
  revert l out. induction evs as [|ev evs IH]; intros l out; cbn [run_life]; [by intros [= <- _]|].
  destruct (life_step l ev) as [[l1 o1]|] eqn:E; cbn [outcome_bind fst snd]; [|discriminate].
  destruct (run_life l1 evs) as [[l2 o2]|] eqn:E2; cbn [outcome_bind fst snd]; [|discriminate].
  intros [= <- _]. apply IH in E2 as [Hle Hd2]. apply left_of_step in E as [Hd Hl]. split; [lia|tauto].
Qed.

(** Whatever else happens in between. *)
Lemma own_step_taken l evs l' out :
  l_done l = true -> exited l = false -> next_own l ∈ evs -> run_life l evs = Ok (l', out) ->
  (left_of l' < left_of l)%nat.
Proof.
  revert l out. induction evs as [|ev evs IH]; intros l out Hd Hx Hin; [by apply elem_of_nil in Hin|]. cbn [run_life].
  destruct (life_step l ev) as [[l1 o1]|] eqn:E; cbn [outcome_bind fst snd]; [|discriminate].
  destruct (run_life l1 evs) as [[l2 o2]|] eqn:E2; cbn [outcome_bind fst snd]; [|discriminate].
  intros [= <- _]. pose proof (left_of_run _ _ _ _ E2) as [Hle _].
  destruct (left_of_step _ _ _ _ E) as [Hd1 [Hlt|[Heq Hnext]]]; [lia|]. rewrite <-Heq.
  apply elem_of_cons in Hin as [<-|Hin].
  - destruct (own_progress l Hd Hx) as (l3 & E3 & Hlt & _). rewrite E in E3. injection E3 as -> _. lia.
  - eapply IH; [by apply Hd1| |by rewrite Hnext|exact E2].
    apply not_true_iff_false. rewrite left_of_exited, Heq, <-left_of_exited. by rewrite Hx.
Qed.

Lemma rounds_exit k l evs l' out :
  l_done l = true -> (left_of l <= k)%nat -> rounds k `sublist_of` evs -> run_life l evs = Ok (l', out) ->
  exited l' = true.
Proof.
  revert l evs out. induction k as [|k IH]; intros l evs out Hd Hk Hsub Hrun.
  { rewrite left_of_exited. destruct (left_of_run _ _ _ _ Hrun). lia. }
  apply (sublist_app_l round (rounds k)) in Hsub as (evs1 & evs2 & -> & Hs1 & Hs2).
  rewrite run_life_app in Hrun. destruct (run_life l evs1) as [[l1 o1]|] eqn:E1; [|discriminate].
  cbn [outcome_bind fst snd] in Hrun. destruct (run_life l1 evs2) as [[l2 o2]|] eqn:E2; [|discriminate].
  injection Hrun as <- _. destruct (left_of_run _ _ _ _ E1) as [Hle Hd1].
  eapply IH; [by apply Hd1| |exact Hs2|exact E2]. destruct (exited l) eqn:Hx.
  - apply left_of_exited in Hx. lia.
  - pose proof (own_step_taken l evs1 l1 o1 Hd Hx) as Hlt.
    assert (next_own l ∈ evs1) as Hin by (eapply elem_of_sublist; [apply next_own_in_round|done]).
    specialize (Hlt Hin E1). lia.
Qed.

(** By those steps alone. *)
Definition own_result (pc : MainPc) : Z :=
  match pc with Listening => 0 | Returning err _ => exit_status err | Exited s => s end.

Lemma own_exit l :
  l_done l = true ->
  exists evs l', evs ⊆ round /\ run_life l evs = Ok (l', []) /\ l_main l' = Exited (own_result (l_main l)) /\
    abandons l l'.
Proof.
  intros Hd. remember (left_of l) as k eqn:Hk. revert l Hd Hk.
  induction k as [k IH] using lt_wf_ind. intros l Hd ->. destruct (exited l) eqn:Hx.
  { exists [], l. split; [apply list_subseteq_nil|]. split; [done|]. split; [|apply abandons_refl].
    unfold exited in Hx. by destruct (l_main l). }
  destruct (own_progress l Hd Hx) as (l1 & E & Hlt & Ha & Hl & Hr).
  destruct (left_of_step _ _ _ _ E) as [Hd1 _].
  destruct (IH _ Hlt l1 (Hd1 Hd) eq_refl) as (evs & l' & Hown & Hrun & Hm & Ha').
  exists (next_own l :: evs), l'. split.
  { intros ev [->|Hev]%elem_of_cons; [apply next_own_in_round|by apply Hown]. }
  split; [cbn [run_life]; rewrite E; cbn [outcome_bind fst snd]; by rewrite Hrun|].
  split; [|by eapply abandons_trans]. rewrite Hm. unfold exited in Hx.
  destruct (l_main l) as [|err calls|s]; [| |discriminate].
  - destruct (Hl eq_refl) as [->|[calls ->]]; done.
  - destruct (Hr err calls eq_refl) as [[calls' ->]| ->]; done.
Qed.

(** At most three calls are deferred. *)
Lemma deferred_kept l ev l1 out :
  life_step l ev = Ok (l1, out) -> l_deferred l1 = l_deferred l /\
  ((forall err calls, l_main l = Returning err calls -> (length calls <= length (l_deferred l))%nat) ->
   forall err calls, l_main l1 = Returning err calls -> (length calls <= length (l_deferred l1))%nat).
Proof.
  unfold life_step. destruct (exited l); [by intros [= <- _]|]. unfold live_step.
  destruct ev as [ev|el tf| | |ex|e|].
  - destruct (begins ev && _); [by intros [= <- _]|].
    destruct (busy_step _ _) as [[b o]|]; [|discriminate]. by intros [= <- _].
  - intros [= <- _]. unfold wake. destruct (l_sleep l); [|done]. by destruct (sleep _ _ _ _) as [[]|].
  - by intros [= <- _].
  - intros [= <- _]. destruct (l_shutdown l); [|done..]. by destruct (l_done l).
  - intros [= <- _]. destruct (l_shutdown l); [done| |done]. by destruct (_ || _).
  - intros [= <- _]. destruct (serve_returns l e); [|done]. split; [done|]. cbn. by intros _ err calls [= _ <-].
  - intros [= <- _]. destruct (l_main l) as [|err [|d calls]|s] eqn:Em; cbn; rewrite ?Em; try done.
    destruct d; cbn; (split; [done|]); intros Hc err' calls' [= -> <-]; specialize (Hc _ _ eq_refl); cbn in Hc; lia.
Qed.

Lemma deferred_run l evs l' out :
  (forall err calls, l_main l = Returning err calls -> (length calls <= length (l_deferred l))%nat) ->
  run_life l evs = Ok (l', out) -> (left_of l' <= 3 + length (l_deferred l))%nat.
Proof.
  revert l out. induction evs as [|ev evs IH]; intros l out Hc; cbn [run_life].
  { intros [= <- _]. unfold left_of. destruct (l_main l) as [|err calls|s]; [destruct (l_shutdown l); lia| |lia].
    specialize (Hc err calls eq_refl). lia. }
  destruct (life_step l ev) as [[l1 o1]|] eqn:E; cbn [outcome_bind fst snd]; [|discriminate].
  destruct (run_life l1 evs) as [[l2 o2]|] eqn:E2; cbn [outcome_bind fst snd]; [|discriminate].
  intros [= <- _]. destruct (deferred_kept _ _ _ _ E) as [Hd Hk]. rewrite <-Hd. by eapply IH; [apply Hk|].
Qed.

Lemma left_of_reachable (started : @Started C (DB D) (DB A) V H) evs l out :
  run_life (life_of started) evs = Ok (l, out) -> (left_of l <= 6)%nat.
Proof.
  intros Hrun. apply deferred_run in Hrun; [|done]. etrans; [exact Hrun|]. cbn. unfold deferred_calls.
  destruct (st_persist _); cbn; lia.
Qed.
End lifecycle.
