(* ===== verification/Naps.v ===== *)
(** * How long the poll goroutine sleeps

    [sleep] is called with what is left of the interval after a poll that
    succeeded, and with the backoff after one that failed; the status says which
    it was.  This is an invariant of [Lifecycle.v] from startup to the exit. *)
From S2P Require Import Prelude GoRuntime Utf8 GoStrings Graph Redact Store StoreConc Auth AuditTrail Signal SignalConc Poller RedactSource Pg Metrics Persist SqlDB Config Main Preflight Stream GoTime Api Flow System SystemProofs Process ProcessProofs Overlap OverlapProofs Lifecycle LifecycleProofs.
Local Open Scope Z_scope.
Local Open Scope pglockr_scope.

(** The clock of a poll does not run backwards, as Go's monotonic clock does not. *)
Definition forward_env (e : Env) : Prop := now_start e <= now_wait e.

Definition forward (ev : LifeEvent) : Prop :=
  match ev with LeRun (BeEvent (PeBegin e)) => forward_env e | _ => True end.

Definition pc_forward (pc : PollPc) : Prop :=
  match pc with Building e _ | Putting e _ => forward_env e | Waiting => True end.

(** The bounds of a sleep: [F] says that the clock runs forwards. *)
Definition nap_bounds (F : Prop) (iv : Duration) (connected : bool) (d : Duration) : Prop :=
  if connected then 0 <= d /\ (F -> d <= iv) else iv <= d <= Z.max iv maxBackoff.

(** What is left of the interval. *)
Lemma rest_bounds (F : Prop) iv e :
  0 < iv -> (F -> forward_env e) -> nap_bounds F iv true (Z.max 0 (int64 (iv - Sub (now_wait e) (now_start e)))).
Proof.
  intros Hiv He. split; [lia|]. intros HF. specialize (He HF). unfold forward_env in He.
  pose proof (Sub_range (now_wait e) (now_start e)) as Hs.
  assert (0 <= Sub (now_wait e) (now_start e)) as H0.
  { unfold Sub, MinInt64, MaxInt64. destruct (Z.ltb_spec (now_wait e - now_start e) (-2 ^ 63)); [lia|].
    destruct (Z.ltb_spec (2 ^ 63 - 1) (now_wait e - now_start e)); lia. }
  pose proof (int64_range (iv - Sub (now_wait e) (now_start e))) as Hr. unfold in_int64, MinInt64, MaxInt64 in *.
  destruct (decide (iv <= 2 ^ 63 - 1)); [|lia].
  rewrite int64_id by (unfold in_int64, MinInt64, MaxInt64; lia). lia.
Qed.

Section naps.
Context `{Go : GoRuntime} {Cfg C B D Raw Blob A V H : Type}.
Context `{!Pool C} `{!Driver Cfg C} `{!SnapshotTable D Blob} `{!Codec Raw Blob} `{!AuditTable A}.
Context `{!Prometheus V H} `{!Router} `{!UI} `{!SnapshotTableLaws D Blob} `{!CodecLaws Raw Blob}
  `{!AuditTableLaws A} `{!JsonLaws Raw Blob} `{!Database B D A} `{!Outside}.
Notation App := (@App C (DB D) (DB A) V H).
Notation Process := (@Process C (DB D) (DB A) V H).
Notation Busy := (@Busy C (DB D) (DB A) V H).
Notation Life := (@Life C D A V H).
Notation any := (fun _ : string => True).
Implicit Types (a : App) (p : Process) (b : Busy) (l : Life).
Context `{!Utf8Closed any}.

(** The sleep depends on the poller's interval only. *)
Lemma nap_interval {Src T O} (q q' : Poller Src T O) err w e :
  interval q = interval q' -> (after_poll q err w e).1.2 = (after_poll q' err w e).1.2.
Proof. unfold after_poll. intros ->. by repeat case_match. Qed.

(** The sleep of an iteration that has ended, and the status it leaves. *)
Lemma finished_nap F iv a q err e d :
  0 < iv -> paced iv a -> interval q = iv -> (F -> forward_env e) ->
  (err = None -> Connected (status q) = true) ->
  (after_poll q err (a_backoff a) e).1.2 = Some d ->
  nap_bounds F iv (Connected (a_status (finished a q err e))) d.
Proof.
  intros Hiv [_ Hb] Hq He Hok. unfold finished, after_poll. rewrite max_0_if. destruct err as [err|].
  - destruct (ctx_done e); [discriminate|]. destruct (sleep_cancelled e); intros [= <-]; exact Hb.
  - destruct (sleep_cancelled e); intros [= <-]; cbn; rewrite Hok by done; rewrite Hq; by apply rest_bounds.
Qed.

(** *** The invariant *)
Definition asleep (F : Prop) (iv : Duration) (sl : option Duration) b : Prop :=
  (F -> pc_forward (p_pc (b_process b))) /\
  forall d, sl = Some d -> p_pc (b_process b) = Waiting /\ nap_bounds F iv (Connected (a_status (app_of b))) d.

(** Between two polls nothing but the beginning of the next one moves the
    goroutine or the status. *)
Definition idle_since (st : Status) p : Prop := p_pc p = Waiting /\ a_status (p_app p) = st.

Lemma idle_kept st n : kept any (fun ev => is_begin ev = false) (idle_since st) n.
Proof.
  split; [done|..].
  - intros [a pc] now q _ [Hpc Hst]. cbn [p_pc p_app] in *. subst pc. by intros [= <-].
  - intros a a' pc (_ & _ & Hs) [Hpc Hst]. injection Hs as _ _ _ Hst' _ _ _ _. split; [done|]. cbn in *. by rewrite Hst'.
Qed.

Lemma forward_kept F n :
  kept any (fun ev => forall e, ev = PeBegin e -> F -> forward_env e) (fun p => F -> pc_forward (p_pc p)) n.
Proof.
  split; [|intros [a pc] now q _ Hpc|done].
  - intros a e He _ _ p Ep HF. pose proof (poll_begin_cases a e) as Hb. rewrite Ep in Hb.
    destruct (SourceSnapshot _) as [s [[ss ls]|err]]; [injection Hb as ->; by apply (He e)|by destruct Hb as [m ->]].
  - cbn [p_pc p_app] in *. intros Ea HF. specialize (Hpc HF).
    destruct pc as [|e snap|e [|snap subs|snap [|ch subs]]]; cbn [poll_advance] in Ea; try by injection Ea as <-.
    + destruct (put_locked _ _); [|discriminate]. by injection Ea as <-.
    + pose proof (poll_advance_end a e snap now) as Hend. cbn [poll_advance] in Hend. rewrite Ea in Hend.
      by destruct Hend as [m ->].
    + destruct (send_nonblocking (a_store a) snap ch); [|discriminate]. by injection Ea as <-.
Qed.

(** A step at which the goroutine falls asleep. *)
Lemma falls_asleep_bounds F iv b ev b' out d :
  0 < iv -> paced iv (app_of b) -> (F -> pc_forward (p_pc (b_process b))) ->
  (forall e, ev = BeEvent (PeBegin e) -> F -> forward_env e) ->
  busy_step b ev = Ok (b', out) -> falls_asleep b ev = Some d ->
  p_pc (b_process b') = Waiting /\ nap_bounds F iv (Connected (a_status (app_of b'))) d.
Proof.
  destruct b as [[a pc] fl k op]. unfold app_of. cbn [b_process p_app p_pc]. intros Hiv Hp Hpc He Hstep.
  unfold falls_asleep, app_of. cbn [b_process p_app p_pc].
  destruct ev as [ev|id now|id]; [|done..]. destruct ev as [e|now|r now|id e]; try done.
  - destruct pc; try done. cbn [busy_step] in Hstep. unfold busy_process in Hstep.
    cbn [process_step b_process p_app p_pc] in Hstep. destruct (a_running a); [|done].
    pose proof (poll_begin_cases a e) as Hb. specialize (He e eq_refl).
    destruct (SourceSnapshot (src (poller_of a (now_build e)))) as [s [[ss ls]|err]]; [done|]. cbn [snd].
    destruct (poll_begin a e) as [p|]; [|discriminate]. destruct Hb as [m ->]. injection Hstep as <- _.
    intros Hn. split; [done|]. cbn [b_process p_app].
    apply (finished_nap F iv a (SetMetrics (set_src (poller_of a (now_build e)) s) m) (Some err) e d);
      [done|done|apply Hp|done|done|]. rewrite <-Hn. by apply nap_interval.
  - destruct pc as [|e snap|e [|snap subs|snap [|ch subs]]]; try done. cbn [busy_step] in Hstep. unfold busy_process in Hstep.
    cbn [process_step b_process p_app p_pc] in Hstep. pose proof (poll_advance_end a e snap now) as Hend.
    destruct (poll_advance a _ now) as [p|]; [|discriminate]. destruct Hend as [m ->]. injection Hstep as <- _.
    intros Hn. split; [done|]. cbn [b_process p_app].
    apply (finished_nap F iv a (SetMetrics (setOK (poller_with a (a_store a)) (now_ok e)) m) None e d);
      [done|done|apply Hp|exact Hpc|done|]. rewrite <-Hn. by apply nap_interval.
Qed.

Lemma busy_step_asleep F iv n sl b ev b' out :
  0 < iv -> busy_inv any n b -> paced iv (app_of b) -> asleep F iv sl b ->
  (forall e, ev = BeEvent (PeBegin e) -> F -> forward_env e) ->
  (begins ev = true -> sl = None) -> busy_step b ev = Ok (b', out) ->
  asleep F iv (match falls_asleep b ev with Some d => Some d | None => sl end) b'.
Proof.
  intros Hiv Hinv Hp [Hpc Hsl] He Hbegin Hstep. split.
  - refine (busy_step_kept any Logic.I _ _ n b ev b' out (forward_kept F n) _ Hinv Hpc Hstep).
    destruct ev as [ev| |]; [|done..]. intros e ->. by apply He.
  - intros d. destruct (falls_asleep b ev) as [d'|] eqn:Ef.
    + intros [= ->]. by eapply falls_asleep_bounds.
    + intros ->. destruct (Hsl d eq_refl) as [Hw Hd].
      assert (idle_since (a_status (app_of b)) (b_process b')) as [Hw' Hst'].
      { refine (busy_step_kept any Logic.I _ _ n b ev b' out (idle_kept _ n) _ Hinv _ Hstep); [|done].
        destruct ev as [[]| |]; try done. by specialize (Hbegin eq_refl). }
      split; [done|]. unfold app_of. by rewrite Hst'.
Qed.

Lemma asleep_same F iv sl b b' :
  asleep F iv sl b -> p_pc (b_process b') = p_pc (b_process b) -> a_status (app_of b') = a_status (app_of b) ->
  asleep F iv sl b'.
Proof. unfold asleep. by intros Ha -> ->. Qed.

Lemma close_history_status a : a_status (close_history a) = a_status a.
Proof. unfold close_history. by destruct (st_persist (a_store a)), (a_sink a). Qed.

Lemma life_step_asleep F iv n l ev l' out :
  0 < iv -> busy_inv any n (l_busy l) -> paced iv (app_of (l_busy l)) -> asleep F iv (l_sleep l) (l_busy l) ->
  (F -> forward ev) -> life_step l ev = Ok (l', out) -> asleep F iv (l_sleep l') (l_busy l').
Proof.
  intros Hiv Hinv Hp Ha HF. unfold life_step. destruct (exited l); [by intros [= <- _]|]. unfold live_step.
  destruct ev as [ev|el tf| | |ex|e|].
  - destruct (begins ev && bool_decide (is_Some (l_sleep l))) eqn:Hb; [by intros [= <- _]|].
    destruct (busy_step _ _) as [[b o]|] eqn:E; [|discriminate]. intros [= <- _]. cbn [set_busy l_sleep l_busy].
    eapply (busy_step_asleep F iv n); [done|by apply busy_in_ctx_inv|exact Hp| | | |exact E].
    + destruct Ha as [Hpc Hsl]. split; cbn [busy_in_ctx b_process p_pc].
      * intros HF'. specialize (Hpc HF'). by destruct (p_pc (b_process (l_busy l))).
      * intros d Hd. destruct (Hsl d Hd) as [Hw Hbd]. by rewrite Hw.
    + intros e' He HF'. specialize (HF HF'). destruct ev as [[e0| | |]| |]; [|discriminate He..]. injection He as <-. exact HF.
    + intros Hbeg. assert (begins ev = true) as Hbeg' by (by destruct ev as [[]| |]). rewrite Hbeg' in Hb.
      cbn [andb] in Hb. apply bool_decide_eq_false in Hb. destruct (l_sleep l); [|done]. destruct Hb. by eexists.
  - intros [= <- _]. unfold wake. destruct (l_sleep l) as [d|] eqn:Es; [|by rewrite Es].
    destruct Ha as [Hpc Hsl]. destruct (sleep _ _ _ _) as [[]|]; [by split..|]. rewrite Es. by split.
  - by intros [= <- _].
  - intros [= <- _]. destruct (l_shutdown l); [destruct (l_done l)|..]; done.
  - intros [= <- _]. destruct (l_shutdown l); [done|destruct (_ || _)|]; done.
  - intros [= <- _]. by destruct (serve_returns l e).
  - intros [= <- _]. destruct (l_main l) as [|err [|d calls]|s]; try done.
    destruct d; cbn; [|done..]. eapply asleep_same; [exact Ha|done|apply close_history_status].
Qed.

Lemma run_life_asleep F iv n l evs l' out :
  0 < iv -> busy_inv any n (l_busy l) -> paced iv (app_of (l_busy l)) -> outlives (fun p : Process => paced iv (p_app p)) ->
  asleep F iv (l_sleep l) (l_busy l) -> (F -> Forall forward evs) -> run_life l evs = Ok (l', out) ->
  asleep F iv (l_sleep l') (l_busy l').
Proof.
  intros Hiv Hinv Hp Hout. revert l out Hinv Hp. induction evs as [|ev evs IH]; intros l out Hinv Hp Ha HF; cbn [run_life].
  { by intros [= <- _]. }
  pose proof (life_step_inv any Logic.I n l ev Hinv) as Hs.
  destruct (life_step l ev) as [[l1 out1]|] eqn:E; cbn [outcome_bind fst snd life_outcome] in *; [|discriminate].
  destruct (run_life l1 evs) as [[l2 out2]|] eqn:E2; cbn [outcome_bind fst snd]; [|discriminate].
  intros [= <- _]. refine (IH l1 out2 (proj1 Hs) _ _ _ E2).
  - exact (life_step_kept any Logic.I _ n l ev l1 out1 (paced_kept any iv n Hiv) Hout Hinv Hp E).
  - eapply life_step_asleep; [done|exact Hinv|done|done| |exact E]. intros HF'. by apply (Forall_inv (HF HF')).
  - intros HF'. exact (Forall_inv_tail (HF HF')).
Qed.
End naps.
