(* ===== verification/Demo.v ===== *)
(** * A concrete process

    The inputs at which the properties of whole runs are evaluated: a cluster
    with one session whose query has a literal, redaction and persistence on,
    one administrator's token. *)
From S2P Require Import Prelude GoRuntime Utf8 Graph Redact Store Auth AuditTrail Signal Poller RedactSource Pg Metrics Persist SqlDB Config Main Preflight Stream GoTime Api Flow System SystemProofs Process Overlap Lifecycle.
Local Open Scope Z_scope.
Local Open Scope pglockr_scope.

(** A cluster that writes down the signals it is sent. *)
Record Watched := mkWatched {
  watched : Canned;
  received : list (string * Z * Prelude.Result bool)
}.

Definition no_cluster : Watched := mkWatched (mkCanned [] []) [].

Definition one_session : Watched := mkWatched (mkCanned
  [mkSessionRow 7 (Some "app"%string) None None None None None None None None None
     (Some "SELECT 'secret'"%string) []] []) [].

(** Reading leaves it as it is. *)
Definition reading {T} (w : Watched) (r : Canned * T) : Watched * T := (mkWatched r.1 (received w), r.2).

Definition valid_texts (s : Snapshot) : Snapshot :=
  mkSnapshot (Graph.Cluster s) (Graph.TakenAt s)
    ((fun x => mkSession (Graph.PID x) (Graph.User x) (AppName x) (ClientAddr x) (State x) (WaitEventType x)
       (WaitEvent x) (BackendType x) (XactStart x) (QueryStart x) (WaitStart x)
       (ToValidUTF8 (Graph.Query x)) (BlockedBy x) (IsRoot x)) <$> Sessions s) (Edges s) (Roots s).

(** The tables of the history file. *)
Notation two_tables := (list (Row Snapshot) * list AuditRow)%type.

Module Instances.
#[export] Existing Instance handle_table.
#[export] Existing Instance handle_audit.
#[export] Existing Instance handle_database.
#[export] Existing Instance demo_router.
#[export] Existing Instance demo_ui.
#[export] Existing Instance demo_runtime.

#[export] Instance watched_pool : Pool Watched := {|
  query_sessions w t sql := reading w (query_sessions (watched w) t sql);
  query_labels w t sql := reading w (query_labels (watched w) t sql);
  query_locks w t sql := reading w (query_locks (watched w) t sql);
  query_hot w t sql := reading w (query_hot (watched w) t sql);
  row_string w sql := reading w (row_string (watched w) sql);
  row_caps w t sql := reading w (row_caps (watched w) t sql);
  row_bool w t sql pid :=
    let r := (row_bool (watched w) t sql pid).2 in
    (mkWatched (watched w) (received w ++ [(sql, pid, r)]), r)
|}.

#[export] Instance demo_driver : Driver unit Watched := {|
  ParseConfig _ := Val tt;
  set_MaxConns _ c := c;
  set_RuntimeParam _ _ c := c;
  NewWithConfig _ := Val one_session;
  pool_Close c := c
|}.

#[export] Instance demo_codec : Codec Snapshot Snapshot := {|
  json_Marshal s := Val (valid_texts s);
  json_Unmarshal := Val;
  gzip_writer := option Snapshot;
  gzip_NewWriter := None;
  gzip_Write _ raw := Val (Some raw);
  gzip_Close w := Val (default emptySnapshot w);
  gzip_reader := Snapshot;
  gzip_NewReader := Val;
  gzip_ReadAll := Val
|}.

#[export] Instance demo_codec_laws : CodecLaws Snapshot Snapshot.
Proof. split. intros raw w blob [= <-] [= <-]. by exists raw. Defined.

#[export] Instance demo_json_laws : JsonLaws Snapshot Snapshot.
Proof.
  intros s raw s' pid x [= <-] [= <-]. cbn [Sessions valid_texts]. rewrite lookup_fmap.
  destruct (Sessions s !! pid) as [y|]; [|discriminate]. intros [= <-]. by exists y.
Defined.

(** A database that holds its two tables. *)
#[export] Instance demo_database : Database two_tables (list (Row Snapshot)) (list AuditRow) := {|
  sql_Open _ := Val ([], []);
  sql_Exec b _ := (b, None);
  snapshots_of := fst;
  audit_of := snd
|}.

#[export] Instance demo_outside : Outside := {|
  DistFS := Val tt;
  no_route _ := 404;
  metrics_page _ := 200;
  upgrade_refused _ := None;
  first_write _ := true
|}.

End Instances.

(** ** The server *)
Import Instances.

Definition server_env (name : string) : string :=
  if bool_decide (name = "PGLOCKR_DSN"%string) then "postgres://db"
  else if bool_decide (name = "PGLOCKR_TOKEN"%string) then "s3cret"
  else if bool_decide (name = "PGLOCKR_DB_PATH"%string) then "/data/history.db"
  else if bool_decide (name = "PGLOCKR_REDACT"%string) then "true" else "".

(** Neither a configuration file nor YAML. *)
Definition no_file (_ : string) : Prelude.Result string := Err "no such file"%string.
Definition no_yaml (_ : string) (c : Config.Config) : Prelude.Result Config.Config := Val c.

Definition server_cfg : Config.Config := Eval vm_compute in
  match Load server_env no_file no_yaml "" with
  | Val cfg => cfg | Err _ => Defaults end.

Notation WatchedApp := (@App Watched (DB (list (Row Snapshot))) (DB (list AuditRow)) (list (list string)) (list Duration)).
Notation WatchedProcess :=
  (@Process Watched (DB (list (Row Snapshot))) (DB (list AuditRow)) (list (list string)) (list Duration)).

Definition server_start : Outcome (Prelude.Result
    (@Started Watched (DB (list (Row Snapshot))) (DB (list AuditRow)) (list (list string)) (list Duration))) :=
  run_start (Cfg := unit) (B := two_tables) server_cfg.

Definition server_app : WatchedApp :=
  match server_start with
  | Ok (Val s) => st_app s
  | _ => mkApp (mkClient no_cluster 0 0) false (fresh 1) (SinkMemory (NewMemory 1)) Metrics.New
      "" 0 (mkStatus "" false 0 "") [] 0 false [] (IdToken demo_identity)
  end.

Definition api_request (path : string) : Request :=
  mkRequest "GET" path "app.local" {["Authorization" := ["Bearer s3cret"%string]]} [] ∅ ∅ None.

Lemma server_started : exists started, server_start = Ok (Val started) /\ st_app started = server_app.
Proof.
  assert (match server_start with Ok (Val _) => true | _ => false end = true) as H by (vm_compute; reflexivity).
  unfold server_app. destruct server_start as [[started|]|]; [by exists started|discriminate..].
Qed.

(** The process before its first poll. *)
Notation WatchedBusy :=
  (@Busy Watched (DB (list (Row Snapshot))) (DB (list AuditRow)) (list (list string)) (list Duration)).

Definition server : WatchedProcess := mkProcess server_app Waiting.
Definition server_busy : WatchedBusy := mkBusy server ∅ 0 ∅.

(** What a run sends out, and where it ends. *)
Definition sent (o : Outcome (WatchedBusy * list Payload)) : list Payload :=
  match o with Ok r => r.2 | Panic _ => [] end.

Definition reached (o : Outcome (WatchedBusy * list Payload)) : WatchedBusy :=
  match o with Ok r => r.1 | Panic _ => server_busy end.

(** A poll that nobody watches, step by step. *)
Definition a_poll (now : Time) : list ProcessEvent :=
  [PeBegin (env_at now); PeAdvance now; PeAdvance now; PeAdvance now].

Definition post_request (path : string) : Request :=
  mkRequest "POST" path "app.local" {["Authorization" := ["Bearer s3cret"%string]]} [] ∅ ∅ None.

(** A run that does not panic. *)
Lemma server_runs evs :
  is_ok (run_busy server_busy evs) = true ->
  exists b' out, run_busy server_busy evs = Ok (b', out) /\
    reached (run_busy server_busy evs) = b' /\ sent (run_busy server_busy evs) = out.
Proof. destruct (run_busy server_busy evs) as [[b out]|]; [by exists b, out|done]. Qed.

(** ** The same process with its lifecycle *)
Notation WatchedLife := (@Life Watched (list (Row Snapshot)) (list AuditRow) (list (list string)) (list Duration)).

Definition live : WatchedLife := mkLife server_busy None false Watching Listening (deferred_calls server_app).

Definition life_end (o : Outcome (WatchedLife * list Payload)) : WatchedLife :=
  match o with Ok r => r.1 | Panic _ => live end.
Definition life_sent (o : Outcome (WatchedLife * list Payload)) : list Payload :=
  match o with Ok r => r.2 | Panic _ => [] end.

Lemma live_runs evs :
  is_ok (run_life live evs) = true ->
  exists l' out, run_life live evs = Ok (l', out) /\
    life_end (run_life live evs) = l' /\ life_sent (run_life live evs) = out.
Proof. destruct (run_life live evs) as [[l out]|]; [by exists l, out|done]. Qed.

Lemma live_started : exists started, server_start = Ok (Val started) /\ st_app started = server_app /\ life_of started = live.
Proof.
  destruct server_started as (started & Hs & Ha). exists started. split; [done|]. split; [done|].
  unfold life_of, live, server_busy, server, busy_of, process_of. by rewrite Ha.
Qed.
