(* ===== verification/Accountability.v ===== *)
(** * Whole runs: who signalled what

    Every cancel or terminate that reaches PostgreSQL during a run comes from
    one request of an operator, and leaves one truthful entry in the audit trail,
    or one line in the log where the database refuses the entry or the history
    file has been closed, unless its call has not come to recording it. *)
From S2P Require Import Prelude GoRuntime Utf8 GoStrings Graph Redact Store StoreConc Auth AuditTrail Signal SignalConc Poller RedactSource Pg Metrics Persist SqlDB Config Main Preflight Stream GoTime Api Flow System SystemProofs Process ProcessProofs Overlap OverlapProofs Lifecycle LifecycleProofs Demo.
Local Open Scope Z_scope.
Local Open Scope pglockr_scope.

(** The signal statements a pool has sent, with the process and the answer:
    no other statement adds to them, and closing the pool neither. *)
Class PoolLedger (Cfg C : Type) `{!Pool C} `{!Driver Cfg C} := {
  ledger : C -> list (string * Z * Prelude.Result bool);
  ledger_sessions c t sql : ledger (query_sessions c t sql).1 = ledger c;
  ledger_labels c t sql : ledger (query_labels c t sql).1 = ledger c;
  ledger_bool c t sql pid :
    ledger (row_bool c t sql pid).1 = ledger c ++ [(sql, pid, (row_bool c t sql pid).2)];
  ledger_Close c : ledger (pool_Close c) = ledger c
}.

(** One action: the request behind it, the signal, and PostgreSQL's answer. *)
Record Act := mkAct {
  act_request : Request;
  act_attempt : Attempt;
  act_answer : Prelude.Result bool
}.

Definition function_of (action : Signal.Action) : string :=
  if bool_decide (action = ActionCancel) then "pg_cancel_backend" else "pg_terminate_backend".

(** What PostgreSQL sees of an action. *)
Definition statement_of (x : Act) : string * Z * Prelude.Result bool :=
  (("SELECT " +:+ function_of (att_action (act_attempt x)) +:+ "($1)")%string, att_pid (act_attempt x), act_answer x).

(** The answer [Do] goes on with is PostgreSQL's. *)
Definition truthful (x : Act) : Prop :=
  let y := act_attempt x in
  (att_delivered y, att_err y) =
  match act_answer x with
  | Val delivered => (delivered, None)
  | Err err => (false, Some (function_of (att_action y) +:+ "(" +:+ Itoa (att_pid y) +:+ "): " +:+ err))
  end.

(** An action with the query and the time of its entry; what an auditor reads. *)
Definition Entered : Type := Act * (string * Time).

Definition audited_as (x : Entered) : AuditTrail.Entry :=
  known_entry (mkKnown (act_attempt x.1) x.2.1 x.2.2).

(** An action whose call has come to [Record], with what that answered: the
    sink has taken the entry, or refused it with an error. *)
Definition Tried : Type := Entered * option string.

Definition noted (recs : list Tried) : list Entered :=
  omap (fun x => match x.2 with None => Some x.1 | Some _ => None end) recs.
Definition refused (recs : list Tried) : list string := omap snd recs.

(** The line [Do] logs for an entry that was refused. *)
Definition write_failure (err : string) : LogLine :=
  mkLogLine "ERROR" "audit sink write failed" [("err"%string, AttrString err)].
Definition write_failures (lines : list LogLine) : list LogLine :=
  filter (fun x => log_msg x = "audit sink write failed"%string) lines.

(** The requests of a run. *)
Definition requests (evs : list BusyEvent) : list Request :=
  omap (fun ev => match ev with BeEvent (PeRequest r _) => Some r | _ => None end) evs.

(** The calls in flight: admitted and not sent, sent and not recorded. *)
Definition unsent_call (x : Request * Flight) : option Request :=
  match x.2 with Calling _ _ _ => Some x.1 | _ => None end.
Definition unrecorded_call (x : Request * Flight) : option (Request * Attempt) :=
  pair x.1 <$> unrecorded x.2.

Section accountability.
Context `{Go : GoRuntime} {Cfg C B D Raw Blob A V H : Type}.
Context `{!Pool C} `{!Driver Cfg C} `{!SnapshotTable D Blob} `{!Codec Raw Blob} `{!AuditTable A}.
Context `{!Prometheus V H} `{!Router} `{!UI} `{!Database B D A} `{!Outside} `{!PoolLedger Cfg C} `{!AuditTableLaws A}.
Notation App := (@App C D A V H).
Notation Process := (@Process C D A V H).
Notation Busy := (@Busy C D A V H).
Notation Client := (Pg.Client (C:=C)).
Implicit Types (a : App) (p : Process) (b : Busy).

(** A principal may act: an operator, whose request passes the origin check. *)
Definition may_act (id : AnyIdentity) (r : Request) (action : Signal.Action) (actor : string) : Prop :=
  (action = ActionCancel \/ action = ActionTerminate) /\
  exists p : Principal, Authenticate id r = (p, true) /\ Name p = actor /\
    AtLeast (PrincipalRole p) RoleOperator = true /\ CheckOrigin r = true.

Definition authorised (id : AnyIdentity) (x : Act) : Prop :=
  may_act id (act_request x) (att_action (act_attempt x)) (att_actor (act_attempt x)).

Definition sent_signals (c : Client) := ledger (pool c).

(** *** One signal *)
Lemma send_answer (c : Client) action pid :
  action = ActionCancel \/ action = ActionTerminate ->
  exists answer, sent_signals (send c action pid).1 =
      sent_signals c ++ [(("SELECT " +:+ function_of action +:+ "($1)")%string, pid, answer)] /\
    (send c action pid).2 = match answer with
      | Val ok => (ok, None)
      | Err err => (false, Some (function_of action +:+ "(" +:+ Itoa pid +:+ "): " +:+ err))
      end.
Proof.
  intros Ha. assert (send c action pid = client_signal c (function_of action) pid) as ->
    by (destruct Ha as [-> | ->]; reflexivity).
  unfold client_signal, sent_signals.
  pose proof (ledger_bool (pool c) (statementTimeout c) ("SELECT " +:+ function_of action +:+ "($1)") pid) as Hl.
  destruct (row_bool _ _ _ _) as [q [ok|err]]; [exists (Val ok)|exists (Err err)]; by split.
Qed.

(** *** Steps that signal nobody *)

(** The cluster, the trail, the log of its failures and the identity source stay. *)
Definition uneventful a a' : Prop :=
  sent_signals (a_client a') = sent_signals (a_client a) /\ a_sink a' = a_sink a /\ a_identity a' = a_identity a /\
  write_failures (a_slog a') = write_failures (a_slog a).

Lemma snapshot_ledger (c : Client) : sent_signals (client_Snapshot c).1 = sent_signals c.
Proof.
  unfold client_Snapshot, querySessions, queryEdgeLabels, sent_signals.
  pose proof (ledger_sessions (pool c) (statementTimeout c) (sessions_query c)) as Hs.
  destruct (query_sessions _ _ _) as [q rows]. cbn [fst] in Hs.
  destruct (read_rows _ _ rows); cbn [fst pool set_pool]; [|done].
  pose proof (ledger_labels q (statementTimeout c) edgeLabelsSQL) as Hl.
  destruct (query_labels _ _ _) as [q' rows']. cbn [fst] in Hl.
  destruct (read_rows _ _ rows'); cbn [fst pool set_pool]; by rewrite Hl.
Qed.

Lemma source_ledger a now :
  sent_signals (source_client (SourceSnapshot (src (poller_of a now))).1) = sent_signals (a_client a).
Proof.
  unfold poller_of, poller_with. cbn [src]. pose proof (snapshot_ledger (a_client a)) as Hc.
  destruct (a_redact a); cbn.
  - destruct (SourceSnapshot (NewSource (a_client a))) as [i r] eqn:E. cbn.
    unfold SourceSnapshot, redacted_source, RedactedSnapshot in E.
    change (SourceSnapshot (inner (NewSource (a_client a)))) with (client_Snapshot (a_client a)) in E.
    destruct (client_Snapshot (a_client a)) as [c [[ss ls]|]]; injection E as <- _; exact Hc.
  - change (SourceSnapshot (a_client a)) with (client_Snapshot (a_client a)).
    by destruct (client_Snapshot (a_client a)).
Qed.

Lemma source_client_of a st : source_client (src (poller_with a st)) = a_client a.
Proof. unfold poller_with. cbn. by destruct (a_redact a). Qed.

Lemma finished_uneventful a q err e :
  sent_signals (source_client (src q)) = sent_signals (a_client a) -> uneventful a (finished a q err e).
Proof.
  destruct (finished_sides a q err e) as (Hc & Hs & Hi & Hl & _). intros Hq.
  unfold uneventful. by rewrite Hc, Hl.
Qed.

Lemma poll_begin_uneventful a e p : poll_begin a e = Ok p -> uneventful a (p_app p).
Proof.
  pose proof (source_ledger a (now_build e)) as Hl. pose proof (poll_begin_cases a e) as Hb. intros Ep.
  destruct (SourceSnapshot (src (poller_of a (now_build e)))) as [s [[ss ls]|err]]; cbn [fst p_app] in *; rewrite Ep in Hb.
  - injection Hb as ->. by split_and!.
  - destruct Hb as [m ->]. by apply finished_uneventful.
Qed.

Lemma poll_advance_uneventful a pc now p' : poll_advance a pc now = Ok p' -> uneventful a (p_app p').
Proof.
  destruct pc as [|e snap|e [|snap subs|snap [|ch subs]]].
  5: { intros Ep. pose proof (poll_advance_end a e snap now) as Hend. rewrite Ep in Hend. destruct Hend as [m ->].
    apply finished_uneventful. f_equal. exact (source_client_of a (a_store a)). }
  all: cbn [poll_advance]. 1, 3, 4: by intros [= <-].
  - destruct (put_locked _ _); [|discriminate]. by intros [= <-].
  - destruct (send_nonblocking (a_store a) snap ch); [|discriminate]. by intros [= <-].
Qed.

Lemma socket_uneventful a id e a' out : socket_step a id e = Ok (a', out) -> uneventful a a'.
Proof.
  unfold socket_step. destruct (st_subs (a_store a) !! id); [|by intros [= <- _]].
  destruct (stream_loop _ _ _ _ _); [|discriminate]. by intros [= <- _].
Qed.

Lemma request_uneventful a r now a' out :
  asked (a_identity a) r = None -> request_step a r now = Ok (a', out) -> uneventful a a'.
Proof.
  intros Hq. unfold request_step.
  destruct (ServeHTTP _ _ _ _ r (world_of a)) as [[w' resp]|] eqn:E; [|discriminate]. intros [= <- _].
  apply (not_asked _ _ _ _ _ _ _ _ Hq) in E. unfold uneventful. cbn. by rewrite E.
Qed.

Lemma process_step_uneventful p ev p' out :
  (forall r now, ev = PeRequest r now -> asked (a_identity (p_app p)) r = None) ->
  process_step p ev = Ok (p', out) -> uneventful (p_app p) (p_app p').
Proof.
  destruct ev as [e|now|r now|id e]; cbn [process_step]; intros Hr.
  - destruct (p_pc p); [|by intros [= <- _]..].
    destruct (a_running (p_app p)); [|by intros [= <- _]].
    destruct (poll_begin _ _) as [q|] eqn:Eq; [|discriminate]. intros [= <- _]. by eapply poll_begin_uneventful.
  - destruct (poll_advance _ _ _) as [q|] eqn:Eq; [|discriminate]. intros [= <- _].
    by eapply poll_advance_uneventful.
  - destruct (request_step _ _ _) as [[a' o]|] eqn:Er; [|discriminate]. intros [= <- _].
    eapply request_uneventful; [by eapply Hr|exact Er].
  - destruct (socket_step _ _ _) as [[a' o]|] eqn:Es; [|discriminate]. intros [= <- _].
    by eapply socket_uneventful.
Qed.

(** *** The books of a run *)

(** The sink after more entries: the in-memory trail stands for a longer list, the
    table has more rows. *)
Definition trail_gains (s s' : AnySink A) (es : list AuditTrail.Entry) : Prop :=
  match s, s' with
  | SinkMemory m, SinkMemory m' =>
      forall trail, sink_represents m trail -> sink_represents m' (trail ++ es) /\ sink_bound m' = sink_bound m
  | SinkSQLite au, SinkSQLite au' => audit_rows au' = audit_rows au ++ (audit_row_of <$> es)
  | _, _ => False
  end.

Lemma trail_gains_nothing s : trail_gains s s [].
Proof. destruct s; cbn; [intros trail|]; by rewrite app_nil_r. Qed.

Lemma trail_gains_record s0 s es e :
  trail_gains s0 s es ->
  trail_gains s0 (RecordEntry s e).1 (es ++ match (RecordEntry s e).2 with None => [e] | Some _ => [] end).
Proof.
  destruct s0 as [m0|au0], s as [m|au]; try done; cbn [trail_gains RecordEntry any_sink].
  - intros Hm. cbn. intros trail Ht. destruct (Hm trail Ht) as [Hr Hb].
    destruct (record_represents m _ e Hr) as [Hr' Hb']. rewrite app_assoc. split; [exact Hr'|]. by etrans; [exact Hb'|exact Hb].
  - intros Hau. unfold RecordEntry, sqlite_sink, sqlite_Record. pose proof (audit_insert_rows au (audit_row_of e)) as Hi.
    destruct (audit_insert au (audit_row_of e)) as [au' [err|]]; cbn; rewrite Hi, Hau; [by rewrite app_nil_r|].
    by rewrite fmap_app, app_assoc.
Qed.

(** The actions so far in the order of their signals, those that have come to
    [Record] in the order of their calls of it, and those that have not; [R] says
    why an entry was refused. *)
Record books (R : Entered -> string -> Prop) a0 (served : list Request) (b : Busy) (acts : list Act)
    (recs : list Tried) (pending : list Act) : Prop := {
  bk_sent : sent_signals (a_client (p_app (b_process b))) = sent_signals (a_client a0) ++ (statement_of <$> acts);
  bk_trail : trail_gains (a_sink a0) (a_sink (p_app (b_process b))) (audited_as <$> noted recs);
  bk_log : write_failures (a_slog (p_app (b_process b))) =
    write_failures (a_slog a0) ++ (write_failure <$> refused recs);
  bk_refused : Forall (fun x => forall err, x.2 = Some err -> R x.1 err) recs;
  bk_identity : a_identity (p_app (b_process b)) = a_identity a0;
  bk_acts : Forall (fun x => authorised (a_identity a0) x /\ truthful x) acts;
  bk_split : acts ≡ₚ recs.*1.*1 ++ pending;
  bk_pending : (fun x => (act_request x, act_attempt x)) <$> pending ≡ₚ owed unrecorded_call (b_flights b);
  bk_requests : (act_request <$> acts) ++ owed unsent_call (b_flights b) ⊆+ served;
  bk_unsent : forall id r action pid actor, b_flights b !! id = Some (r, Calling action pid actor) ->
    may_act (a_identity a0) r action actor;
  bk_fresh : forall id, is_Some (b_flights b !! id) -> id < b_next b
}.

Section reasons.
Context (R : Entered -> string -> Prop).
Notation books := (books R).

Lemma books_uneventful a0 served b acts recs pending p extra op :
  books a0 served b acts recs pending -> uneventful (p_app (b_process b)) (p_app p) ->
  books a0 (served ++ extra) (mkBusy p (b_flights b) (b_next b) op) acts recs pending.
Proof.
  intros [Hs Ht Hlg Hrf Hi Ha Hsp Hp Hr Hu Hf] (Hc & Hsk & Hid & Hl). split; cbn [b_process b_flights]; try done.
  - by rewrite Hc.
  - by rewrite Hsk.
  - by rewrite Hl.
  - by rewrite Hid.
  - etrans; [exact Hr|]. apply submseteq_inserts_r, reflexivity.
Qed.

Lemma books_start_call a0 served b acts recs pending r q :
  books a0 served b acts recs pending -> asked (a_identity (p_app (b_process b))) r = Some q ->
  books a0 (served ++ [r]) (start_call b r q) acts recs pending.
Proof.
  intros [Hs Ht Hlg Hrf Hi Ha Hsp Hp Hr Hu Hf] Hq.
  assert (b_flights b !! b_next b = None) as Hfresh.
  { destruct (b_flights b !! b_next b) eqn:E; [|done]. specialize (Hf (b_next b) (mk_is_Some _ _ E)). lia. }
  split; cbn [start_call b_process b_flights b_next]; try done.
  - by rewrite owed_insert.
  - rewrite owed_insert by done. cbn [unsent_call option_list snd fst].
    rewrite (Permutation_app_comm [r]), app_assoc. by apply submseteq_app.
  - intros id r' action pid actor. destruct (decide (b_next b = id)) as [<-|Hid];
      [rewrite lookup_insert_eq|rewrite lookup_insert_ne by done; apply Hu].
    intros [= <- <- <- <-]. rewrite <-Hi. destruct (asked_authorised _ _ _ Hq) as [Haction Hwho]. by split.
  - intros id. destruct (decide (b_next b = id)) as [<-|Hid]; [lia|].
    rewrite lookup_insert_ne by done. intros Hid'. specialize (Hf id Hid'). lia.
Qed.

(** A step that neither sends nor records. *)
Lemma books_silent a0 served b acts recs pending id r f f' a' :
  books a0 served b acts recs pending -> b_flights b !! id = Some (r, f) ->
  unrecorded f = f' ≫= unrecorded -> unsent_call (r, f) = None -> (forall g, f' = Some g -> unsent_call (r, g) = None) ->
  uneventful (p_app (b_process b)) a' ->
  books a0 served (mkBusy (mkProcess a' (p_pc (b_process b)))
    (partial_alter (fun _ => pair r <$> f') id (b_flights b)) (b_next b) (b_openings b)) acts recs pending.
Proof.
  intros [Hs Ht Hlg Hrf Hi Ha Hsp Hp Hr Hu Hf] Hid Hrec Hcall Hcall' (Hc & Hsk & Hident & Hl).
  split; cbn [b_process b_flights b_next p_app]; try done.
  - by rewrite Hc.
  - by rewrite Hsk.
  - by rewrite Hl.
  - by rewrite Hident.
  - rewrite (owed_alter unrecorded_call _ _ _ _ Hid), Hp, (owed_delete unrecorded_call _ _ _ Hid).
    unfold unrecorded_call at 1. cbn [fst snd]. rewrite Hrec. by destruct f'.
  - rewrite (owed_alter unsent_call _ _ _ _ Hid). rewrite (owed_delete unsent_call _ _ _ Hid), Hcall in Hr.
    destruct f' as [g|]; cbn [fmap option_fmap option_map mbind option_bind]; [by rewrite (Hcall' g)|done].
  - intros id' r' action pid actor. destruct (decide (id = id')) as [<-|Hne];
      [rewrite lookup_partial_alter_eq|rewrite lookup_partial_alter_ne by done; apply Hu].
    destruct f' as [g|]; [|done]. intros [= <- ->]. by specialize (Hcall' _ eq_refl).
  - intros id'. destruct (decide (id = id')) as [<-|Hne]; [intros _; apply Hf; by rewrite Hid|].
    rewrite lookup_partial_alter_ne by done. apply Hf.
Qed.

(** The signal is sent. *)
Lemma books_send a0 served b acts recs pending id r action pid actor now a' f' out :
  books a0 served b acts recs pending -> b_flights b !! id = Some (r, Calling action pid actor) ->
  call_advance (p_app (b_process b)) (Calling action pid actor) now = Ok (a', f', out) ->
  exists x, books a0 served (mkBusy (mkProcess a' (p_pc (b_process b)))
    (partial_alter (fun _ => pair r <$> f') id (b_flights b)) (b_next b) (b_openings b)) (acts ++ [x]) recs (pending ++ [x]).
Proof.
  intros [Hs Ht Hlg Hrf Hi Ha Hsp Hp Hr Hu Hf] Hid. unfold call_advance. cbn [lookup_now outcome_bind flight_step].
  destruct (Hu id r action pid actor Hid) as [Haction Hwho].
  destruct (send_answer (a_client (p_app (b_process b))) action pid Haction) as (answer & Hledger & Hanswer).
  change (sig (w_signal (world_of (p_app (b_process b))))) with (a_client (p_app (b_process b))).
  destruct (send (a_client (p_app (b_process b))) action pid) as [g [delivered err]]. cbn [fst snd] in *.
  intros [= <- <- _]. exists (mkAct r (mkAttempt action pid actor delivered err) answer).
  split; cbn [b_process b_flights b_next p_app]; try done.
  - rewrite fmap_app, app_assoc, <-Hs. exact Hledger.
  - apply Forall_app. split; [done|]. constructor; [|constructor]. split; [by split|]. unfold truthful. cbn.
    by rewrite Hanswer.
  - by rewrite Hsp, app_assoc.
  - rewrite (owed_alter unrecorded_call _ _ _ _ Hid), fmap_app, Hp, (owed_delete unrecorded_call _ _ _ Hid).
    cbn. by rewrite Permutation_app_comm.
  - rewrite (owed_alter unsent_call _ _ _ _ Hid). rewrite (owed_delete unsent_call _ _ _ Hid) in Hr. cbn in *.
    rewrite fmap_app, <-app_assoc. exact Hr.
  - intros id' r' action' pid' actor'. destruct (decide (id = id')) as [<-|Hne];
      [by rewrite lookup_partial_alter_eq|rewrite lookup_partial_alter_ne by done; apply Hu].
  - intros id'. destruct (decide (id = id')) as [<-|Hne]; [intros _; apply Hf; by rewrite Hid|].
    rewrite lookup_partial_alter_ne by done. apply Hf.
Qed.

(** The entry is recorded. *)
Lemma books_record a0 served b acts recs pending id r y now a' f' out :
  (forall e err, (RecordEntry (a_sink (p_app (b_process b))) (audited_as e)).2 = Some err -> R e err) ->
  books a0 served b acts recs pending -> b_flights b !! id = Some (r, Prepared y) ->
  call_advance (p_app (b_process b)) (Prepared y) now = Ok (a', f', out) ->
  exists x pending', books a0 served (mkBusy (mkProcess a' (p_pc (b_process b)))
    (partial_alter (fun _ => pair r <$> f') id (b_flights b)) (b_next b) (b_openings b)) acts (recs ++ [x]) pending'.
Proof.
  intros HR [Hs Ht Hlg Hrf Hi Ha Hsp Hp Hr Hu Hf] Hid. unfold call_advance. cbn [lookup_now outcome_bind flight_step].
  intros [= <- <- _]. rewrite (owed_delete unrecorded_call _ _ _ Hid) in Hp. cbn in Hp.
  destruct (Permutation_map_inv _ _ (symmetry Hp)) as (l & Hl & Hperm).
  destruct l as [|x pending']; [done|]. injection Hl as Hx Hattempt Hrest.
  set (e := (x, (kn_victim y, kn_at y)) : Entered).
  assert (audited_as e = known_entry y) as He by (unfold audited_as, e; cbn [fst snd]; rewrite <-Hattempt; by destruct y).
  set (a := p_app (b_process b)) in *. rewrite <-He in *. specialize (HR e).
  exists (e, (RecordEntry (a_sink a) (audited_as e)).2), pending'.
  pose proof (trail_gains_record _ _ _ (audited_as e) Ht) as Ht'.
  assert (record_entry (Some (a_sink a)) (a_slog a) (audited_as e) =
    (Some (RecordEntry (a_sink a) (audited_as e)).1,
     a_slog a ++ option_list (write_failure <$> (RecordEntry (a_sink a) (audited_as e)).2))) as Hrec.
  { unfold record_entry. destruct (RecordEntry _ _) as [s' [err|]]; cbn; [done|]. by rewrite app_nil_r. }
  set (a1 := of_world a _).
  assert (a_sink a1 = (RecordEntry (a_sink a) (audited_as e)).1 /\ a_slog a1 = a_slog a ++
     option_list (write_failure <$> (RecordEntry (a_sink a) (audited_as e)).2)) as [Hsk1 Hlg1].
  { split; [change (a_sink a1) with (default (a_sink a) (record_entry (Some (a_sink a)) (a_slog a) (audited_as e)).1)
      |change (a_slog a1) with (record_entry (Some (a_sink a)) (a_slog a) (audited_as e)).2]; by rewrite Hrec. }
  split; cbn [b_process b_flights b_next p_app]; try done.
  - rewrite Hsk1. unfold noted. rewrite omap_app, fmap_app. by destruct (RecordEntry _ _).2.
  - rewrite Hlg1. unfold refused, write_failures in *. rewrite filter_app, omap_app, fmap_app, app_assoc, Hlg.
    by destruct (RecordEntry _ _).2.
  - apply Forall_app. split; [done|]. constructor; [|constructor]. exact HR.
  - rewrite Hsp, Hperm, !fmap_app. cbn. by rewrite <-app_assoc.
  - rewrite (owed_alter unrecorded_call _ _ _ _ Hid). cbn. rewrite Hrest. done.
  - rewrite (owed_alter unsent_call _ _ _ _ Hid). by rewrite (owed_delete unsent_call _ _ _ Hid) in Hr.
  - intros id' r' action' pid' actor'. destruct (decide (id = id')) as [<-|Hne];
      [by rewrite lookup_partial_alter_eq|rewrite lookup_partial_alter_ne by done; apply Hu].
  - intros id'. destruct (decide (id = id')) as [<-|Hne]; [intros _; apply Hf; by rewrite Hid|].
    rewrite lookup_partial_alter_ne by done. apply Hf.
Qed.

(** The line at the end of a call is none about the sink. *)
Lemma final_line_written lg y : write_failures (lg ++ [final_line y]) = write_failures lg.
Proof.
  unfold write_failures. rewrite filter_app, (filter_cons_False _ (final_line y)), filter_nil, app_nil_r; [done|].
  unfold final_line. by destruct (att_err _).
Qed.

(** Any step of a call. *)
Lemma books_call a0 served b acts recs pending id r f now a' f' out :
  (forall e err, (RecordEntry (a_sink (p_app (b_process b))) (audited_as e)).2 = Some err -> R e err) ->
  books a0 served b acts recs pending -> b_flights b !! id = Some (r, f) ->
  call_advance (p_app (b_process b)) f now = Ok (a', f', out) ->
  exists acts' new pending',
    books a0 served (mkBusy (mkProcess a' (p_pc (b_process b)))
      (partial_alter (fun _ => pair r <$> f') id (b_flights b)) (b_next b) (b_openings b)) acts' (recs ++ new) pending'.
Proof.
  intros HR Hb Hid E.
  assert (forall acts' pending', books a0 served (mkBusy (mkProcess a' (p_pc (b_process b)))
      (partial_alter (fun _ => pair r <$> f') id (b_flights b)) (b_next b) (b_openings b)) acts' recs pending' ->
    exists acts' new pending', books a0 served (mkBusy (mkProcess a' (p_pc (b_process b)))
      (partial_alter (fun _ => pair r <$> f') id (b_flights b)) (b_next b) (b_openings b)) acts' (recs ++ new) pending') as Hnone.
  { intros acts' pending' Hb'. exists acts', [], pending'. by rewrite app_nil_r. }
  destruct f as [action pid actor|x|y|y|y].
  - destruct (books_send _ _ _ _ _ _ _ _ _ _ _ _ _ _ _ Hb Hid E) as [x Hx]. by eapply Hnone.
  - unfold call_advance in E. destruct (lookup_now _ _) as [victim|]; [|discriminate]. injection E as <- <- _.
    eapply Hnone, (books_silent _ _ _ _ _ _ _ _ _ _ _ Hb Hid); try done; intros g [= <-]; done.
  - destruct (books_record _ _ _ _ _ _ _ _ _ _ _ _ _ HR Hb Hid E) as (x & pending' & Hx). by eexists _, _, _.
  - injection E as <- <- _.
    eapply Hnone, (books_silent _ _ _ _ _ _ _ _ _ _ _ Hb Hid); try done; intros g [= <-]; done.
  - injection E as <- <- _. eapply Hnone, (books_silent _ _ _ _ _ _ _ _ _ _ _ Hb Hid); try done.
    split_and!; try done. apply final_line_written.
Qed.

Lemma busy_step_books a0 served b acts recs pending ev b' out :
  (forall e err, (RecordEntry (a_sink (p_app (b_process b))) (audited_as e)).2 = Some err -> R e err) ->
  books a0 served b acts recs pending -> busy_step b ev = Ok (b', out) ->
  exists acts' new pending', books a0 (served ++ requests [ev]) b' acts' (recs ++ new) pending'.
Proof.
  intros HR Hb.
  assert (forall p op, uneventful (p_app (b_process b)) (p_app p) -> exists acts' new pending',
      books a0 (served ++ requests [ev]) (mkBusy p (b_flights b) (b_next b) op) acts' (recs ++ new) pending') as Hquiet.
  { intros p op Hu. exists acts, [], pending. rewrite app_nil_r. by apply books_uneventful. }
  assert (exists acts' new pending', books a0 (served ++ requests [ev]) b acts' (recs ++ new) pending') as Hsame
    by (destruct b; by apply Hquiet).
  destruct ev as [ev|id now|id].
  - assert ((forall r now, ev = PeRequest r now -> asked (a_identity (p_app (b_process b))) r = None) ->
      busy_process b ev = Ok (b', out) ->
      exists acts' new pending', books a0 (served ++ requests [BeEvent ev]) b' acts' (recs ++ new) pending') as Hplain.
    { intros Hr. unfold busy_process. destruct (process_step (b_process b) ev) as [[p o]|] eqn:E; [|discriminate].
      intros [= <- _]. apply Hquiet. by apply (process_step_uneventful _ _ _ _ Hr E). }
    destruct ev as [e|now|r now|id e]; cbn [busy_step]; try by apply Hplain.
    + destruct (asked _ r) as [q|] eqn:Hq.
      * intros [= <- _]. exists acts, [], pending. rewrite app_nil_r. by apply books_start_call.
      * destruct (opens _ r) as [r'|]; [|apply Hplain; by intros r0 now0 [= <- _]].
        intros [= <- _]. by apply Hquiet.
    + destruct (b_openings b !! id); [by intros [= <- _]|by apply Hplain].
  - cbn [busy_step requests omap list_omap]. rewrite app_nil_r.
    destruct (b_flights b !! id) as [[r f]|] eqn:Hid.
    2:{ intros [= <- _]. exists acts, [], pending. by rewrite app_nil_r. }
    destruct (call_advance (p_app (b_process b)) f now) as [[[a' f'] o]|] eqn:E; [|discriminate].
    intros [= <- _]. by eapply books_call.
  - cbn [busy_step]. destruct (b_openings b !! id) as [[r sub]|]; [|by intros [= <- _]].
    unfold stream_advance. destruct (greet _ _ _ _) as [s|]; [|discriminate]. intros [= <- _]. by apply Hquiet.
Qed.

Lemma books_app a0 served b acts recs pending a' :
  books a0 served b acts recs pending -> uneventful (p_app (b_process b)) a' -> forall pc op,
  books a0 served (mkBusy (mkProcess a' pc) (b_flights b) (b_next b) op) acts recs pending.
Proof.
  intros Hb Hu pc op. pose proof (books_uneventful a0 served b acts recs pending (mkProcess a' pc) [] op Hb Hu) as H'.
  by rewrite app_nil_r in H'.
Qed.

Lemma books_more a0 served b acts recs pending extra :
  books a0 served b acts recs pending -> books a0 (served ++ extra) b acts recs pending.
Proof.
  intros Hb. destruct b as [p fl k op]. exact (books_uneventful _ _ _ _ _ _ p extra op Hb ltac:(done)).
Qed.
End reasons.

Lemma books_reasons (R R' : Entered -> string -> Prop) a0 served b acts recs pending :
  (forall e err, R e err -> R' e err) -> books R a0 served b acts recs pending -> books R' a0 served b acts recs pending.
Proof.
  intros HR [Hs Ht Hlg Hrf Hi Ha Hsp Hp Hr Hu Hf]. split; try done. eapply Forall_impl; [exact Hrf|].
  intros x Hx err Herr. by apply HR, Hx.
Qed.

(** Whatever a step does to the sink is recording. *)
Lemma busy_step_recorded b ev b' out :
  busy_step b ev = Ok (b', out) -> recorded (a_sink (p_app (b_process b))) (a_sink (p_app (b_process b'))).
Proof.
  assert (forall a', a_sink a' = a_sink (p_app (b_process b)) -> recorded (a_sink (p_app (b_process b))) (a_sink a')) as Hsame
    by (intros a' ->; apply recorded_same).
  assert (forall ev, busy_process b ev = Ok (b', out) ->
    recorded (a_sink (p_app (b_process b))) (a_sink (p_app (b_process b')))) as Hplain.
  { intros ev'. unfold busy_process. destruct (process_step (b_process b) ev') as [[p o]|] eqn:E; [|discriminate].
    intros [= <- _]. cbn [b_process].
    assert ((forall r now, ev' <> PeRequest r now) -> recorded (a_sink (p_app (b_process b))) (a_sink (p_app p))) as Hother.
    { intros Hn. apply Hsame. apply (process_step_uneventful (b_process b) ev' p o); [|done]. intros r now ->. by destruct (Hn r now). }
    destruct ev' as [e|now|r now|id e]; [by apply Hother..| |by apply Hother]. cbn [process_step] in E.
    destruct (request_step _ _ _) as [[a' o']|] eqn:Er; [|discriminate]. injection E as <- _. by eapply request_recorded. }
  destruct ev as [ev|id now|id]; cbn [busy_step].
  - destruct ev as [e|now|r now|id e]; try by apply Hplain.
    + destruct (asked _ r) as [q|]; [intros [= <- _]; by apply Hsame|].
      destruct (opens _ r) as [r'|]; [|by apply Hplain]. intros [= <- _]. by apply Hsame.
    + destruct (b_openings b !! id); [intros [= <- _]; by apply Hsame|by apply Hplain].
  - destruct (b_flights b !! id) as [[r f]|]; [|intros [= <- _]; by apply Hsame].
    unfold call_advance. destruct (lookup_now _ _) as [victim|]; [|discriminate]. cbn [outcome_bind].
    destruct f as [action pid actor|x|y|y|y]; cbn [flight_step].
    + destruct (send _ _ _) as [g [delivered err]]. intros [= <- _]. by apply Hsame.
    + intros [= <- _]. by apply Hsame.
    + intros [= <- _]. exists [known_entry y]. cbn [fold_left].
      trans (default (a_sink (p_app (b_process b)))
        (record_entry (Some (a_sink (p_app (b_process b)))) (a_slog (p_app (b_process b))) (known_entry y)).1); [done|].
      by rewrite record_entry_sink.
    + intros [= <- _]. by apply Hsame.
    + intros [= <- _]. by apply Hsame.
  - destruct (b_openings b !! id) as [[r sub]|]; [|intros [= <- _]; by apply Hsame].
    unfold stream_advance. destruct (greet _ _ _ _) as [s|]; [|discriminate]. intros [= <- _]. by apply Hsame.
Qed.
End accountability.

(** ** From startup to the exit *)

(** The requests of a run. *)
Definition life_requests (evs : list LifeEvent) : list Request := requests (omap own_step evs).

Section lifetimes.
Context `{Go : GoRuntime} {Cfg C B D Raw Blob A V H : Type}.
Context `{!Pool C} `{!Driver Cfg C} `{!SnapshotTable D Blob} `{!Codec Raw Blob} `{!AuditTable A}.
Context `{!Prometheus V H} `{!Router} `{!UI} `{!Database B D A} `{!Outside} `{!PoolLedger Cfg C} `{!AuditTableLaws A}.
Notation App := (@App C (DB D) (DB A) V H).
Notation Busy := (@Busy C (DB D) (DB A) V H).
Notation Life := (@Life C D A V H).
Implicit Types (a : App) (b : Busy) (l : Life).

(** The audit trail is a table behind a handle that has been closed. *)
Definition file_closed (s : AnySink (DB A)) : Prop :=
  match s with SinkSQLite au => h_closed au = true | SinkMemory _ => False end.

Definition durable (s : AnySink (DB A)) : Prop :=
  match s with SinkSQLite _ => True | SinkMemory _ => False end.

(** Why an entry was refused: the trail is a table, and the history file had been
    closed, which happened for [closing], or the database itself answered the
    insert with the error. *)
Definition refusal (s0 : AnySink (DB A)) (closing : Prop) (e : Entered) (err : string) : Prop :=
  durable s0 /\
  ((err = errDBClosed /\ closing) \/ exists conn : A, (audit_insert conn (audit_row_of (audited_as e))).2 = Some err).

Lemma RecordEntry_refusal (s : AnySink (DB A)) e err :
  (RecordEntry s (audited_as e)).2 = Some err -> refusal s (file_closed s) e err.
Proof.
  destruct s as [m|au]; [done|]. intros Herr. split; [done|]. revert Herr. cbn [RecordEntry any_sink sqlite_sink]. unfold sqlite_Record. cbn [audit_insert handle_audit].
  destruct (exec_cases au (fun x => audit_insert x (audit_row_of (audited_as e)))) as [[Hc ->]|[_ ->]]; cbn.
  - intros [= <-]. by left.
  - intros Herr. right. by eexists.
Qed.

(** Recording neither closes the file nor opens it. *)
Lemma recorded_closed (s s' : AnySink (DB A)) : recorded s s' -> file_closed s' -> file_closed s.
Proof.
  intros [es ->]. revert s. induction es as [|e es IH]; intros s; [done|]. cbn [fold_left]. intros Hc%IH.
  destruct s as [m|au]; [done|]. cbn [RecordEntry any_sink sqlite_sink] in Hc. unfold sqlite_Record in Hc.
  cbn [audit_insert handle_audit] in Hc.
  destruct (exec_cases au (fun x => audit_insert x (audit_row_of e))) as [[Hcl E]|[Hcl E]]; rewrite E in Hc; [exact Hc|].
  discriminate Hc.
Qed.

(** What has closed the file by [l]. *)
Definition closing a0 l : Prop := file_closed (a_sink a0) \/ l_main l <> Listening.

(** The books of [l]; a file that is closed was so from the start, or is so
    because the server has stopped listening. *)
Definition life_books a0 served l acts (recs : list Tried) pending : Prop :=
  books (refusal (a_sink a0) (closing a0 l)) a0 served (l_busy l) acts recs pending /\
  (file_closed (a_sink (app_of (l_busy l))) -> closing a0 l).

Lemma refusal_later s (P P' : Prop) e err : (P -> P') -> refusal s P e err -> refusal s P' e err.
Proof. intros HP [Hs [[-> Hc]|Hdb]]; (split; [done|]); [left; by auto|by right]. Qed.

Lemma books_later a0 served l l1 acts recs pending :
  (l_main l1 = Listening -> l_main l = Listening) ->
  books (refusal (a_sink a0) (closing a0 l)) a0 served (l_busy l1) acts recs pending ->
  books (refusal (a_sink a0) (closing a0 l1)) a0 served (l_busy l1) acts recs pending.
Proof.
  intros Hphase. apply books_reasons. intros e err. apply refusal_later. unfold closing. tauto.
Qed.

Lemma close_history_sides a :
  a_client (close_history a) = a_client a /\ a_identity (close_history a) = a_identity a /\
  a_slog (close_history a) = a_slog a /\
  (a_sink (close_history a) = a_sink a \/
   exists au, a_sink a = SinkSQLite au /\ a_sink (close_history a) = SinkSQLite (handle_Close au)).
Proof.
  unfold close_history. destruct (st_persist (a_store a)); [|by auto].
  destruct (a_sink a) as [m|au] eqn:E; [by auto|]. split_and!; try done. right. by exists au.
Qed.

(** Closing the history loses nothing. *)
Lemma books_close R a0 served b acts recs pending :
  books R a0 served b acts recs pending ->
  books R a0 served (set_app b (close_history (app_of b))) acts recs pending.
Proof.
  intros [Hs Ht Hlg Hrf Hi Ha Hsp Hp Hr Hu Hf]. destruct (close_history_sides (app_of b)) as (Hc & Hid & Hl & Hsk).
  split; cbn [set_app b_process b_flights b_next p_app]; try done; [by rewrite Hc| |by rewrite Hl|by rewrite Hid].
  destruct Hsk as [->|(au & Hau & ->)]; [done|]. unfold app_of in Hau. rewrite Hau in Ht.
  by destruct (a_sink a0).
Qed.

Lemma close_client_uneventful a : uneventful a (close_client a).
Proof. split; [|done]. unfold sent_signals. cbn. apply ledger_Close. Qed.

Lemma requests_in_ctx done ev : requests [event_in_ctx done ev] = requests [ev].
Proof. by destruct ev as [[]| |]. Qed.

Lemma life_step_books a0 served l acts recs pending ev l1 out :
  life_books a0 served l acts recs pending -> life_step l ev = Ok (l1, out) ->
  exists acts' recs' pending', life_books a0 (served ++ life_requests [ev]) l1 acts' recs' pending'.
Proof.
  intros [Hb Hcl] E. pose proof (life_step_phase _ _ _ _ E) as [_ Hphase].
  assert (closing a0 l -> closing a0 l1) as Hlater by (unfold closing; tauto).
  assert (forall a', l_busy l1 = set_app (l_busy l) a' -> uneventful (app_of (l_busy l)) a' ->
    exists acts' recs' pending', life_books a0 (served ++ life_requests [ev]) l1 acts' recs' pending') as Happ.
  { intros a' Hb1 Hu. exists acts, recs, pending. split.
    - apply (books_later a0 _ l); [done|]. rewrite Hb1. by apply books_more, books_app.
    - rewrite Hb1. unfold app_of. cbn. rewrite (proj1 (proj2 Hu)). auto. }
  pose proof (life_step_moves l ev) as Hmv. rewrite E in Hmv.
  inversion Hmv as [? ? Hb1|ev' x sl Hx| |? ? Hb1|? Hb1 Hm|? Hb1]; subst.
  - apply (Happ (app_of (l_busy l))); [|done]. rewrite Hb1. by destruct (l_busy l) as [[] ? ? ?].
  - destruct x as [b1 o]. cbn [fst set_busy l_busy] in *.
    set (b := busy_in_ctx (l_done l) (l_busy l)) in *.
    destruct (busy_step_books (refusal (a_sink a0) (closing a0 l)) a0 served b acts recs pending (event_in_ctx (l_done l) ev') b1 o)
      as (acts' & new & pending' & Hb'); [|by apply (books_app _ _ _ _ _ _ _ _ Hb)|exact Hx|].
    { intros e err Herr%RecordEntry_refusal. apply (refusal_later _ _ _ _ _ Hcl) in Herr. destruct Herr as [Hs Hwhy].
      split; [|exact Hwhy]. pose proof (bk_trail _ _ _ _ _ _ _ Hb) as Ht. change (durable (a_sink (p_app (b_process (l_busy l))))) in Hs.
      clear -Ht Hs. destruct (a_sink a0), (a_sink (p_app (b_process (l_busy l)))); done. }
    exists acts', (recs ++ new), pending'. split.
    + apply (books_later a0 _ l); [done|]. cbn [set_busy l_busy].
      unfold life_requests. cbn [omap list_omap own_step]. by rewrite <-(requests_in_ctx (l_done l)).
    + intros Hc. apply Hlater, Hcl. exact (recorded_closed _ _ (busy_step_recorded _ _ _ _ Hx) Hc).
  - by eapply Happ.
  - exists acts, recs, pending. split; [|by right].
    apply (books_later a0 _ l); [done|]. rewrite Hb1. by apply books_more, books_close.
  - eapply Happ; [exact Hb1|]. apply close_client_uneventful.
Qed.

Lemma run_life_books a0 served l acts recs pending evs l' out :
  life_books a0 served l acts recs pending -> run_life l evs = Ok (l', out) ->
  exists acts' recs' pending', life_books a0 (served ++ life_requests evs) l' acts' recs' pending'.
Proof.
  revert served l acts recs pending out.
  induction evs as [|ev evs IH]; intros served l acts recs pending out Hl; cbn [run_life].
  { intros [= <- _]. rewrite app_nil_r. by eexists _, _, _. }
  destruct (life_step l ev) as [[l1 out1]|] eqn:E1; cbn [outcome_bind fst snd]; [|discriminate].
  destruct (run_life l1 evs) as [[l2 out2]|] eqn:E2; cbn [outcome_bind fst snd]; [|discriminate].
  intros [= <- _]. destruct (life_step_books _ _ _ _ _ _ _ _ _ Hl E1) as (acts1 & recs1 & pending1 & Hl1).
  destruct (IH _ _ _ _ _ _ Hl1 E2) as (acts2 & recs2 & pending2 & Hl2).
  exists acts2, recs2, pending2. rewrite <-app_assoc in Hl2. by destruct ev as [[[]| |]| | | | | |].
Qed.

(** C4: nobody is signalled in secret, and what the trail can miss is known.
    Take any run of the process from a state with no call in flight, shutdown
    and exit included, with the poll goroutine, the connections and the calls of
    any number of requests interleaved.  The cancel and terminate statements
    PostgreSQL has received are, one by one, those of a list of actions: each
    was asked for by a request of its own that passes the origin check (its Origin,
    if it has one, ends in the Host) and authenticates as a principal of at least
    the operator role, and went on with the answer PostgreSQL gave.  Each action
    has come to [Record] once, unless its call is still in flight and has not come
    to it.  The trail has got exactly the entries [Record] took, in that order,
    each naming the principal, the action, the process and that answer; for each
    entry it refused there is one line with the error in the log.  It refuses
    none when the trail is in memory; a table does when the database answers the
    insert with an error, or when the history file has been closed, which happens
    only once the server has stopped listening. *)
Theorem signals_are_accounted_for l (evs : list LifeEvent) l' out
    (Hquiet : b_flights (l_busy l) = ∅) (Hopen : ~ file_closed (a_sink (app_of (l_busy l))))
    (Hrun : run_life l evs = Ok (l', out)) :
  let a := app_of (l_busy l) in
  let a' := app_of (l_busy l') in
  exists acts (recs : list Tried) pending,
    sent_signals (a_client a') = sent_signals (a_client a) ++ (statement_of <$> acts) /\
    Forall (fun x => authorised (a_identity a) x /\ truthful x) acts /\
    act_request <$> acts ⊆+ life_requests evs /\
    acts ≡ₚ recs.*1.*1 ++ pending /\
    trail_gains (a_sink a) (a_sink a') (audited_as <$> noted recs) /\
    write_failures (a_slog a') = write_failures (a_slog a) ++ (write_failure <$> refused recs) /\
    Forall (fun x => forall err, x.2 = Some err -> refusal (a_sink a) (l_main l' <> Listening) x.1 err) recs /\
    (fun x => (act_request x, act_attempt x)) <$> pending ≡ₚ owed unrecorded_call (b_flights (l_busy l')) /\
    (b_flights (l_busy l') = ∅ -> pending = []).
Proof.
  assert (life_books (app_of (l_busy l)) [] l [] [] []) as Hl.
  { split; [|by left]. split; cbn; rewrite ?Hquiet, ?owed_empty, ?app_nil_r; try done.
    - apply trail_gains_nothing.
    - intros id. rewrite lookup_empty. by intros [? [=]]. }
  destruct (run_life_books _ _ _ _ _ _ _ _ _ Hl Hrun) as (acts & recs & pending & [[Hs Ht Hlg Hrf _ Ha Hsp Hp Hr _ _] _]).
  exists acts, recs, pending. split_and!; try done.
  - etrans; [|exact Hr]. apply submseteq_inserts_r, reflexivity.
  - eapply Forall_impl; [exact Hrf|]. intros x Hx err Herr. specialize (Hx err Herr). revert Hx. apply refusal_later.
    unfold closing. tauto.
  - intros Hnone. rewrite Hnone, owed_empty in Hp. symmetry in Hp. by apply Permutation_nil, fmap_nil_inv in Hp.
Qed.
End lifetimes.


(** ** Two actions at once, in the middle of a poll, and an interrupt *)
Import Demo.Instances.

#[export] Instance watched_ledger : PoolLedger unit Watched := {|
  ledger := received;
  ledger_sessions c t sql := eq_refl;
  ledger_labels c t sql := eq_refl;
  ledger_bool c t sql pid := eq_refl;
  ledger_Close c := eq_refl
|}.

(** The second poll has built its forest when the requests arrive; the second
    call is audited first; the first one comes to its entry when the process has
    been told to stop and has closed its history. *)
Definition interrupted_cancel : list LifeEvent :=
  (LeRun ∘ BeEvent <$> a_poll 10) ++
  [LeWake true true; LeRun (BeEvent (PeBegin (env_at 20))); LeRun (BeEvent (PeAdvance 20));
   LeRun (BeEvent (PeRequest (post_request "/api/sessions/7/cancel") 21));
   LeRun (BeEvent (PeRequest (post_request "/api/sessions/7/terminate") 21));
   LeRun (BeCall 0 21); LeRun (BeCall 1 21); LeRun (BeCall 1 22); LeRun (BeEvent (PeAdvance 22)); LeRun (BeCall 1 23);
   LeSignal; LeShutdown; LeServe ErrServerClosed; LeMain; LeRun (BeCall 0 24); LeRun (BeCall 0 25)].

Lemma signals_are_accounted_for_witness : exists l' out (acts : list Act) (recs : list Tried) (pending : list Act) au,
  run_life live interrupted_cancel = Ok (l', out) /\
  received (pool (a_client (app_of (l_busy l')))) =
    [("SELECT pg_cancel_backend($1)", 7, Val true); ("SELECT pg_terminate_backend($1)", 7, Val true)]%string /\
  received (pool (a_client (app_of (l_busy l')))) = statement_of <$> acts /\
  Forall (fun x => authorised (a_identity server_app) x /\ truthful x) acts /\
  acts ≡ₚ recs.*1.*1 ++ pending /\ (fun x => (act_request x, act_attempt x)) <$> pending ≡ₚ [] /\
  a_sink (app_of (l_busy l')) = SinkSQLite au /\ au_action <$> h_conn au = ["terminate"%string] /\
  h_conn au = audit_row_of ∘ audited_as <$> noted recs /\ refused recs = [errDBClosed] /\
  write_failures (a_slog (app_of (l_busy l'))) = [write_failure errDBClosed].
Proof.
  destruct (live_runs interrupted_cancel ltac:(vm_compute; reflexivity)) as (l' & out & E & Hl & _).
  assert (received (pool (a_client (app_of (l_busy (life_end (run_life live interrupted_cancel)))))) =
    [("SELECT pg_cancel_backend($1)", 7, Val true); ("SELECT pg_terminate_backend($1)", 7, Val true)]%string) as Hr
    by (vm_compute; reflexivity).
  assert (owed unrecorded_call (b_flights (l_busy (life_end (run_life live interrupted_cancel)))) = []) as Hf
    by (vm_compute; reflexivity).
  assert (exists au, a_sink (app_of (l_busy (life_end (run_life live interrupted_cancel)))) = SinkSQLite au /\
    au_action <$> h_conn au = ["terminate"%string]) as (au & Hau & Hact) by (eexists; split; vm_compute; reflexivity).
  assert (write_failures (a_slog (app_of (l_busy (life_end (run_life live interrupted_cancel))))) =
    [write_failure errDBClosed]) as Hw by (vm_compute; reflexivity).
  assert (write_failures (a_slog (app_of (l_busy live))) = []) as Hw0 by (vm_compute; reflexivity).
  assert (exists au0, a_sink (app_of (l_busy live)) = SinkSQLite au0 /\ h_conn au0 = [] /\ h_closed au0 = false)
    as (au0 & Hau0 & Hrows0 & Hopen) by (eexists; split; [|split]; vm_compute; reflexivity).
  rewrite Hl in Hr, Hf, Hau, Hw.
  destruct (signals_are_accounted_for live interrupted_cancel l' out eq_refl) as
    (acts & recs & pending & Hs & Ha & _ & Hsplit & Htrail & Hlog & _ & Hp & _).
  - rewrite Hau0. cbn. rewrite Hopen. discriminate.
  - exact E.
  - rewrite Hf in Hp. rewrite Hw, Hw0 in Hlog. rewrite Hau, Hau0 in Htrail. cbn in Htrail. rewrite Hrows0 in Htrail.
    exists l', out, acts, recs, pending, au. split; [exact E|]. split; [exact Hr|]. split; [exact Hs|].
    split; [exact Ha|]. split; [exact Hsplit|]. split; [exact Hp|]. split; [exact Hau|]. split; [exact Hact|].
    split; [rewrite Htrail, <-list_fmap_compose; reflexivity|]. split; [|exact Hw].
    destruct (refused recs) as [|err [|err' rest]]; [discriminate Hlog| |discriminate Hlog]. injection Hlog as <-. reflexivity.
Defined.
