(* ===== verification/EndToEnd.v ===== *)
(** * The running program: the properties of whole runs

    Startup succeeds when the outside does and the ring can be allocated.  From then
    on, to the exit, the goroutines interleave as in [Lifecycle.v]: only the send to
    a subscriber that has just left can panic, and the metrics if the cluster's
    name is no label for them; with redaction on, only masked texts are kept or
    sent; nothing the configuration bounds outgrows it.  While the process runs,
    as in [Overlap.v], health checks, snapshot requests and scrapes report the
    last poll. *)
From S2P Require Import Prelude GoRuntime Utf8 Graph Redact Auth Store StoreConc AuditTrail Signal Poller RedactSource Pg Metrics Persist SqlDB Config Main Preflight Stream GoTime Api Flow System CommandLine SystemProofs Process ProcessProofs Overlap OverlapProofs Lifecycle LifecycleProofs Naps Demo.
Local Open Scope Z_scope.
Local Open Scope pglockr_scope.

(** ** Masked texts *)
Definition masked_text (q : string) : Prop := exists raw, q = Mask raw.

Lemma masked_empty : masked_text "".
Proof. by exists ""%string. Qed.

(** What Go writes for a rune that is none. *)
Definition written_rune (r : Z) : Z := if valid_rune r then r else RuneError.

Lemma utf8_written rs : utf8 rs = utf8 (written_rune <$> rs).
Proof.
  unfold utf8. induction rs as [|r rs IH]; [done|]. rewrite fmap_cons. cbn [mbind list_bind]. rewrite IH.
  f_equal. unfold written_rune. destruct (valid_rune r) eqn:E; [done|].
  unfold encode_rune at 1. rewrite E.
  destruct ((0 <=? r) && (r <=? 127)) eqn:H; [|done]. unfold valid_rune in E. lia.
Qed.

(** A text made of runes is valid UTF-8. *)
Lemma ToValidUTF8_text rs : ToValidUTF8 (text rs) = text rs.
Proof.
  unfold ToValidUTF8, text. rewrite bytes_of_string_of_bytes by apply utf8_bytes.
  rewrite (utf8_written rs), runes_utf8; [done|]. apply Forall_fmap, Forall_true. intros r. unfold compose.
  unfold written_rune. by destruct (valid_rune r) eqn:E.
Qed.

#[export] Instance masked_utf8 : Utf8Closed masked_text.
Proof. intros q [raw ->]. exists raw. apply ToValidUTF8_text. Qed.

#[export] Instance any_utf8 : Utf8Closed (fun _ => True).
Proof. done. Qed.

(** ** Whole runs *)

Section whole_runs.
Context `{Go : GoRuntime} {Cfg C B D Raw Blob A V H : Type}.
Context `{!Pool C} `{!Driver Cfg C} `{!SnapshotTable D Blob} `{!Codec Raw Blob} `{!AuditTable A}.
Context `{!Prometheus V H} `{!Router} `{!UI} `{!SnapshotTableLaws D Blob} `{!CodecLaws Raw Blob}
  `{!AuditTableLaws A} `{!JsonLaws Raw Blob} `{!Database B D A} `{!Outside}.
Notation App := (@App C D A V H).
Notation Started := (@Started C D A V H).
Notation Busy := (@Busy C D A V H).
Implicit Types (a : App) (b : Busy) (started : Started).

(** With no property asked of the texts, every start is a good one. *)
Lemma started_any cfg started : run_start cfg = Ok (Val started) -> app_texts (fun _ => True) (st_app started).
Proof.
  intros Hs. apply (run_start_texts (fun _ => True) cfg started Hs); [|by right].
  intros _ d au _. split; apply Forall_forall; done.
Qed.

Lemma busy_any cfg started :
  run_start cfg = Ok (Val started) ->
  busy_inv (fun _ => True) (RingSize (Config.Poll cfg)) (busy_of started).
Proof. intros Hs. apply busy_of_inv; [done|]. by eapply started_any. Qed.

(** What startup needs from outside: the database accepts the connection, a slice
    can be as long as the ring, the history file opens if it is used, the UI is
    embedded. *)
Definition available (cfg : Config.Config) : Prop :=
  (exists client, (Connect (DSN (Config.Cluster cfg)) (StatementTimeout (Config.Poll cfg))).2 = Val client) /\
  Z.max 1 (RingSize (Config.Poll cfg)) <= make_limit /\
  (PersistEnabled (Config.Persist cfg) = true ->
     exists file : SQLite D * A,
       Open (PersistPath (Config.Persist cfg)) (Retention (Config.Persist cfg)) (Some []) = Val file) /\
  DistFS = Val tt.

Lemma run_start_available cfg id :
  buildIdentity (Config.Auth cfg) = Val id ->
  (exists started, run_start cfg = Ok (Val started)) <-> available cfg.
Proof.
  intros Hid. unfold run_start, available, open_history. rewrite Hid.
  destruct (Connect _ _) as [c [client|err]]; cbn [snd]; [|naive_solver].
  destruct (preflight client) as [[c' l] t]. rewrite New_fresh.
  destruct (Z.leb_spec (Z.max 1 (RingSize (Config.Poll cfg))) make_limit); cbn [outcome_bind];
    [|by split; [intros [? [=]]|lia]].
  destruct (PersistEnabled _); cbn [negb];
    [destruct (Open _ _ _) as [[d au]|]; [|naive_solver]|];
    (destruct (RedactionEnabled _); destruct DistFS as [[]|]; naive_solver).
Qed.

(** The only panic of startup. *)
Lemma run_start_panics cfg why :
  run_start cfg = Panic why ->
  why = "makeslice: len out of range"%string /\ make_limit < Z.max 1 (RingSize (Config.Poll cfg)).
Proof.
  unfold run_start. destruct (Connect _ _) as [c [client|err]]; [|discriminate].
  destruct (preflight client) as [[c' l] t]. rewrite New_fresh.
  destruct (Z.leb_spec (Z.max 1 (RingSize (Config.Poll cfg))) make_limit); cbn [outcome_bind]; [|by intros [= <-]].
  destruct (open_history _) as [hist|]; [|discriminate].
  destruct (match hist with Some (h, a) => _ | None => _ end) as [[st sink] lines].
  destruct (if RedactionEnabled _ then _ else _) as [source line].
  destruct DistFS; [|discriminate]. by destruct (buildIdentity _).
Qed.

Lemma run_start_settings cfg started :
  run_start cfg = Ok (Val started) ->
  (a_running (st_app started) = true /\ named (ClusterName (Config.Cluster cfg)) (st_app started)) /\
  a_interval (st_app started) = Interval (Config.Poll cfg) /\
  a_backoff (st_app started) = Interval (Config.Poll cfg) /\
  forall m, a_sink (st_app started) = SinkMemory m -> m = NewMemory 1000.
Proof.
  unfold run_start. destruct (Connect _ _) as [c [client|]]; [|discriminate].
  destruct (preflight client) as [[c' l] t]. destruct (Store.New _) as [st|]; cbn [outcome_bind]; [|discriminate].
  destruct (open_history _) as [hist|]; [|discriminate].
  destruct hist as [[h au]|]; destruct (RedactionEnabled _); cbn;
    (destruct DistFS; [|discriminate]); (destruct (buildIdentity _); [|discriminate]);
    intros [= <-]; cbn; split_and!; try done; by intros m [= <-].
Qed.

(** The server of a state. *)
Definition serve a (r : Request) (now : Time) :=
  ServeHTTP (a_identity a) no_route (Some metrics_page) now r (world_of a).

(** The poll the loop would make next. *)
Definition next_poll a (now : Time) := (SourceSnapshot (src (poller_of a now))).2.

Lemma healthz_served a r now ps :
  dispatch root_patterns r = Some (0%nat, ps) ->
  exists resp, serve a r now = Ok (world_of a, resp) /\
    resp_Status resp = if Connected (a_status a) then StatusOK else StatusServiceUnavailable.
Proof.
  intros Hd. unfold serve, ServeHTTP, serve_routes.
  change ((root_routes _ _ _ _).*1) with root_patterns. rewrite Hd. cbn [snd Get root_routes app lookup list_lookup].
  unfold handleHealthz. eexists. split; [done|]. cbn [w_status world_of]. by destruct (Connected (a_status a)).
Qed.

Lemma latest_served a r now p ps0 ps s :
  ring_wf (a_store a) -> last (contents (a_store a)) = Some s ->
  Authenticate (a_identity a) r = (p, true) -> query_Get (Auth.Query r) "at" = "" ->
  dispatch root_patterns r = Some (2%nat, ps0) ->
  dispatch api_patterns (with_principal (with_params r ps0) p) = Some (2%nat, ps) ->
  serve a r now = Ok (world_of a, writeJSON StatusOK (PSnapshot s)).
Proof.
  intros Hwf Hl Hid Hat Hroot Hapi. unfold serve.
  rewrite (ServeHTTP_api (a_identity a) no_route (Some metrics_page) now r (world_of a) p 2 2 ps0 ps
    (Get "/snapshot" handleSnapshot) Hid Hroot eq_refl Hapi eq_refl).
  cbn [snd Get]. unfold handleSnapshot.
  change (Auth.Query (with_params _ ps)) with (Auth.Query r). rewrite Hat. rewrite bool_decide_eq_true_2 by done.
  cbn [negb w_store world_of]. rewrite Latest_contents, Hl by done. done.
Qed.

Lemma scrape_latest a :
  ring_wf (a_store a) ->
  scrape a = Collect (status_Cluster (a_status a), Connected (a_status a))
    (match last (contents (a_store a)) with Some s => (s, true) | None => (emptySnapshot, false) end).
Proof. intros Hwf. unfold scrape. by rewrite Latest_contents. Qed.

(** *** The last poll *)
Lemma failed_poll a e s err p :
  ctx_done e = false -> SourceSnapshot (src (poller_of a (now_build e))) = (s, Err err) -> poll_begin a e = Ok p ->
  exists a1, p = mkProcess a1 Waiting /\ a_identity a1 = a_identity a /\
    a_running a1 = negb (sleep_cancelled e) /\ contents (a_store a1) = contents (a_store a) /\
    a_status a1 = mkStatus (status_Cluster (a_status a)) false (LastPoll (a_status a)) err.
Proof.
  intros Hctx E Ep. pose proof (poll_begin_cases a e) as Hb. rewrite E, Ep in Hb. destruct Hb as [m ->].
  eexists. split; [reflexivity|].
  destruct (finished_result a (SetMetrics (set_src (poller_of a (now_build e)) s) m) (Some err) e) as (Hs & Hr & Hi); [done|].
  rewrite finished_store. split_and!; [done|done| |done]. apply at_time_contents.
Qed.

(** What the last poll left, until the next one begins. *)
Definition last_poll a0 e (p : Process) : Prop :=
  match next_poll a0 (now_build e) with
  | Val (ss, ls) => poll_progress a0 e (Build (a_cluster a0) (now_build e) ss ls) p
  | Err err =>
      p_pc p = Waiting /\ a_identity (p_app p) = a_identity a0 /\
      a_running (p_app p) = negb (sleep_cancelled e) /\
      contents (a_store (p_app p)) = contents (a_store a0) /\
      a_status (p_app p) = mkStatus (status_Cluster (a_status a0)) false (LastPoll (a_status a0)) err
  end.

Lemma last_poll_begin a e p : ctx_done e = false -> poll_begin a e = Ok p -> last_poll a e p.
Proof.
  intros Hctx Ep. unfold last_poll, next_poll. pose proof (poll_begin_cases a e) as Hb.
  destruct (SourceSnapshot (src (poller_of a (now_build e)))) as [s [[ss ls]|err]] eqn:E; cbn [snd].
  - rewrite Ep in Hb. injection Hb as ->. split; [done|]. cbn [p_pc p_app]. by split_and!.
  - destruct (failed_poll a e s err p Hctx E Ep) as (a1 & -> & ? & ? & ? & ?). by split_and!.
Qed.

(** No poll begins. *)
Definition no_begin (ev : ProcessEvent) : Prop := is_begin ev = false.

Lemma last_poll_kept a e n : kept (fun _ => True) no_begin (last_poll a e) n.
Proof.
  unfold last_poll. destruct (next_poll a (now_build e)) as [[ss ls]|err]; split; try done.
  - intros q now q' Hq. by apply (progress_advance (fun _ => True) _ _ _ n).
  - intros b b' pc. apply progress_unmoved.
  - intros [b pc] now q' _ (Hpc & Hrest). cbn [p_pc p_app] in *. subst pc. by intros [= <-].
  - intros b b' pc (Hr & _ & Hs) (Hpc & Hid & Hrun & Hc & Hst). destruct (readers_contents _ _ Hr) as [Hc' _].
    injection Hs as _ _ _ Hst' _ _ Hrun' Hid'. cbn [p_pc p_app] in *. by rewrite Hid', Hrun', Hst', Hc'.
Qed.


End whole_runs.

(** ** From startup to the exit *)
Section lifetimes.
Context `{Go : GoRuntime} {Cfg C B D Raw Blob A V H : Type}.
Context `{!Pool C} `{!Driver Cfg C} `{!SnapshotTable D Blob} `{!Codec Raw Blob} `{!AuditTable A}.
Context `{!Prometheus V H} `{!Router} `{!UI} `{!SnapshotTableLaws D Blob} `{!CodecLaws Raw Blob}
  `{!AuditTableLaws A} `{!JsonLaws Raw Blob} `{!Database B D A} `{!Outside}.
Notation App := (@App C (DB D) (DB A) V H).
Notation Process := (@Process C (DB D) (DB A) V H).
Notation Started := (@Started C (DB D) (DB A) V H).
Notation Life := (@Life C D A V H).
Implicit Types (a : App) (l : Life) (started : Started).

Lemma life_any cfg started :
  run_start cfg = Ok (Val started) ->
  busy_inv (fun _ => True) (RingSize (Config.Poll cfg)) (l_busy (life_of started)).
Proof. apply busy_any. Qed.

(** The file opens behind a handle as it opens without one. *)
Lemma Open_handle path retention log :
  Open (D := DB D) (A := DB A) path retention log =
  match Open (D := D) (A := A) path retention log with
  | Err err => Err err
  | Val (s, au) => Val (newSQLite (mkDB (db s) false) retention log, mkDB au false)
  end.
Proof.
  unfold Open. cbn. destruct (sql_Open _) as [b|]; [|done].
  destruct (sql_Exec b schema) as [b1 [err|]]; [done|]. unfold initAudit. cbn.
  by destruct (sql_Exec b1 auditSchema) as [b2 [err|]].
Qed.

Lemma available_handle cfg : available (D := DB D) (A := DB A) cfg <-> available (D := D) (A := A) cfg.
Proof.
  unfold available.
  assert ((exists file, Open (D := DB D) (A := DB A) (PersistPath (Config.Persist cfg)) (Retention (Config.Persist cfg)) (Some []) = Val file) <->
    exists file, Open (D := D) (A := A) (PersistPath (Config.Persist cfg)) (Retention (Config.Persist cfg)) (Some []) = Val file) as ->; [|done].
  rewrite Open_handle. destruct (Open (D := D) _ _ _) as [[s au]|]; [by split; eexists|]. by split; intros [? ?].
Qed.

Lemma history_texts_handle Q cfg :
  history_texts (D := D) (A := A) Q cfg -> history_texts (D := DB D) (A := DB A) Q cfg.
Proof.
  intros Hdisk He s au. rewrite Open_handle. destruct (Open (D := D) _ _ _) as [[s0 au0]|] eqn:E; [|discriminate].
  intros [= <- <-]. exact (Hdisk He s0 au0 E).
Qed.

Lemma close_history_paced iv a : paced iv a -> paced iv (close_history a).
Proof. unfold close_history. destruct (st_persist (a_store a)), (a_sink a); done. Qed.

Lemma paced_outlives iv : outlives (fun p : Process => paced iv (p_app p)).
Proof. split; try done. intros a pc. apply close_history_paced. Qed.

Lemma within_outlives k : outlives (fun p : Process => trail_within k (a_sink (p_app p))).
Proof.
  split; try done. intros a pc Ha m Hm. apply Ha. cbn [p_app] in *. pose proof (close_history_trail a) as Ht.
  rewrite Hm in Ht. by destruct (a_sink a); [rewrite Ht|].
Qed.

Lemma named_outlives c : outlives (fun p : Process => named c (p_app p)).
Proof.
  split; try done. intros a pc [Hc Hs]. unfold close_history. by destruct (st_persist (a_store a)), (a_sink a).
Qed.

Lemma life_named cfg started evs l out :
  run_start cfg = Ok (Val started) -> run_life (life_of started) evs = Ok (l, out) ->
  named (ClusterName (Config.Cluster cfg)) (app_of (l_busy l)).
Proof.
  intros Hs E. apply (run_life_kept (fun _ => True) Logic.I (fun p : Process => named _ (p_app p)) _ _ evs l out
    (named_kept _ _ _) (named_outlives _) (life_any cfg started Hs)); [|done].
  apply (run_start_settings cfg started Hs).
Qed.

(** A scrape panics at most for the cluster's name. *)
Lemma scrape_runs a c :
  ring_wf (a_store a) -> named c a -> accepts_values [c] = true -> exists gs, scrape a = Ok gs.
Proof.
  intros Hwf [_ Hc] Hacc. rewrite scrape_latest by done. unfold Collect, MustNewConstMetric, with_values.
  rewrite Hc, Hacc. cbn [outcome_bind]. destruct (snd _); by eexists.
Qed.


(** C3: redaction holds end to end: when it is configured and the history
    file, if there is one, holds masked texts only, then in every state the
    process can reach from startup to its exit, at every point of a poll, of the
    calls of its requests and of the shutdown and however they interleave with
    WebSocket events, every query
    text in what it has sent out, in its ring, its subscribers' channels, its
    history and its audit trail, in the forest a poll is about to store and in
    the entries calls are about to record, is a masked one. *)
Theorem redaction_end_to_end cfg started (evs : list LifeEvent) l' out
    (Hrun : run_start cfg = Ok (Val started)) (Hred : RedactionEnabled (Config.Redaction cfg) = true)
    (Hdisk : history_texts masked_text cfg)
    (Hevs : run_life (life_of started) evs = Ok (l', out)) :
  let b' := l_busy l' in
  let a := p_app (b_process b') in
  Forall (payload_texts masked_text) out /\ store_texts masked_text (a_store a) /\
  any_sink_texts masked_text (a_sink a) /\
  (forall snap, carried (p_pc (b_process b')) = Some snap -> snapshot_texts masked_text snap) /\
  forall id r f, b_flights b' !! id = Some (r, f) -> flight_texts masked_text f.
Proof.
  assert (app_texts masked_text (st_app started)) as Ha.
  { apply (run_start_texts masked_text cfg started Hrun (history_texts_handle _ _ Hdisk)). left. split; [done|]. by eexists. }
  pose proof (run_life_inv masked_text masked_empty _ _ evs (life_of_inv _ cfg started Hrun Ha)) as Hinv.
  rewrite Hevs in Hinv. destruct Hinv as [[[[[Hst (s & [= <-] & Hs)] _] _ Hc] Hf] Ho]. by split_and!.
Qed.

(** C7: nothing the process keeps in memory outgrows its configuration: with a
    configuration that loads, in every state it can reach, the ring has the
    configured capacity and holds at most that many snapshots, every
    subscriber's channel holds at most one, an in-memory audit trail at most
    1000 entries.  Nor does the poll goroutine sleep too long or too little: the
    duration it is asleep for, if it is, lies between the configured interval and
    thirty seconds, or the interval where that is longer, when its poll has failed
    (as the status says), and between nothing and the interval when it has
    succeeded, the clock of the polls not running backwards; and so does the
    backoff of the next failure, without an overflow. *)
Theorem process_bounded (Getenv : string -> string) (ReadFile : string -> Prelude.Result string)
    (Unmarshal : string -> Config.Config -> Prelude.Result Config.Config) (path : string) (cfg : Config.Config)
    started (evs : list LifeEvent) l' out
    (Hload : Load Getenv ReadFile Unmarshal path = Val cfg)
    (Hrun : run Getenv ReadFile Unmarshal path = Ok (Val started))
    (Hevs : run_life (life_of started) evs = Ok (l', out)) :
  let a := app_of (l_busy l') in
  Z.of_nat (length (contents (a_store a))) <= RingSize (Config.Poll cfg) /\
  Z.of_nat (length (st_buf (a_store a))) = RingSize (Config.Poll cfg) /\
  (forall ch x, st_chans (a_store a) !! ch = Some x -> (length (ch_buf x) <= 1)%nat) /\
  (forall m, a_sink a = SinkMemory m -> (length (AuditTrail.entries m) <= 1000)%nat) /\
  Interval (Config.Poll cfg) <= a_backoff a <= Z.max (Interval (Config.Poll cfg)) maxBackoff /\
  forall d, l_sleep l' = Some d ->
    if Connected (a_status a) then 0 <= d /\ (Forall forward evs -> d <= Interval (Config.Poll cfg))
    else Interval (Config.Poll cfg) <= d <= Z.max (Interval (Config.Poll cfg)) maxBackoff.
Proof.
  destruct (Load_validated _ _ _ _ _ Hload) as (c & Hc & _).
  destruct (defaults_positive c) as (Hiv & Hn & _). rewrite <-Hc in Hiv, Hn. clear c Hc.
  unfold run in Hrun. rewrite Hload in Hrun. pose proof (life_any cfg started Hrun) as Hp.
  pose proof (run_life_inv (fun _ => True) Logic.I _ _ evs Hp) as Hinv. rewrite Hevs in Hinv.
  destruct Hinv as [[[_ [put [[Hring Hchans] Hcap Hcont _ _ _]] _] _] _]. cbn [cf_store cf_put] in *.
  destruct (run_start_settings cfg started Hrun) as (_ & Hi & Hb & Hsink).
  assert (paced (Interval (Config.Poll cfg)) (st_app started)) as Hpaced by (unfold paced; lia).
  destruct (run_life_kept (fun _ => True) Logic.I _ _ _ evs _ _
    (paced_kept (fun _ => True) (Interval (Config.Poll cfg)) _ Hiv) (paced_outlives _) Hp Hpaced Hevs) as [_ Hpace].
  assert (asleep (Forall forward evs) (Interval (Config.Poll cfg)) (l_sleep (life_of started)) (l_busy (life_of started)))
    as Hawake by (split; [done|discriminate]).
  destruct (run_life_asleep _ _ _ _ evs _ _ Hiv Hp Hpaced (paced_outlives _) Hawake (fun x => x) Hevs) as [_ Hnap].
  assert (trail_within 1000 (a_sink (st_app started))) as Hempty
    by (intros m ->%Hsink; split; [done|]; by exists []).
  pose proof (run_life_kept (fun _ => True) Logic.I _ _ _ evs _ _
    (within_kept (fun _ => True) 1000 _) (within_outlives _) Hp Hempty Hevs) as Hwithin.
  assert (st_cap (a_store (app_of (l_busy l'))) = RingSize (Config.Poll cfg)) as Hsize by (unfold app_of; lia).
  cbv zeta. split_and!; try (unfold app_of in *; lia || apply Hpace); [..|intros d Hd; apply (Hnap d Hd)].
  - unfold app_of. rewrite Hcont, length_lastn. lia.
  - unfold app_of. by rewrite (wf_len _ Hring).
  - intros ch x. apply (cw_cap _ Hchans).
  - intros m Hm. destruct (Hwithin m Hm) as [Hk [trail [_ Ht]]]. cbn in Hk.
    rewrite Ht, length_lastn. lia.
Qed.
End lifetimes.

(** ** Concrete runs *)
Import Demo.Instances.

(** A poll, a request, a poll that has its forest, and an interrupt that finds
    it there; the history is closed. *)
Definition poll_and_read : list LifeEvent :=
  (LeRun ∘ BeEvent <$> (a_poll 10 ++ [PeRequest (api_request "/api/snapshot") 20])) ++
  [LeWake true true; LeRun (BeEvent (PeBegin (env_at 30))); LeSignal; LeShutdown; LeServe ErrServerClosed; LeMain].

(** The poll's snapshot is sent with its literal masked. *)
Lemma redaction_end_to_end_witness : exists l' s sess,
  run_life live poll_and_read = Ok (l', [PSnapshot s]) /\
  Sessions s !! 7 = Some sess /\ Graph.Query sess = "SELECT ?"%string /\
  snapshot_texts masked_text s /\ store_texts masked_text (a_store (app_of (l_busy l'))) /\
  forall snap, carried (p_pc (b_process (l_busy l'))) = Some snap -> snapshot_texts masked_text snap.
Proof.
  destruct live_started as (started & Hs & _ & Hlive).
  destruct (live_runs poll_and_read ltac:(vm_compute; reflexivity)) as (l' & out & E & _ & Ho).
  assert (exists s sess, life_sent (run_life live poll_and_read) = [PSnapshot s] /\
    Sessions s !! 7 = Some sess /\ Graph.Query sess = "SELECT ?"%string) as (s & sess & Hout & Hl & Hq)
    by (eexists _, _; split; [|split]; vm_compute; reflexivity).
  rewrite Ho in Hout. clear Ho. subst out. exists l', s, sess. split; [exact E|]. rewrite <-Hlive in E.
  destruct (redaction_end_to_end (Cfg := unit) (B := two_tables) server_cfg started poll_and_read l'
    [PSnapshot s] Hs eq_refl) as (Ho & Hst & _ & Hc & _); [|exact E|].
  - intros _ d au [= <- <-]. split; constructor.
  - split; [exact Hl|]. split; [exact Hq|]. split; [by apply Forall_inv in Ho|by split].
Defined.

(** A subscriber that leaves between the two halves of a put: the panic the
    theorem allows. *)
Definition leaving_subscriber : list LifeEvent :=
  [LeRun (BeEvent (PeRequest (api_request "/api/stream") 5)); LeRun (BeGreet 0)] ++
  (LeRun ∘ BeEvent <$> [PeBegin (env_at 10); PeAdvance 10; PeSocket 0 SockDone; PeAdvance 11; PeAdvance 12]).


(** What goes on while a poll is under way, and after it. *)
Definition poll_with_company : list BusyEvent :=
  [BeEvent (PeRequest (api_request "/api/stream") 9); BeEvent (PeAdvance 10);
   BeEvent (PeRequest (post_request "/api/sessions/7/cancel") 10); BeCall 0 10; BeEvent (PeAdvance 11);
   BeGreet 0; BeEvent (PeSocket 0 (SockPing true)); BeCall 0 11; BeEvent (PeAdvance 12); BeEvent (PeAdvance 13);
   BeEvent (PeSocket 0 (SockFrame true))].


(** The bounds of the demonstration. *)
Definition busy_and_interrupted : list LifeEvent :=
  (LeRun <$> (BeEvent (PeBegin (env_at 10)) :: poll_with_company)) ++ [LeSignal].

Lemma process_bounded_witness : exists l' out,
  run_life live busy_and_interrupted = Ok (l', out) /\
  Z.of_nat (length (contents (a_store (app_of (l_busy l'))))) <= 300 /\
  (forall ch x, st_chans (a_store (app_of (l_busy l'))) !! ch = Some x -> (length (ch_buf x) <= 1)%nat) /\
  Second <= a_backoff (app_of (l_busy l')) <= 30 * Second /\
  exists d, l_sleep l' = Some d /\ 0 <= d <= Second.
Proof.
  destruct live_started as (started & Hs & _ & Hlive).
  destruct (live_runs busy_and_interrupted ltac:(vm_compute; reflexivity)) as (l' & out & E & Hl & _).
  assert (exists d, l_sleep (life_end (run_life live busy_and_interrupted)) = Some d) as [d Hd]
    by (eexists; vm_compute; reflexivity).
  assert (Connected (a_status (app_of (l_busy (life_end (run_life live busy_and_interrupted))))) = true) as Hconn
    by (vm_compute; reflexivity).
  rewrite Hl in Hd, Hconn.
  assert (Load server_env no_file no_yaml "" = Val server_cfg) as Hload by (vm_compute; reflexivity).
  destruct (process_bounded (Cfg := unit) (B := two_tables) server_env no_file no_yaml "" server_cfg started
    busy_and_interrupted l' out Hload) as (Hc & _ & Hch & _ & Hb & Hnap).
  - unfold run. rewrite Hload. exact Hs.
  - rewrite Hlive. exact E.
  - exists l', out. split; [exact E|]. split; [exact Hc|]. split; [exact Hch|].
    split; [exact Hb|]. exists d. split; [exact Hd|].
    specialize (Hnap d Hd). rewrite Hconn in Hnap. destruct Hnap as [H0 H1]. split; [exact H0|].
    apply H1. unfold busy_and_interrupted, poll_with_company. repeat constructor; vm_compute; discriminate.
Defined.
