(* ===== verification/Shutdown.v ===== *)
(** * The end of the process

    Once its context is done the process exits by itself, and what is under way then
    is abandoned; until then it is that of [Overlap.v]. *)
From S2P Require Import Prelude GoRuntime Utf8 Graph Redact Auth Store AuditTrail Signal SignalConc Poller RedactSource Pg Metrics Persist SqlDB Config Main Preflight Stream GoTime Api Flow System CommandLine SystemProofs Process ProcessProofs Overlap OverlapProofs Lifecycle LifecycleProofs Demo.
Local Open Scope Z_scope.
Local Open Scope pglockr_scope.

Section shutdown.
Context `{Go : GoRuntime} {Cfg C B D Raw Blob A V H : Type}.
Context `{!Pool C} `{!Driver Cfg C} `{!SnapshotTable D Blob} `{!Codec Raw Blob} `{!AuditTable A}.
Context `{!Prometheus V H} `{!Router} `{!UI} `{!Database B D A} `{!Outside}.
Notation Started := (@Started C (DB D) (DB A) V H).
Notation Life := (@Life C D A V H).
Implicit Types (started : Started) (l : Life).

(** C6: the process stops when it is told to, whatever else happens, and
    without finishing what is under way.  From every state it can reach with its
    context done, six turns of the shutdown goroutine, the server and the main
    goroutine bring it to its exit, however polls, requests, calls and
    connections interleave with them; and those goroutines can get there on
    their own, at any moment: with status 0 if the server was still listening,
    with every call in flight and the poll as they are, no entry added to the
    audit trail and no snapshot to the history, after which nothing moves any
    more. *)
Theorem shutdown_exits started (evs0 : list LifeEvent) l out0
    (Hreach : run_life (life_of started) evs0 = Ok (l, out0)) (Hdone : l_done l = true) :
  (forall evs l' out, run_life l evs = Ok (l', out) -> rounds 6 `sublist_of` evs -> exited l' = true) /\
  exists evs l', evs ⊆ round /\ run_life l evs = Ok (l', []) /\
    l_main l' = Exited (own_result (l_main l)) /\ abandons l l' /\
    forall evs', run_life l' evs' = Ok (l', []).
Proof.
  split.
  - intros evs l' out Hrun Hsub. exact (rounds_exit 6 l evs l' out Hdone (left_of_reachable _ _ _ _ Hreach) Hsub Hrun).
  - destruct (own_exit l Hdone) as (evs & l' & Hown & Hrun & Hm & Ha). exists evs, l'. split_and!; try done.
    intros evs'. apply exited_run. unfold exited. by rewrite Hm.
Qed.

(** Until it is told to stop, the running process is the one of
    [Overlap.v] with its polls left undisturbed: a run that ends with the
    context not done and the server listening has taken the steps of such a run,
    to the same state and with the same documents sent out, and nothing of it is
    missing but polls that were to begin while the goroutine slept; each run of
    [Overlap.v] is obtained, with the sleeps between its polls running out; and
    so is each run of [System.v], in which a poll and a request are one step
    each: the same polls begin, the same requests and socket events arrive, in
    the same order, and the steps of the goroutines fill the gaps. *)
Lemma undisturbed_until_interrupted started :
  (forall evs l out, run_life (life_of started) evs = Ok (l, out) -> l_done l = false -> l_main l = Listening ->
     exists evs', evs' `sublist_of` (event_in_ctx false <$> omap own_step evs) /\
       run_busy (busy_of started) evs' = Ok (l_busy l, out)) /\
  (forall evs b out, run_busy (busy_of started) (event_in_ctx false <$> evs) = Ok (b, out) ->
     exists l, run_life (life_of started) (with_wakes evs) = Ok (l, out) /\ l_busy l = b /\
       l_done l = false /\ l_main l = Listening) /\
  (forall evs a out, Forall untroubled evs -> run_events (st_app started) evs = Ok (a, out) ->
     exists levs l, run_life (life_of started) levs = Ok (l, out) /\ app_of (l_busy l) = a /\
       b_flights (l_busy l) = ∅ /\ interleaves evs (omap own_event (omap own_step levs))).
Proof.
  assert (serving (life_of started)) as Hs by done. split; [|split].
  - intros evs l out Hrun Hd Hm. by apply (life_run_alone (life_of started)).
  - intros evs b out Hrun. destruct (busy_run_lives (life_of started) evs b out Hs Hrun) as [sl Hl].
    by eexists.
  - intros evs a out Hev Hrun. destruct (run_events_overlaps _ _ _ _ Hrun) as (bevs & k & Hi & Hb).
    rewrite <-(untroubled_events evs bevs Hev Hi) in Hb.
    destruct (busy_run_lives (life_of started) bevs _ out Hs Hb) as [sl Hl].
    eexists (with_wakes bevs), _. split; [exact Hl|]. split; [done|]. split; [done|]. by rewrite own_steps_with_wakes.
Qed.
End shutdown.

(** ** A signal without an entry *)
Import Demo.Instances.

(** A cancel has been sent and delivered when the process is told to stop. *)
Definition signalled_then_stopped : list LifeEvent :=
  [LeRun (BeEvent (PeRequest (post_request "/api/sessions/7/cancel") 21)); LeRun (BeCall 0 21); LeSignal].

Lemma shutdown_exits_witness : exists l l' out evs,
  run_life live signalled_then_stopped = Ok (l, out) /\
  received (pool (a_client (app_of (l_busy l)))) = [("SELECT pg_cancel_backend($1)", 7, Val true)]%string /\
  run_life l evs = Ok (l', []) /\ l_main l' = Exited 0 /\
  b_flights (l_busy l') =
    {[0 := (post_request "/api/sessions/7/cancel", Answered (mkAttempt "cancel" 7 "default" true None))]} /\
  (exists au, a_sink (app_of (l_busy l')) = SinkSQLite au /\ h_conn au = []) /\
  forall evs', run_life l' evs' = Ok (l', []).
Proof.
  destruct live_started as (started & _ & _ & Hlive).
  destruct (live_runs signalled_then_stopped ltac:(vm_compute; reflexivity)) as (l & out & E & Hl & _).
  assert (l_done (life_end (run_life live signalled_then_stopped)) = true) as Hd by (vm_compute; reflexivity).
  assert (l_main (life_end (run_life live signalled_then_stopped)) = Listening) as Hm by (vm_compute; reflexivity).
  assert (received (pool (a_client (app_of (l_busy (life_end (run_life live signalled_then_stopped)))))) =
    [("SELECT pg_cancel_backend($1)", 7, Val true)]%string) as Hr by (vm_compute; reflexivity).
  assert (b_flights (l_busy (life_end (run_life live signalled_then_stopped))) =
    {[0 := (post_request "/api/sessions/7/cancel", Answered (mkAttempt "cancel" 7 "default" true None))]}) as Hf
    by (vm_compute; reflexivity).
  assert (exists au, a_sink (app_of (l_busy (life_end (run_life live signalled_then_stopped)))) = SinkSQLite au /\
    h_conn au = []) as (au & Hau & Hrows) by (eexists; split; vm_compute; reflexivity).
  rewrite Hl in Hd, Hm, Hr, Hf, Hau.
  destruct (shutdown_exits (Cfg := unit) started signalled_then_stopped l out)
    as (_ & evs & l' & _ & Hrun & Hexit & (Hfl & _ & Htrail & _) & Hend); [by rewrite Hlive|exact Hd|].
  exists l, l', out, evs. rewrite Hm in Hexit. split; [exact E|]. split; [exact Hr|]. split; [exact Hrun|].
  split; [exact Hexit|]. split; [rewrite Hfl; exact Hf|]. split; [|exact Hend].
  rewrite Hau in Htrail. unfold same_trail in Htrail.
  destruct (a_sink (app_of (l_busy l'))) as [m|au']; [destruct Htrail|]. exists au'.
  split; [reflexivity|]. rewrite Htrail. exact Hrows.
Defined.
